(* ===== verification/_CoqProject ===== *)
-Q . S2P
Prelude.v
Bytes.v
Geometry.v
Format.v
DataRecord.v
Entries.v
MappingPage.v
Checkpoint.v
Index.v
Clock.v
Sizing.v
MappingCache.v
Config.v
Reservation.v
WriteBuffer.v
Accounting.v
Uring.v
Device.v
BackingIo.v
Tail.v
PageRead.v
CheckpointLoad.v
Publish.v
Snapshots.v
Recovery.v
Storage.v
Roots.v
CrashSafety.v
Log.v
MappingState.v
Volume.v
VolumeWrite.v
VolumeSpec.v
VolumeRefine.v
Replay.v
Windows.v
Reopen.v
Durability.v
Logging.v
Text.v
UblkConfig.v
UblkRequest.v
UblkServe.v
RequestCounts.v
Drain.v
UblkQueue.v
Payload.v
BlockTarget.v
Disk.v
Checker.v
CheckerSound.v
CheckerRun.v
CheckerSteps.v
CheckerVerdict.v
