(* ===== verification/Prelude.v ===== *)
(** * A verification development of the log-structured block device

    The program is a user-space block device: [src/rust/src/] holds an engine that keeps the
    blocks of a volume in an append-only log with checkpointed mapping pages, and a ublk
    daemon that serves it to the kernel; [src/tools/blockcheck/] holds a reference model that
    judges block devices.  This library translates the code of those parts into executable
    Rocq definitions and proves what they promise.

    ** How the code is modelled

    - Integers are [Z]; the checked, saturating and wrapping operations of the code are
      definitions of [Prelude], and a bound that the code relies on is a hypothesis or an
      invariant.  Bytes are [Z]s below 256 and a 4 KiB block is a list of 4096 of them.
    - [Result] is [result E A], with a third case [Panic] for failed assertions, slices out
      of range and [expect]; code that changes state is a function to a result and the next
      state ([ME E S A], or [M S A] for [std::io::Error]), so that what an operation did
      before it failed is kept.  [runs m s Q] says that [m], run from [s], ends in [Q].
    - Loops are structural where the code iterates, and take fuel where it does not; running
      out of fuel is [Panic] (or [None] in [Uring]), so a theorem that excludes [Panic]
      also shows that the fuel is enough.  The fuels are the blocks that are left of the
      device in [Recovery], the entries of a record in [Volume.map_record], and any bound on
      the completions of other requests in [Uring] ([submit_exact_returns]).

    ** Parameters

    [Xxh3] is the hash function; [Platform] the sizes that the compiler and the hash table
    decide; [IoUring] the ring and the kernel behind it; [Device] the file as the engine uses
    it, with [DeviceLaws] (writes change only their range, unsynchronised blocks may be kept,
    lost or torn by a crash, [fsync] makes durable, an operation reports the [fault]s of the
    device only); [UblkSys] the messages of the operating system and the constants of the
    ublk interface.  Each class has an instance, with which the witnesses are computed; no
    law is an axiom.

    ** The engine, bottom up

    - [Prelude], [Bytes]: results, state, machine integers, little-endian fields, blocks.
    - [Geometry] (geometry.rs), [Format] (format_v3.rs), [DataRecord] (data_record.rs),
      [Entries] and [MappingPage] (mapping_page.rs), [Checkpoint] (checkpoint.rs), [Index]
      (index.rs): the on-disk format.  Theorems: encoding and decoding are inverse, both
      ways, with all the validation of the decoders.
    - [Clock] (mapping_cache/clock.rs), [Sizing] (sizing.rs), [MappingCache]
      (mapping_cache.rs): the cache of mapping pages.  Theorems: the invariant of the cache,
      the effect of every operation, and the CLOCK hand against its reference.
    - [Config], [WriteBuffer], [Text] (lib.rs), [Reservation] (reservation.rs): options,
      write-back buffer, decimal text, admission of writes.
    - [Accounting] (io_accounting.rs): the shared ledger as the sequence of its atomic
      stores, with readers in other processes.  Theorems: a snapshot is coherent, and the
      writes never exceed the budget.
    - [Uring], [Device], [BackingIo] (lib.rs, accounted_io.rs, storage.rs, metrics.rs): from
      the ring to accounted I/O on blocks.  [Io.failure] is what an operation may report: a
      fault of the device or, where there is a ledger, a refusal of the ledger.
    - [Tail] (tail.rs), [PageRead] (page_read.rs), [CheckpointLoad] (checkpoint_load.rs),
      [Publish] (checkpoint_publish.rs), [Recovery] (recovery.rs), [MappingState]
      (mapping_state.rs), [Storage] (storage.rs), [Volume] (volume.rs, volume/write.rs): the
      engine.
    - [Roots], [CrashSafety]: which root a load finds, after a format and after a crash at
      any moment of a publication.  The root that a publication sets out to write
      ([Crash.next_root]) is computed from the state before it.
    - [Log]: the log as a chain of records in a file, what the scan of [Tail] reads of it,
      and what replaying it gives.  [MappingState] shows that the mapping of a volume is its
      root with its log replayed, and that every operation keeps it so.
    - [VolumeWrite], [VolumeSpec], [VolumeRefine]: the invariant of an open volume, and the
      refinement of a map from addresses to blocks by its operations, errors included.  A
      read is also described on a volume whose blocks may be damaged ([Refine.intact]).
    - [Replay], [Windows], [Reopen]: recovery of a chain of records, in one pass when the
      pages it touches fit the cache and otherwise window by window with a snapshot of each
      page ([Snapshots]) and a new root at the end, and what [open] makes of the file.
      Errors are exact: an operation failed, or the snapshots do not fit behind the log.
    - [Durability]: the whole cycle, and what a close leaves on the file.  What a volume acknowledged before a successful flush is
      what the next open finds on any file that a crash may leave.  It is about a crash after
      the flush and before the next write, and about payloads that do not imitate metadata of
      the volume.  When recovery has to publish windows, the [u64] counters of records and of
      generations must have room for the snapshots and for the new root.

    ** The daemon

    - [Logging] (logging.rs), [UblkConfig] (the command line and the configuration),
      [UblkRequest] and [UblkServe] (decoding and handling a request of the kernel),
      [RequestCounts] (request_counts.rs), [UblkQueue] (the queue thread): theorems on the
      requests that are accepted, on the completions and the data they get, on what follows a
      fatal request, and on the checkpoint that the end of the queue leaves on the file.
    - [Drain]: the queue thread and the stop thread as a step relation over their atomics,
      with an invariant (a stopped device has no request in flight) and a liveness theorem
      under fairness, for a signal and for a failed queue.  Memory order is taken as sequentially consistent.

    ** The block checker

    - [Payload] (rng.rs, payload.rs), [BlockTarget] (target.rs, memory.rs), [Checker]
      (checker.rs): payloads, the simulated disk with its planned faults, the model.
    - [Disk], [CheckerSound], [CheckerRun], [CheckerSteps], [CheckerVerdict]: the model
      never accuses a disk without faults.

    ** Not modelled

    Failing memory allocation; failpoints and code under [cfg(test)]; summaries for people,
    with their floating-point ratios; overflow of statistics counters, which are [u64]; the
    mapped memory and the file locks of the ledger, whose accesses are the steps of
    [Accounting]; scratch buffers.  Binary searches are modelled by what they decide on
    sorted input.  Of the daemon: the control device of libublk, signal installation, file
    locks, polling of sysfs and the readiness line, which are system calls with no state of
    their own here.  The laboratory and mount tools drive processes, containers and mounts;
    benchmarks and the workbench measure; the Zig code is an earlier prototype. *)

From Stdlib Require Export ZArith Lia Bool.
From stdpp Require Export base tactics list numbers gmap strings relations sorting.

#[global] Open Scope Z_scope.

(** ** Results

    [std::io::Error] keeps its kind and its message; an error built by
    [from_raw_os_error] keeps the errno.  [Panic] is a failed assertion, an
    out-of-range index or an [expect]. *)

Inductive io_error :=
  | InvalidInput (message : string)
  | InvalidData (message : string)
  | WouldBlock (message : string)
  | PermissionDenied (message : string)
  | OtherError (message : string)
  | RawOs (errno : Z).

#[global] Instance io_error_eq_dec : EqDecision io_error.
Proof. solve_decision. Defined.

Inductive result (E A : Type) :=
  | Ok (a : A)
  | Err (e : E)
  | Panic.
Arguments Ok {E A} a.
Arguments Err {E A} e.
Arguments Panic {E A}.

(** [io::Result]. *)
Abbreviation res := (result io_error).

Definition ENOSPC : Z := 28.
Definition EINTR : Z := 4.

(** [error.kind() == io::ErrorKind::InvalidData]; no errno has that kind. *)
Definition is_invalid_data (e : io_error) : bool :=
  match e with InvalidData _ => true | _ => false end.

(** [error.kind() == io::ErrorKind::Interrupted]. *)
Definition is_interrupted (e : io_error) : bool :=
  match e with RawOs n => n =? EINTR | _ => false end.

Definition is_ok {E A} (r : result E A) : bool :=
  match r with Ok _ => true | _ => false end.

Definition is_err {E A} (r : result E A) : bool :=
  match r with Err _ => true | _ => false end.

Definition rbind {E A B} (r : result E A) (f : A -> result E B) : result E B :=
  match r with Ok a => f a | Err e => Err e | Panic => Panic end.

Definition rmap {E A B} (f : A -> B) (r : result E A) : result E B :=
  rbind r (fun a => Ok (f a)).

(** [Result::map_err]. *)
Definition map_err {E F A} (f : E -> F) (r : result E A) : result F A :=
  match r with Ok a => Ok a | Err e => Err (f e) | Panic => Panic end.

(** [Option::ok_or_else]. *)
Definition ok_or {E A} (o : option A) (e : E) : result E A :=
  match o with Some a => Ok a | None => Err e end.

(** [assert!] and [expect]. *)
Definition assert_ {E} (b : bool) : result E unit := if b then Ok tt else Panic.
Definition expect {E A} (o : option A) : result E A :=
  match o with Some a => Ok a | None => Panic end.

(** An early [return Err(e)] guarded by a condition. *)
Definition fail_if {E} (b : bool) (e : E) : result E unit :=
  if b then Err e else Ok tt.

(** [for x in xs { .. f(x)? .. }] that collects the results. *)
Fixpoint rmapM {E A B} (f : A -> result E B) (l : list A) : result E (list B) :=
  match l with
  | [] => Ok []
  | a :: l => rbind (f a) (fun b => rbind (rmapM f l) (fun bs => Ok (b :: bs)))
  end.

(** ** State and errors

    A Rust function with [&mut] arguments of type [S] becomes [M S A]: the
    state is returned on every path, errors and panics included. *)

Definition ME (E S A : Type) : Type := S -> result E A * S.
Abbreviation M := (ME io_error).

Definition mret {E S A} (a : A) : ME E S A := fun s => (Ok a, s).
Definition mbind {E S A B} (m : ME E S A) (f : A -> ME E S B) : ME E S B :=
  fun s => match m s with
           | (Ok a, s') => f a s'
           | (Err e, s') => (Err e, s')
           | (Panic, s') => (Panic, s')
           end.
Definition mlift {E S A} (r : result E A) : ME E S A := fun s => (r, s).
Definition mget {E S} : ME E S S := fun s => (Ok s, s).
Definition mput {E S} (s : S) : ME E S unit := fun _ => (Ok tt, s).
Definition mmodify {E S} (f : S -> S) : ME E S unit := fun s => (Ok tt, f s).
(** Runs [m] and hands its result to the caller as a value ([match m { .. }]). *)
Definition mtry {E F S A} (m : ME E S A) : ME F S (result E A) :=
  fun s => match m s with
           | (Ok a, s') => (Ok (Ok a), s')
           | (Err e, s') => (Ok (Err e), s')
           | (Panic, s') => (Panic, s')
           end.
(** [m.map_err(f)]. *)
Definition mmap_err {E F S A} (f : E -> F) (m : ME E S A) : ME F S A :=
  fun s => match m s with (r, s') => (map_err f r, s') end.
(** A reborrow of a part of the state. *)
Definition zoom {E S T A} (get : S -> T) (set : T -> S -> S) (m : ME E T A) : ME E S A :=
  fun s => match m (get s) with (r, t) => (r, set t s) end.

(** [for x in xs { body }]: stops at the first error. *)
Fixpoint mfor {E S X} (xs : list X) (body : X -> ME E S unit) : ME E S unit :=
  match xs with
  | [] => mret tt
  | x :: xs => mbind (body x) (fun _ => mfor xs body)
  end.

Declare Scope rust_scope.
Delimit Scope rust_scope with rust.
Notation "x <- m ;; k" := (mbind m (fun x => k))
  (at level 100, m at next level, right associativity) : rust_scope.
Notation "m ;;; k" := (mbind m (fun _ => k))
  (at level 100, right associativity) : rust_scope.
Notation "x <-? r ;; k" := (rbind r (fun x => k))
  (at level 100, r at next level, right associativity) : rust_scope.
Notation "r ;;? k" := (rbind r (fun _ => k))
  (at level 100, right associativity) : rust_scope.
#[global] Open Scope rust_scope.

(** ** Machine integers

    Every Rust integer is a [Z]; a width appears where the code checks it or
    wraps it. *)

Definition u32_max : Z := 2 ^ 32 - 1.
Definition u64_max : Z := 2 ^ 64 - 1.
Definition is_u32 (z : Z) : Prop := 0 <= z < 2 ^ 32.
Definition is_u64 (z : Z) : Prop := 0 <= z < 2 ^ 64.

Definition checked_add (w a b : Z) : option Z :=
  if a + b <? 2 ^ w then Some (a + b) else None.
Definition checked_sub (a b : Z) : option Z :=
  if b <=? a then Some (a - b) else None.
Definition checked_mul (w a b : Z) : option Z :=
  if a * b <? 2 ^ w then Some (a * b) else None.
Definition saturating_sub (a b : Z) : Z := Z.max 0 (a - b).
Definition saturating_add (w a b : Z) : Z := Z.min (2 ^ w - 1) (a + b).
Definition wrapping_add (w a b : Z) : Z := (a + b) mod 2 ^ w.
Definition wrapping_mul (w a b : Z) : Z := (a * b) mod 2 ^ w.
Definition div_ceil (a b : Z) : Z := (a + b - 1) / b.
Definition is_multiple_of (a b : Z) : bool := a mod b =? 0.
(** [u64::from(b)]. *)
Definition of_bool (b : bool) : Z := if b then 1 else 0.

Abbreviation lenZ l := (Z.of_nat (length l)).

(** ** Equations and automation *)

Create HintDb rust.

Lemma rbind_Ok {E A B} (r : result E A) (f : A -> result E B) b :
  rbind r f = Ok b <-> exists a, r = Ok a /\ f a = Ok b.
Proof. destruct r; simpl; naive_solver. Qed.

Lemma rbind_Err {E A B} (r : result E A) (f : A -> result E B) e :
  rbind r f = Err e <-> r = Err e \/ exists a, r = Ok a /\ f a = Err e.
Proof. destruct r; simpl; naive_solver. Qed.

Lemma Ok_inj {E A} (a b : A) : @Ok E A a = Ok b -> a = b.
Proof. congruence. Qed.

Lemma mret_inv {E S A} (a b : A) (s s' : S) : @mret E S A a s = (Ok b, s') -> a = b /\ s = s'.
Proof. unfold mret. naive_solver. Qed.

(** A computation that succeeds on a concrete input, and its value. *)
Definition the_ok {E A} (d : A) (r : result E A) : A :=
  match r with Ok a => a | _ => d end.

Lemma is_ok_the {E A} (d : A) (r : result E A) : is_ok r = true -> r = Ok (the_ok d r).
Proof. by destruct r. Qed.

Lemma is_ok_exists {E A} (r : result E A) : is_ok r = true -> exists a, r = Ok a.
Proof. destruct r; simpl; eauto; discriminate. Qed.

Lemma rbind_not_Panic {E A B} (r : result E A) (f : A -> result E B) :
  r <> Panic -> (forall a, r = Ok a -> f a <> Panic) -> rbind r f <> Panic.
Proof. destruct r; simpl; naive_solver. Qed.

Lemma fail_if_not_Panic {E} b (e : E) : fail_if b e <> Panic.
Proof. by destruct b. Qed.

Lemma ok_or_not_Panic {E A} (o : option A) (e : E) : ok_or o e <> Panic.
Proof. by destruct o. Qed.

#[export] Hint Resolve fail_if_not_Panic ok_or_not_Panic : rust.

Lemma mbind_Ok {E S A B} (m : ME E S A) (f : A -> ME E S B) s b s' :
  mbind m f s = (Ok b, s') <->
  exists a s1, m s = (Ok a, s1) /\ f a s1 = (Ok b, s').
Proof. unfold mbind. destruct (m s) as [[]]; naive_solver. Qed.

(** One step of a computation that is known to succeed. *)
Lemma mbind_run {E S A B} (m : ME E S A) (f : A -> ME E S B) s a s1 :
  m s = (Ok a, s1) -> mbind m f s = f a s1.
Proof. unfold mbind. by intros ->. Qed.

Lemma mbind_err {E S A B} (m : ME E S A) (f : A -> ME E S B) s e s1 :
  m s = (Err e, s1) -> mbind m f s = (Err e, s1).
Proof. unfold mbind. by intros ->. Qed.

Lemma mbind_assoc {E S A B C} (m : ME E S A) (f : A -> ME E S B) (g : B -> ME E S C) s :
  mbind (mbind m f) g s = mbind m (fun a => mbind (f a) g) s.
Proof. unfold mbind. by destruct (m s) as [[]]. Qed.

(** Runs the first two statements of a block as one. *)
Lemma mbind_group {E S A B C} (a : ME E S A) (b : ME E S B) (k : A -> ME E S C) s :
  mbind a (fun x => mbind b (fun _ => k x)) s = mbind (mbind a (fun x => mbind b (fun _ => mret x))) k s.
Proof. unfold mbind, mret. destruct (a s) as [[x| |] s1]; try done. by destruct (b s1) as [[]]. Qed.

Lemma fail_if_Ok {E} b (e : E) : fail_if b e = Ok tt <-> b = false.
Proof. destruct b; simpl; naive_solver. Qed.

Lemma assert_Ok {E} b : @assert_ E b = Ok tt <-> b = true.
Proof. destruct b; simpl; naive_solver. Qed.

Lemma expect_Ok {E A} (o : option A) a : @expect E A o = Ok a <-> o = Some a.
Proof. destruct o; simpl; naive_solver. Qed.

Lemma checked_add_Some w a b c :
  checked_add w a b = Some c <-> c = a + b /\ a + b < 2 ^ w.
Proof. unfold checked_add. destruct (Z.ltb_spec (a + b) (2 ^ w)); naive_solver lia. Qed.

Lemma checked_sub_Some a b c : checked_sub a b = Some c <-> c = a - b /\ b <= a.
Proof. unfold checked_sub. destruct (Z.leb_spec b a); naive_solver lia. Qed.

Lemma checked_mul_Some w a b c :
  checked_mul w a b = Some c <-> c = a * b /\ a * b < 2 ^ w.
Proof. unfold checked_mul. destruct (Z.ltb_spec (a * b) (2 ^ w)); naive_solver lia. Qed.

Lemma ok_or_Ok {E A} (o : option A) (e : E) a : ok_or o e = Ok a <-> o = Some a.
Proof. destruct o; simpl; naive_solver. Qed.

Lemma div_ceil_spec a b : 0 < b -> b * (div_ceil a b - 1) < a <= b * div_ceil a b.
Proof.
  intros Hb. unfold div_ceil.
  pose proof (Z.div_mod (a + b - 1) b ltac:(lia)).
  pose proof (Z.mod_pos_bound (a + b - 1) b Hb). nia.
Qed.

Lemma div_ceil_le a b c : 0 < b -> a <= b * c -> div_ceil a b <= c.
Proof. intros Hb Hac. pose proof (div_ceil_spec a b Hb). nia. Qed.

Lemma div_ceil_nonneg a b : 0 < b -> 0 <= a -> 0 <= div_ceil a b.
Proof. intros. unfold div_ceil. apply Z.div_pos; lia. Qed.

Lemma is_multiple_of_spec a b : b <> 0 -> is_multiple_of a b = true <-> exists k, a = k * b.
Proof.
  intros Hb. unfold is_multiple_of. rewrite Z.eqb_eq.
  rewrite Z.mod_divide by done. reflexivity.
Qed.


(** Turns boolean guards into propositions that [lia] reads. *)
Ltac bool_prop :=
  repeat match goal with
  | H : _ && _ = true |- _ => apply andb_true_iff in H as [? ?]
  | H : _ || _ = false |- _ => apply orb_false_iff in H as [? ?]
  | H : negb _ = true |- _ => apply negb_true_iff in H
  | H : negb _ = false |- _ => apply negb_false_iff in H
  | H : (_ =? _) = true |- _ => apply Z.eqb_eq in H
  | H : (_ =? _) = false |- _ => apply Z.eqb_neq in H
  | H : (_ <? _) = true |- _ => apply Z.ltb_lt in H
  | H : (_ <? _) = false |- _ => apply Z.ltb_ge in H
  | H : (_ <=? _) = true |- _ => apply Z.leb_le in H
  | H : (_ <=? _) = false |- _ => apply Z.leb_gt in H
  | H : bool_decide _ = true |- _ => apply bool_decide_eq_true in H
  | H : bool_decide _ = false |- _ => apply bool_decide_eq_false in H
  end.

(** Case analysis on the first guard of the goal or of a hypothesis. *)
Tactic Notation "guard" ident(H) :=
  match goal with |- context [if ?c then _ else _] => destruct c eqn:H end.
Tactic Notation "guard" ident(H) "in" hyp(G) :=
  match type of G with context [if ?c then _ else _] => destruct c eqn:H end.

(** Runs the next step of the goal's computation, which is known to succeed. *)
Ltac step := erewrite mbind_run; [|reflexivity].
Ltac step_with H := erewrite mbind_run; [|exact H].

(** A chain of fallible steps of which none panics; [rust] knows the steps. *)
Ltac no_panic :=
  repeat first
    [ discriminate
    | solve [eauto with rust]
    | apply rbind_not_Panic; [|intros ? ?]
    | progress case_match ].

(** Splits a computation that succeeded into its steps. *)
Ltac ok_inv :=
  repeat match goal with
  | H : rbind _ _ = Ok _ |- _ => apply rbind_Ok in H as (? & ? & ?)
  | H : mbind _ _ _ = (Ok _, _) |- _ => apply mbind_Ok in H as (? & ? & ? & ?)
  | H : fail_if _ _ = Ok ?u |- _ => destruct u; apply fail_if_Ok in H
  | H : assert_ _ = Ok ?u |- _ => destruct u; apply assert_Ok in H
  | H : expect _ = Ok _ |- _ => apply expect_Ok in H
  | H : Ok _ = Ok _ |- _ => apply Ok_inj in H; subst
  | H : mret _ _ = (Ok _, _) |- _ => apply mret_inv in H as [? ?]; subst
  | H : Err _ = Ok _ |- _ => discriminate H
  | H : Panic = Ok _ |- _ => discriminate H
  | u : unit |- _ => destruct u
  end.

(** ** Postconditions

    [runs m s Q]: the run of [m] from [s], whichever way it ends, satisfies [Q]. *)

Definition runs {E S A} (m : ME E S A) (s : S) (Q : result E A -> S -> Prop) : Prop :=
  Q (m s).1 (m s).2.

(** The postcondition of the first of two steps, given that of the whole. *)
Definition next {E S A B} (f : A -> ME E S B) (Q : result E B -> S -> Prop) : result E A -> S -> Prop :=
  fun r s => match r with
             | Ok a => runs (f a) s Q
             | Err e => Q (Err e) s
             | Panic => Q Panic s
             end.

Lemma runs_elim {E S A} (m : ME E S A) s Q r s' : runs m s Q -> m s = (r, s') -> Q r s'.
Proof. unfold runs. intros HQ E'. by rewrite E' in HQ. Qed.

Lemma runs_intro {E S A} (m : ME E S A) s (Q : result E A -> S -> Prop) :
  (forall r s', m s = (r, s') -> Q r s') -> runs m s Q.
Proof. intros HQ. unfold runs. apply HQ. apply surjective_pairing. Qed.

Lemma runs_mono {E S A} (m : ME E S A) s (P Q : result E A -> S -> Prop) :
  runs m s P -> (forall r s', P r s' -> Q r s') -> runs m s Q.
Proof. unfold runs. auto. Qed.

Lemma runs_bind {E S A B} (m : ME E S A) (f : A -> ME E S B) s Q :
  runs m s (next f Q) -> runs (mbind m f) s Q.
Proof. unfold runs at 2, mbind. unfold runs. by destruct (m s) as [[] s']. Qed.

(** The rule of sequential composition. *)
Lemma runs_step {E S A B} (m : ME E S A) (f : A -> ME E S B) s P Q :
  runs m s P -> (forall r s', P r s' -> next f Q r s') -> runs (mbind m f) s Q.
Proof. intros Hm Hf. apply runs_bind. by apply (runs_mono m s P). Qed.

Lemma runs_ret {E S A} (a : A) (s : S) (Q : result E A -> S -> Prop) : Q (Ok a) s -> runs (mret a) s Q.
Proof. done. Qed.

Lemma runs_lift {E S A} (r : result E A) (s : S) Q : Q r s -> runs (mlift r) s Q.
Proof. done. Qed.

Lemma runs_get {E S} (s : S) (Q : result E S -> S -> Prop) : Q (Ok s) s -> runs mget s Q.
Proof. done. Qed.

Lemma runs_modify {E S} f (s : S) (Q : result E unit -> S -> Prop) : Q (Ok tt) (f s) -> runs (mmodify f) s Q.
Proof. done. Qed.

Lemma runs_try {E F S A} (m : ME E S A) s (Q : result F (result E A) -> S -> Prop) :
  runs m s (fun r s' => match r with Panic => Q Panic s' | r => Q (Ok r) s' end) -> runs (mtry m) s Q.
Proof. unfold runs, mtry. by destruct (m s) as [[] s']. Qed.

Lemma runs_map_err {E F S A} (f : E -> F) (m : ME E S A) s (Q : result F A -> S -> Prop) :
  runs m s (fun r s' => Q (map_err f r) s') -> runs (mmap_err f m) s Q.
Proof. unfold runs, mmap_err. by destruct (m s) as [r s']. Qed.

Lemma runs_zoom {E S T A} (get : S -> T) set (m : ME E T A) s (Q : result E A -> S -> Prop) :
  runs m (get s) (fun r t => Q r (set t s)) -> runs (zoom get set m) s Q.
Proof. unfold runs, zoom. by destruct (m (get s)) as [r t]. Qed.

(** A loop whose body keeps [I] of the elements to come, or stops with [Q]. *)
Lemma runs_for {E S X} (I : list X -> S -> Prop) (Q : result E unit -> S -> Prop) body :
  (forall x xs s, I (x :: xs) s ->
     runs (body x) s (fun r s' => match r with Ok _ => I xs s' | r => Q r s' end)) ->
  (forall s, I [] s -> Q (Ok tt) s) ->
  forall xs s, I xs s -> runs (mfor xs body) s Q.
Proof.
  intros Hbody Hend. induction xs as [|x xs IH]; intros s Hs; cbn [mfor]; [by apply Hend|].
  eapply runs_step; [by apply Hbody|]. intros [u| |] s'; cbn; auto.
Qed.

(** The same over a range. *)
Lemma loop_run {E S} (I : Z -> S -> Prop) (Q : result E unit -> S -> Prop) (body : Z -> ME E S unit) a b s :
  a <= b ->
  (forall i s, a <= i < b -> I i s -> runs (body i) s (fun r s' => match r with Ok _ => I (i + 1) s' | r => Q r s' end)) ->
  (forall s, I b s -> Q (Ok tt) s) ->
  I a s -> runs (mfor (seqZ a (b - a)) body) s Q.
Proof.
  intros Hab Hbody Hend Hs.
  apply (runs_for (fun xs s => exists i, a <= i <= b /\ xs = seqZ i (b - i) /\ I i s)).
  - intros x xs s' (i & Hi & Hxs & HI). destruct (decide (i = b)) as [->|Hne].
    { by rewrite Z.sub_diag, seqZ_nil in Hxs. }
    rewrite seqZ_cons in Hxs by lia. injection Hxs as -> ->. eapply runs_mono; [apply Hbody; [lia|done]|].
    cbv beta. intros [[]|e|] s1 H1; [|done..]. exists (i + 1). split; [lia|]. split; [f_equal; lia|done].
  - intros s' (i & Hi & Hxs & HI). destruct (decide (i = b)) as [->|Hne]; [by apply Hend|].
    by rewrite seqZ_cons in Hxs by lia.
  - by exists a.
Qed.

(** ** Loops *)

Lemma rmapM_Ok {E A B} (f : A -> result E B) l bs :
  rmapM f l = Ok bs <-> Forall2 (fun a b => f a = Ok b) l bs.
Proof.
  revert bs. induction l as [|a l IH]; intros bs; simpl.
  - split; [intros [= <-]; constructor | intros H; by inversion H].
  - rewrite rbind_Ok. split.
    + intros (b & Hb & H). apply rbind_Ok in H as (bs' & Hbs & H). injection H as <-.
      constructor; [done | by apply IH].
    + intros H. inversion H as [|? b ? bs' Hb Hbs]; subst. exists b. split; [done|].
      apply IH in Hbs. by rewrite Hbs.
Qed.


Lemma rmapM_total {E A B} (f : A -> result E B) l :
  (forall a, a ∈ l -> exists b, f a = Ok b) -> exists bs, rmapM f l = Ok bs.
Proof.
  induction l as [|a l IH]; intros Hf; [by exists []|]. cbn.
  destruct (Hf a ltac:(by left)) as [b ->]. destruct IH as [bs Hbs]; [intros; apply Hf; by right|].
  exists (b :: bs). cbn. by rewrite Hbs.
Qed.

Lemma rmapM_fmap {E A B} (f : A -> result E B) (g : A -> B) l :
  (forall a, a ∈ l -> f a = Ok (g a)) -> rmapM f l = Ok (g <$> l).
Proof.
  intros Hf. apply rmapM_Ok. induction l as [|a l IH]; [constructor|].
  rewrite fmap_cons. constructor; [apply Hf; set_solver | apply IH; set_solver].
Qed.

Lemma mfor_invariant {E S X} (I : S -> Prop) (xs : list X) (body : X -> ME E S unit) :
  (forall x s r s', x ∈ xs -> I s -> body x s = (r, s') -> I s') ->
  forall s r s', I s -> mfor xs body s = (r, s') -> I s'.
Proof.
  induction xs as [|x xs IH]; intros Hbody s r s' Hs Hrun; simpl in Hrun.
  { unfold mret in Hrun. naive_solver. }
  unfold mbind in Hrun. destruct (body x s) as [r1 s1] eqn:Hx.
  assert (HI1 : I s1). { eapply (Hbody x); eauto. set_solver. }
  destruct r1; [|naive_solver..].
  eapply IH; [|exact HI1|exact Hrun].
  intros y ? ? ? ? ? ?. eapply (Hbody y); eauto. set_solver.
Qed.

Lemma zoom_Ok {E S T A} (get : S -> T) set (m : ME E T A) s a s' :
  zoom get set m s = (Ok a, s') ->
  exists t, m (get s) = (Ok a, t) /\ s' = set t s.
Proof. unfold zoom. destruct (m (get s)) as [[] t]; naive_solver. Qed.
