(* ===== verification/Bytes.v ===== *)
(** Byte blocks: little-endian integers, fixed offsets and the entry arrays
    the codecs of [src/rust/src/format_v3/] read and write.  A byte is a [Z]
    in [0, 256); a 4 KiB block is a list of 4096 of them. *)

From S2P Require Import Prelude.
From Stdlib Require Import List.

Lemma nth_firstn_lt {A} (n i : nat) (l : list A) d : (i < n)%nat -> nth i (take n l) d = nth i l d.
Proof. intros. rewrite nth_firstn. destruct (Nat.ltb_spec i n); [done|lia]. Qed.

Definition is_byte (b : Z) : Prop := 0 <= b < 256.
Definition bytes_ok (bs : list Z) : Prop := Forall is_byte bs.

Definition BLOCK_SIZE : Z := 4096.

Definition zeros (n : Z) : list Z := replicate (Z.to_nat n) 0.
Definition zero_block : list Z := zeros BLOCK_SIZE.
(** The invariant of the type [[u8; BLOCK_SIZE]]. *)
Definition block_ok (b : list Z) : Prop := lenZ b = BLOCK_SIZE /\ bytes_ok b.

(** [x.to_le_bytes()] at a width of [n] bytes, and its inverse. *)
Fixpoint le_bytes (n : nat) (z : Z) : list Z :=
  match n with
  | O => []
  | S n => z mod 256 :: le_bytes n (z / 256)
  end.

Fixpoint le_value (bs : list Z) : Z :=
  match bs with
  | [] => 0
  | b :: bs => b + 256 * le_value bs
  end.

(** [&bytes[off..off + n]]. *)
Definition slice (off n : Z) (b : list Z) : list Z :=
  take (Z.to_nat n) (drop (Z.to_nat off) b).

(** [bytes[off..off + bs.len()].copy_from_slice(bs)]. *)
Definition put (off : Z) (bs b : list Z) : list Z :=
  take (Z.to_nat off) b ++ bs ++ drop (Z.to_nat off + length bs) b.

(** [bytes[i]]. *)
Definition getb (b : list Z) (i : Z) : Z := nth (Z.to_nat i) b 0.

(** [array[i]] of a fixed-size array whose index is in range. *)
Definition arr (a : list Z) (i : Z) : Z := nth (Z.to_nat i) a 0.

Definition read_u32 (b : list Z) (off : Z) : Z := le_value (slice off 4 b).
Definition read_u64 (b : list Z) (off : Z) : Z := le_value (slice off 8 b).

Definition all_zero (bs : list Z) : bool := forallb (fun b => b =? 0) bs.

(** The loop [for index in 0..n] of the codecs, which stores a [u32] array at
    [o1] and a [u64] array at [o2]. *)
Fixpoint put_entries (n : nat) (o1 : Z) (a1 : list Z) (o2 : Z) (a2 : list Z)
    (b : list Z) : list Z :=
  match n with
  | O => b
  | S k =>
      let b := put_entries k o1 a1 o2 a2 b in
      let i := Z.of_nat k in
      put (o2 + i * 8) (le_bytes 8 (arr a2 i)) (put (o1 + i * 4) (le_bytes 4 (arr a1 i)) b)
  end.

(** [array[index] = read(bytes, off + index * w)] for [index in 0..n]. *)
Definition read_array (w n off : Z) (b : list Z) : list Z :=
  (fun i => le_value (slice (off + i * w) w b)) <$> seqZ 0 n.

#[global] Arguments arr : simpl never.
#[global] Arguments getb : simpl never.
#[global] Arguments slice : simpl never.
#[global] Arguments put : simpl never.
#[global] Arguments zeros : simpl never.
#[global] Arguments read_array : simpl never.

(** ** Lengths and single bytes *)

Lemma length_zeros n : 0 <= n -> lenZ (zeros n) = n.
Proof. intros. unfold zeros. rewrite length_replicate. lia. Qed.

Lemma length_le_bytes n z : length (le_bytes n z) = n.
Proof. revert z. induction n; simpl; auto. Qed.

Lemma le_bytes_ok n z : bytes_ok (le_bytes n z).
Proof.
  revert z. induction n; simpl; constructor; [|apply IHn].
  red. apply Z.mod_pos_bound. lia.
Qed.

Lemma zeros_ok n : bytes_ok (zeros n).
Proof. apply Forall_replicate. red. lia. Qed.

Lemma length_slice off n b :
  0 <= off -> 0 <= n -> off + n <= lenZ b -> lenZ (slice off n b) = n.
Proof. intros. unfold slice. rewrite length_take, length_drop. lia. Qed.

Lemma length_put off bs b :
  0 <= off -> off + lenZ bs <= lenZ b -> lenZ (put off bs b) = lenZ b.
Proof. intros. unfold put. rewrite !length_app, length_take, length_drop. lia. Qed.

Lemma length_put_le off n z b :
  0 <= off -> off + Z.of_nat n <= lenZ b -> lenZ (put off (le_bytes n z) b) = lenZ b.
Proof. intros. apply length_put; rewrite ?length_le_bytes; lia. Qed.

Lemma put_ok off bs b : bytes_ok bs -> bytes_ok b -> bytes_ok (put off bs b).
Proof.
  intros. unfold put, bytes_ok. rewrite !Forall_app.
  split_and!; auto using Forall_take, Forall_drop.
Qed.

Lemma slice_ok off n b : bytes_ok b -> bytes_ok (slice off n b).
Proof. intros. unfold slice, bytes_ok. auto using Forall_take, Forall_drop. Qed.

Lemma le_value_nonneg bs : bytes_ok bs -> 0 <= le_value bs.
Proof. induction 1 as [|b bs Hb _ IH]; simpl; [lia|]. red in Hb. lia. Qed.

Lemma le_value_bound bs : bytes_ok bs -> 0 <= le_value bs < 256 ^ lenZ bs.
Proof.
  induction 1 as [|b bs Hb _ IH]; cbn [le_value length]; [lia|]. red in Hb.
  rewrite Nat2Z.inj_succ, Z.pow_succ_r by lia. lia.
Qed.

Lemma le_value_le_bytes n z : 0 <= z < 256 ^ Z.of_nat n -> le_value (le_bytes n z) = z.
Proof.
  revert z. induction n as [|n IH]; intros z Hz; cbn [le_value le_bytes].
  { simpl in Hz. lia. }
  rewrite Nat2Z.inj_succ, Z.pow_succ_r in Hz by lia.
  pose proof (Z.div_mod z 256 ltac:(lia)).
  rewrite IH; [lia|]. split.
  - apply Z.div_pos; lia.
  - apply Z.div_lt_upper_bound; lia.
Qed.

Lemma le_bytes_le_value bs : bytes_ok bs -> le_bytes (length bs) (le_value bs) = bs.
Proof.
  induction 1 as [|b bs Hb Hbs IH]; cbn [le_value le_bytes length]; [done|].
  red in Hb. f_equal.
  - rewrite Z.mul_comm, Z.mod_add by lia. apply Z.mod_small. lia.
  - rewrite Z.mul_comm, Z.div_add, Z.div_small by lia. done.
Qed.

Lemma le_u32 z : is_u32 z -> le_value (le_bytes 4 z) = z.
Proof. intros. apply le_value_le_bytes. apply H. Qed.

Lemma le_u64 z : is_u64 z -> le_value (le_bytes 8 z) = z.
Proof. intros. apply le_value_le_bytes. apply H. Qed.

Lemma read_u32_bound b off :
  bytes_ok b -> 0 <= off -> off + 4 <= lenZ b -> is_u32 (read_u32 b off).
Proof.
  intros. pose proof (le_value_bound (slice off 4 b) (slice_ok _ _ _ H)) as Hb.
  rewrite length_slice in Hb by lia. exact Hb.
Qed.

Lemma read_u64_bound b off :
  bytes_ok b -> 0 <= off -> off + 8 <= lenZ b -> is_u64 (read_u64 b off).
Proof.
  intros. pose proof (le_value_bound (slice off 8 b) (slice_ok _ _ _ H)) as Hb.
  rewrite length_slice in Hb by lia. exact Hb.
Qed.

(** ** A block is its bytes *)

Lemma getb_put off bs b i :
  0 <= off -> off + lenZ bs <= lenZ b -> 0 <= i ->
  getb (put off bs b) i =
    if (off <=? i) && (i <? off + lenZ bs) then getb bs (i - off) else getb b i.
Proof.
  intros Ho Hl Hi. unfold getb, put.
  destruct (Z.leb_spec off i); destruct (Z.ltb_spec i (off + lenZ bs)); cbn [andb].
  - rewrite app_nth2 by (rewrite length_take; lia).
    rewrite length_take, app_nth1 by lia. f_equal. lia.
  - rewrite app_nth2 by (rewrite length_take; lia).
    rewrite length_take, app_nth2 by lia.
    rewrite nth_skipn. f_equal. lia.
  - rewrite app_nth1 by (rewrite length_take; lia). apply nth_firstn_lt. lia.
  - lia.
Qed.

Lemma getb_ext (a b : list Z) :
  lenZ a = lenZ b -> (forall i, 0 <= i < lenZ a -> getb a i = getb b i) -> a = b.
Proof.
  intros Hl Hg. apply (nth_ext _ _ 0 0); [lia|].
  intros n Hn. specialize (Hg (Z.of_nat n) ltac:(lia)).
  unfold getb in Hg. rewrite Nat2Z.id in Hg. exact Hg.
Qed.

Lemma getb_slice off n b i :
  0 <= off -> 0 <= i < n -> off + n <= lenZ b ->
  getb (slice off n b) i = getb b (off + i).
Proof.
  intros. unfold getb, slice. rewrite nth_firstn_lt by lia.
  rewrite nth_skipn. f_equal. lia.
Qed.

Lemma getb_zeros n i : getb (zeros n) i = 0.
Proof. unfold getb, zeros. generalize (Z.to_nat n), (Z.to_nat i). intros m. induction m; intros []; simpl; auto. Qed.

Lemma slice_ext off n a b :
  0 <= off -> 0 <= n -> off + n <= lenZ a -> off + n <= lenZ b ->
  (forall i, off <= i < off + n -> getb a i = getb b i) -> slice off n a = slice off n b.
Proof.
  intros Ho Hn Ha Hb Hg. apply getb_ext; rewrite !length_slice by lia; [done|].
  intros i Hi. rewrite !getb_slice by lia. apply Hg. lia.
Qed.

Lemma slice_put_same off bs b n :
  n = lenZ bs -> 0 <= off -> off + lenZ bs <= lenZ b -> slice off n (put off bs b) = bs.
Proof.
  intros -> Ho Hl. apply getb_ext; rewrite length_slice; rewrite ?length_put; try lia.
  intros i Hi. rewrite getb_slice; rewrite ?length_put; try lia.
  rewrite getb_put by lia.
  destruct (Z.leb_spec off (off + i)), (Z.ltb_spec (off + i) (off + lenZ bs)); try lia.
  cbn [andb]. f_equal. lia.
Qed.

Lemma slice_put_disjoint off bs b o n :
  0 <= off -> off + lenZ bs <= lenZ b -> 0 <= o -> 0 <= n -> o + n <= lenZ b ->
  o + n <= off \/ off + lenZ bs <= o ->
  slice o n (put off bs b) = slice o n b.
Proof.
  intros. apply slice_ext; rewrite ?length_put; try lia.
  intros i Hi. rewrite getb_put by lia.
  destruct (Z.leb_spec off i), (Z.ltb_spec i (off + lenZ bs)); lia || done.
Qed.

Lemma slice_zeros o n m :
  0 <= o -> 0 <= n -> o + n <= m -> slice o n (zeros m) = zeros n.
Proof.
  intros. apply getb_ext; rewrite length_slice; rewrite ?length_zeros; try lia.
  intros i Hi. rewrite getb_slice; rewrite ?length_zeros; try lia.
  by rewrite !getb_zeros.
Qed.

Lemma slice_full b : slice 0 (lenZ b) b = b.
Proof. unfold slice. rewrite Nat2Z.id. change (Z.to_nat 0) with 0%nat. apply take_ge. simpl. lia. Qed.

Lemma slice_app_l n (a b : list Z) : lenZ a = n -> slice 0 n (a ++ b) = a.
Proof. intros Hn. unfold slice. rewrite drop_0. by rewrite take_app_length' by lia. Qed.

Lemma slice_app_r off n (a b : list Z) :
  lenZ a <= off -> slice off n (a ++ b) = slice (off - lenZ a) n b.
Proof. intros Hn. unfold slice. f_equal. rewrite drop_app_ge by lia. f_equal. lia. Qed.

Lemma all_zero_spec bs : all_zero bs = true <-> bs = zeros (lenZ bs).
Proof.
  unfold all_zero, zeros. rewrite Nat2Z.id. induction bs as [|b bs IH]; [done|].
  cbn [forallb length replicate]. rewrite andb_true_iff, IH, Z.eqb_eq.
  split; [intros [-> H]; congruence | intros [= -> H]; auto].
Qed.

Lemma all_zero_zeros n : all_zero (zeros n) = true.
Proof. unfold all_zero, zeros. induction (Z.to_nat n); simpl; auto. Qed.

(** A region whose bytes are zero. *)
Lemma all_zero_getb off n b :
  0 <= off -> 0 <= n -> off + n <= lenZ b -> all_zero (slice off n b) = true ->
  forall i, off <= i < off + n -> getb b i = 0.
Proof.
  intros Ho Hn Hl Hz i Hi. apply all_zero_spec in Hz.
  rewrite length_slice in Hz by lia.
  replace i with (off + (i - off)) by lia. rewrite <- getb_slice with (n := n) by lia.
  rewrite Hz. apply getb_zeros.
Qed.

Lemma getb_all_zero off n b :
  0 <= off -> 0 <= n -> off + n <= lenZ b ->
  (forall i, off <= i < off + n -> getb b i = 0) -> all_zero (slice off n b) = true.
Proof.
  intros Ho Hn Hl Hg. apply all_zero_spec. rewrite length_slice by lia.
  apply getb_ext; rewrite length_slice, ?length_zeros by lia; [done|].
  intros i Hi. rewrite getb_slice, getb_zeros by lia. apply Hg. lia.
Qed.

(** Reading a field back yields the bytes that encode it. *)
Lemma le_bytes_read n off b :
  bytes_ok b -> 0 <= off -> off + Z.of_nat n <= lenZ b ->
  le_bytes n (le_value (slice off (Z.of_nat n) b)) = slice off (Z.of_nat n) b.
Proof.
  intros Hb Ho Hl. pose proof (length_slice off (Z.of_nat n) b ltac:(lia) ltac:(lia) Hl).
  replace n with (length (slice off (Z.of_nat n) b)) at 1 by lia.
  apply le_bytes_le_value. by apply slice_ok.
Qed.

Lemma getb_le_bytes_read n off b i :
  bytes_ok b -> 0 <= off -> off + Z.of_nat n <= lenZ b -> off <= i < off + Z.of_nat n ->
  getb (le_bytes n (le_value (slice off (Z.of_nat n) b))) (i - off) = getb b i.
Proof.
  intros. rewrite le_bytes_read by lia || done. rewrite getb_slice by lia. f_equal. lia.
Qed.

(** ** Entry arrays *)

Section entries.
  Context (o1 o2 : Z) (a1 a2 : list Z).

Lemma length_put_entries n b :
    0 <= o1 -> 0 <= o2 -> o1 + Z.of_nat n * 4 <= lenZ b -> o2 + Z.of_nat n * 8 <= lenZ b ->
    lenZ (put_entries n o1 a1 o2 a2 b) = lenZ b.
  Proof.
    induction n as [|n IH]; intros; cbn [put_entries]; [done|].
    assert (HL := IH ltac:(lia) ltac:(lia) ltac:(lia) ltac:(lia)).
    rewrite !length_put_le by (rewrite ?length_put_le; rewrite ?HL; lia). exact HL.
  Qed.

Lemma put_entries_ok n b : bytes_ok b -> bytes_ok (put_entries n o1 a1 o2 a2 b).
  Proof. induction n; intros; cbn [put_entries]; auto using put_ok, le_bytes_ok. Qed.

  Context (N : Z) (Ho1 : 0 <= o1) (Ho12 : o1 + N * 4 <= o2).

Lemma getb_put_entries n b i :
    Z.of_nat n <= N -> o2 + N * 8 <= lenZ b -> 0 <= i ->
    getb (put_entries n o1 a1 o2 a2 b) i =
      if (o1 <=? i) && (i <? o1 + Z.of_nat n * 4) then
        getb (le_bytes 4 (arr a1 ((i - o1) / 4))) ((i - o1) mod 4)
      else if (o2 <=? i) && (i <? o2 + Z.of_nat n * 8) then
        getb (le_bytes 8 (arr a2 ((i - o2) / 8))) ((i - o2) mod 8)
      else getb b i.
  Proof using N Ho1 Ho12.
    induction n as [|n IH]; intros HN Hl Hi; cbn [put_entries].
    { change (Z.of_nat 0) with 0.
      destruct (Z.leb_spec o1 i), (Z.leb_spec o2 i), (Z.ltb_spec i (o1 + 0 * 4)),
        (Z.ltb_spec i (o2 + 0 * 8)); cbn [andb]; lia || done. }
    pose proof (length_put_entries n b ltac:(lia) ltac:(lia) ltac:(lia) ltac:(lia)) as HL.
    rewrite getb_put by (rewrite ?length_put_le, ?length_le_bytes; rewrite ?HL; lia).
    rewrite getb_put by (rewrite ?length_le_bytes, ?HL; lia).
    rewrite !length_le_bytes, IH by lia. clear IH.
    change (Z.of_nat 8) with 8. change (Z.of_nat 4) with 4.
    rewrite Nat2Z.inj_succ. set (k := Z.of_nat n) in *.
    destruct (Z.leb_spec (o2 + k * 8) i), (Z.ltb_spec i (o2 + k * 8 + 8)); cbn [andb].
    { destruct (Z.ltb_spec i (o1 + Z.succ k * 4)); [lia|]. rewrite andb_false_r.
      destruct (Z.leb_spec o2 i), (Z.ltb_spec i (o2 + Z.succ k * 8)); try lia. cbn [andb].
      assert ((i - o2) / 8 = k) as -> by (symmetry; apply Z.div_unique with (i - o2 - k * 8); lia).
      f_equal. apply Z.mod_unique with k; lia. }
    all: destruct (Z.leb_spec (o1 + k * 4) i), (Z.ltb_spec i (o1 + k * 4 + 4)); cbn [andb].
    all: try (destruct (Z.leb_spec o1 i), (Z.ltb_spec i (o1 + Z.succ k * 4)); try lia; cbn [andb];
      assert ((i - o1) / 4 = k) as -> by (symmetry; apply Z.div_unique with (i - o1 - k * 4); lia);
      f_equal; apply Z.mod_unique with k; lia).
    all: destruct (Z.leb_spec o1 i), (Z.ltb_spec i (o1 + Z.succ k * 4)),
      (Z.ltb_spec i (o1 + k * 4)), (Z.leb_spec o2 i), (Z.ltb_spec i (o2 + Z.succ k * 8)),
      (Z.ltb_spec i (o2 + k * 8)); cbn [andb]; lia || done.
  Qed.

Lemma slice_put_entries_1 n b k :
    Z.of_nat n <= N -> o2 + N * 8 <= lenZ b -> 0 <= k < Z.of_nat n ->
    slice (o1 + k * 4) 4 (put_entries n o1 a1 o2 a2 b) = le_bytes 4 (arr a1 k).
  Proof using N Ho1 Ho12.
    intros HN Hl Hk.
    pose proof (length_put_entries n b ltac:(lia) ltac:(lia) ltac:(lia) ltac:(lia)) as HL.
    apply getb_ext; rewrite length_slice by lia; [rewrite length_le_bytes; lia|].
    intros i Hi. rewrite getb_slice by lia. rewrite getb_put_entries by lia.
    destruct (Z.leb_spec o1 (o1 + k * 4 + i)), (Z.ltb_spec (o1 + k * 4 + i) (o1 + Z.of_nat n * 4));
      try lia. cbn [andb].
    assert ((o1 + k * 4 + i - o1) / 4 = k) as -> by (symmetry; apply Z.div_unique with i; lia).
    f_equal. symmetry. apply Z.mod_unique with k; lia.
  Qed.

Lemma slice_put_entries_2 n b k :
    Z.of_nat n <= N -> o2 + N * 8 <= lenZ b -> 0 <= k < Z.of_nat n ->
    slice (o2 + k * 8) 8 (put_entries n o1 a1 o2 a2 b) = le_bytes 8 (arr a2 k).
  Proof using N Ho1 Ho12.
    intros HN Hl Hk.
    pose proof (length_put_entries n b ltac:(lia) ltac:(lia) ltac:(lia) ltac:(lia)) as HL.
    apply getb_ext; rewrite length_slice by lia; [rewrite length_le_bytes; lia|].
    intros i Hi. rewrite getb_slice by lia. rewrite getb_put_entries by lia.
    destruct (Z.ltb_spec (o2 + k * 8 + i) (o1 + Z.of_nat n * 4)); [lia|].
    rewrite andb_false_r.
    destruct (Z.leb_spec o2 (o2 + k * 8 + i)), (Z.ltb_spec (o2 + k * 8 + i) (o2 + Z.of_nat n * 8));
      try lia. cbn [andb].
    assert ((o2 + k * 8 + i - o2) / 8 = k) as -> by (symmetry; apply Z.div_unique with i; lia).
    f_equal. symmetry. apply Z.mod_unique with k; lia.
  Qed.

Lemma slice_put_entries_other n b o m :
    Z.of_nat n <= N -> o2 + N * 8 <= lenZ b -> 0 <= o -> 0 <= m -> o + m <= lenZ b ->
    o + m <= o1 \/ o1 + N * 4 <= o /\ (o + m <= o2 \/ o2 + N * 8 <= o) ->
    slice o m (put_entries n o1 a1 o2 a2 b) = slice o m b.
  Proof using N Ho1 Ho12.
    intros HN Hl Ho Hm Hb Hd.
    pose proof (length_put_entries n b ltac:(lia) ltac:(lia) ltac:(lia) ltac:(lia)) as HL.
    apply slice_ext; rewrite ?HL; try lia.
    intros i Hi. rewrite getb_put_entries by lia.
    destruct (Z.leb_spec o1 i), (Z.ltb_spec i (o1 + Z.of_nat n * 4)), (Z.leb_spec o2 i),
      (Z.ltb_spec i (o2 + Z.of_nat n * 8)); cbn [andb]; lia || done.
  Qed.
End entries.

Lemma length_read_array w n off b : 0 <= n -> lenZ (read_array w n off b) = n.
Proof. intros. unfold read_array. rewrite length_fmap, length_seqZ. lia. Qed.

Lemma arr_read_array w n off b i :
  0 <= i < n -> arr (read_array w n off b) i = le_value (slice (off + i * w) w b).
Proof.
  intros Hi. unfold arr, read_array.
  rewrite nth_lookup, list_lookup_fmap, lookup_seqZ_lt by lia. simpl.
  by replace (Z.of_nat (Z.to_nat i)) with i by lia.
Qed.

Lemma read_array_Forall (P : Z -> Prop) w n off b :
  (forall i, 0 <= i < n -> P (le_value (slice (off + i * w) w b))) -> Forall P (read_array w n off b).
Proof.
  intros HP. apply Forall_forall. intros x Hx. apply list_elem_of_In in Hx. unfold read_array in Hx.
  apply list_elem_of_fmap in Hx as (i & -> & Hi). apply elem_of_seqZ in Hi. apply HP. lia.
Qed.

Lemma arr_ext (a b : list Z) :
  lenZ a = lenZ b -> (forall i, 0 <= i < lenZ a -> arr a i = arr b i) -> a = b.
Proof. apply getb_ext. Qed.

Lemma Forall_arr (P : Z -> Prop) l i : Forall P l -> 0 <= i < lenZ l -> P (arr l i).
Proof.
  intros HP Hi. unfold arr. rewrite Forall_lookup in HP.
  destruct (lookup_lt_is_Some_2 l (Z.to_nat i)) as [x Hx]; [lia|].
  rewrite nth_lookup, Hx. eauto.
Qed.

(** Reading an array of little-endian values that was stored entry by entry. *)
Lemma read_array_stored w n off b a :
  lenZ a = n ->
  (forall i, 0 <= i < n -> le_value (slice (off + i * w) w b) = arr a i) ->
  read_array w n off b = a.
Proof.
  intros Hl Hs. apply arr_ext; rewrite length_read_array by lia; [lia|].
  intros i Hi. rewrite arr_read_array by lia. auto.
Qed.

#[export] Hint Resolve le_bytes_ok zeros_ok put_ok slice_ok put_entries_ok : rust.

(** Range checks that evaluate, for concrete arrays. *)
Definition in_width (w : Z) (l : list Z) : bool :=
  forallb (fun x => (0 <=? x) && (x <? 2 ^ w)) l.

Lemma in_width_spec w l : in_width w l = true <-> Forall (fun x => 0 <= x < 2 ^ w) l.
Proof.
  unfold in_width. induction l as [|x l IH]; simpl; [split; constructor|].
  rewrite Forall_cons_iff, <- IH. split.
  - intros Hb. bool_prop. auto.
  - intros [[? ?] ?]. rewrite !andb_true_iff. split_and!; [lia..|done].
Qed.

Definition block_okb (b : list Z) : bool := (lenZ b =? BLOCK_SIZE) && in_width 8 b.

Lemma block_okb_spec b : block_okb b = true <-> block_ok b.
Proof. unfold block_okb, block_ok, bytes_ok. rewrite andb_true_iff, Z.eqb_eq, in_width_spec. done. Qed.

(** The loop runs 338 times; unification must never unroll it. *)
#[global] Opaque put_entries slice put read_array.

(** ** Fields of a 4096-byte block *)

Lemma len_zero_block : lenZ zero_block = 4096.
Proof. apply length_zeros. done. Qed.

Lemma zero_block_ok : block_ok zero_block.
Proof. split; [apply len_zero_block | apply zeros_ok]. Qed.

Lemma len_put off bs b :
  lenZ b = 4096 -> 0 <= off -> off + lenZ bs <= 4096 -> lenZ (put off bs b) = 4096.
Proof. intros. rewrite length_put; lia. Qed.

Lemma slice_same off bs b n :
  lenZ b = 4096 -> n = lenZ bs -> 0 <= off -> off + lenZ bs <= 4096 ->
  slice off n (put off bs b) = bs.
Proof. intros. apply slice_put_same; lia. Qed.

Lemma slice_skip off bs b o n :
  lenZ b = 4096 -> 0 <= off -> off + lenZ bs <= 4096 -> 0 <= o -> 0 <= n -> o + n <= 4096 ->
  o + n <= off \/ off + lenZ bs <= o -> slice o n (put off bs b) = slice o n b.
Proof. intros. apply slice_put_disjoint; lia. Qed.

Lemma getb_at off bs b i :
  lenZ b = 4096 -> 0 <= off -> off + lenZ bs <= 4096 -> 0 <= i ->
  getb (put off bs b) i =
    if (off <=? i) && (i <? off + lenZ bs) then getb bs (i - off) else getb b i.
Proof. intros. apply getb_put; lia. Qed.

Lemma getb_same1 off x b :
  lenZ b = 4096 -> 0 <= off -> off + 1 <= 4096 -> getb (put off [x] b) off = x.
Proof.
  intros. rewrite getb_put by (cbn [length]; lia). cbn [length].
  destruct (Z.leb_spec off off), (Z.ltb_spec off (off + Z.of_nat 1)); try lia.
  by rewrite Z.sub_diag.
Qed.

Lemma getb_skip off bs b i :
  lenZ b = 4096 -> 0 <= off -> off + lenZ bs <= 4096 -> 0 <= i ->
  i < off \/ off + lenZ bs <= i -> getb (put off bs b) i = getb b i.
Proof.
  intros. rewrite getb_put by lia.
  destruct (Z.leb_spec off i), (Z.ltb_spec i (off + lenZ bs)); lia || done.
Qed.

Lemma block_put_ok off bs b :
  block_ok b -> bytes_ok bs -> 0 <= off -> off + lenZ bs <= 4096 -> block_ok (put off bs b).
Proof. intros [? ?] ? ? ?. split; [by apply len_put | by apply put_ok]. Qed.

(** Unfolds the byte constants of a codec; each codec extends it. *)
Ltac blk_constants := fail.

(** Closes the length side conditions of the lemmas above. *)
Ltac blk :=
  repeat first
    [ assumption
    | apply len_zero_block
    | match goal with |- lenZ (put _ _ _) = 4096 => apply len_put end
    | progress rewrite ?length_le_bytes
    | progress cbn [length]
    | progress blk_constants
    | lia ].

(** Reads fields back out of a chain of stores. *)
Ltac fields :=
  repeat first
    [ rewrite slice_same by blk
    | rewrite slice_skip by blk
    | rewrite getb_same1 by blk
    | rewrite getb_skip by blk ].
