(* ===== verification/Geometry.v ===== *)
(** Volume geometry: [src/rust/src/format_v3/geometry.rs] and the limits of
    [src/rust/src/lib.rs].  Blocks, pages and their counts are [Z]. *)

From S2P Require Import Prelude Bytes.

Definition MAX_VOLUME_BLOCKS : Z := Z.shiftl 1 31.
Definition MAX_BACKING_BLOCKS : Z := u32_max + 1.
Definition MAXIMUM_RECORD_BLOCKS : Z := 339.
Definition MAXIMUM_PAYLOAD_BLOCKS : Z := MAXIMUM_RECORD_BLOCKS - 1.
Definition ENTRIES_PER_PAGE : Z := 336.
(** [BLOCK_SIZE / size_of::<u32>()]. *)
Definition POINTERS_PER_BLOCK : Z := BLOCK_SIZE / 4.

Record Geometry := {
  g_volume_blocks : Z;
  g_backing_blocks : Z;
  g_page_count : Z;
  g_index_blocks : Z;
  g_log_start : Z;
}.

#[global] Instance geometry_eq_dec : EqDecision Geometry.
Proof. solve_decision. Defined.

Module Geometry.

Definition new (volume_blocks backing_blocks : Z) : res Geometry :=
  if (volume_blocks =? 0) || (MAX_VOLUME_BLOCKS <? volume_blocks)
     || (MAX_BACKING_BLOCKS <? backing_blocks)
  then Err (InvalidData "invalid version-3 geometry")
  else
    let page_count := div_ceil volume_blocks ENTRIES_PER_PAGE in
    let index_blocks := div_ceil page_count POINTERS_PER_BLOCK in
    let log_start := 2 + 2 * index_blocks in
    if backing_blocks <? log_start + 3
    then Err (InvalidData "backing cannot hold a checkpointable data record")
    else Ok {| g_volume_blocks := volume_blocks;
               g_backing_blocks := backing_blocks;
               g_page_count := page_count;
               g_index_blocks := index_blocks;
               g_log_start := log_start |}.

Definition page_entries (g : Geometry) (page_id : Z) : res Z :=
  if g_page_count g <=? page_id
  then Err (InvalidData "mapping page ID out of range")
  else Ok (Z.min (g_volume_blocks g - page_id * ENTRIES_PER_PAGE) ENTRIES_PER_PAGE).

(** What every geometry that [new] returns satisfies. *)
Record wf (g : Geometry) : Prop := {
  wf_volume : 0 < g_volume_blocks g <= 2 ^ 31;
  wf_pages : 336 * (g_page_count g - 1) < g_volume_blocks g <= 336 * g_page_count g;
  wf_index : 1024 * (g_index_blocks g - 1) < g_page_count g <= 1024 * g_index_blocks g;
  wf_start : g_log_start g = 2 + 2 * g_index_blocks g;
  wf_backing : g_log_start g + 3 <= g_backing_blocks g <= 2 ^ 32;
}.

Lemma new_wf v b g :
  0 <= v -> new v b = Ok g -> wf g /\ g_volume_blocks g = v /\ g_backing_blocks g = b.
Proof.
  intros Hv. unfold new.
  guard H1; [discriminate|].
  guard H2; [discriminate|]. intros [= <-]. bool_prop.
  change MAX_VOLUME_BLOCKS with (2 ^ 31) in *. change MAX_BACKING_BLOCKS with (2 ^ 32) in *.
  pose proof (div_ceil_spec v ENTRIES_PER_PAGE ltac:(done)) as HP.
  pose proof (div_ceil_spec (div_ceil v ENTRIES_PER_PAGE) POINTERS_PER_BLOCK ltac:(done)) as HI.
  change ENTRIES_PER_PAGE with 336 in *. change POINTERS_PER_BLOCK with 1024 in *.
  split; [constructor|]; simpl; lia.
Qed.

(** A geometry is a function of the two sizes it stores. *)
Lemma new_wf_id g : wf g -> new (g_volume_blocks g) (g_backing_blocks g) = Ok g.
Proof.
  intros [Hv Hp Hi Hs Hb]. unfold new.
  change MAX_VOLUME_BLOCKS with (2 ^ 31). change MAX_BACKING_BLOCKS with (2 ^ 32).
  assert (div_ceil (g_volume_blocks g) ENTRIES_PER_PAGE = g_page_count g) as ->.
  { pose proof (div_ceil_spec (g_volume_blocks g) ENTRIES_PER_PAGE ltac:(done)).
    change ENTRIES_PER_PAGE with 336 in *. lia. }
  assert (div_ceil (g_page_count g) POINTERS_PER_BLOCK = g_index_blocks g) as ->.
  { pose proof (div_ceil_spec (g_page_count g) POINTERS_PER_BLOCK ltac:(done)).
    change POINTERS_PER_BLOCK with 1024 in *. lia. }
  rewrite <- Hs.
  guard H1.
  { repeat apply orb_true_iff in H1 as [H1|H1];
      first [apply Z.eqb_eq in H1 | apply Z.ltb_lt in H1]; lia. }
  destruct (Z.ltb_spec (g_backing_blocks g) (g_log_start g + 3)); [lia|].
  by destruct g.
Qed.

Lemma new_not_Panic v b : new v b <> Panic.
Proof. unfold new. no_panic. Qed.

Lemma page_entries_not_Panic g p : page_entries g p <> Panic.
Proof. unfold page_entries. no_panic. Qed.

Lemma page_entries_Ok g p n :
  page_entries g p = Ok n <->
  p < g_page_count g /\ n = Z.min (g_volume_blocks g - p * 336) 336.
Proof.
  unfold page_entries. change ENTRIES_PER_PAGE with 336.
  destruct (Z.leb_spec (g_page_count g) p); naive_solver lia.
Qed.

(** The geometry computed by [Geometry::new] is consistent and fits the
    machine widths: every size bound the rest of the engine relies on holds,
    and the logical block addresses of the volume are exactly the pairs of a
    page below [page_count] and an entry below that page's [page_entries]. *)
Theorem new_partitions_volume v b g :
  is_u32 v -> new v b = Ok g ->
  wf g /\ 4 <= g_log_start g <= 12486 /\ g_page_count g * ENTRIES_PER_PAGE < 2 ^ 32 /\
  forall page entry, 0 <= page -> 0 <= entry < ENTRIES_PER_PAGE ->
    (page * ENTRIES_PER_PAGE + entry < v <->
     exists n, page_entries g page = Ok n /\ entry < n).
Proof.
  intros [Hv _] Hg. apply new_wf in Hg as (Hwf & <- & <-); [|done].
  split; [done|]. destruct Hwf as [Hv' Hp Hi Hs Hb].
  change ENTRIES_PER_PAGE with 336. split_and!; [lia..|].
  intros page entry Hpage Hentry. split.
  - intros Hlt. exists (Z.min (g_volume_blocks g - page * 336) 336).
    rewrite page_entries_Ok. lia.
  - intros (n & Hn & Hlt). apply page_entries_Ok in Hn. lia.
Qed.

Lemma new_partitions_volume_witness :
  exists g, new 673 1000 = Ok g /\ g_log_start g = 4 /\
    (2 * 336 + 0 < 673 <-> exists n, page_entries g 2 = Ok n /\ 0 < n).
Proof.
  eexists. split; [reflexivity|]. split; [reflexivity|].
  apply (new_partitions_volume 673 1000); [split; lia | reflexivity | lia |].
  vm_compute; split; congruence.
Defined.

End Geometry.
#[export] Hint Resolve Geometry.new_not_Panic Geometry.page_entries_not_Panic : rust.
