(* ===== verification/Format.v ===== *)
(** Record headers and sealed metadata: [src/rust/src/format_v3.rs], with the
    checksum helpers of [src/rust/src/lib.rs].  The hash function of the
    [xxhash-rust] crate is the parameter [xxh3]. *)

From S2P Require Import Prelude Bytes Geometry.

(** [xxh3 seed bytes] is the digest of [Xxh3::with_seed(seed)] after updates
    whose concatenation is [bytes]; [Xxh3::new()] and [xxh3_64] use seed 0.
    All the engine needs of it is that it returns a [u64]. *)
Class Xxh3 := {
  xxh3 : Z -> list Z -> Z;
  xxh3_range : forall seed bytes, is_u64 (xxh3 seed bytes);
}.

(** A concrete hash for the witnesses: two running sums, so the order of the bytes counts. *)
Definition fold_hash (seed : Z) (bytes : list Z) : Z :=
  (fold_left (fun '(a, s) b => (a + b + 1, s + a)) bytes (seed, 0)).2 mod 2 ^ 64.

Lemma fold_hash_range seed bytes : is_u64 (fold_hash seed bytes).
Proof. apply Z.mod_pos_bound. done. Qed.

Definition fold_xxh3 : Xxh3 := {| xxh3 := fold_hash; xxh3_range := fold_hash_range |}.

Definition VERSION : Z := 3.
Definition CHECKSUM_OFFSET : Z := BLOCK_SIZE - 8.
(** b"VBLF" *)
Definition RECORD_MAGIC : list Z := [86; 66; 76; 70].

Ltac blk_constants ::= unfold RECORD_MAGIC.

Inductive RecordKind := Data | MappingPage.

#[global] Instance record_kind_eq_dec : EqDecision RecordKind.
Proof. solve_decision. Defined.

Definition kind_byte (k : RecordKind) : Z :=
  match k with Data => 1 | MappingPage => 2 end.

Definition kind_of_byte (value : Z) : res RecordKind :=
  if value =? 1 then Ok Data
  else if value =? 2 then Ok MappingPage
  else Err (InvalidData "unknown version-3 record kind").

Record RecordHeader := {
  h_kind : RecordKind;
  h_volume_id : Z;
  h_lsn : Z;
  h_previous_boundary : Z;
  h_boundary : Z;
}.

#[global] Instance record_header_eq_dec : EqDecision RecordHeader.
Proof. solve_decision. Defined.

(** The field widths of the Rust struct. *)
Definition header_typed (h : RecordHeader) : Prop :=
  is_u64 (h_volume_id h) /\ is_u64 (h_lsn h) /\
  is_u32 (h_previous_boundary h) /\ is_u32 (h_boundary h).

Section format.
Context `{Xxh3}.

(** [payload_checksum] of lib.rs. *)
Definition payload_checksum (volume_id lba physical_block : Z) (payload : list Z) : Z :=
  xxh3 volume_id (le_bytes 4 lba ++ le_bytes 4 physical_block ++ payload).

Definition metadata_checksum (bytes : list Z) : Z :=
  xxh3 0 (slice 0 CHECKSUM_OFFSET bytes ++ zeros 8).

Definition seal_metadata (bytes : list Z) : list Z :=
  put CHECKSUM_OFFSET (le_bytes 8 (metadata_checksum bytes)) bytes.

Definition validate_metadata (bytes magic : list Z) : res (list Z) :=
  fail_if (negb (lenZ bytes =? BLOCK_SIZE)) (InvalidData "metadata block length") ;;?
  fail_if (negb (bool_decide (slice 0 4 bytes = magic)) || negb (getb bytes 4 =? VERSION))
    (InvalidData "metadata magic or format version mismatch") ;;?
  fail_if (negb (read_u64 bytes CHECKSUM_OFFSET =? metadata_checksum bytes))
    (InvalidData "metadata checksum mismatch") ;;?
  Ok bytes.

Definition payload_count (h : RecordHeader) : res Z :=
  let distance := checked_sub (h_boundary h) (h_previous_boundary h) in
  count <-? match h_kind h, distance with
            | MappingPage, Some 1 => Ok 0
            | Data, Some distance =>
                if (2 <=? distance) && (distance <=? 339) then Ok (distance - 1)
                else Err (InvalidData "invalid version-3 record length")
            | _, _ => Err (InvalidData "invalid version-3 record length")
            end ;;
  fail_if (h_lsn h =? 0) (InvalidData "record LSN must be nonzero") ;;?
  assert_ (count <=? MAXIMUM_PAYLOAD_BLOCKS) ;;?
  Ok count.

Definition follows (h : RecordHeader) (previous_lsn previous_boundary : Z) : bool :=
  bool_decide (Some (h_lsn h) = checked_add 64 previous_lsn 1)
  && (h_previous_boundary h =? previous_boundary).

Definition validate_location (h : RecordHeader) (volume_id log_start backing_blocks : Z)
    : res unit :=
  fail_if (negb (h_volume_id h =? volume_id) || (log_start =? 0)
           || (h_previous_boundary h <? log_start - 1)
           || (backing_blocks <=? h_boundary h))
    (InvalidData "record identity or physical bounds mismatch") ;;?
  payload_count h ;;?
  Ok tt.

Definition header_bytes (h : RecordHeader) : list Z :=
  put 28 (le_bytes 4 (h_boundary h))
  (put 24 (le_bytes 4 (h_previous_boundary h))
  (put 16 (le_bytes 8 (h_lsn h))
  (put 8 (le_bytes 8 (h_volume_id h))
  (put 5 [kind_byte (h_kind h)]
  (put 4 [VERSION]
  (put 0 RECORD_MAGIC zero_block)))))).

(** [RecordHeader::encode]: the block is filled with zeros first, so its
    previous contents do not matter; an error leaves it untouched. *)
Definition encode_header (h : RecordHeader) : res (list Z) :=
  payload_count h ;;?
  Ok (header_bytes h).

Definition decode_fields (bytes : list Z) : res RecordHeader :=
  fail_if (negb (bool_decide (slice 0 4 bytes = RECORD_MAGIC))
           || negb (getb bytes 4 =? VERSION)
           || negb (bool_decide (slice 6 2 bytes = [0; 0])))
    (InvalidData "record magic, version, or padding mismatch") ;;?
  kind <-? kind_of_byte (getb bytes 5) ;;
  let header := {| h_kind := kind;
                   h_volume_id := read_u64 bytes 8;
                   h_lsn := read_u64 bytes 16;
                   h_previous_boundary := read_u32 bytes 24;
                   h_boundary := read_u32 bytes 28 |} in
  payload_count header ;;?
  Ok header.

Definition decode_header (bytes : list Z) : res RecordHeader :=
  bytes <-? validate_metadata bytes RECORD_MAGIC ;;
  decode_fields bytes.

(** ** Record lengths *)

(** The number of payload blocks is determined by the kind and the distance. *)
Lemma payload_count_Ok h n :
  payload_count h = Ok n <->
  h_lsn h <> 0 /\
  match h_kind h with
  | MappingPage => h_boundary h = h_previous_boundary h + 1 /\ n = 0
  | Data => 1 <= n <= 338 /\ h_boundary h = h_previous_boundary h + n + 1
  end.
Proof.
  unfold payload_count, checked_sub, assert_, MAXIMUM_PAYLOAD_BLOCKS, MAXIMUM_RECORD_BLOCKS.
  change (339 - 1) with 338.
  destruct (Z.leb_spec (h_previous_boundary h) (h_boundary h)) as [Hle|Hgt].
  2: { destruct (h_kind h); simpl; split; try discriminate; lia. }
  destruct (h_kind h).
  - destruct (Z.leb_spec 2 (h_boundary h - h_previous_boundary h)),
      (Z.leb_spec (h_boundary h - h_previous_boundary h) 339); simpl;
      try (split; [discriminate | lia]).
    destruct (Z.eqb_spec (h_lsn h) 0); simpl; [split; [discriminate | lia]|].
    destruct (Z.leb_spec (h_boundary h - h_previous_boundary h - 1) 338); [|lia].
    simpl. split; [intros [= <-]; lia | intros; f_equal; lia].
  - destruct (h_boundary h - h_previous_boundary h) as [|[p|p|]|p] eqn:E; simpl;
      try (split; [discriminate | lia]).
    destruct (Z.eqb_spec (h_lsn h) 0); simpl; [split; [discriminate | lia]|].
    split; [intros [= <-]; lia | intros (_ & _ & ->); done].
Qed.

(** [assert!(count <= MAXIMUM_PAYLOAD_BLOCKS)] cannot fail. *)
Lemma payload_count_not_Panic h : payload_count h <> Panic.
Proof.
  unfold payload_count, checked_sub, assert_, MAXIMUM_PAYLOAD_BLOCKS, MAXIMUM_RECORD_BLOCKS.
  change (339 - 1) with 338.
  destruct (Z.leb_spec (h_previous_boundary h) (h_boundary h)) as [Hle|Hgt];
    [|by destruct (h_kind h)].
  destruct (h_kind h).
  - destruct (Z.leb_spec 2 (h_boundary h - h_previous_boundary h)),
      (Z.leb_spec (h_boundary h - h_previous_boundary h) 339); simpl; try done.
    destruct (h_lsn h =? 0); simpl; [done|].
    destruct (Z.leb_spec (h_boundary h - h_previous_boundary h - 1) 338); [done|lia].
  - destruct (h_boundary h - h_previous_boundary h) as [|[p|p|]|p]; simpl; try done.
    by destruct (h_lsn h =? 0).
Qed.

Lemma validate_location_not_Panic h v s b : validate_location h v s b <> Panic.
Proof. unfold validate_location. pose proof (payload_count_not_Panic h). no_panic. Qed.

Lemma validate_metadata_not_Panic b magic : validate_metadata b magic <> Panic.
Proof. unfold validate_metadata. no_panic. Qed.

Lemma encode_header_not_Panic h : encode_header h <> Panic.
Proof. unfold encode_header. pose proof (payload_count_not_Panic h). no_panic. Qed.

Lemma decode_fields_not_Panic b : decode_fields b <> Panic.
Proof.
  unfold decode_fields. apply rbind_not_Panic; [apply fail_if_not_Panic|]. intros _ _.
  apply rbind_not_Panic; [unfold kind_of_byte; no_panic|]. intros kind _.
  apply rbind_not_Panic; [apply payload_count_not_Panic | discriminate].
Qed.

Lemma validate_location_Ok h v s b :
  validate_location h v s b = Ok tt <->
  h_volume_id h = v /\ s <> 0 /\ s - 1 <= h_previous_boundary h /\ h_boundary h < b /\
  exists n, payload_count h = Ok n.
Proof.
  unfold validate_location. rewrite rbind_Ok. split.
  - intros ([] & Hg & Hc). apply fail_if_Ok in Hg. bool_prop.
    apply rbind_Ok in Hc as (n & Hn & _). split_and!; eauto; lia.
  - intros (-> & Hs & Hp & Hb & n & Hn). exists tt. rewrite Hn. split; [|done].
    apply fail_if_Ok. rewrite Z.eqb_refl.
    destruct (Z.eqb_spec s 0), (Z.ltb_spec (h_previous_boundary h) (s - 1)),
      (Z.leb_spec b (h_boundary h)); simpl; lia || done.
Qed.

Lemma kind_of_kind_byte k : kind_of_byte (kind_byte k) = Ok k.
Proof. by destruct k. Qed.

Lemma kind_of_byte_Ok b k : kind_of_byte b = Ok k -> b = kind_byte k.
Proof.
  unfold kind_of_byte. destruct (Z.eqb_spec b 1) as [->|]; [intros [= <-]; done|].
  destruct (Z.eqb_spec b 2) as [->|]; [intros [= <-]; done | discriminate].
Qed.

Lemma header_bytes_len h : lenZ (header_bytes h) = 4096.
Proof. unfold header_bytes. blk. Qed.

Lemma header_bytes_ok h : block_ok (header_bytes h).
Proof.
  split; [apply header_bytes_len|]. unfold header_bytes.
  repeat (apply put_ok; [first [apply le_bytes_ok
    | repeat constructor; unfold VERSION; try (destruct (h_kind h)); simpl; lia]|]).
  apply zeros_ok.
Qed.

Lemma header_bytes_tail h o n :
  32 <= o -> 0 <= n -> o + n <= 4096 -> slice o n (header_bytes h) = zeros n.
Proof.
  intros. unfold header_bytes. fields. apply slice_zeros; unfold BLOCK_SIZE; lia.
Qed.

Lemma header_bytes_magic h : slice 0 4 (header_bytes h) = RECORD_MAGIC.
Proof. unfold header_bytes. fields. done. Qed.

Lemma header_bytes_version h : getb (header_bytes h) 4 = VERSION.
Proof. unfold header_bytes. fields. done. Qed.

(** [decode_fields] reads only the first 32 bytes, so it sees a header through
    whatever the codecs store after it. *)
Lemma decode_fields_prefix a b :
  lenZ a = 4096 -> lenZ b = 4096 -> slice 0 32 a = slice 0 32 b ->
  decode_fields a = decode_fields b.
Proof.
  intros Ha Hb Hab.
  assert (Hs : forall o n, 0 <= o -> 0 <= n -> o + n <= 32 -> slice o n a = slice o n b).
  { intros o n ? ? ?. apply slice_ext; try lia. intros i Hi.
    pose proof (getb_slice 0 32 a i ltac:(lia) ltac:(lia) ltac:(lia)) as E1.
    pose proof (getb_slice 0 32 b i ltac:(lia) ltac:(lia) ltac:(lia)) as E2.
    rewrite Z.add_0_l in E1, E2. by rewrite <- E1, <- E2, Hab. }
  assert (Hg : forall i, 0 <= i < 32 -> getb a i = getb b i).
  { intros i Hi. pose proof (Hs i 1 ltac:(lia) ltac:(lia) ltac:(lia)) as E.
    apply (f_equal (fun l => getb l 0)) in E. rewrite !getb_slice, Z.add_0_r in E by lia. done. }
  unfold decode_fields, read_u64, read_u32.
  rewrite !Hs, !Hg by lia. done.
Qed.

Lemma decode_fields_header_bytes h :
  header_typed h -> (exists n, payload_count h = Ok n) -> decode_fields (header_bytes h) = Ok h.
Proof.
  intros (Hv & Hl & Hp & Hb) (n & Hn). unfold decode_fields, read_u64, read_u32, header_bytes.
  fields. assert (slice 6 2 zero_block = [0; 0]) as -> by (vm_compute; reflexivity).
  rewrite !le_u64, !le_u32 by done. rewrite kind_of_kind_byte.
  destruct h; simpl in *. by rewrite Hn.
Qed.

(** What a successful [decode_fields] says about the bytes. *)
Lemma decode_fields_Ok b h :
  block_ok b -> decode_fields b = Ok h ->
  header_typed h /\ (exists n, payload_count h = Ok n) /\
  slice 0 32 b = slice 0 32 (header_bytes h).
Proof.
  intros [Hl Hb] Hd. change BLOCK_SIZE with 4096 in Hl. unfold decode_fields in Hd. ok_inv. bool_prop.
  match goal with H : kind_of_byte _ = _ |- _ => apply kind_of_byte_Ok in H as Hk end.
  split_and!; eauto.
  { unfold header_typed; cbn [h_volume_id h_lsn h_previous_boundary h_boundary].
    split_and!; apply read_u64_bound || apply read_u32_bound; done || lia. }
  apply slice_ext; rewrite ?header_bytes_len; try lia. intros i Hi.
  unfold header_bytes; cbn [h_kind h_volume_id h_lsn h_previous_boundary h_boundary].
  unfold read_u64, read_u32.
  rewrite !getb_at by blk. rewrite !length_le_bytes. cbn [length].
  change (lenZ RECORD_MAGIC) with 4. change (Z.of_nat 4) with 4. change (Z.of_nat 8) with 8.
  change (Z.of_nat 1) with 1.
  destruct (Z.leb_spec 28 i), (Z.ltb_spec i (28 + 4)); cbn [andb]; try lia.
  { symmetry. apply (getb_le_bytes_read 4 28); done || lia. }
  destruct (Z.leb_spec 24 i), (Z.ltb_spec i (24 + 4)); cbn [andb]; try lia.
  { symmetry. apply (getb_le_bytes_read 4 24); done || lia. }
  destruct (Z.leb_spec 16 i), (Z.ltb_spec i (16 + 8)); cbn [andb]; try lia.
  { symmetry. apply (getb_le_bytes_read 8 16); done || lia. }
  destruct (Z.leb_spec 8 i), (Z.ltb_spec i (8 + 8)); cbn [andb]; try lia.
  { symmetry. apply (getb_le_bytes_read 8 8); done || lia. }
  assert (i = 0 \/ i = 1 \/ i = 2 \/ i = 3 \/ i = 4 \/ i = 5 \/ i = 6 \/ i = 7) as Hcases by lia.
  assert (Hm : forall j, 0 <= j < 4 -> getb b j = getb RECORD_MAGIC j).
  { intros j Hj. replace j with (0 + j) at 1 by lia. rewrite <- getb_slice with (n := 4) by lia.
    congruence. }
  assert (Hz : forall j, 0 <= j < 2 -> getb b (6 + j) = getb [0; 0] j).
  { intros j Hj. rewrite <- getb_slice with (n := 2) by lia. congruence. }
  pose proof (Hz 0 ltac:(lia)). pose proof (Hz 1 ltac:(lia)).
  destruct Hcases as [->|[->|[->|[->|[->|[->|[->| ->]]]]]]]; cbn [Z.leb Z.ltb andb];
    simpl; first [by apply Hm | done].
Qed.

(** ** Sealed metadata *)

Lemma seal_prefix b o n :
  lenZ b = 4096 -> 0 <= o -> 0 <= n -> o + n <= 4088 ->
  slice o n (seal_metadata b) = slice o n b.
Proof. intros. unfold seal_metadata, CHECKSUM_OFFSET, BLOCK_SIZE. fields. done. Qed.

Lemma seal_len b : lenZ b = 4096 -> lenZ (seal_metadata b) = 4096.
Proof. intros. unfold seal_metadata, CHECKSUM_OFFSET, BLOCK_SIZE. blk. Qed.

Lemma seal_ok b : block_ok b -> block_ok (seal_metadata b).
Proof.
  intros [? ?]. split; [by apply seal_len | apply put_ok; [apply le_bytes_ok | done]].
Qed.

Lemma seal_getb b i : lenZ b = 4096 -> 0 <= i < 4088 -> getb (seal_metadata b) i = getb b i.
Proof. intros. unfold seal_metadata, CHECKSUM_OFFSET, BLOCK_SIZE. fields. done. Qed.

Lemma seal_checksum b :
  lenZ b = 4096 -> metadata_checksum (seal_metadata b) = metadata_checksum b.
Proof.
  intros. unfold metadata_checksum. f_equal. f_equal. by apply seal_prefix.
Qed.

Lemma validate_sealed b magic :
  lenZ b = 4096 -> slice 0 4 b = magic -> getb b 4 = VERSION ->
  validate_metadata (seal_metadata b) magic = Ok (seal_metadata b).
Proof.
  intros Hl Hm Hv. unfold validate_metadata.
  assert (read_u64 (seal_metadata b) CHECKSUM_OFFSET = metadata_checksum b) as ->.
  { unfold read_u64, seal_metadata, CHECKSUM_OFFSET, BLOCK_SIZE. fields. apply le_u64, xxh3_range. }
  rewrite seal_len, seal_prefix, seal_getb, seal_checksum by lia.
  rewrite Hm, Hv, !Z.eqb_refl, bool_decide_eq_true_2 by done. done.
Qed.

(** A block that validates is the seal of any block with the same body. *)
Lemma validate_metadata_Ok b magic b' :
  validate_metadata b magic = Ok b' ->
  b' = b /\ lenZ b = 4096 /\ slice 0 4 b = magic /\ getb b 4 = VERSION /\
  read_u64 b CHECKSUM_OFFSET = metadata_checksum b.
Proof.
  unfold validate_metadata. intros. ok_inv. bool_prop. unfold BLOCK_SIZE in *. split_and!; done.
Qed.

Lemma validated_is_sealed b b0 :
  block_ok b -> lenZ b0 = 4096 -> read_u64 b CHECKSUM_OFFSET = metadata_checksum b ->
  slice 0 4088 b = slice 0 4088 b0 -> seal_metadata b0 = b.
Proof.
  intros [Hl Hb] H0 Hc Hs. change BLOCK_SIZE with 4096 in Hl. symmetry. apply getb_ext; rewrite ?seal_len by done; [lia|].
  intros i Hi. destruct (decide (i < 4088)).
  - rewrite seal_getb by lia. replace i with (0 + i) by lia.
    rewrite <- !getb_slice with (n := 4088) by lia. by rewrite Hs.
  - unfold seal_metadata.
    assert (metadata_checksum b0 = metadata_checksum b) as ->.
    { unfold metadata_checksum. change CHECKSUM_OFFSET with 4088. by rewrite Hs. }
    rewrite <- Hc. change CHECKSUM_OFFSET with 4088 in *.
    rewrite getb_at by blk. rewrite length_le_bytes.
    destruct (Z.leb_spec 4088 i), (Z.ltb_spec i (4088 + Z.of_nat 8)); try lia. cbn [andb].
    unfold read_u64. symmetry. apply (getb_le_bytes_read 8 4088); done || lia.
Qed.

(** A header survives the round trip: the block [encode] writes for a
    header of the declared widths, sealed, decodes to that header; and the
    chain condition [follows] accepts exactly the next LSN at the boundary the
    previous record ended on. *)
Theorem header_roundtrip h b :
  header_typed h -> encode_header h = Ok b ->
  decode_header (seal_metadata b) = Ok h /\
  (forall lsn boundary, is_u64 lsn ->
     follows h lsn boundary = true <-> h_lsn h = lsn + 1 /\ h_previous_boundary h = boundary).
Proof.
  intros Ht He. unfold encode_header in He. ok_inv. split.
  - unfold decode_header. rewrite validate_sealed; [|apply header_bytes_len|..].
    + simpl. rewrite decode_fields_prefix with (b := header_bytes h).
      * eauto using decode_fields_header_bytes.
      * apply seal_len, header_bytes_len.
      * apply header_bytes_len.
      * apply seal_prefix; [apply header_bytes_len | lia..].
    + unfold header_bytes. fields. done.
    + unfold header_bytes. fields. done.
  - intros lsn boundary [Hl Hu]. unfold follows. rewrite andb_true_iff, Z.eqb_eq, bool_decide_eq_true.
    destruct Ht as (_ & Ht & _). red in Ht.
    assert (Some (h_lsn h) = checked_add 64 lsn 1 <-> h_lsn h = lsn + 1); [|tauto].
    split.
    + intros E. symmetry in E. apply checked_add_Some in E as [-> _]. done.
    + intros E. symmetry. apply checked_add_Some. lia.
Qed.

End format.

Lemma header_roundtrip_witness :
  let H := fold_xxh3 in
  let h := {| h_kind := Data; h_volume_id := 7; h_lsn := 1;
              h_previous_boundary := 3; h_boundary := 5 |} in
  exists b, encode_header h = Ok b /\ decode_header (seal_metadata b) = Ok h.
Proof.
  intros H h. eexists. split; [reflexivity|].
  refine (proj1 (header_roundtrip h _ _ _)); [|reflexivity].
  repeat split; vm_compute; congruence.
Defined.

#[export] Hint Resolve payload_count_not_Panic validate_location_not_Panic validate_metadata_not_Panic
  encode_header_not_Panic decode_fields_not_Panic : rust.
#[export] Hint Resolve header_bytes_len header_bytes_ok seal_len seal_ok : rust.
