(* ===== verification/DataRecord.v ===== *)
(** Data-record footers: [src/rust/src/format_v3/data_record.rs]. *)

From S2P Require Import Prelude Bytes Geometry Format.

Definition LBA_OFFSET : Z := 32.
Definition PAYLOAD_CHECKSUM_OFFSET : Z := 1384.

Record DataRecord := {
  d_header : RecordHeader;
  d_lba_ids : list Z;
  d_checksums : list Z;
}.

Module DataRecord.

(** The widths and lengths of the Rust struct. *)
Definition typed (r : DataRecord) : Prop :=
  header_typed (d_header r) /\
  lenZ (d_lba_ids r) = MAXIMUM_PAYLOAD_BLOCKS /\ Forall is_u32 (d_lba_ids r) /\
  lenZ (d_checksums r) = MAXIMUM_PAYLOAD_BLOCKS /\ Forall is_u64 (d_checksums r).

Section codec.
Context `{Xxh3}.

Definition validate (r : DataRecord) (g : Geometry) : res unit :=
  fail_if (negb (bool_decide (h_kind (d_header r) = Data)))
    (InvalidData "expected data record") ;;?
  validate_location (d_header r) (h_volume_id (d_header r))
    (g_log_start g) (g_backing_blocks g) ;;?
  count <-? payload_count (d_header r) ;;
  fail_if
    (existsb
       (fun index =>
          (g_volume_blocks g <=? arr (d_lba_ids r) index)
          || existsb (Z.eqb (arr (d_lba_ids r) index)) (take (Z.to_nat index) (d_lba_ids r)))
       (seqZ 0 count))
    (InvalidData "out-of-range or duplicate record LBA") ;;?
  fail_if
    (existsb (fun lba => negb (lba =? 0)) (drop (Z.to_nat count) (d_lba_ids r))
     || existsb (fun checksum => negb (checksum =? 0)) (drop (Z.to_nat count) (d_checksums r)))
    (InvalidData "nonzero unused data-footer entry") ;;?
  Ok tt.

(** The loop that stores both arrays over the encoded header. *)
Definition put_arrays (r : DataRecord) (bytes : list Z) : list Z :=
  put_entries (Z.to_nat MAXIMUM_PAYLOAD_BLOCKS)
    LBA_OFFSET (d_lba_ids r) PAYLOAD_CHECKSUM_OFFSET (d_checksums r) bytes.

Definition encode (r : DataRecord) (g : Geometry) : res (list Z) :=
  validate r g ;;?
  bytes <-? encode_header (d_header r) ;;
  Ok (seal_metadata (put_arrays r bytes)).

Definition decode (bytes : list Z) (g : Geometry) (volume_id : Z) : res DataRecord :=
  header <-? decode_header bytes ;;
  fail_if (negb (h_volume_id header =? volume_id)) (InvalidData "data-record volume mismatch") ;;?
  let record := {| d_header := header;
                   d_lba_ids := read_array 4 MAXIMUM_PAYLOAD_BLOCKS LBA_OFFSET bytes;
                   d_checksums := read_array 8 MAXIMUM_PAYLOAD_BLOCKS PAYLOAD_CHECKSUM_OFFSET bytes
                |} in
  validate record g ;;?
  Ok record.

(** What [validate] accepts: a data record inside the log whose logical
    addresses are distinct addresses of the volume and whose unused entries
    are zero. *)
Record valid (r : DataRecord) (g : Geometry) (count : Z) : Prop := {
  valid_kind : h_kind (d_header r) = Data;
  valid_lsn : h_lsn (d_header r) <> 0;
  valid_count : 1 <= count <= 338;
  valid_extent : h_boundary (d_header r) = h_previous_boundary (d_header r) + count + 1;
  valid_start : g_log_start g <= h_previous_boundary (d_header r) + 1;
  valid_end : h_boundary (d_header r) < g_backing_blocks g;
  valid_range : forall i, 0 <= i < count -> arr (d_lba_ids r) i < g_volume_blocks g;
  valid_distinct : forall i j, 0 <= i < j -> j < count ->
    arr (d_lba_ids r) i <> arr (d_lba_ids r) j;
  valid_unused_lbas : forall i, count <= i < 338 -> arr (d_lba_ids r) i = 0;
  valid_unused_sums : forall i, count <= i < 338 -> arr (d_checksums r) i = 0;
}.

Lemma record_validate_not_Panic r g : validate r g <> Panic.
Proof. unfold validate. no_panic. Qed.

Lemma record_encode_not_Panic r g : encode r g <> Panic.
Proof. unfold encode. pose proof (record_validate_not_Panic r g). no_panic. Qed.

Lemma record_decode_not_Panic b g v : decode b g v <> Panic.
Proof.
  unfold decode, decode_header. apply rbind_not_Panic; [no_panic|]. intros header _.
  apply rbind_not_Panic; [apply fail_if_not_Panic|]. intros _ _.
  apply rbind_not_Panic; [apply record_validate_not_Panic | discriminate].
Qed.

Lemma existsb_false {A} (f : A -> bool) l :
  existsb f l = false <-> forall x, x ∈ l -> f x = false.
Proof.
  induction l as [|a l IH]; simpl; [split; [intros _ x Hx; set_solver | done]|].
  rewrite orb_false_iff, IH. split.
  - intros [Ha Hl] x Hx. apply elem_of_cons in Hx as [->|Hx]; auto.
  - intros Hf. split; intros; apply Hf; set_solver.
Qed.

Lemma elem_of_drop_arr (l : list Z) n N x :
  0 <= n -> lenZ l = N -> x ∈ drop (Z.to_nat n) l <-> exists i, n <= i < N /\ x = arr l i.
Proof.
  intros Hn Hl. rewrite list_elem_of_lookup. unfold arr. split.
  - intros [i Hi]. rewrite lookup_drop in Hi. exists (n + Z.of_nat i).
    pose proof (lookup_lt_Some _ _ _ Hi). split; [lia|].
    rewrite nth_lookup. replace (Z.to_nat (n + Z.of_nat i)) with (Z.to_nat n + i)%nat by lia.
    by rewrite Hi.
  - intros (i & Hi & ->). exists (Z.to_nat i - Z.to_nat n)%nat. rewrite lookup_drop.
    replace (Z.to_nat n + (Z.to_nat i - Z.to_nat n))%nat with (Z.to_nat i) by lia.
    destruct (lookup_lt_is_Some_2 l (Z.to_nat i)) as [x Hx]; [lia|].
    by rewrite nth_lookup, Hx.
Qed.

Lemma elem_of_take_arr (l : list Z) n x :
  0 <= n <= lenZ l -> x ∈ take (Z.to_nat n) l <-> exists i, 0 <= i < n /\ x = arr l i.
Proof.
  intros Hn. rewrite list_elem_of_lookup. unfold arr. split.
  - intros [i Hi]. rewrite lookup_take_Some in Hi. destruct Hi as [Hi Hlt].
    exists (Z.of_nat i). split; [lia|]. by rewrite Nat2Z.id, nth_lookup, Hi.
  - intros (i & Hi & ->). exists (Z.to_nat i).
    destruct (lookup_lt_is_Some_2 l (Z.to_nat i)) as [x Hx]; [lia|].
    rewrite nth_lookup, Hx, lookup_take_Some. simpl. split; [done | lia].
Qed.

Lemma unused_zero (l : list Z) count :
  0 <= count -> lenZ l = 338 ->
  existsb (fun x => negb (x =? 0)) (drop (Z.to_nat count) l) = false <->
  forall i, count <= i < 338 -> arr l i = 0.
Proof.
  intros Hc Hl. rewrite existsb_false. split.
  - intros Hz i Hi. specialize (Hz (arr l i)). bool_prop.
    enough (negb (arr l i =? 0) = false) as E by (bool_prop; done).
    apply Hz. apply (elem_of_drop_arr l count 338); eauto.
  - intros Hz x Hx. apply (elem_of_drop_arr l count 338) in Hx as (i & Hi & ->); [|done..].
    by rewrite Hz.
Qed.

Lemma lba_loop (l : list Z) v count :
  count <= lenZ l ->
  existsb (fun index => (v <=? arr l index)
                        || existsb (Z.eqb (arr l index)) (take (Z.to_nat index) l))
          (seqZ 0 count) = false <->
  (forall i, 0 <= i < count -> arr l i < v) /\
  (forall i j, 0 <= i < j -> j < count -> arr l i <> arr l j).
Proof.
  intros Hl. rewrite existsb_false. split.
  - intros Hf. split.
    + intros i Hi. specialize (Hf i ltac:(apply elem_of_seqZ; lia)). bool_prop. lia.
    + intros i j Hi Hj. specialize (Hf j ltac:(apply elem_of_seqZ; lia)). bool_prop.
      intros E. rewrite existsb_false in H1.
      specialize (H1 (arr l i)). apply not_true_iff_false in H1; [apply H1; lia|].
      apply elem_of_take_arr; [lia|]. eauto with lia.
  - intros [Hr Hd] j Hj. apply elem_of_seqZ in Hj. apply orb_false_iff. split.
    + apply Z.leb_gt, Hr. lia.
    + apply existsb_false. intros x Hx. apply elem_of_take_arr in Hx as (i & Hi & ->); [|lia].
      apply Z.eqb_neq. intros E. by apply (Hd i j); [lia..|].
Qed.

Lemma record_validate_Ok r g :
  lenZ (d_lba_ids r) = 338 -> lenZ (d_checksums r) = 338 -> g_log_start g <> 0 ->
  validate r g = Ok tt <-> exists count, valid r g count.
Proof.
  intros Hl Hc Hs. unfold validate. split.
  - intros Hv. ok_inv. bool_prop.
    match goal with H : validate_location _ _ _ _ = _ |- _ =>
      apply validate_location_Ok in H as (_ & _ & ? & ? & _) end.
    match goal with H : payload_count _ = Ok ?n |- _ =>
      rename n into count; apply payload_count_Ok in H as [? Hn] end.
    rewrite H0 in Hn. destruct Hn as [Hn Hb].
    match goal with H : existsb _ (seqZ _ _) = false |- _ =>
      apply lba_loop in H as [? ?]; [|lia] end.
    repeat match goal with H : existsb _ (drop _ _) = false |- _ =>
      rewrite unused_zero in H by lia end.
    exists count. constructor; auto; lia.
  - intros [count [Hk Hls Hn He Hst Hen Hr Hd Hu1 Hu2]].
    assert (payload_count (d_header r) = Ok count) as Hp.
    { apply payload_count_Ok. rewrite Hk. lia. }
    rewrite Hk. cbn [rbind fail_if bool_decide].
    rewrite (proj2 (validate_location_Ok _ _ _ _)) by (split_and!; eauto; lia).
    rewrite Hp. cbn [rbind fail_if].
    rewrite (proj2 (lba_loop (d_lba_ids r) (g_volume_blocks g) count ltac:(lia))) by done. cbn [rbind fail_if].
    rewrite (proj2 (unused_zero (d_lba_ids r) count ltac:(lia) Hl)) by done.
    rewrite (proj2 (unused_zero (d_checksums r) count ltac:(lia) Hc)) by done. done.
Qed.

(** The footer [encode] stores before sealing. *)
Definition footer (r : DataRecord) : list Z := put_arrays r (header_bytes (d_header r)).

Lemma record_encode_Ok r g b :
  encode r g = Ok b ->
  validate r g = Ok tt /\ (exists n, payload_count (d_header r) = Ok n) /\
  b = seal_metadata (footer r).
Proof.
  unfold encode, encode_header. intros. ok_inv.
  split_and!; [assumption | eexists; eassumption | unfold footer; reflexivity].
Qed.

Lemma footer_len r : lenZ (footer r) = 4096.
Proof.
  unfold footer, put_arrays. rewrite length_put_entries; rewrite ?header_bytes_len;
    unfold LBA_OFFSET, PAYLOAD_CHECKSUM_OFFSET, MAXIMUM_PAYLOAD_BLOCKS, MAXIMUM_RECORD_BLOCKS; lia.
Qed.

Lemma footer_prefix r : slice 0 32 (footer r) = slice 0 32 (header_bytes (d_header r)).
Proof.
  unfold footer, put_arrays. apply slice_put_entries_other with (N := 338); rewrite ?header_bytes_len;
    unfold LBA_OFFSET, PAYLOAD_CHECKSUM_OFFSET, MAXIMUM_PAYLOAD_BLOCKS, MAXIMUM_RECORD_BLOCKS; lia.
Qed.

Lemma footer_ok r : block_ok (footer r).
Proof. split; [apply footer_len | apply put_entries_ok, header_bytes_ok]. Qed.

Lemma footer_lba r i :
  0 <= i < 338 -> slice (LBA_OFFSET + i * 4) 4 (footer r) = le_bytes 4 (arr (d_lba_ids r) i).
Proof.
  intros. unfold footer, put_arrays. apply slice_put_entries_1 with (N := 338); rewrite ?header_bytes_len;
    unfold LBA_OFFSET, PAYLOAD_CHECKSUM_OFFSET, MAXIMUM_PAYLOAD_BLOCKS, MAXIMUM_RECORD_BLOCKS; lia.
Qed.

Lemma footer_checksum r i :
  0 <= i < 338 ->
  slice (PAYLOAD_CHECKSUM_OFFSET + i * 8) 8 (footer r) = le_bytes 8 (arr (d_checksums r) i).
Proof.
  intros. unfold footer, put_arrays. apply slice_put_entries_2 with (N := 338); rewrite ?header_bytes_len;
    unfold LBA_OFFSET, PAYLOAD_CHECKSUM_OFFSET, MAXIMUM_PAYLOAD_BLOCKS, MAXIMUM_RECORD_BLOCKS; lia.
Qed.

Lemma record_encode_decode r g b :
  typed r -> encode r g = Ok b ->
  block_ok b /\ decode b g (h_volume_id (d_header r)) = Ok r.
Proof.
  intros (Ht & Hl & Hlu & Hc & Hcu) He. apply record_encode_Ok in He as (Hv & (count & Hp) & ->).
  split; [apply seal_ok, footer_ok|].
  unfold decode, decode_header.
  rewrite validate_sealed; [|apply footer_len|..]; cbn [rbind].
  2,3: unfold footer, put_arrays.
  2: { rewrite slice_put_entries_other with (N := 338); rewrite ?header_bytes_len;
         unfold LBA_OFFSET, PAYLOAD_CHECKSUM_OFFSET, MAXIMUM_PAYLOAD_BLOCKS, MAXIMUM_RECORD_BLOCKS; try lia.
       unfold header_bytes. fields. done. }
  2: { rewrite getb_put_entries with (N := 338); rewrite ?header_bytes_len;
         unfold LBA_OFFSET, PAYLOAD_CHECKSUM_OFFSET, MAXIMUM_PAYLOAD_BLOCKS, MAXIMUM_RECORD_BLOCKS; try lia.
       simpl. unfold header_bytes. fields. done. }
  rewrite decode_fields_prefix with (b := header_bytes (d_header r));
    [|apply seal_len, footer_len | apply header_bytes_len
     | rewrite seal_prefix by (apply footer_len || lia); apply footer_prefix].
  rewrite decode_fields_header_bytes by eauto. cbn [rbind].
  rewrite Z.eqb_refl. cbn [rbind fail_if negb].
  assert (read_array 4 MAXIMUM_PAYLOAD_BLOCKS LBA_OFFSET (seal_metadata (footer r)) = d_lba_ids r) as ->.
  { apply read_array_stored; [done|]. intros i Hi.
    change MAXIMUM_PAYLOAD_BLOCKS with 338 in *.
    rewrite seal_prefix by (apply footer_len || unfold LBA_OFFSET; lia).
    rewrite footer_lba by lia. apply le_u32, Forall_arr; [done | lia]. }
  assert (read_array 8 MAXIMUM_PAYLOAD_BLOCKS PAYLOAD_CHECKSUM_OFFSET (seal_metadata (footer r))
          = d_checksums r) as ->.
  { apply read_array_stored; [done|]. intros i Hi.
    change MAXIMUM_PAYLOAD_BLOCKS with 338 in *.
    rewrite seal_prefix by (apply footer_len || unfold PAYLOAD_CHECKSUM_OFFSET; lia).
    rewrite footer_checksum by lia. apply le_u64, Forall_arr; [done | lia]. }
  destruct r. simpl in *. by rewrite Hv.
Qed.

(** C23. Footer round trip: whatever record of the declared widths [encode]
    accepts, decoding the 4096 bytes it writes for the same geometry and
    volume returns that record with every logical address and checksum. *)
Theorem encode_decode r g b :
  typed r -> encode r g = Ok b ->
  block_ok b /\ decode b g (h_volume_id (d_header r)) = Ok r.
Proof. apply record_encode_decode. Qed.

Lemma record_decode_Ok b g v r :
  block_ok b -> decode b g v = Ok r ->
  typed r /\ h_volume_id (d_header r) = v /\ validate r g = Ok tt /\
  encode_header (d_header r) = Ok (header_bytes (d_header r)) /\
  slice 0 4088 b = slice 0 4088 (footer r) /\ read_u64 b CHECKSUM_OFFSET = metadata_checksum b.
Proof.
  intros Hb Hd. unfold decode, decode_header in Hd. ok_inv. bool_prop.
  match goal with H : validate_metadata _ _ = _ |- _ =>
    apply validate_metadata_Ok in H as (-> & Hl & _ & _ & Hsum) end.
  match goal with H : decode_fields _ = _ |- _ =>
    apply decode_fields_Ok in H as (Hty & (n & Hn) & Hpre); [|done] end.
  rename x into h.
  set (r := {| d_header := h; d_lba_ids := _; d_checksums := _ |}) in *.
  split_and!; try assumption.
  - unfold typed; subst r; cbn [d_header d_lba_ids d_checksums].
    rewrite !length_read_array by done.
    change MAXIMUM_PAYLOAD_BLOCKS with 338 in *. destruct Hb as [Hlen Hok].
    change BLOCK_SIZE with 4096 in Hlen.
    repeat (split; [first [assumption | reflexivity | apply read_array_Forall; intros i Hi;
      apply (read_u32_bound b (32 + i * 4)); done || lia]|]).
    apply read_array_Forall; intros i Hi. apply (read_u64_bound b (1384 + i * 8)); done || lia.
  - unfold encode_header; subst r; cbn [d_header]. by rewrite Hn.
  - apply slice_ext; rewrite ?footer_len; try lia. intros i Hi. unfold footer, put_arrays.
    destruct Hb as [_ Hok].
    rewrite getb_put_entries with (N := 338); rewrite ?header_bytes_len;
      change MAXIMUM_PAYLOAD_BLOCKS with 338; change LBA_OFFSET with 32;
      change PAYLOAD_CHECKSUM_OFFSET with 1384; try lia.
    replace (Z.of_nat (Z.to_nat 338)) with 338 by lia.
    subst r; cbn [d_lba_ids d_checksums d_header].
    pose proof (Z.div_mod (i - 32) 4 ltac:(lia)). pose proof (Z.mod_pos_bound (i - 32) 4 ltac:(lia)).
    pose proof (Z.div_mod (i - 1384) 8 ltac:(lia)). pose proof (Z.mod_pos_bound (i - 1384) 8 ltac:(lia)).
    destruct (Z.leb_spec 32 i), (Z.ltb_spec i (32 + 338 * 4)); cbn [andb]; try lia.
    + rewrite arr_read_array by (change MAXIMUM_PAYLOAD_BLOCKS with 338; lia).
      change LBA_OFFSET with 32.
      replace ((i - 32) mod 4) with (i - (32 + (i - 32) / 4 * 4)) by lia.
      symmetry. apply (getb_le_bytes_read 4); [done | lia..].
    + destruct (Z.leb_spec 1384 i), (Z.ltb_spec i (1384 + 338 * 8)); cbn [andb]; try lia.
      rewrite arr_read_array by (change MAXIMUM_PAYLOAD_BLOCKS with 338; lia).
      change PAYLOAD_CHECKSUM_OFFSET with 1384.
      replace ((i - 1384) mod 8) with (i - (1384 + (i - 1384) / 8 * 8)) by lia.
      symmetry. apply (getb_le_bytes_read 8); [done | lia..].
    + destruct (Z.leb_spec 1384 i); [lia|]. cbn [andb].
      replace i with (0 + i) by lia. rewrite <- !getb_slice with (n := 32)
        by (rewrite ?header_bytes_len; lia). by rewrite Hpre.
Qed.

(** C24. A block that decodes is the canonical encoding of the record it
    decodes to, and that record satisfies every rule of the format: the
    addresses are distinct blocks of the volume, the record lies inside the
    log, unused entries are zero.  Two different blocks never decode to the
    same record. *)
Theorem decode_canonical b g v r :
  block_ok b -> g_log_start g <> 0 -> decode b g v = Ok r ->
  encode r g = Ok b /\ exists count, valid r g count.
Proof.
  intros Hb Hg Hd. apply record_decode_Ok in Hd as (Ht & _ & Hv & He & Hs & Hc); [|done].
  destruct Ht as (_ & Hl & _ & Hc' & _). split; [|by apply record_validate_Ok].
  unfold encode. rewrite Hv, He. cbn [rbind]. f_equal.
  exact (validated_is_sealed b (footer r) Hb (footer_len r) Hc Hs).
Qed.

End codec.

Definition example_geometry : Geometry :=
  {| g_volume_blocks := 512; g_backing_blocks := 1000; g_page_count := 2;
     g_index_blocks := 1; g_log_start := 4 |}.

(** The two-payload record of the Rust unit tests. *)
Definition example_record : DataRecord :=
  {| d_header := {| h_kind := Data; h_volume_id := 7; h_lsn := 1;
                    h_previous_boundary := 3; h_boundary := 6 |};
     d_lba_ids := 0 :: 1 :: zeros 336;
     d_checksums := 72623859790382856 :: 72623859790382857 :: zeros 336 |}.

Lemma example_typed : typed example_record.
Proof.
  split; [|split; [|split; [|split]]].
  - unfold header_typed, is_u64, is_u32; simpl. lia.
  - vm_compute. reflexivity.
  - apply (in_width_spec 32). vm_compute. reflexivity.
  - vm_compute. reflexivity.
  - apply (in_width_spec 64). vm_compute. reflexivity.
Qed.

Lemma encode_decode_witness :
  let H := fold_xxh3 in
  exists b, encode example_record example_geometry = Ok b /\
            decode b example_geometry 7 = Ok example_record.
Proof.
  intros H.
  destruct (is_ok_exists (encode example_record example_geometry)) as [b E];
    [vm_compute; reflexivity|].
  exists b. split; [exact E|].
  exact (proj2 (encode_decode example_record example_geometry b example_typed E)).
Defined.

Definition example_block : list Z :=
  the_ok [] (@encode fold_xxh3 example_record example_geometry).

Lemma decode_canonical_witness :
  let H := fold_xxh3 in
  exists r, decode example_block example_geometry 7 = Ok r /\
            encode r example_geometry = Ok example_block.
Proof.
  intros H.
  destruct (is_ok_exists (decode example_block example_geometry 7)) as [r D];
    [vm_compute; reflexivity|].
  exists r. split; [exact D|].
  refine (proj1 (decode_canonical example_block example_geometry 7 r _ _ D)).
  - apply block_okb_spec. vm_compute. reflexivity.
  - discriminate.
Defined.

End DataRecord.

#[export] Hint Resolve DataRecord.record_encode_not_Panic DataRecord.record_decode_not_Panic : rust.
