(* ===== verification/Entries.v ===== *)
(** Mapping entries: [MappingEntries] and [CacheError] of
    [src/rust/src/mapping_cache.rs], shared by the page codec and the cache. *)

From S2P Require Import Prelude Bytes Geometry.

Record MappingEntries := {
  physical_addr : list Z;
  payload_checksums : list Z;
}.

#[global] Instance mapping_entries_eq_dec : EqDecision MappingEntries.
Proof. solve_decision. Defined.

Inductive CacheError :=
  | InvalidGeometry
  | InvalidCapacity
  | InvalidPage
  | InvalidEntry
  | InvalidMapping
  | SizeOverflow
  | AllocationFailed.

#[global] Instance cache_error_eq_dec : EqDecision CacheError.
Proof. solve_decision. Defined.

Module Entries.

(** The array lengths of the Rust struct. *)
Definition shaped (e : MappingEntries) : Prop :=
  lenZ (physical_addr e) = ENTRIES_PER_PAGE /\ lenZ (payload_checksums e) = ENTRIES_PER_PAGE.

(** The field widths as well. *)
Definition typed (e : MappingEntries) : Prop :=
  shaped e /\ Forall is_u32 (physical_addr e) /\ Forall is_u64 (payload_checksums e).

Definition zeroed : MappingEntries :=
  {| physical_addr := zeros ENTRIES_PER_PAGE; payload_checksums := zeros ENTRIES_PER_PAGE |}.

(** [MappingEntries::validate]: [None] is [Ok(())]. *)
Definition validate (e : MappingEntries) (valid_entries : Z) : option CacheError :=
  if existsb
       (fun index =>
          let physical := arr (physical_addr e) index in
          let checksum := arr (payload_checksums e) index in
          ((physical =? 0) && negb (checksum =? 0))
          || ((valid_entries <=? index) && (negb (physical =? 0) || negb (checksum =? 0))))
       (seqZ 0 (lenZ (physical_addr e)))
  then Some InvalidMapping else None.

Definition get (e : MappingEntries) (i : Z) : Z * Z :=
  (arr (physical_addr e) i, arr (payload_checksums e) i).

Definition set (e : MappingEntries) (i physical checksum : Z) : MappingEntries :=
  {| physical_addr := <[Z.to_nat i := physical]> (physical_addr e);
     payload_checksums := <[Z.to_nat i := checksum]> (payload_checksums e) |}.

(** What [validate] accepts. *)
Definition valid (e : MappingEntries) (valid_entries : Z) : Prop :=
  forall i, 0 <= i < ENTRIES_PER_PAGE ->
    ((get e i).1 = 0 -> (get e i).2 = 0) /\
    (valid_entries <= i -> get e i = (0, 0)).

Lemma existsb_seqZ_false (f : Z -> bool) n :
  existsb f (seqZ 0 n) = false <-> forall i, 0 <= i < n -> f i = false.
Proof.
  split.
  - intros Hf i Hi. apply not_true_iff_false. intros Ht. apply not_true_iff_false in Hf.
    apply Hf, existsb_exists. exists i. split; [|done].
    apply list_elem_of_In, elem_of_seqZ. lia.
  - intros Hf. apply not_true_iff_false. intros (i & Hi & Ht)%existsb_exists.
    apply list_elem_of_In, elem_of_seqZ in Hi. rewrite Hf in Ht by lia. done.
Qed.

Lemma validate_None e n :
  shaped e -> validate e n = None <-> valid e n.
Proof.
  intros [Hl _]. unfold validate, valid, get. rewrite Hl.
  guard Hg.
  - split; [discriminate|]. intros Hv. exfalso. apply not_false_iff_true in Hg. apply Hg.
    apply existsb_seqZ_false. intros i Hi. destruct (Hv i Hi) as [H1 H2]. cbn [fst snd] in H1. cbn zeta.
    destruct (Z.eqb_spec (arr (physical_addr e) i) 0) as [E|E], (Z.leb_spec n i); cbn [andb negb orb].
    + rewrite (H1 E). done.
    + rewrite (H1 E). done.
    + specialize (H2 ltac:(lia)). congruence.
    + done.
  - split; [|done]. intros _ i Hi.
    pose proof (proj1 (existsb_seqZ_false _ _) Hg i Hi) as Hi'. cbn zeta in Hi'.
    apply orb_false_iff in Hi' as [H1 H2].
    destruct (Z.eqb_spec (arr (physical_addr e) i) 0) as [E|E];
      destruct (Z.eqb_spec (arr (payload_checksums e) i) 0) as [E'|E'];
      destruct (Z.leb_spec n i); cbn [andb negb orb fst snd] in *; try discriminate;
      split; intros; try lia; congruence.
Qed.

Lemma zeroed_typed : typed zeroed.
Proof.
  split; [split; done|]. split; apply Forall_replicate; split; done.
Qed.

Lemma arr_zeros n i : arr (zeros n) i = 0.
Proof. apply getb_zeros. Qed.

Lemma zeroed_valid n : valid zeroed n.
Proof. intros i Hi. unfold get, zeroed; cbn [physical_addr payload_checksums]. rewrite !arr_zeros. done. Qed.

Lemma arr_insert (l : list Z) i x j :
  0 <= i < lenZ l -> 0 <= j -> arr (<[Z.to_nat i := x]> l) j = if i =? j then x else arr l j.
Proof.
  intros Hi Hj. unfold arr. rewrite !nth_lookup.
  destruct (Z.eqb_spec i j) as [->|Hne].
  - by rewrite list_lookup_insert_eq by lia.
  - by rewrite list_lookup_insert_ne by lia.
Qed.

Lemma get_set e i p c j :
  shaped e -> 0 <= i < ENTRIES_PER_PAGE -> 0 <= j ->
  get (set e i p c) j = if i =? j then (p, c) else get e j.
Proof.
  intros [Hl Hc] Hi Hj. unfold get, set; cbn [physical_addr payload_checksums].
  rewrite !arr_insert by lia. by destruct (i =? j).
Qed.

Lemma set_shaped e i p c : shaped e -> shaped (set e i p c).
Proof. intros [? ?]. split; cbn; rewrite length_insert; done. Qed.

Lemma set_valid e i p c n :
  shaped e -> valid e n -> 0 <= i < ENTRIES_PER_PAGE -> i < n -> (p = 0 -> c = 0) ->
  valid (set e i p c) n.
Proof.
  intros Hs Hv Hi Hn Hpc j Hj. rewrite get_set by (done || lia).
  destruct (Z.eqb_spec i j) as [->|Hne]; [|by apply Hv]. cbn [fst snd].
  split; [done | lia].
Qed.

Lemma set_typed e i p c : typed e -> is_u32 p -> is_u64 c -> typed (set e i p c).
Proof.
  intros [Hs [Hp Hc]] ? ?. split; [by apply set_shaped|].
  split; cbn; by apply Forall_insert.
Qed.

Lemma get_zeroed i : get zeroed i = (0, 0).
Proof. unfold get, zeroed; cbn [physical_addr payload_checksums]. by rewrite !arr_zeros. Qed.

(** Entries are determined by their pairs. *)
Lemma entries_ext a b :
  shaped a -> shaped b -> (forall i, 0 <= i < ENTRIES_PER_PAGE -> get a i = get b i) -> a = b.
Proof.
  intros [La Ca] [Lb Cb] Hg. destruct a as [pa ca], b as [pb cb]. cbn in *. f_equal.
  - apply arr_ext; [congruence|]. intros i Hi. specialize (Hg i ltac:(lia)).
    unfold get in Hg; cbn in Hg. congruence.
  - apply arr_ext; [congruence|]. intros i Hi. specialize (Hg i ltac:(lia)).
    unfold get in Hg; cbn in Hg. congruence.
Qed.

End Entries.
