(* ===== verification/MappingPage.v ===== *)
(** Mapping-page snapshots: [src/rust/src/format_v3/mapping_page.rs]. *)

From S2P Require Import Prelude Bytes Geometry Format Entries.

Definition ADDRESS_OFFSET : Z := 40.
Definition PAGE_CHECKSUM_OFFSET : Z := 1384.
Definition HEADER_CHECKSUM_OFFSET : Z := 4072.
Definition PADDING_OFFSET : Z := 4080.

Record MappingPageRecord := {
  p_header : RecordHeader;
  p_page_id : Z;
  p_entries : MappingEntries;
}.

Record PageExpectation := {
  x_geometry : Geometry;
  x_volume_id : Z;
  x_page_id : Z;
  x_boundary : Z;
  x_maximum_lsn : Z;
}.

Module PageRecord.

Definition typed (r : MappingPageRecord) : Prop :=
  header_typed (p_header r) /\ is_u32 (p_page_id r) /\ Entries.typed (p_entries r).

Section codec.
Context `{Xxh3}.

Definition validate (r : MappingPageRecord) (g : Geometry) : res unit :=
  fail_if (negb (bool_decide (h_kind (p_header r) = MappingPage)))
    (InvalidData "expected mapping-page record") ;;?
  validate_location (p_header r) (h_volume_id (p_header r))
    (g_log_start g) (g_backing_blocks g) ;;?
  valid_entries <-? Geometry.page_entries g (p_page_id r) ;;
  fail_if
    (existsb
       (fun index =>
          let physical := arr (physical_addr (p_entries r)) index in
          let checksum := arr (payload_checksums (p_entries r)) index in
          ((physical =? 0) && negb (checksum =? 0))
          || ((valid_entries <=? index) && (negb (physical =? 0) || negb (checksum =? 0)))
          || (negb (physical =? 0)
              && ((physical <? g_log_start g) || (h_boundary (p_header r) <=? physical))))
       (seqZ 0 ENTRIES_PER_PAGE))
    (InvalidData "invalid mapping-page entry") ;;?
  Ok tt.

(** The page ID, then the loop over the 336 entries. *)
Definition put_page (r : MappingPageRecord) (bytes : list Z) : list Z :=
  put_entries (Z.to_nat ENTRIES_PER_PAGE)
    ADDRESS_OFFSET (physical_addr (p_entries r))
    PAGE_CHECKSUM_OFFSET (payload_checksums (p_entries r))
    (put 32 (le_bytes 4 (p_page_id r)) bytes).

Definition put_header_checksum (bytes : list Z) : list Z :=
  put HEADER_CHECKSUM_OFFSET (le_bytes 8 (xxh3 0 (slice 0 ADDRESS_OFFSET bytes))) bytes.

Definition encode (r : MappingPageRecord) (g : Geometry) : res (list Z) :=
  validate r g ;;?
  bytes <-? encode_header (p_header r) ;;
  Ok (seal_metadata (put_header_checksum (put_page r bytes))).

Definition decode_framing (bytes : list Z) (g : Geometry) (volume_id : Z) : res RecordHeader :=
  fail_if (negb (lenZ bytes =? BLOCK_SIZE)) (InvalidData "mapping record length") ;;?
  fail_if (negb (read_u64 bytes HEADER_CHECKSUM_OFFSET =? xxh3 0 (slice 0 ADDRESS_OFFSET bytes))
           || negb (bool_decide (slice 36 4 bytes = [0; 0; 0; 0])))
    (InvalidData "mapping header checksum or padding mismatch") ;;?
  header <-? decode_fields bytes ;;
  fail_if (negb (bool_decide (h_kind header = MappingPage)))
    (InvalidData "expected mapping-page framing") ;;?
  validate_location header volume_id (g_log_start g) (g_backing_blocks g) ;;?
  Geometry.page_entries g (read_u32 bytes 32) ;;?
  Ok header.

Definition decode (bytes : list Z) (expected : PageExpectation) : res MappingPageRecord :=
  header <-? decode_framing bytes (x_geometry expected) (x_volume_id expected) ;;
  bytes <-? validate_metadata bytes RECORD_MAGIC ;;
  fail_if (negb (h_volume_id header =? x_volume_id expected)
           || negb (h_boundary header =? x_boundary expected)
           || (x_maximum_lsn expected <? h_lsn header)
           || negb (read_u32 bytes 32 =? x_page_id expected)
           || negb (all_zero (slice 36 4 bytes
                              ++ slice PADDING_OFFSET (CHECKSUM_OFFSET - PADDING_OFFSET) bytes)))
    (InvalidData "mapping-page identity, generation, or padding mismatch") ;;?
  let record :=
    {| p_header := header;
       p_page_id := x_page_id expected;
       p_entries := {| physical_addr := read_array 4 ENTRIES_PER_PAGE ADDRESS_OFFSET bytes;
                       payload_checksums := read_array 8 ENTRIES_PER_PAGE PAGE_CHECKSUM_OFFSET bytes
                    |} |} in
  validate record (x_geometry expected) ;;?
  Ok record.

(** What [validate] accepts: every mapped entry points at a block of the log
    before the snapshot itself, and entries past the end of the volume are
    empty. *)
Record valid (r : MappingPageRecord) (g : Geometry) : Prop := {
  pv_kind : h_kind (p_header r) = MappingPage;
  pv_lsn : h_lsn (p_header r) <> 0;
  pv_extent : h_boundary (p_header r) = h_previous_boundary (p_header r) + 1;
  pv_start : g_log_start g <= h_boundary (p_header r);
  pv_end : h_boundary (p_header r) < g_backing_blocks g;
  pv_page : p_page_id r < g_page_count g;
  pv_entries : Entries.valid (p_entries r)
                 (Z.min (g_volume_blocks g - p_page_id r * 336) 336);
  pv_log : forall i, 0 <= i < ENTRIES_PER_PAGE -> (Entries.get (p_entries r) i).1 <> 0 ->
    g_log_start g <= (Entries.get (p_entries r) i).1 < h_boundary (p_header r);
}.

Lemma entry_check e n lo hi :
  existsb
    (fun index =>
       let physical := arr (physical_addr e) index in
       let checksum := arr (payload_checksums e) index in
       ((physical =? 0) && negb (checksum =? 0))
       || ((n <=? index) && (negb (physical =? 0) || negb (checksum =? 0)))
       || (negb (physical =? 0) && ((physical <? lo) || (hi <=? physical))))
    (seqZ 0 ENTRIES_PER_PAGE) = false <->
  Entries.valid e n /\
  forall i, 0 <= i < ENTRIES_PER_PAGE -> (Entries.get e i).1 <> 0 -> lo <= (Entries.get e i).1 < hi.
Proof.
  rewrite Entries.existsb_seqZ_false. unfold Entries.valid, Entries.get. cbn zeta. split.
  - intros Hf. split; intros i Hi; specialize (Hf i Hi); cbn [fst snd] in *.
    all: destruct (Z.eqb_spec (arr (physical_addr e) i) 0) as [E|E],
           (Z.eqb_spec (arr (payload_checksums e) i) 0) as [E'|E'], (Z.leb_spec n i),
           (Z.ltb_spec (arr (physical_addr e) i) lo), (Z.leb_spec hi (arr (physical_addr e) i));
         cbn [andb orb negb] in Hf; try discriminate; split; intros; try lia; congruence.
  - intros [Hv Hl] i Hi. specialize (Hv i Hi). specialize (Hl i Hi). cbn [fst snd] in *.
    destruct (Z.eqb_spec (arr (physical_addr e) i) 0) as [E|E],
      (Z.eqb_spec (arr (payload_checksums e) i) 0) as [E'|E'], (Z.leb_spec n i),
      (Z.ltb_spec (arr (physical_addr e) i) lo), (Z.leb_spec hi (arr (physical_addr e) i));
      cbn [andb orb negb]; destruct Hv as [Hv1 Hv2];
      try (specialize (Hv2 ltac:(lia)); congruence); try lia; try done.
Qed.

Lemma page_validate_not_Panic r g : validate r g <> Panic.
Proof. unfold validate. no_panic. Qed.

Lemma page_encode_not_Panic r g : encode r g <> Panic.
Proof. unfold encode. pose proof (page_validate_not_Panic r g). no_panic. Qed.

Lemma framing_not_Panic b g v : decode_framing b g v <> Panic.
Proof. unfold decode_framing. no_panic. Qed.

Lemma page_decode_not_Panic b x : decode b x <> Panic.
Proof.
  unfold decode. apply rbind_not_Panic; [apply framing_not_Panic|]. intros header _.
  apply rbind_not_Panic; [apply validate_metadata_not_Panic|]. intros bytes _.
  apply rbind_not_Panic; [apply fail_if_not_Panic|]. intros _ _.
  apply rbind_not_Panic; [apply page_validate_not_Panic | discriminate].
Qed.

Lemma page_validate_Ok r g :
  g_log_start g <> 0 -> validate r g = Ok tt <-> valid r g.
Proof.
  intros Hs. unfold validate. split.
  - intros Hv. ok_inv. bool_prop.
    match goal with H : validate_location _ _ _ _ = _ |- _ =>
      apply validate_location_Ok in H as (_ & _ & ? & ? & n & Hn) end.
    match goal with H : Geometry.page_entries _ _ = _ |- _ =>
      apply Geometry.page_entries_Ok in H as [? ->] end.
    match goal with H : existsb _ _ = false |- _ => apply entry_check in H as [? ?] end.
    apply payload_count_Ok in Hn as [? Hn]. rewrite H0 in Hn. constructor; auto; lia.
  - intros [Hk Hls He Hst Hen Hp Hv Hl]. rewrite Hk. cbn [rbind fail_if bool_decide].
    assert (payload_count (p_header r) = Ok 0) as Hc.
    { apply payload_count_Ok. rewrite Hk. lia. }
    rewrite (proj2 (validate_location_Ok _ _ _ _)) by (split_and!; eauto; lia).
    cbn [rbind fail_if].
    rewrite (proj2 (Geometry.page_entries_Ok _ _ _) (conj Hp eq_refl)). cbn [rbind].
    rewrite (proj2 (entry_check _ _ _ _)) by auto. done.
Qed.

(** ** The snapshot block *)

Definition body (r : MappingPageRecord) : list Z := put_page r (header_bytes (p_header r)).
Definition snapshot (r : MappingPageRecord) : list Z := put_header_checksum (body r).

Lemma snapshot_eq r :
  snapshot r = put_header_checksum (put_page r (header_bytes (p_header r))).
Proof. reflexivity. Qed.

(** A later checkpoint reads the same page. *)
Lemma page_decode_later b x x' r :
  decode b x = Ok r -> x_geometry x' = x_geometry x -> x_volume_id x' = x_volume_id x ->
  x_page_id x' = x_page_id x -> x_boundary x' = x_boundary x -> x_maximum_lsn x <= x_maximum_lsn x' ->
  decode b x' = Ok r.
Proof.
  destruct x as [g v p bd m], x' as [g' v' p' bd' m']; cbn. intros Hd -> -> -> -> Hm. revert Hd. unfold decode; cbn.
  destruct (decode_framing b g v) as [h| |]; try done. cbn [rbind].
  destruct (validate_metadata b RECORD_MAGIC) as [b'| |]; try done. cbn [rbind].
  destruct (Z.ltb_spec m (h_lsn h)).
  { rewrite orb_true_r. done. }
  destruct (Z.ltb_spec m' (h_lsn h)); [lia|done].
Qed.

Lemma page_encode_Ok r g b :
  encode r g = Ok b ->
  validate r g = Ok tt /\ (exists n, payload_count (p_header r) = Ok n) /\
  b = seal_metadata (snapshot r).
Proof.
  unfold encode, encode_header. intros. ok_inv.
  split; [assumption|]. split; [eexists; eassumption|]. unfold snapshot, body. reflexivity.
Qed.

Ltac page_constants :=
  change ADDRESS_OFFSET with 40 in *; change PAGE_CHECKSUM_OFFSET with 1384 in *;
  change HEADER_CHECKSUM_OFFSET with 4072 in *; change PADDING_OFFSET with 4080 in *;
  change CHECKSUM_OFFSET with 4088 in *; change ENTRIES_PER_PAGE with 336 in *.

Lemma put_id_len r : lenZ (put 32 (le_bytes 4 (p_page_id r)) (header_bytes (p_header r))) = 4096.
Proof. rewrite length_put_le; rewrite ?header_bytes_len; lia. Qed.

Lemma body_len r : lenZ (body r) = 4096.
Proof.
  unfold body, put_page. rewrite length_put_entries; rewrite ?put_id_len; page_constants; lia.
Qed.

Lemma snapshot_len r : lenZ (snapshot r) = 4096.
Proof.
  unfold snapshot, put_header_checksum. rewrite length_put_le; rewrite ?body_len; page_constants; lia.
Qed.

Lemma snapshot_ok r : block_ok (snapshot r).
Proof.
  split; [apply snapshot_len|]. unfold snapshot, put_header_checksum, body, put_page.
  apply put_ok; [apply le_bytes_ok|]. apply put_entries_ok, put_ok; [apply le_bytes_ok|].
  apply header_bytes_ok.
Qed.

(** A region that the entry arrays do not touch. *)
Lemma body_other r o n :
  0 <= o -> 0 <= n -> o + n <= 40 \/ 4072 <= o -> o + n <= 4096 ->
  slice o n (body r) = slice o n (put 32 (le_bytes 4 (p_page_id r)) (header_bytes (p_header r))).
Proof.
  intros. unfold body, put_page.
  apply slice_put_entries_other with (N := 336); rewrite ?put_id_len; page_constants; lia.
Qed.

Lemma snapshot_body r o n :
  0 <= o -> 0 <= n -> o + n <= 4072 \/ 4080 <= o -> o + n <= 4096 ->
  slice o n (snapshot r) = slice o n (body r).
Proof.
  intros. unfold snapshot, put_header_checksum. page_constants.
  apply slice_skip; rewrite ?length_le_bytes; try lia. apply body_len.
Qed.

Lemma snapshot_head r o n :
  0 <= o -> 0 <= n -> o + n <= 40 ->
  slice o n (snapshot r) = slice o n (put 32 (le_bytes 4 (p_page_id r)) (header_bytes (p_header r))).
Proof. intros. rewrite snapshot_body, body_other by lia. done. Qed.

Lemma snapshot_header r o n :
  0 <= o -> 0 <= n -> o + n <= 32 -> slice o n (snapshot r) = slice o n (header_bytes (p_header r)).
Proof.
  intros. rewrite snapshot_head by lia.
  apply slice_skip; rewrite ?length_le_bytes; try lia. apply header_bytes_len.
Qed.

Lemma snapshot_page_id r : slice 32 4 (snapshot r) = le_bytes 4 (p_page_id r).
Proof.
  rewrite snapshot_head by lia. apply slice_same; rewrite ?length_le_bytes; try lia.
  apply header_bytes_len.
Qed.

Lemma snapshot_gap r : slice 36 4 (snapshot r) = zeros 4.
Proof.
  rewrite snapshot_head by lia. rewrite slice_skip; rewrite ?length_le_bytes; try lia.
  - apply header_bytes_tail; lia.
  - apply header_bytes_len.
Qed.

Lemma snapshot_padding r : slice 4080 8 (snapshot r) = zeros 8.
Proof.
  rewrite snapshot_body, body_other by lia. rewrite slice_skip; rewrite ?length_le_bytes; try lia.
  - apply header_bytes_tail; lia.
  - apply header_bytes_len.
Qed.

Lemma snapshot_checksum r :
  slice 4072 8 (snapshot r) = le_bytes 8 (xxh3 0 (slice 0 40 (snapshot r))).
Proof.
  rewrite snapshot_body with (o := 0) by lia. unfold snapshot, put_header_checksum. page_constants.
  apply slice_same; rewrite ?length_le_bytes; try lia. apply body_len.
Qed.

Lemma snapshot_address r i :
  0 <= i < 336 ->
  slice (40 + i * 4) 4 (snapshot r) = le_bytes 4 (arr (physical_addr (p_entries r)) i).
Proof.
  intros. rewrite snapshot_body by lia. unfold body, put_page.
  apply slice_put_entries_1 with (N := 336); rewrite ?put_id_len; page_constants; lia.
Qed.

Lemma snapshot_sum r i :
  0 <= i < 336 ->
  slice (1384 + i * 8) 8 (snapshot r) = le_bytes 8 (arr (payload_checksums (p_entries r)) i).
Proof.
  intros. rewrite snapshot_body by lia. unfold body, put_page.
  apply slice_put_entries_2 with (N := 336); rewrite ?put_id_len; page_constants; lia.
Qed.

Lemma snapshot_getb r i :
  0 <= i < 32 -> getb (snapshot r) i = getb (header_bytes (p_header r)) i.
Proof.
  intros. replace i with (0 + i) by lia. rewrite <- !getb_slice with (n := 32);
    rewrite ?header_bytes_len, ?snapshot_len; try lia. by rewrite snapshot_header by lia.
Qed.

#[local] Opaque seal_metadata snapshot header_bytes.

(** Any block that carries the snapshot's bytes below the checksum. *)
Lemma framing_of_snapshot r g b :
  typed r -> validate r g = Ok tt -> g_log_start g <> 0 ->
  lenZ b = 4096 -> (forall o n, 0 <= o -> 0 <= n -> o + n <= 4088 -> slice o n b = slice o n (snapshot r)) ->
  decode_framing b g (h_volume_id (p_header r)) = Ok (p_header r).
Proof.
  intros (Ht & Hid & _) Hv Hs Hl Hb. apply page_validate_Ok in Hv as [Hk Hls He Hst Hen Hp _ _]; [|done].
  assert (payload_count (p_header r) = Ok 0) as Hc.
  { apply payload_count_Ok. rewrite Hk. lia. }
  unfold decode_framing, read_u64, read_u32. page_constants. rewrite Hl.
  rewrite !Hb by lia. rewrite snapshot_checksum, snapshot_gap, snapshot_page_id.
  rewrite le_u64 by apply xxh3_range. rewrite le_u32 by done. change BLOCK_SIZE with 4096. rewrite !Z.eqb_refl.
  rewrite (bool_decide_eq_true_2 (zeros 4 = [0; 0; 0; 0])) by done.
  cbn [negb orb fail_if rbind].
  rewrite decode_fields_prefix with (b := header_bytes (p_header r));
    [|done | apply header_bytes_len | rewrite Hb by lia; apply snapshot_header; lia].
  rewrite decode_fields_header_bytes by eauto. cbn [rbind].
  rewrite Hk. cbn [negb fail_if rbind bool_decide].
  rewrite (proj2 (validate_location_Ok _ _ _ _)) by (split_and!; eauto; lia). cbn [rbind].
  unfold Geometry.page_entries. destruct (Z.leb_spec (g_page_count g) (p_page_id r)); [lia|]. done.
Qed.

Lemma page_encode_decode r g b maximum_lsn :
  typed r -> g_log_start g <> 0 -> encode r g = Ok b -> h_lsn (p_header r) <= maximum_lsn ->
  block_ok b /\ decode_framing b g (h_volume_id (p_header r)) = Ok (p_header r) /\
  decode b {| x_geometry := g; x_volume_id := h_volume_id (p_header r);
              x_page_id := p_page_id r; x_boundary := h_boundary (p_header r);
              x_maximum_lsn := maximum_lsn |} = Ok r.
Proof.
  intros Ht Hs He Hm. apply page_encode_Ok in He as (Hv & _ & ->).
  split; [apply seal_ok, snapshot_ok|].
  assert (Hp : forall o n, 0 <= o -> 0 <= n -> o + n <= 4088 ->
    slice o n (seal_metadata (snapshot r)) = slice o n (snapshot r)).
  { intros. apply seal_prefix; try lia. apply snapshot_len. }
  pose proof (framing_of_snapshot r g (seal_metadata (snapshot r)) Ht Hv Hs
                (seal_len _ (snapshot_len r)) Hp) as Hf.
  split; [exact Hf|]. unfold decode.
  cbn [x_geometry x_volume_id x_page_id x_boundary x_maximum_lsn]. rewrite Hf. cbn [rbind].
  destruct Ht as (Hh & Hid & (Hsh1 & Hsh2) & Hpa & Hpc).
  rewrite validate_sealed; [|apply snapshot_len|..]; cbn [rbind].
  2: { rewrite snapshot_header by lia. apply header_bytes_magic. }
  2: { rewrite snapshot_getb by lia. apply header_bytes_version. }
  unfold read_u32. page_constants. change (4088 - 4080) with 8.
  rewrite (Hp 32 4), (Hp 36 4), (Hp 4080 8) by lia.
  rewrite snapshot_page_id, snapshot_gap, snapshot_padding.
  rewrite le_u32 by done.
  rewrite (Z.eqb_refl (h_volume_id (p_header r))), (Z.eqb_refl (h_boundary (p_header r))),
    (Z.eqb_refl (p_page_id r)). destruct (Z.ltb_spec maximum_lsn (h_lsn (p_header r))); [lia|].
  change (all_zero (zeros 4 ++ zeros 8)) with true. cbn [negb orb fail_if rbind].
  rewrite (read_array_stored 4 336 40 _ (physical_addr (p_entries r)));
    [|done | intros i Hi; rewrite Hp, snapshot_address by lia; apply le_u32, Forall_arr; [done | lia]].
  rewrite (read_array_stored 8 336 1384 _ (payload_checksums (p_entries r)));
    [|done | intros i Hi; rewrite Hp, snapshot_sum by lia; apply le_u64, Forall_arr; [done | lia]].
  destruct r as [h id [pa pc]]. cbn [p_header p_page_id p_entries physical_addr payload_checksums] in *.
  by rewrite Hv.
Qed.

(** C25. Snapshot round trip: the block written for a page of the declared
    widths is a 4096-byte block, it frames as that record, and reading it back
    with the matching expectation and any LSN bound at or above the record's
    returns every address and checksum. *)
Theorem page_roundtrip r g b maximum_lsn :
  typed r -> g_log_start g <> 0 -> encode r g = Ok b -> h_lsn (p_header r) <= maximum_lsn ->
  block_ok b /\ decode_framing b g (h_volume_id (p_header r)) = Ok (p_header r) /\
  decode b {| x_geometry := g; x_volume_id := h_volume_id (p_header r);
              x_page_id := p_page_id r; x_boundary := h_boundary (p_header r);
              x_maximum_lsn := maximum_lsn |} = Ok r.
Proof. apply page_encode_decode. Qed.

Lemma getb_snapshot r i :
  0 <= i < 4088 ->
  getb (snapshot r) i =
    if i <? 32 then getb (header_bytes (p_header r)) i
    else if i <? 36 then getb (le_bytes 4 (p_page_id r)) (i - 32)
    else if i <? 40 then 0
    else if i <? 1384 then
      getb (le_bytes 4 (arr (physical_addr (p_entries r)) ((i - 40) / 4))) ((i - 40) mod 4)
    else if i <? 4072 then
      getb (le_bytes 8 (arr (payload_checksums (p_entries r)) ((i - 1384) / 8))) ((i - 1384) mod 8)
    else if i <? 4080 then
      getb (le_bytes 8 (xxh3 0 (slice 0 40 (snapshot r)))) (i - 4072)
    else 0.
Proof.
  intros Hi.
  assert (Hr : forall o n bs, slice o n (snapshot r) = bs -> 0 <= o -> o <= i < o + n -> o + n <= 4096 ->
    getb (snapshot r) i = getb bs (i - o)).
  { intros o n bs <- Ho Hi' Hn. rewrite getb_slice by (rewrite ?snapshot_len; lia). f_equal. lia. }
  destruct (Z.ltb_spec i 32); [apply snapshot_getb; lia|].
  destruct (Z.ltb_spec i 36); [apply (Hr _ _ _ (snapshot_page_id r)); lia|].
  destruct (Z.ltb_spec i 40).
  { rewrite (Hr _ _ _ (snapshot_gap r)) by lia. apply getb_zeros. }
  destruct (Z.ltb_spec i 1384).
  { pose proof (Z.div_mod (i - 40) 4 ltac:(lia)). pose proof (Z.mod_pos_bound (i - 40) 4 ltac:(lia)).
    rewrite (Hr _ _ _ (snapshot_address r ((i - 40) / 4) ltac:(lia))) by lia. f_equal. lia. }
  destruct (Z.ltb_spec i 4072).
  { pose proof (Z.div_mod (i - 1384) 8 ltac:(lia)). pose proof (Z.mod_pos_bound (i - 1384) 8 ltac:(lia)).
    rewrite (Hr _ _ _ (snapshot_sum r ((i - 1384) / 8) ltac:(lia))) by lia. f_equal. lia. }
  destruct (Z.ltb_spec i 4080); [apply (Hr _ _ _ (snapshot_checksum r)); lia|].
  rewrite (Hr _ _ _ (snapshot_padding r)) by lia. apply getb_zeros.
Qed.

(** What a successful framing check says about the first bytes. *)
Lemma framing_Ok b g v h :
  block_ok b -> decode_framing b g v = Ok h ->
  header_typed h /\ h_kind h = MappingPage /\ validate_location h v (g_log_start g) (g_backing_blocks g) = Ok tt /\
  read_u32 b 32 < g_page_count g /\
  slice 0 32 b = slice 0 32 (header_bytes h) /\ slice 36 4 b = zeros 4 /\
  read_u64 b 4072 = xxh3 0 (slice 0 40 b).
Proof.
  intros Hb Hf. unfold decode_framing in Hf. ok_inv. bool_prop.
  match goal with H : decode_fields _ = _ |- _ => apply decode_fields_Ok in H as (? & _ & ?); [|done] end.
  match goal with H : Geometry.page_entries _ _ = _ |- _ => apply Geometry.page_entries_Ok in H as [? _] end.
  repeat (split; [assumption|]). assumption.
Qed.

Lemma page_decode_Ok b x r :
  block_ok b -> decode b x = Ok r ->
  typed r /\ validate r (x_geometry x) = Ok tt /\ h_volume_id (p_header r) = x_volume_id x /\
  p_page_id r = x_page_id x /\ h_boundary (p_header r) = x_boundary x /\
  h_lsn (p_header r) <= x_maximum_lsn x /\
  slice 0 4088 b = slice 0 4088 (snapshot r) /\ read_u64 b CHECKSUM_OFFSET = metadata_checksum b.
Proof.
  intros Hb Hd. unfold decode in Hd. ok_inv.
  match goal with H : validate_metadata _ _ = _ |- _ =>
    apply validate_metadata_Ok in H as (-> & Hl & _ & _ & Hsum) end.
  match goal with H : decode_framing _ _ _ = _ |- _ =>
    apply framing_Ok in H as (Hty & _ & _ & _ & Hpre & Hgap & Hhs); [|done] end.
  bool_prop. page_constants.
  match goal with H : all_zero _ = true |- _ => unfold all_zero in H; rewrite forallb_app in H;
    apply andb_true_iff in H as [_ Hpad] end.
  change (4088 - 4080) with 8 in Hpad.
  pose proof (all_zero_getb 4080 8 b ltac:(lia) ltac:(lia) ltac:(lia) Hpad) as Hz.
  pose proof Hb as [_ Hok].
  rename x0 into h. set (r := {| p_header := h; p_page_id := _; p_entries := _ |}) in *.
  assert (Hid : is_u32 (x_page_id x)).
  { replace (x_page_id x) with (read_u32 b 32) by lia. apply read_u32_bound; done || lia. }
  split. { unfold typed; subst r; cbn [p_header p_page_id p_entries]. split; [done|]. split; [done|].
    split; [split; cbn [physical_addr payload_checksums]; rewrite length_read_array by lia; done|].
    cbn [physical_addr payload_checksums].
    split; apply read_array_Forall; intros i Hi.
    - apply (read_u32_bound b (40 + i * 4)); done || lia.
    - apply (read_u64_bound b (1384 + i * 8)); done || lia. }
  repeat (split; [subst r; cbn [p_header p_page_id]; first [assumption | lia | reflexivity]|]).
  split; [|assumption].
  apply slice_ext; rewrite ?snapshot_len; try lia. intros i Hi.
  assert (Hhead : forall j, 0 <= j < 32 -> getb b j = getb (header_bytes h) j).
  { intros j Hj. replace j with (0 + j) by lia.
    rewrite <- !getb_slice with (n := 32) by (rewrite ?header_bytes_len; lia). by rewrite Hpre. }
  assert (Hgap' : forall j, 36 <= j < 40 -> getb b j = 0).
  { intros j Hj. apply (all_zero_getb 36 4 b); try lia. rewrite Hgap. done. }
  rewrite getb_snapshot by lia. subst r; cbn [p_header p_page_id p_entries physical_addr payload_checksums].
  destruct (Z.ltb_spec i 32); [apply Hhead; lia|].
  destruct (Z.ltb_spec i 36).
  { replace (x_page_id x) with (read_u32 b 32) by lia. symmetry.
    apply (getb_le_bytes_read 4 32); done || lia. }
  destruct (Z.ltb_spec i 40); [apply Hgap'; lia|].
  pose proof (Z.div_mod (i - 40) 4 ltac:(lia)). pose proof (Z.mod_pos_bound (i - 40) 4 ltac:(lia)).
  pose proof (Z.div_mod (i - 1384) 8 ltac:(lia)). pose proof (Z.mod_pos_bound (i - 1384) 8 ltac:(lia)).
  destruct (Z.ltb_spec i 1384).
  { rewrite arr_read_array by lia. replace ((i - 40) mod 4) with (i - (40 + (i - 40) / 4 * 4)) by lia.
    symmetry. apply (getb_le_bytes_read 4); done || lia. }
  destruct (Z.ltb_spec i 4072).
  { rewrite arr_read_array by lia. replace ((i - 1384) mod 8) with (i - (1384 + (i - 1384) / 8 * 8)) by lia.
    symmetry. apply (getb_le_bytes_read 8); done || lia. }
  destruct (Z.ltb_spec i 4080); [|apply Hz; lia].
  replace (slice 0 40 (snapshot _)) with (slice 0 40 b).
  { rewrite <- Hhs. symmetry. apply (getb_le_bytes_read 8 4072); done || lia. }
  apply slice_ext; rewrite ?snapshot_len; try lia. intros j Hj. rewrite getb_snapshot by lia.
  cbn [p_header p_page_id].
  destruct (Z.ltb_spec j 32); [apply Hhead; lia|].
  destruct (Z.ltb_spec j 36).
  { replace (x_page_id x) with (read_u32 b 32) by lia. symmetry.
    apply (getb_le_bytes_read 4 32); done || lia. }
  destruct (Z.ltb_spec j 40); [apply Hgap'; lia | lia].
Qed.

(** C26. A snapshot block that is accepted is the canonical encoding of the
    page it yields, carries the expected volume, page, boundary and an LSN
    within the checkpoint, and every address in it lies in the log strictly
    before the snapshot itself. *)
Theorem page_canonical b x r :
  block_ok b -> g_log_start (x_geometry x) <> 0 -> decode b x = Ok r ->
  encode r (x_geometry x) = Ok b /\ valid r (x_geometry x) /\
  h_volume_id (p_header r) = x_volume_id x /\ p_page_id r = x_page_id x /\
  h_boundary (p_header r) = x_boundary x /\ h_lsn (p_header r) <= x_maximum_lsn x.
Proof.
  intros Hb Hs Hd. apply page_decode_Ok in Hd as (Ht & Hv & Hvol & Hid & Hbd & Hlsn & Hsl & Hsum); [|done].
  split; [|split; [by apply page_validate_Ok | auto]].
  unfold encode. rewrite Hv. cbn [rbind]. unfold encode_header.
  apply page_validate_Ok in Hv as [Hk Hls He _ _ _ _ _]; [|done].
  rewrite (proj2 (payload_count_Ok (p_header r) 0)) by (rewrite Hk; lia). cbn [rbind]. f_equal.
  rewrite <- snapshot_eq. exact (validated_is_sealed b (snapshot r) Hb (snapshot_len r) Hsum Hsl).
Qed.

End codec.
End PageRecord.

#[export] Hint Resolve PageRecord.page_encode_not_Panic PageRecord.framing_not_Panic
  PageRecord.page_decode_not_Panic : rust.

Definition example_page_geometry : Geometry :=
  {| g_volume_blocks := 673; g_backing_blocks := 1000; g_page_count := 3;
     g_index_blocks := 1; g_log_start := 4 |}.

Definition example_page : MappingPageRecord :=
  {| p_header := {| h_kind := MappingPage; h_volume_id := 7; h_lsn := 2;
                    h_previous_boundary := 6; h_boundary := 7 |};
     p_page_id := 2;
     p_entries := Entries.set Entries.zeroed 0 4 72623859790382856 |}.

Lemma example_page_typed : PageRecord.typed example_page.
Proof.
  split; [unfold header_typed, is_u64, is_u32; simpl; lia|]. split; [split; done|].
  apply Entries.set_typed; [apply Entries.zeroed_typed | split; done | split; done].
Qed.

Definition example_expectation : PageExpectation :=
  {| x_geometry := example_page_geometry; x_volume_id := 7; x_page_id := 2;
     x_boundary := 7; x_maximum_lsn := 2 |}.

Definition example_page_block : list Z :=
  the_ok [] (@PageRecord.encode fold_xxh3 example_page example_page_geometry).

Lemma page_roundtrip_witness :
  let H := fold_xxh3 in
  exists b, PageRecord.encode example_page example_page_geometry = Ok b /\
            PageRecord.decode b example_expectation = Ok example_page.
Proof.
  intros H.
  destruct (is_ok_exists (PageRecord.encode example_page example_page_geometry)) as [b E];
    [vm_compute; reflexivity|].
  exists b. split; [exact E|].
  refine (proj2 (proj2 (PageRecord.page_roundtrip example_page example_page_geometry b 2
                         example_page_typed _ E _))); done.
Defined.

Lemma page_canonical_witness :
  let H := fold_xxh3 in
  exists r, PageRecord.decode example_page_block example_expectation = Ok r /\
            PageRecord.encode r example_page_geometry = Ok example_page_block.
Proof.
  intros H.
  destruct (is_ok_exists (PageRecord.decode example_page_block example_expectation)) as [r D];
    [vm_compute; reflexivity|].
  exists r. split; [exact D|].
  refine (proj1 (PageRecord.page_canonical example_page_block example_expectation r _ _ D)).
  - apply block_okb_spec. vm_compute. reflexivity.
  - discriminate.
Defined.
