(* ===== verification/Checkpoint.v ===== *)
(** Checkpoint descriptors: [src/rust/src/format_v3/checkpoint.rs]. *)

From S2P Require Import Prelude Bytes Geometry Format.

(** b"VBLC" *)
Definition CHECKPOINT_MAGIC : list Z := [86; 66; 76; 67].
Ltac blk_constants ::= unfold RECORD_MAGIC, CHECKPOINT_MAGIC.

Inductive CheckpointSlot := Green | Blue.

#[global] Instance checkpoint_slot_eq_dec : EqDecision CheckpointSlot.
Proof. solve_decision. Defined.

(** [slot as u8] and [slot as u32]: the descriptor's block number. *)
Definition slot_number (s : CheckpointSlot) : Z :=
  match s with Green => 0 | Blue => 1 end.

Definition slot_other (s : CheckpointSlot) : CheckpointSlot :=
  match s with Green => Blue | Blue => Green end.

Definition body_start (s : CheckpointSlot) (g : Geometry) : Z :=
  match s with Green => 2 | Blue => 2 + g_index_blocks g end.

Record CheckpointDescriptor := {
  c_slot : CheckpointSlot;
  c_volume_id : Z;
  c_volume_blocks : Z;
  c_backing_blocks : Z;
  c_checkpoint_lsn : Z;
  c_last_record_boundary : Z;
  c_index_checksum : Z;
  c_generation : Z;
}.

#[global] Instance checkpoint_descriptor_eq_dec : EqDecision CheckpointDescriptor.
Proof. solve_decision. Defined.

Module Descriptor.

Definition typed (d : CheckpointDescriptor) : Prop :=
  is_u64 (c_volume_id d) /\ is_u32 (c_volume_blocks d) /\ is_u64 (c_backing_blocks d) /\
  is_u64 (c_checkpoint_lsn d) /\ is_u32 (c_last_record_boundary d) /\
  is_u64 (c_index_checksum d) /\ is_u64 (c_generation d).

Definition geometry (d : CheckpointDescriptor) : res Geometry :=
  Geometry.new (c_volume_blocks d) (c_backing_blocks d).

Definition validate (d : CheckpointDescriptor) : res unit :=
  g <-? geometry d ;;
  let initial := c_checkpoint_lsn d =? 0 in
  fail_if ((c_last_record_boundary d <? g_log_start g - 1)
           || (g_backing_blocks g <=? c_last_record_boundary d)
           || negb (Bool.eqb initial (c_last_record_boundary d =? g_log_start g - 1))
           || ((c_generation d =? 0) && negb initial)
           || (c_last_record_boundary d - (g_log_start g - 1) <? c_checkpoint_lsn d))
    (InvalidData "invalid checkpoint sequence or boundary") ;;?
  Ok tt.

Definition next_generation (d : CheckpointDescriptor) : res Z :=
  ok_or (checked_add 64 (c_generation d) 1) (InvalidData "checkpoint generation exhausted").

Definition validate_pair (a b : CheckpointDescriptor) : res unit :=
  fail_if (negb (c_volume_id a =? c_volume_id b)
           || negb (c_volume_blocks a =? c_volume_blocks b)
           || negb (c_backing_blocks a =? c_backing_blocks b))
    (InvalidData "checkpoint roots disagree on identity or geometry") ;;?
  fail_if ((c_generation a =? c_generation b)
           && (negb (c_checkpoint_lsn a =? c_checkpoint_lsn b)
               || negb (c_last_record_boundary a =? c_last_record_boundary b)
               || negb (c_index_checksum a =? c_index_checksum b)))
    (InvalidData "equal-generation checkpoints disagree") ;;?
  Ok tt.

Lemma validate_pair_Ok a b : validate_pair a b = Ok tt <->
  c_volume_id a = c_volume_id b /\ c_volume_blocks a = c_volume_blocks b /\
  c_backing_blocks a = c_backing_blocks b /\
  (c_generation a = c_generation b -> c_checkpoint_lsn a = c_checkpoint_lsn b /\
     c_last_record_boundary a = c_last_record_boundary b /\ c_index_checksum a = c_index_checksum b).
Proof.
  unfold validate_pair.
  destruct (Z.eqb_spec (c_volume_id a) (c_volume_id b)), (Z.eqb_spec (c_volume_blocks a) (c_volume_blocks b)),
    (Z.eqb_spec (c_backing_blocks a) (c_backing_blocks b)), (Z.eqb_spec (c_generation a) (c_generation b)),
    (Z.eqb_spec (c_checkpoint_lsn a) (c_checkpoint_lsn b)),
    (Z.eqb_spec (c_last_record_boundary a) (c_last_record_boundary b)),
    (Z.eqb_spec (c_index_checksum a) (c_index_checksum b)); cbn; split; try discriminate; tauto.
Qed.

Lemma validate_pair_sym a b : validate_pair a b = Ok tt -> validate_pair b a = Ok tt.
Proof. rewrite !validate_pair_Ok. intros (-> & -> & -> & Hg). split_and!; try done. intros E. symmetry in E. by destruct (Hg E) as (-> & -> & ->). Qed.

Lemma geometry_not_Panic d : geometry d <> Panic.
Proof. apply Geometry.new_not_Panic. Qed.

Lemma validate_not_Panic d : validate d <> Panic.
Proof. unfold validate. pose proof (geometry_not_Panic d). no_panic. Qed.

Section codec.
Context `{Xxh3}.

Definition descriptor_bytes (d : CheckpointDescriptor) : list Z :=
  put 52 (le_bytes 8 (c_generation d))
  (put 44 (le_bytes 8 (c_index_checksum d))
  (put 40 (le_bytes 4 (c_last_record_boundary d))
  (put 32 (le_bytes 8 (c_checkpoint_lsn d))
  (put 24 (le_bytes 8 (c_backing_blocks d))
  (put 20 (le_bytes 4 (c_volume_blocks d))
  (put 16 (le_bytes 4 BLOCK_SIZE)
  (put 8 (le_bytes 8 (c_volume_id d))
  (put 5 [slot_number (c_slot d)]
  (put 4 [VERSION]
  (put 0 CHECKPOINT_MAGIC zero_block)))))))))).

Definition encode (d : CheckpointDescriptor) : res (list Z) :=
  validate d ;;?
  Ok (seal_metadata (descriptor_bytes d)).

Definition decode (bytes : list Z) (slot : CheckpointSlot) (backing_blocks : Z)
    : res CheckpointDescriptor :=
  bytes <-? validate_metadata bytes CHECKPOINT_MAGIC ;;
  fail_if (negb (getb bytes 5 =? slot_number slot)
           || negb (bool_decide (slice 6 2 bytes = [0; 0]))
           || negb (read_u32 bytes 16 =? BLOCK_SIZE)
           || negb (read_u64 bytes 24 =? backing_blocks)
           || negb (all_zero (slice 60 (CHECKSUM_OFFSET - 60) bytes)))
    (InvalidData "checkpoint slot, geometry, or padding mismatch") ;;?
  let descriptor := {| c_slot := slot;
                       c_volume_id := read_u64 bytes 8;
                       c_volume_blocks := read_u32 bytes 20;
                       c_backing_blocks := backing_blocks;
                       c_checkpoint_lsn := read_u64 bytes 32;
                       c_last_record_boundary := read_u32 bytes 40;
                       c_index_checksum := read_u64 bytes 44;
                       c_generation := read_u64 bytes 52 |} in
  validate descriptor ;;?
  Ok descriptor.

(** What [validate] accepts, over the geometry of the descriptor. *)
Record valid (d : CheckpointDescriptor) (g : Geometry) : Prop := {
  dv_geometry : geometry d = Ok g;
  dv_bounds : g_log_start g - 1 <= c_last_record_boundary d < g_backing_blocks g;
  dv_initial : c_checkpoint_lsn d = 0 <-> c_last_record_boundary d = g_log_start g - 1;
  dv_generation : c_generation d = 0 -> c_checkpoint_lsn d = 0;
  dv_sequence : c_checkpoint_lsn d <= c_last_record_boundary d - (g_log_start g - 1);
}.

Lemma descriptor_validate_Ok d : validate d = Ok tt <-> exists g, valid d g.
Proof.
  unfold validate. split.
  - intros Hv. ok_inv. bool_prop. exists x.
    match goal with H : Bool.eqb _ _ = true |- _ => apply eqb_prop in H as Hi end.
    match goal with H : _ && _ = false |- _ => rename H into Hgen end.
    constructor; auto; lia.
  - intros [g [Hg Hb Hi Hgen Hs]]. rewrite Hg. cbn [rbind].
    replace (c_last_record_boundary d <? g_log_start g - 1) with false by (symmetry; apply Z.ltb_ge; lia).
    replace (g_backing_blocks g <=? c_last_record_boundary d) with false by (symmetry; apply Z.leb_gt; lia).
    replace (c_last_record_boundary d - (g_log_start g - 1) <? c_checkpoint_lsn d) with false
      by (symmetry; apply Z.ltb_ge; lia).
    destruct (Z.eqb_spec (c_checkpoint_lsn d) 0), (Z.eqb_spec (c_last_record_boundary d) (g_log_start g - 1)),
      (Z.eqb_spec (c_generation d) 0); simpl; try done; exfalso; tauto.
Qed.

Lemma descriptor_encode_not_Panic d : encode d <> Panic.
Proof. unfold encode. pose proof (validate_not_Panic d). no_panic. Qed.

(** A block that does not decode is damaged or of another kind: [InvalidData]. *)
Lemma descriptor_decode_error b s n e : decode b s n = Err e -> is_invalid_data e = true.
Proof.
  unfold decode, validate_metadata, validate, geometry, Geometry.new, fail_if.
  intros Hd. repeat first [ apply rbind_Err in Hd as [Hd|(? & _ & Hd)] | case_match ]; by simplify_eq.
Qed.

Lemma descriptor_decode_not_Panic b s n : decode b s n <> Panic.
Proof.
  unfold decode. apply rbind_not_Panic; [apply validate_metadata_not_Panic|]. intros bytes _.
  apply rbind_not_Panic; [apply fail_if_not_Panic|]. intros _ _.
  apply rbind_not_Panic; [apply validate_not_Panic | discriminate].
Qed.

Lemma descriptor_len d : lenZ (descriptor_bytes d) = 4096.
Proof. unfold descriptor_bytes. blk. Qed.

Lemma descriptor_tail d o n :
  60 <= o -> 0 <= n -> o + n <= 4096 -> slice o n (descriptor_bytes d) = zeros n.
Proof.
  intros. unfold descriptor_bytes. fields. apply slice_zeros; unfold BLOCK_SIZE; lia.
Qed.

Lemma descriptor_ok d : block_ok (descriptor_bytes d).
Proof.
  split; [apply descriptor_len|]. unfold descriptor_bytes.
  repeat (apply put_ok; [first [apply le_bytes_ok
    | repeat constructor; unfold VERSION; try (destruct (c_slot d)); simpl; lia]|]).
  apply zeros_ok.
Qed.

Lemma descriptor_encode_decode d b :
  typed d -> encode d = Ok b ->
  block_ok b /\ decode b (c_slot d) (c_backing_blocks d) = Ok d /\
  is_err (decode b (slot_other (c_slot d)) (c_backing_blocks d)) = true.
Proof.
  intros (Hv & Hvb & Hbb & Hl & Hr & Hc & Hg) He. unfold encode in He. ok_inv.
  split; [apply seal_ok, descriptor_ok|].
  assert (Hvm : validate_metadata (seal_metadata (descriptor_bytes d)) CHECKPOINT_MAGIC
                = Ok (seal_metadata (descriptor_bytes d))).
  { apply validate_sealed; [apply descriptor_len | unfold descriptor_bytes; fields; done..]. }
  assert (H5 : getb (seal_metadata (descriptor_bytes d)) 5 = slot_number (c_slot d)).
  { rewrite seal_getb by (apply descriptor_len || lia). unfold descriptor_bytes. fields. done. }
  unfold decode. rewrite Hvm. cbn [rbind]. rewrite H5. split.
  - rewrite Z.eqb_refl. unfold read_u32, read_u64. change (CHECKSUM_OFFSET - 60) with 4028.
    rewrite !seal_prefix by (apply descriptor_len || lia).
    rewrite (descriptor_tail d 60 4028) by lia. rewrite all_zero_zeros.
    unfold descriptor_bytes. fields.
    assert (slice 6 2 zero_block = [0; 0]) as -> by (vm_compute; reflexivity).
    rewrite !le_u64, !le_u32 by done. rewrite (Z.eqb_refl (c_backing_blocks d)).
    change (le_value (le_bytes 4 BLOCK_SIZE)) with BLOCK_SIZE. rewrite (Z.eqb_refl BLOCK_SIZE).
    cbn [negb orb fail_if rbind bool_decide].
    destruct d. simpl in *. by rewrite H0.
  - assert (slot_number (c_slot d) =? slot_number (slot_other (c_slot d)) = false) as ->
      by (by destruct (c_slot d)). done.
Qed.

(** C27. A descriptor that [encode] accepts is read back unchanged from its
    slot by [decode] with the same backing size, and from no other slot. *)
Theorem descriptor_roundtrip d b :
  typed d -> encode d = Ok b ->
  block_ok b /\ decode b (c_slot d) (c_backing_blocks d) = Ok d /\
  is_err (decode b (slot_other (c_slot d)) (c_backing_blocks d)) = true.
Proof. apply descriptor_encode_decode. Qed.

Lemma descriptor_decode_encode b slot backing d :
  block_ok b -> decode b slot backing = Ok d ->
  encode d = Ok b /\ typed d /\ c_slot d = slot /\ c_backing_blocks d = backing /\
  exists g, valid d g.
Proof.
  intros Hb Hd. unfold decode in Hd. ok_inv.
  match goal with H : validate_metadata _ _ = _ |- _ =>
    apply validate_metadata_Ok in H as (-> & Hl & Hm & Hver & Hsum) end.
  bool_prop. change (CHECKSUM_OFFSET - 60) with 4028 in *.
  set (d := {| c_slot := slot |}) in *.
  assert (Hok : bytes_ok b) by apply Hb.
  assert (Hty : typed d).
  { subst d. unfold typed; cbn.
    split_and!; first [apply read_u64_bound | apply read_u32_bound | subst backing; apply read_u64_bound];
      done || lia. }
  split; [|split_and!; auto; by apply descriptor_validate_Ok].
  unfold encode. match goal with H : validate d = _ |- _ => rewrite H end. cbn [rbind]. f_equal.
  refine (validated_is_sealed b (descriptor_bytes d) Hb (descriptor_len d) Hsum _).
  apply slice_ext; rewrite ?descriptor_len; try lia. intros i Hi.
  assert (Hz : forall j, 60 <= j < 60 + 4028 -> getb b j = 0) by (apply all_zero_getb; done || lia).
  assert (Hmag : forall j, 0 <= j < 4 -> getb b j = getb CHECKPOINT_MAGIC j).
  { intros j Hj. replace j with (0 + j) at 1 by lia. rewrite <- getb_slice with (n := 4) by lia.
    congruence. }
  assert (Hpad : forall j, 0 <= j < 2 -> getb b (6 + j) = getb [0; 0] j).
  { intros j Hj. rewrite <- getb_slice with (n := 2) by lia. congruence. }
  destruct (Z.leb_spec 60 i).
  { rewrite Hz by lia. symmetry. apply (all_zero_getb 60 4028); rewrite ?descriptor_len; try lia.
    rewrite descriptor_tail by lia. apply all_zero_zeros. }
  subst d. unfold descriptor_bytes, read_u64, read_u32.
  cbn [c_slot c_volume_id c_volume_blocks c_backing_blocks c_checkpoint_lsn
       c_last_record_boundary c_index_checksum c_generation].
  assert (Hbs : slice 16 4 b = le_bytes 4 BLOCK_SIZE).
  { match goal with H : read_u32 b 16 = _ |- _ => rewrite <- H end. unfold read_u32. symmetry. apply (le_bytes_read 4 16); done || lia. }
  assert (Hbb : slice 24 8 b = le_bytes 8 backing).
  { match goal with H : read_u64 b 24 = _ |- _ => rewrite <- H end. unfold read_u64. symmetry. apply (le_bytes_read 8 24); done || lia. }
  rewrite !getb_at by blk. rewrite !length_le_bytes. cbn [length].
  change (lenZ CHECKPOINT_MAGIC) with 4. change (Z.of_nat 4) with 4. change (Z.of_nat 8) with 8.
  change (Z.of_nat 1) with 1.
  destruct (Z.leb_spec 52 i), (Z.ltb_spec i (52 + 8)); cbn [andb]; try lia.
  { symmetry. apply (getb_le_bytes_read 8 52); done || lia. }
  destruct (Z.leb_spec 44 i), (Z.ltb_spec i (44 + 8)); cbn [andb]; try lia.
  { symmetry. apply (getb_le_bytes_read 8 44); done || lia. }
  destruct (Z.leb_spec 40 i), (Z.ltb_spec i (40 + 4)); cbn [andb]; try lia.
  { symmetry. apply (getb_le_bytes_read 4 40); done || lia. }
  destruct (Z.leb_spec 32 i), (Z.ltb_spec i (32 + 8)); cbn [andb]; try lia.
  { symmetry. apply (getb_le_bytes_read 8 32); done || lia. }
  destruct (Z.leb_spec 24 i), (Z.ltb_spec i (24 + 8)); cbn [andb]; try lia.
  { rewrite <- Hbb, getb_slice by lia. f_equal. lia. }
  destruct (Z.leb_spec 20 i), (Z.ltb_spec i (20 + 4)); cbn [andb]; try lia.
  { symmetry. apply (getb_le_bytes_read 4 20); done || lia. }
  destruct (Z.leb_spec 16 i), (Z.ltb_spec i (16 + 4)); cbn [andb]; try lia.
  { rewrite <- Hbs, getb_slice by lia. f_equal. lia. }
  destruct (Z.leb_spec 8 i), (Z.ltb_spec i (8 + 8)); cbn [andb]; try lia.
  { symmetry. apply (getb_le_bytes_read 8 8); done || lia. }
  assert (i = 0 \/ i = 1 \/ i = 2 \/ i = 3 \/ i = 4 \/ i = 5 \/ i = 6 \/ i = 7) as Hcases by lia.
  pose proof (Hpad 0 ltac:(lia)). pose proof (Hpad 1 ltac:(lia)).
  destruct Hcases as [->|[->|[->|[->|[->|[->|[->| ->]]]]]]]; cbn [Z.leb Z.ltb andb];
    simpl; first [by apply Hmag | done].
Qed.

(** C28. Accepted descriptors are canonical: a block that decodes is the
    encoding of its descriptor, and the descriptor's LSN, boundary and
    generation are consistent with its geometry. *)
Theorem descriptor_canonical b slot backing d :
  block_ok b -> decode b slot backing = Ok d ->
  encode d = Ok b /\ typed d /\ c_slot d = slot /\ c_backing_blocks d = backing /\
  exists g, valid d g.
Proof. apply descriptor_decode_encode. Qed.

(** [next_generation] increments, or refuses at the end of [u64]. *)
Lemma next_generation_Ok d n :
  next_generation d = Ok n <-> n = c_generation d + 1 /\ c_generation d + 1 < 2 ^ 64.
Proof.
  unfold next_generation, ok_or. destruct (checked_add _ _ _) eqn:E.
  - apply checked_add_Some in E. naive_solver.
  - unfold checked_add in E. destruct (Z.ltb_spec (c_generation d + 1) (2 ^ 64)); naive_solver lia.
Qed.

End codec.
End Descriptor.

#[export] Hint Resolve Descriptor.geometry_not_Panic Descriptor.validate_not_Panic
  Descriptor.descriptor_encode_not_Panic Descriptor.descriptor_decode_not_Panic : rust.

(** The descriptor of the Rust unit tests. *)
Definition example_descriptor : CheckpointDescriptor :=
  {| c_slot := Blue; c_volume_id := 19; c_volume_blocks := 1000; c_backing_blocks := 1000;
     c_checkpoint_lsn := 2; c_last_record_boundary := 6;
     c_index_checksum := 72623859790382856; c_generation := 1 |}.

Definition example_descriptor_block : list Z :=
  the_ok [] (@Descriptor.encode fold_xxh3 example_descriptor).

Lemma descriptor_roundtrip_witness :
  let H := fold_xxh3 in
  exists b, Descriptor.encode example_descriptor = Ok b /\
            Descriptor.decode b Blue 1000 = Ok example_descriptor.
Proof.
  intros H.
  destruct (is_ok_exists (Descriptor.encode example_descriptor)) as [b E]; [vm_compute; reflexivity|].
  exists b. split; [exact E|].
  refine (proj1 (proj2 (Descriptor.descriptor_roundtrip example_descriptor b _ E))).
  unfold Descriptor.typed, is_u64, is_u32; simpl. lia.
Defined.

Lemma descriptor_canonical_witness :
  let H := fold_xxh3 in
  exists d, Descriptor.decode example_descriptor_block Blue 1000 = Ok d /\
            Descriptor.encode d = Ok example_descriptor_block.
Proof.
  intros H.
  destruct (is_ok_exists (Descriptor.decode example_descriptor_block Blue 1000)) as [d D];
    [vm_compute; reflexivity|].
  exists d. split; [exact D|].
  refine (proj1 (Descriptor.descriptor_canonical example_descriptor_block Blue 1000 d _ D)).
  apply block_okb_spec. vm_compute. reflexivity.
Defined.
