(* ===== verification/Index.v ===== *)
(** The checkpoint index, an array of mapping-page pointers:
    [src/rust/src/format_v3/index.rs]. *)

From S2P Require Import Prelude Bytes Geometry Format Checkpoint.

Record Checkpoint := {
  k_descriptor : CheckpointDescriptor;
  k_pages : list Z;   (* mapping_page_block *)
}.

Module Index.
Section index.
Context `{Xxh3}.

Definition block_range (k : Checkpoint) (block : Z) : res (Z * Z) :=
  g <-? Descriptor.geometry (k_descriptor k) ;;
  fail_if (negb (lenZ (k_pages k) =? g_page_count g) || (g_index_blocks g <=? block))
    (InvalidData "invalid checkpoint index shape or block") ;;?
  let start := block * POINTERS_PER_BLOCK in
  Ok (start, Z.min (start + POINTERS_PER_BLOCK) (lenZ (k_pages k))).

Definition validate_pointer (k : Checkpoint) (pointer : Z) (g : Geometry) : res unit :=
  fail_if (negb (pointer =? 0)
           && ((pointer <? g_log_start g)
               || (c_last_record_boundary (k_descriptor k) <? pointer)
               || (g_backing_blocks g <=? pointer)))
    (InvalidData "mapping-page pointer outside checkpoint log").

(** The pointers of a block: [&self.mapping_page_block[range]]. *)
Definition in_range (k : Checkpoint) (range : Z * Z) : list Z :=
  slice range.1 (range.2 - range.1) (k_pages k).

(** The zip of the pointers with the four-byte chunks, from offset [off]. *)
Fixpoint encode_pointers (k : Checkpoint) (g : Geometry) (pointers : list Z) (off : Z)
    (bytes : list Z) : res (list Z) :=
  match pointers with
  | [] => Ok bytes
  | pointer :: pointers =>
      validate_pointer k pointer g ;;?
      encode_pointers k g pointers (off + 4) (put off (le_bytes 4 pointer) bytes)
  end.

Definition encode_block (k : Checkpoint) (block : Z) : res (list Z) :=
  range <-? block_range k block ;;
  g <-? Descriptor.geometry (k_descriptor k) ;;
  encode_pointers k g (in_range k range) 0 zero_block.

(** The pointers are all validated before any is stored. *)
Definition decode_block (k : Checkpoint) (block : Z) (bytes : list Z) : res Checkpoint :=
  range <-? block_range k block ;;
  g <-? Descriptor.geometry (k_descriptor k) ;;
  let count := range.2 - range.1 in
  fail_if (negb (lenZ bytes =? BLOCK_SIZE)
           || negb (all_zero (slice (count * 4) (BLOCK_SIZE - count * 4) bytes)))
    (InvalidData "checkpoint index length or padding mismatch") ;;?
  let pointers := read_array 4 count 0 bytes in
  rmapM (fun pointer => validate_pointer k pointer g) pointers ;;?
  Ok {| k_descriptor := k_descriptor k; k_pages := put range.1 pointers (k_pages k) |}.

Definition checksum (k : Checkpoint) : res Z :=
  g <-? Descriptor.geometry (k_descriptor k) ;;
  blocks <-? rmapM (encode_block k) (seqZ 0 (g_index_blocks g)) ;;
  Ok (xxh3 0 (concat blocks)).

(** [Checkpoint::empty]; the reservation of the index is assumed to succeed. *)
Definition empty (g : Geometry) (volume_id : Z) : res Checkpoint :=
  let descriptor := {| c_slot := Green;
                       c_volume_id := volume_id;
                       c_volume_blocks := g_volume_blocks g;
                       c_backing_blocks := g_backing_blocks g;
                       c_checkpoint_lsn := 0;
                       c_last_record_boundary := g_log_start g - 1;
                       c_index_checksum := 0;
                       c_generation := 0 |} in
  let pages := zeros (g_page_count g) in
  index_checksum <-? checksum {| k_descriptor := descriptor; k_pages := pages |} ;;
  Ok {| k_descriptor := {| c_slot := Green;
                           c_volume_id := volume_id;
                           c_volume_blocks := g_volume_blocks g;
                           c_backing_blocks := g_backing_blocks g;
                           c_checkpoint_lsn := 0;
                           c_last_record_boundary := g_log_start g - 1;
                           c_index_checksum := index_checksum;
                           c_generation := 0 |};
        k_pages := pages |}.

(** [Checkpoint::try_clone]. *)
Definition try_clone (k : Checkpoint) : res Checkpoint :=
  Ok {| k_descriptor := k_descriptor k; k_pages := k_pages k |}.

(** [size_of_val] of the index: four bytes a pointer. *)
Definition allocated_bytes (k : Checkpoint) : Z := lenZ (k_pages k) * 4.

(** ** Well-formed indexes *)

Definition pointer_ok (k : Checkpoint) (g : Geometry) (p : Z) : Prop :=
  p = 0 \/ (g_log_start g <= p <= c_last_record_boundary (k_descriptor k) /\ p < g_backing_blocks g).

(** The shape of an index for its geometry, with [u32] pointers into the log. *)
Record wf (k : Checkpoint) (g : Geometry) : Prop := {
  wf_geometry : Descriptor.geometry (k_descriptor k) = Ok g;
  wf_positive : 0 <= c_volume_blocks (k_descriptor k);
  wf_length : lenZ (k_pages k) = g_page_count g;
  wf_pointers : Forall (fun p => is_u32 p /\ pointer_ok k g p) (k_pages k);
}.

Lemma validate_pointer_Ok k p g : validate_pointer k p g = Ok tt <-> pointer_ok k g p.
Proof.
  unfold validate_pointer, pointer_ok. rewrite fail_if_Ok.
  destruct (Z.eqb_spec p 0), (Z.ltb_spec p (g_log_start g)),
    (Z.ltb_spec (c_last_record_boundary (k_descriptor k)) p), (Z.leb_spec (g_backing_blocks g) p);
    simpl; split; try discriminate; try tauto; lia.
Qed.

Lemma block_range_Ok k g block r :
  wf k g -> 0 <= block -> block_range k block = Ok r <->
  block < g_index_blocks g /\
  r = (block * 1024, Z.min (block * 1024 + 1024) (g_page_count g)).
Proof.
  intros [Hg _ Hl _] Hb. unfold block_range. rewrite Hg. cbn [rbind]. rewrite Hl, Z.eqb_refl.
  change POINTERS_PER_BLOCK with 1024.
  destruct (Z.leb_spec (g_index_blocks g) block); simpl; split; try discriminate; try lia.
  - intros [= <-]. done.
  - intros [_ ->]. done.
Qed.

(** The stores of [encode_pointers], as one lookup per byte. *)
Lemma encode_pointers_Ok k g ps off b b' :
  0 <= off -> off + lenZ ps * 4 <= 4096 -> lenZ b = 4096 ->
  encode_pointers k g ps off b = Ok b' ->
  lenZ b' = 4096 /\ (bytes_ok b -> bytes_ok b') /\
  (forall i, 0 <= i < lenZ ps -> slice (off + i * 4) 4 b' = le_bytes 4 (arr ps i)) /\
  (forall o n, 0 <= o -> 0 <= n -> o + n <= 4096 -> o + n <= off \/ off + lenZ ps * 4 <= o ->
    slice o n b' = slice o n b) /\
  Forall (pointer_ok k g) ps.
Proof.
  revert off b. induction ps as [|p ps IH]; intros off b Ho Hl Hb He; cbn [encode_pointers] in He.
  { injection He as <-. split_and!; auto. simpl. lia. }
  cbn [length] in *. ok_inv.
  match goal with H : validate_pointer _ _ _ = _ |- _ => apply validate_pointer_Ok in H as Hp end.
  assert (Hput : lenZ (put off (le_bytes 4 p) b) = 4096) by (apply len_put; rewrite ?length_le_bytes; lia).
  apply IH in H1 as (Hlen & Hok & Hin & Hout & Hall); [|lia..|done].
  split_and!; auto.
  - intros Hbo. apply Hok. apply put_ok; [apply le_bytes_ok | done].
  - intros i Hi. destruct (decide (i = 0)) as [->|Hne].
    + rewrite Hout by lia. replace (off + 0 * 4) with off by lia.
      apply slice_same; rewrite ?length_le_bytes; lia.
    + replace (off + i * 4) with (off + 4 + (i - 1) * 4) by lia. rewrite Hin by lia. f_equal.
      unfold arr. replace (Z.to_nat i) with (S (Z.to_nat (i - 1))) by lia. done.
  - intros o n ? ? ? Hd. rewrite Hout by lia.
    apply slice_skip; rewrite ?length_le_bytes; lia.
Qed.

Lemma encode_pointers_total k g ps off b :
  Forall (pointer_ok k g) ps -> exists b', encode_pointers k g ps off b = Ok b'.
Proof.
  intros Hp. revert off b. induction Hp as [|p ps Hp _ IH]; intros off b; cbn [encode_pointers]; eauto.
  rewrite (proj2 (validate_pointer_Ok _ _ _) Hp). simpl. eauto.
Qed.

Lemma in_range_len k g block :
  wf k g -> 0 <= block < g_index_blocks g ->
  let r := (block * 1024, Z.min (block * 1024 + 1024) (g_page_count g)) in
  lenZ (in_range k r) = r.2 - r.1 /\ 0 <= r.2 - r.1 <= 1024.
Proof.
  intros [Hg Hpos Hl _] Hb r. apply Geometry.new_wf in Hg as ([] & _); [|done].
  unfold in_range, r. cbn [fst snd]. rewrite length_slice; lia.
Qed.

Lemma in_range_Forall k g P r : Forall P (k_pages k) -> wf k g -> Forall P (in_range k r).
Proof. intros HP _. unfold in_range. Transparent slice. unfold slice. Opaque slice. auto using Forall_take, Forall_drop. Qed.

Lemma validate_pointers k g ps :
  Forall (pointer_ok k g) ps ->
  rmapM (fun pointer => validate_pointer k pointer g) ps = Ok (replicate (length ps) tt).
Proof.
  intros Hp. apply rmapM_Ok. induction Hp; simpl; constructor; [|done].
  by apply validate_pointer_Ok.
Qed.

Lemma encode_block_ok k g block bytes :
  wf k g -> 0 <= block < g_index_blocks g -> encode_block k block = Ok bytes -> block_ok bytes.
Proof.
  intros Hwf Hb. pose proof (in_range_len k g block Hwf Hb) as [Hl Hn]. unfold encode_block.
  rewrite (proj2 (block_range_Ok k g block _ Hwf ltac:(lia)) (conj (proj2 Hb) eq_refl)). cbn [rbind].
  rewrite (wf_geometry _ _ Hwf). cbn [rbind].
  intros (Hlen & Hok & _)%encode_pointers_Ok; [|lia|lia|apply len_zero_block].
  split; [exact Hlen|]. apply Hok, zeros_ok.
Qed.

Lemma encode_block_total k g block :
  wf k g -> 0 <= block < g_index_blocks g ->
  exists bytes, encode_block k block = Ok bytes.
Proof.
  intros Hwf Hb. unfold encode_block.
  rewrite (proj2 (block_range_Ok k g block _ Hwf ltac:(lia)) (conj (proj2 Hb) eq_refl)). cbn [rbind].
  rewrite (wf_geometry _ _ Hwf). cbn [rbind]. apply encode_pointers_total.
  apply (in_range_Forall k g); [|done].
  eapply Forall_impl; [exact (wf_pointers _ _ Hwf)|]. tauto.
Qed.

(** The encoding of an index depends on neither its slot nor its checksum field. *)
Lemma encode_block_ext k k' n :
  k_pages k = k_pages k' ->
  Descriptor.geometry (k_descriptor k) = Descriptor.geometry (k_descriptor k') ->
  c_last_record_boundary (k_descriptor k) = c_last_record_boundary (k_descriptor k') ->
  encode_block k n = encode_block k' n.
Proof.
  intros Hp Hg Hl. unfold encode_block, block_range, in_range. rewrite Hp, Hg.
  destruct (Descriptor.geometry (k_descriptor k')) as [g| |]; try done. cbn [rbind].
  destruct (fail_if _ _); try done. cbn [rbind]. generalize zero_block, 0.
  match goal with |- context [slice ?a ?b ?c] => generalize (slice a b c) end.
  intros ps. induction ps as [|p ps IHp]; intros bytes off; [done|]. cbn [encode_pointers].
  unfold validate_pointer. rewrite Hl. destruct (fail_if _ _); try done. cbn [rbind]. apply IHp.
Qed.

Lemma checksum_ext k k' :
  k_pages k = k_pages k' ->
  Descriptor.geometry (k_descriptor k) = Descriptor.geometry (k_descriptor k') ->
  c_last_record_boundary (k_descriptor k) = c_last_record_boundary (k_descriptor k') ->
  checksum k = checksum k'.
Proof.
  intros Hp Hg Hl. unfold checksum. rewrite Hg.
  destruct (Descriptor.geometry (k_descriptor k')) as [g| |] eqn:Eg; try done. cbn [rbind]. f_equal.
  generalize (seqZ 0 (g_index_blocks g)). intros blocks.
  induction blocks as [|n blocks IH]; [done|]. cbn [rmapM]. rewrite IH. f_equal.
  apply encode_block_ext; congruence.
Qed.

Lemma encode_blocks_total k g start n :
  wf k g -> 0 <= start -> start + n <= g_index_blocks g ->
  exists blocks, rmapM (fun offset => encode_block k (start + offset)) (seqZ 0 n) = Ok blocks.
Proof.
  intros Hk Hs Hn. apply rmapM_total. intros o Ho%elem_of_seqZ. apply (encode_block_total k g); [done|lia].
Qed.

Lemma checksum_total k g :
  wf k g -> exists sum, checksum k = Ok sum /\ is_u64 sum.
Proof.
  intros Hk. unfold checksum. rewrite (wf_geometry _ _ Hk). cbn [rbind].
  destruct (rmapM_total (encode_block k) (seqZ 0 (g_index_blocks g))) as [blocks ->].
  { intros o Ho%elem_of_seqZ. apply (encode_block_total k g); [done|lia]. }
  cbn [rbind]. eexists. split; [done | apply xxh3_range].
Qed.


Lemma encode_decode_block k k0 g block :
  wf k g -> 0 <= block < g_index_blocks g ->
  k_descriptor k0 = k_descriptor k -> lenZ (k_pages k0) = lenZ (k_pages k) ->
  exists bytes k',
    encode_block k block = Ok bytes /\ block_ok bytes /\ decode_block k0 block bytes = Ok k' /\
    k_descriptor k' = k_descriptor k /\ lenZ (k_pages k') = lenZ (k_pages k) /\
    forall i, 0 <= i < g_page_count g ->
      arr (k_pages k') i = arr (k_pages (if i / 1024 =? block then k else k0)) i.
Proof.
  intros Hwf Hb Hd Hlen. pose proof Hwf as [Hg Hpos Hl Hp].
  pose proof (Geometry.new_wf _ _ _ Hpos Hg) as (Hgw & _). destruct Hgw as [_ Hgp Hgi _ _].
  set (r := (block * 1024, Z.min (block * 1024 + 1024) (g_page_count g))).
  assert (Hr : block_range k block = Ok r) by (apply (block_range_Ok k g); [done | lia | split; [lia | done]]).
  assert (Hr0 : block_range k0 block = Ok r).
  { unfold block_range in *. rewrite Hd, Hlen. done. }
  pose proof (in_range_len k g block Hwf Hb) as [Hlr Hcnt]. fold r in Hlr, Hcnt.
  assert (Hps : Forall (fun p => is_u32 p /\ pointer_ok k g p) (in_range k r))
    by (eapply in_range_Forall; eauto).
  destruct (encode_pointers_total k g (in_range k r) 0 zero_block) as [bytes He].
  { eapply Forall_impl; [exact Hps|]. tauto. }
  pose proof He as He'. apply encode_pointers_Ok in He' as (Hbl & Hbo & Hin & Hout & _);
    [|lia|lia|apply len_zero_block].
  assert (Hread : read_array 4 (r.2 - r.1) 0 bytes = in_range k r).
  { apply read_array_stored; [done|]. intros i Hi. rewrite Hin by lia. apply le_u32.
    apply (Forall_arr (fun p => is_u32 p /\ pointer_ok k g p)); [done | lia]. }
  exists bytes, {| k_descriptor := k_descriptor k0; k_pages := put r.1 (in_range k r) (k_pages k0) |}.
  split; [unfold encode_block; rewrite Hr; cbn [rbind]; rewrite Hg; exact He|].
  split; [split; [exact Hbl | apply Hbo, zeros_ok]|]. split.
  { unfold decode_block. rewrite Hr0, Hd, Hg. cbn [rbind]. rewrite Hbl.
    change BLOCK_SIZE with 4096. rewrite Z.eqb_refl.
    rewrite Hout by lia. unfold zero_block. rewrite slice_zeros by (change BLOCK_SIZE with 4096; lia).
    rewrite all_zero_zeros. cbn [negb orb fail_if rbind]. rewrite Hread.
    rewrite validate_pointers; [done|]. eapply Forall_impl; [exact Hps|].
    unfold pointer_ok. rewrite Hd. tauto. }
  cbn [k_descriptor k_pages]. split; [done|].
  assert (Hpl : lenZ (put r.1 (in_range k r) (k_pages k0)) = lenZ (k_pages k)).
  { rewrite length_put; unfold r in *; cbn [fst snd] in *; lia. }
  split; [exact Hpl|]. intros i Hi.
  change (getb (put r.1 (in_range k r) (k_pages k0)) i
          = arr (k_pages (if i / 1024 =? block then k else k0)) i).
  rewrite getb_put; [|unfold r in *; cbn [fst snd] in *; lia..].
  pose proof (Z.div_mod i 1024 ltac:(lia)). pose proof (Z.mod_pos_bound i 1024 ltac:(lia)).
  unfold r in *; cbn [fst snd] in *.
  destruct (Z.eqb_spec (i / 1024) block), (Z.leb_spec (block * 1024) i),
    (Z.ltb_spec i (block * 1024 + lenZ (in_range k (block * 1024, Z.min (block * 1024 + 1024) (g_page_count g)))));
    cbn [andb]; try lia; try done.
  unfold in_range. cbn [fst snd]. rewrite getb_slice by lia. unfold getb, arr. do 2 f_equal. lia.
Qed.

(** C29. Every index block of a well-formed checkpoint encodes, and decoding
    that block into any checkpoint with the same descriptor and shape restores
    exactly the pointers of that block and leaves the others alone. *)
Theorem index_block_roundtrip k k0 g block :
  wf k g -> 0 <= block < g_index_blocks g ->
  k_descriptor k0 = k_descriptor k -> lenZ (k_pages k0) = lenZ (k_pages k) ->
  exists bytes k',
    encode_block k block = Ok bytes /\ block_ok bytes /\ decode_block k0 block bytes = Ok k' /\
    k_descriptor k' = k_descriptor k /\ lenZ (k_pages k') = lenZ (k_pages k) /\
    forall i, 0 <= i < g_page_count g ->
      arr (k_pages k') i = arr (k_pages (if i / 1024 =? block then k else k0)) i.
Proof. apply encode_decode_block. Qed.

Lemma empty_Ok v b g volume_id :
  is_u32 v -> is_u64 volume_id -> Geometry.new v b = Ok g -> is_u64 b ->
  exists k, empty g volume_id = Ok k /\ wf k g /\ k_pages k = zeros (g_page_count g) /\
    checksum k = Ok (c_index_checksum (k_descriptor k)) /\
    Descriptor.typed (k_descriptor k) /\ Descriptor.valid (k_descriptor k) g /\
    c_checkpoint_lsn (k_descriptor k) = 0 /\ c_generation (k_descriptor k) = 0.
Proof.
  intros Hv Hid Hg Hbk. pose proof (Geometry.new_wf v b g ltac:(apply Hv) Hg) as (Hwf & Hgv & Hgb).
  pose proof (Geometry.new_wf_id g Hwf) as Hgid. destruct Hwf as [Hvb Hgp Hgi Hs Hbb].
  set (d := fun sum => {| c_slot := Green; c_volume_id := volume_id;
    c_volume_blocks := g_volume_blocks g; c_backing_blocks := g_backing_blocks g;
    c_checkpoint_lsn := 0; c_last_record_boundary := g_log_start g - 1;
    c_index_checksum := sum; c_generation := 0 |}).
  set (k := fun sum => {| k_descriptor := d sum; k_pages := zeros (g_page_count g) |}).
  assert (Hk : forall sum, wf (k sum) g).
  { intros sum. constructor; cbn.
    - exact Hgid.
    - lia.
    - apply length_zeros. lia.
    - apply Forall_replicate. split; [split; done|]. by left. }
  destruct (checksum_total (k 0) g (Hk 0)) as (sum & Hsum & Hu).
  exists (k sum).
  assert (Hsame : checksum (k sum) = checksum (k 0)) by (apply checksum_ext; reflexivity).
  split. { unfold empty. unfold k, d in Hsum. rewrite Hsum. done. }
  split; [apply Hk|]. split; [done|]. split; [rewrite Hsame; exact Hsum|].
  split.
  { unfold Descriptor.typed; cbn. unfold is_u32, is_u64 in *. lia. }
  split; [|done]. constructor; cbn; try lia. exact Hgid.
Qed.

(** [Checkpoint::empty] succeeds on every geometry that
    [Geometry::new] accepts, and yields an unwritten volume: no page has a
    snapshot, the log ends just below [log_start], and the descriptor is one
    that [encode] accepts in either slot. *)
Theorem empty_checkpoint v b g volume_id :
  is_u32 v -> is_u64 volume_id -> Geometry.new v b = Ok g -> is_u64 b ->
  exists k, empty g volume_id = Ok k /\ wf k g /\ k_pages k = zeros (g_page_count g) /\
    checksum k = Ok (c_index_checksum (k_descriptor k)) /\
    Descriptor.typed (k_descriptor k) /\ Descriptor.valid (k_descriptor k) g /\
    c_checkpoint_lsn (k_descriptor k) = 0 /\ c_generation (k_descriptor k) = 0.
Proof. apply empty_Ok. Qed.

End index.
End Index.

(** A checkpoint of a 700-block volume, two of whose pages have snapshots. *)
Definition example_checkpoint : Checkpoint := {|
  k_descriptor := {| c_slot := Blue; c_volume_id := 9; c_volume_blocks := 700;
                     c_backing_blocks := 100; c_checkpoint_lsn := 5;
                     c_last_record_boundary := 20; c_index_checksum := 0; c_generation := 3 |};
  k_pages := [4; 0; 9] |}.

Definition example_blank : Checkpoint :=
  {| k_descriptor := k_descriptor example_checkpoint; k_pages := [0; 0; 0] |}.

Definition example_geometry : Geometry :=
  the_ok {| g_volume_blocks := 0; g_backing_blocks := 0; g_page_count := 0; g_index_blocks := 0;
            g_log_start := 0 |} (Geometry.new 700 100).

Lemma example_checkpoint_wf : Index.wf example_checkpoint example_geometry.
Proof.
  constructor.
  - apply is_ok_the. vm_compute. reflexivity.
  - vm_compute. discriminate.
  - vm_compute. reflexivity.
  - repeat constructor; try (vm_compute; congruence);
      first [left; reflexivity | right; vm_compute; repeat split; congruence].
Qed.

Lemma index_block_roundtrip_witness :
  exists bytes k',
    Index.encode_block example_checkpoint 0 = Ok bytes /\ block_ok bytes /\
    Index.decode_block example_blank 0 bytes = Ok k' /\
    k_descriptor k' = k_descriptor example_checkpoint /\
    lenZ (k_pages k') = lenZ (k_pages example_checkpoint) /\
    forall i, 0 <= i < g_page_count example_geometry ->
      arr (k_pages k') i = arr (k_pages (if i / 1024 =? 0 then example_checkpoint else example_blank)) i.
Proof.
  refine (Index.index_block_roundtrip example_checkpoint example_blank example_geometry 0
            example_checkpoint_wf _ eq_refl eq_refl).
  vm_compute. split; [discriminate | reflexivity].
Defined.

Lemma empty_checkpoint_witness :
  exists k, @Index.empty fold_xxh3 example_geometry 77 = Ok k /\ Index.wf k example_geometry /\
    k_pages k = zeros (g_page_count example_geometry) /\
    @Index.checksum fold_xxh3 k = Ok (c_index_checksum (k_descriptor k)) /\
    Descriptor.typed (k_descriptor k) /\ Descriptor.valid (k_descriptor k) example_geometry /\
    c_checkpoint_lsn (k_descriptor k) = 0 /\ c_generation (k_descriptor k) = 0.
Proof.
  refine (@Index.empty_checkpoint fold_xxh3 700 100 example_geometry 77 _ _ _ _).
  - split; [discriminate | reflexivity].
  - split; [discriminate | reflexivity].
  - apply is_ok_the. vm_compute. reflexivity.
  - split; [discriminate | reflexivity].
Defined.
