(* ===== verification/Clock.v ===== *)
(** The CLOCK replacement policy: [src/rust/src/mapping_cache/clock.rs]. *)

From S2P Require Import Prelude Bytes Entries.

(** [referenced] packs one bit per slot into 64-bit words. *)
Record Clock := {
  referenced : list Z;
  clock_capacity : Z;
  cursor : Z;
}.

Module Clock.

Definition mask (slot : Z) : Z := Z.shiftl 1 (slot mod 64).

Definition new (capacity : Z) : result CacheError Clock :=
  fail_if (capacity =? 0) InvalidCapacity ;;?
  Ok {| referenced := zeros (div_ceil capacity 64); clock_capacity := capacity; cursor := 0 |}.

(** [self.referenced[slot / 64]], which panics when the word is missing. *)
Definition word (c : Clock) (slot : Z) : result CacheError Z :=
  expect (referenced c !! Z.to_nat (slot / 64)).

Definition set (slot : Z) (value : bool) (c : Clock) : result CacheError Clock :=
  assert_ (slot <? clock_capacity c) ;;?
  w <-? word c slot ;;
  let w := if value then Z.lor w (mask slot) else Z.ldiff w (mask slot) in
  Ok {| referenced := <[Z.to_nat (slot / 64) := w]> (referenced c);
        clock_capacity := clock_capacity c; cursor := cursor c |}.

Definition access (slot : Z) (c : Clock) : result CacheError Clock := set slot true c.
Definition insert (slot : Z) (c : Clock) : result CacheError Clock := set slot true c.
Definition remove (slot : Z) (c : Clock) : result CacheError Clock := set slot false c.

(** [self.referenced[slot / 64] & mask != 0]. *)
Definition is_referenced (c : Clock) (slot : Z) : result CacheError bool :=
  w <-? word c slot ;; Ok (negb (Z.land w (mask slot) =? 0)).

(** The first [n] slots from the cursor on, in cyclic order. *)
Definition order (c : Clock) (n : Z) : list Z :=
  (fun offset => (cursor c + offset) mod clock_capacity c) <$> seqZ 0 n.

(** The unreferenced slots among the next 32. *)
Definition cold_candidates (c : Clock) : result CacheError (list Z) :=
  let slots := order c (Z.min (clock_capacity c) 32) in
  bits <-? rmapM (is_referenced c) slots ;;
  Ok (map fst (filter (fun p => negb p.2 = true) (zip slots bits))).

Definition advance_past (slot : Z) (c : Clock) : result CacheError Clock :=
  assert_ (slot <? clock_capacity c) ;;?
  Ok {| referenced := referenced c; clock_capacity := clock_capacity c;
        cursor := (slot + 1) mod clock_capacity c |}.

(** One pass of [victim]: [n] steps of the hand. *)
Fixpoint sweep (n : nat) (clean : Z -> bool) (examined : Z) (c : Clock) :
    result CacheError (option Z * Z * Clock) :=
  match n with
  | O => Ok (None, examined, c)
  | S n =>
      let slot := cursor c in
      let c := {| referenced := referenced c; clock_capacity := clock_capacity c;
                  cursor := (cursor c + 1) mod clock_capacity c |} in
      referenced <-? is_referenced c slot ;;
      if referenced : bool then
        c <-? remove slot c ;;
        sweep n clean (examined + 1) c
      else if clean slot then Ok (Some slot, examined + 1, c)
      else sweep n clean (examined + 1) c
  end.

(** The hand passes over the slots at most twice. *)
Definition victim (clean : Z -> bool) (c : Clock) : result CacheError (option Z * Z * Clock) :=
  first <-? sweep (Z.to_nat (clock_capacity c)) clean 0 c ;;
  match first with
  | (None, examined, c) => sweep (Z.to_nat (clock_capacity c)) clean examined c
  | found => Ok found
  end.

(** Eight bytes a word. *)
Definition allocated_bytes (c : Clock) : Z := lenZ (referenced c) * 8.

(** ** Invariant *)

Record wf (c : Clock) : Prop := {
  wf_capacity : 0 < clock_capacity c;
  wf_cursor : 0 <= cursor c < clock_capacity c;
  wf_words : lenZ (referenced c) = div_ceil (clock_capacity c) 64;
}.

Definition bit (c : Clock) (slot : Z) : bool :=
  Z.testbit (arr (referenced c) (slot / 64)) (slot mod 64).

Definition in_range (c : Clock) (slot : Z) : Prop := 0 <= slot < clock_capacity c.

Lemma new_wf_clock capacity :
  0 < capacity -> exists c, new capacity = Ok c /\ wf c /\ clock_capacity c = capacity /\
    cursor c = 0 /\ (forall s, bit c s = false) /\
    allocated_bytes c = div_ceil capacity 64 * 8.
Proof.
  intros Hc. unfold new. destruct (Z.eqb_spec capacity 0); [lia|]. cbn [fail_if rbind].
  eexists. split; [done|]. unfold allocated_bytes; cbn.
  pose proof (div_ceil_nonneg capacity 64 ltac:(lia) ltac:(lia)).
  rewrite length_zeros by lia. split; [|split_and!; auto].
  - constructor; cbn; try lia. by apply length_zeros.
  - intros s. unfold bit; cbn. rewrite Entries.arr_zeros. apply Z.bits_0.
Qed.

Lemma word_lookup c slot :
  wf c -> in_range c slot -> referenced c !! Z.to_nat (slot / 64) = Some (arr (referenced c) (slot / 64)).
Proof.
  intros [Hc _ Hw] [Hs0 Hs]. pose proof (div_ceil_spec (clock_capacity c) 64 ltac:(lia)).
  pose proof (Z.div_mod slot 64 ltac:(lia)). pose proof (Z.mod_pos_bound slot 64 ltac:(lia)).
  assert (Z.to_nat (slot / 64) < length (referenced c))%nat by lia.
  unfold arr. rewrite nth_lookup. destruct (lookup_lt_is_Some_2 (referenced c) (Z.to_nat (slot / 64))) as [x ->]; done.
Qed.

Lemma mask_bit w slot : 0 <= slot -> negb (Z.land w (mask slot) =? 0) = Z.testbit w (slot mod 64).
Proof.
  intros Hs. unfold mask. rewrite Z.shiftl_1_l.
  pose proof (Z.mod_pos_bound slot 64 ltac:(lia)).
  destruct (Z.testbit w (slot mod 64)) eqn:Hb.
  - destruct (Z.eqb_spec (Z.land w (2 ^ (slot mod 64))) 0) as [H0|]; [|done].
    exfalso. apply (f_equal (fun z => Z.testbit z (slot mod 64))) in H0.
    rewrite Z.land_spec, Hb, Z.pow2_bits_true, Z.bits_0 in H0 by lia. done.
  - destruct (Z.eqb_spec (Z.land w (2 ^ (slot mod 64))) 0) as [|H0]; [done|].
    exfalso. apply H0, Z.bits_inj'. intros i Hi. rewrite Z.land_spec, Z.bits_0.
    destruct (decide (i = slot mod 64)) as [->|]; [by rewrite Hb|].
    rewrite Z.pow2_bits_false by lia. apply andb_false_r.
Qed.

Lemma is_referenced_Ok c slot :
  wf c -> in_range c slot -> is_referenced c slot = Ok (bit c slot).
Proof.
  intros Hwf Hs. unfold is_referenced, word. rewrite (word_lookup c slot) by done.
  cbn [expect rbind]. rewrite mask_bit by apply Hs. done.
Qed.

Lemma same_slot s t : 0 <= s -> 0 <= t -> s / 64 = t / 64 -> s mod 64 = t mod 64 -> s = t.
Proof. intros. rewrite (Z.div_mod s 64), (Z.div_mod t 64) by lia. lia. Qed.

Lemma set_Ok c slot value :
  wf c -> in_range c slot ->
  exists c', set slot value c = Ok c' /\ wf c' /\ cursor c' = cursor c /\
    clock_capacity c' = clock_capacity c /\
    forall t, 0 <= t -> bit c' t = if t =? slot then value else bit c t.
Proof.
  intros Hwf Hs. pose proof Hwf as [Hc Hcur Hw]. unfold set, word.
  destruct (Z.ltb_spec slot (clock_capacity c)); [|unfold in_range in Hs; lia].
  rewrite (word_lookup c slot) by done. cbn [assert_ expect rbind].
  eexists. split; [done|]. split; [constructor; cbn; [done..|by rewrite length_insert]|].
  split; [done|]. split; [done|]. intros t Ht. unfold bit; cbn.
  pose proof (word_lookup c slot Hwf Hs) as Hlk. apply lookup_lt_Some in Hlk.
  destruct Hs as [Hs0 _]. pose proof (Z.mod_pos_bound slot 64 ltac:(lia)).
  pose proof (Z.mod_pos_bound t 64 ltac:(lia)).
  assert (0 <= slot / 64) by (apply Z.div_pos; lia). assert (0 <= t / 64) by (apply Z.div_pos; lia).
  destruct (decide (t / 64 = slot / 64)) as [Hd|Hd].
  - rewrite Hd. rewrite Entries.arr_insert by lia. destruct (Z.eqb_spec (slot / 64) (slot / 64)); [|lia].
    unfold mask. rewrite Z.shiftl_1_l. destruct (Z.eqb_spec t slot) as [->|Hne].
    + destruct value.
      * rewrite Z.lor_spec, Z.pow2_bits_true by lia. apply orb_true_r.
      * rewrite Z.ldiff_spec, Z.pow2_bits_true by lia. apply andb_false_r.
    + assert (slot mod 64 <> t mod 64) by (intros ?; apply Hne, same_slot; lia).
      destruct value.
      * rewrite Z.lor_spec, Z.pow2_bits_false by lia. apply orb_false_r.
      * rewrite Z.ldiff_spec, Z.pow2_bits_false by lia. apply andb_true_r.
  - destruct (Z.eqb_spec t slot) as [->|Hne]; [done|].
    rewrite Entries.arr_insert by lia.
    destruct (Z.eqb_spec (slot / 64) (t / 64)); [lia | done].
Qed.

(** ** The hand *)

Lemma cursor_in_range c o : wf c -> in_range c ((cursor c + o) mod clock_capacity c).
Proof. intros [Hc _ _]. unfold in_range. by apply Z.mod_pos_bound. Qed.

Lemma length_order c n : length (order c n) = Z.to_nat n.
Proof. unfold order. by rewrite length_fmap, length_seqZ. Qed.

Lemma elem_of_order c n s :
  s ∈ order c n <-> exists o, s = (cursor c + o) mod clock_capacity c /\ 0 <= o < n.
Proof. unfold order. rewrite list_elem_of_fmap. setoid_rewrite elem_of_seqZ. naive_solver lia. Qed.

Lemma order_in_range c n s : wf c -> s ∈ order c n -> in_range c s.
Proof. intros Hwf (o & -> & _)%elem_of_order. by apply cursor_in_range. Qed.

(** A full turn of the hand visits every slot. *)
Lemma order_complete c s : wf c -> in_range c s -> s ∈ order c (clock_capacity c).
Proof.
  intros [Hc Hcur _] Hs. unfold in_range in Hs. apply elem_of_order.
  exists ((s - cursor c) mod clock_capacity c). split; [|by apply Z.mod_pos_bound].
  rewrite Z.add_mod_idemp_r by lia. replace (cursor c + (s - cursor c)) with s by lia.
  symmetry. by apply Z.mod_small.
Qed.

Definition stepped (c : Clock) : Clock :=
  {| referenced := referenced c; clock_capacity := clock_capacity c;
     cursor := (cursor c + 1) mod clock_capacity c |}.

Lemma stepped_wf c : wf c -> wf (stepped c).
Proof. intros [Hc Hcur Hw]. constructor; cbn; [done | by apply Z.mod_pos_bound | done]. Qed.

Lemma order_step c c' n :
  wf c -> cursor c' = (cursor c + 1) mod clock_capacity c -> clock_capacity c' = clock_capacity c ->
  order c (Z.of_nat (S n)) = cursor c :: order c' (Z.of_nat n).
Proof.
  intros [Hc Hcur _] Hk Hcap. unfold order. rewrite seqZ_cons by lia. rewrite fmap_cons.
  f_equal; [rewrite Z.add_0_r; by apply Z.mod_small|].
  rewrite Hcap, Hk. replace (Z.pred (Z.of_nat (S n))) with (Z.of_nat n) by lia.
  change (Z.succ 0) with (1 + 0). rewrite <- fmap_add_seqZ.
  rewrite <- list_fmap_compose. apply list_fmap_ext. intros i x _. cbn. rewrite Z.add_mod_idemp_l by lia. f_equal. lia.
Qed.

(** The slots of less than a full turn are distinct. *)
Lemma cursor_not_ahead c n :
  wf c -> 0 <= n < clock_capacity c -> cursor c ∉ order (stepped c) n.
Proof.
  intros [Hc Hcur _] Hn (o & Ho & Hon)%elem_of_order. cbn in Ho.
  rewrite Z.add_mod_idemp_l in Ho by lia.
  pose proof (Z.div_mod (cursor c + 1 + o) (clock_capacity c) ltac:(lia)) as Hd. rewrite <- Ho in Hd.
  destruct (Z.le_gt_cases ((cursor c + 1 + o) / clock_capacity c) 0); nia.
Qed.

(** What one pass finds first: a clean slot whose bit is clear. *)
Definition evictable (c : Clock) (clean : Z -> bool) (s : Z) : bool := negb (bit c s) && clean s.

Definition first (f : Z -> bool) (l : list Z) : option Z := List.find f l.

Lemma first_ext f g l : (forall s, s ∈ l -> f s = g s) -> first f l = first g l.
Proof.
  induction l as [|s l IH]; intros Hfg; cbn; [done|].
  rewrite Hfg by set_solver. destruct (g s); [done|]. apply IH. set_solver.
Qed.

Lemma first_Some f l s : first f l = Some s -> s ∈ l /\ f s = true.
Proof. intros [H1 H2]%List.find_some. by rewrite list_elem_of_In. Qed.

Lemma first_None f l s : first f l = None -> s ∈ l -> f s = false.
Proof. intros H Hs. apply (List.find_none f l H). by apply list_elem_of_In. Qed.

Lemma decide_cons {A} (s k : Z) (l : list Z) (x y : A) :
  (if decide (s ∈ k :: l) then x else y)
  = if decide (s = k) then x else if decide (s ∈ l) then x else y.
Proof.
  destruct (decide (s ∈ k :: l)) as [H|H]; rewrite elem_of_cons in H;
    destruct (decide (s = k)), (decide (s ∈ l)); tauto.
Qed.

(** One pass of the hand over [n] distinct slots.  It clears the bits it passes. *)
Lemma sweep_first clean n examined c :
  wf c -> Z.of_nat n <= clock_capacity c ->
  exists x c',
    sweep n clean examined c = Ok (first (evictable c clean) (order c (Z.of_nat n)), x, c') /\
    wf c' /\ clock_capacity c' = clock_capacity c /\ examined <= x <= examined + Z.of_nat n /\
    (first (evictable c clean) (order c (Z.of_nat n)) = None ->
       x = examined + Z.of_nat n /\
       cursor c' = (cursor c + Z.of_nat n) mod clock_capacity c /\
       forall s, 0 <= s -> bit c' s = if decide (s ∈ order c (Z.of_nat n)) then false else bit c s).
Proof.
  revert examined c. induction n as [|n IH]; intros examined c Hwf Hn.
  { exists examined, c. split; [done|]. split; [done|]. split; [done|]. split; [lia|]. intros _.
    split; [lia|]. destruct Hwf. rewrite Z.add_0_r, Z.mod_small by done. split; [done|].
    intros s _. rewrite decide_False; [done|]. intros (o & _ & ?)%elem_of_order. lia. }
  cbn [sweep]. fold (stepped c). pose proof (stepped_wf c Hwf) as Hwf1.
  assert (Hin : in_range c (cursor c)) by (split; apply Hwf).
  rewrite (is_referenced_Ok (stepped c) (cursor c)) by done. cbn [rbind].
  change (bit (stepped c) (cursor c)) with (bit c (cursor c)).
  pose proof (cursor_not_ahead c (Z.of_nat n) Hwf ltac:(lia)) as Hnot.
  rewrite (order_step c (stepped c) n Hwf eq_refl eq_refl). cbn [first List.find].
  unfold evictable at 1 3. destruct (bit c (cursor c)) eqn:Hbit; cbn [negb andb].
  - destruct (set_Ok (stepped c) (cursor c) false Hwf1 Hin) as (c2 & Hset & Hwf2 & Hk2 & Hc2 & Hb2).
    unfold remove. rewrite Hset. cbn [rbind].
    assert (Ho2 : order c2 (Z.of_nat n) = order (stepped c) (Z.of_nat n))
      by (unfold order; by rewrite Hk2, Hc2).
    destruct (IH (examined + 1) c2 Hwf2 ltac:(rewrite Hc2; cbn; lia)) as (x & c' & Hrun & Hwf' & Hcap & Hx & Hnone).
    assert (Hf : first (evictable c2 clean) (order c2 (Z.of_nat n))
                 = first (evictable c clean) (order (stepped c) (Z.of_nat n))).
    { rewrite Ho2. apply first_ext. intros s Hs. unfold evictable.
      rewrite Hb2 by apply (order_in_range _ _ _ Hwf1 Hs).
      destruct (Z.eqb_spec s (cursor c)) as [->|]; [contradiction | done]. }
    rewrite Hf in *. exists x, c'. split; [exact Hrun|]. split; [done|].
    split; [rewrite Hcap, Hc2; done|]. split; [lia|]. intros Hno.
    destruct (Hnone Hno) as (-> & Hcur & Hbits). split; [lia|].
    split. { rewrite Hcur, Hk2, Hc2. cbn. destruct Hwf. rewrite Z.add_mod_idemp_l by lia. f_equal. lia. }
    intros s Hs. rewrite Hbits, Ho2, Hb2, decide_cons by done.
    change (bit (stepped c) s) with (bit c s).
    destruct (Z.eqb_spec s (cursor c)); destruct (decide (s ∈ _)), (decide (s = cursor c)); done.
  - destruct (clean (cursor c)) eqn:Hcl.
    + exists (examined + 1), (stepped c). do 3 (split; [done|]). split; [lia | discriminate].
    + destruct (IH (examined + 1) (stepped c) Hwf1 ltac:(cbn; lia)) as (x & c' & Hrun & Hwf' & Hcap & Hx & Hnone).
      change (evictable (stepped c) clean) with (evictable c clean) in *.
      exists x, c'. split; [exact Hrun|]. split; [done|]. split; [done|]. split; [lia|].
      intros Hno. destruct (Hnone Hno) as (-> & Hcur & Hbits). split; [lia|].
      split. { rewrite Hcur. cbn. destruct Hwf. rewrite Z.add_mod_idemp_l by lia. f_equal. lia. }
      intros s Hs. rewrite Hbits, decide_cons by done. change (bit (stepped c) s) with (bit c s).
      destruct (decide (s ∈ _)), (decide (s = cursor c)) as [->|]; done.
Qed.

(** The slot that the policy should evict: the first clean slot in cyclic order
    that was not referenced since the hand last passed it, or else the first
    clean slot. *)
Definition choice (clean : Z -> bool) (c : Clock) : option Z :=
  match first (evictable c clean) (order c (clock_capacity c)) with
  | Some s => Some s
  | None => first clean (order c (clock_capacity c))
  end.

Lemma victim_Ok clean c :
  wf c -> exists x c',
    victim clean c = Ok (choice clean c, x, c') /\ wf c' /\
    clock_capacity c' = clock_capacity c /\ 0 <= x <= 2 * clock_capacity c.
Proof.
  intros Hwf. pose proof (wf_capacity c Hwf) as Hc. unfold victim.
  destruct (sweep_first clean (Z.to_nat (clock_capacity c)) 0 c Hwf ltac:(lia))
    as (x & c1 & -> & Hwf1 & Hcap1 & Hx & Hnone).
  rewrite Z2Nat.id in * by lia. cbn [rbind]. unfold choice.
  destruct (first (evictable c clean) (order c (clock_capacity c))) as [s|] eqn:Hf.
  { exists x, c1. split; [done|]. split; [done|]. split; [done|]. lia. }
  destruct (Hnone eq_refl) as (-> & Hcur & Hbits).
  destruct (sweep_first clean (Z.to_nat (clock_capacity c1)) (0 + clock_capacity c) c1 Hwf1 ltac:(lia))
    as (x2 & c2 & Hrun & Hwf2 & Hcap2 & Hx2 & _).
  rewrite Hcap1 in *. rewrite Hrun. rewrite Z2Nat.id in * by lia.
  assert (Hord : order c1 (clock_capacity c) = order c (clock_capacity c)).
  { unfold order. rewrite Hcap1, Hcur. apply list_fmap_ext. intros i o _.
    rewrite Z.add_mod_idemp_l by lia. rewrite <- (Z.mod_add (cursor c + o) 1 (clock_capacity c)) by lia.
    f_equal. lia. }
  exists x2, c2. split; [|split; [done|split; [done|lia]]].
  rewrite Hord. do 3 f_equal. apply first_ext. intros s Hs. unfold evictable.
  rewrite Hbits by (apply (order_in_range _ _ _ Hwf Hs)). by rewrite decide_True.
Qed.

Lemma choice_clean clean c s : wf c -> choice clean c = Some s -> in_range c s /\ clean s = true.
Proof.
  intros Hwf. unfold choice. destruct (first _ _) eqn:Hf.
  - intros [= <-]. apply first_Some in Hf as [Hs Hc]. unfold evictable in Hc. bool_prop.
    split; [by apply order_in_range in Hs | done].
  - intros Hs. apply first_Some in Hs as [Hs Hc]. split; [by apply order_in_range in Hs | done].
Qed.

Lemma choice_None clean c :
  wf c -> choice clean c = None <-> forall s, in_range c s -> clean s = false.
Proof.
  intros Hwf. split.
  - unfold choice. destruct (first _ _); [discriminate|].
    intros Hn s Hs. apply (first_None clean _ s Hn). by apply order_complete.
  - intros Hall. destruct (choice clean c) as [s|] eqn:Hc; [|done].
    apply choice_clean in Hc as [Hs Hcl]; [|done]. rewrite Hall in Hcl; done.
Qed.

(** C22. [victim] computes the reference choice within two turns of the hand:
    a clean slot that was not referenced since the hand last passed it, the
    first of these in cyclic order, or else the first clean slot; and it fails
    only when every slot is dirty. *)
Theorem victim_evicts clean c :
  wf c -> exists chosen examined c',
    victim clean c = Ok (chosen, examined, c') /\ chosen = choice clean c /\
    wf c' /\ clock_capacity c' = clock_capacity c /\ 0 <= examined <= 2 * clock_capacity c /\
    (chosen = None <-> forall s, in_range c s -> clean s = false) /\
    (forall s, chosen = Some s -> in_range c s /\ clean s = true).
Proof.
  intros Hwf. destruct (victim_Ok clean c Hwf) as (x & c' & Hv & Hwf' & Hcap & Hx).
  exists (choice clean c), x, c'. split_and!; auto; try lia.
  - by apply choice_None.
  - intros s. by apply choice_clean.
Qed.

Lemma cold_candidates_Ok c :
  wf c ->
  cold_candidates c =
    Ok (filter (fun s => bit c s = false) (order c (Z.min (clock_capacity c) 32))).
Proof.
  intros Hwf. unfold cold_candidates.
  assert (Hin : Forall (in_range c) (order c (Z.min (clock_capacity c) 32))).
  { apply Forall_forall. intros s Hs. by eapply order_in_range. }
  revert Hin. generalize (order c (Z.min (clock_capacity c) 32)). intros l Hl.
  assert (rmapM (is_referenced c) l = Ok (map (bit c) l)) as ->.
  { apply rmapM_Ok. induction Hl; simpl; constructor; [by apply is_referenced_Ok | done]. }
  cbn [rbind]. f_equal. induction Hl as [|s l Hs Hl IH]; [done|]. cbn [map zip_with].
  rewrite !filter_cons. cbn [snd].
  destruct (bit c s); repeat case_decide; try done; cbn [map fst]; by rewrite <- IH.
Qed.

End Clock.

(** Three slots; the hand is on slot 1, slots 1 and 2 were referenced, slot 2 is dirty. *)
Definition example_clock : Clock :=
  {| referenced := [6]; clock_capacity := 3; cursor := 1 |}.

Lemma victim_evicts_witness :
  let clean := fun s => negb (s =? 2) in
  exists chosen examined c',
    Clock.victim clean example_clock = Ok (chosen, examined, c') /\
    chosen = Clock.choice clean example_clock /\
    Clock.wf c' /\ clock_capacity c' = 3 /\ 0 <= examined <= 6 /\
    (chosen = None <-> forall s, Clock.in_range example_clock s -> clean s = false) /\
    (forall s, chosen = Some s -> Clock.in_range example_clock s /\ clean s = true).
Proof.
  intros clean. refine (Clock.victim_evicts clean example_clock _).
  constructor; [cbn; lia | cbn; lia | reflexivity].
Defined.
