(* ===== verification/Sizing.v ===== *)
(** The sizing of the mapping cache: [src/rust/src/mapping_cache/sizing.rs].

    The size of a [Slot] is the compiler's, and the memory a hash table takes is
    hashbrown's; both are parameters.  Memory allocation is taken to succeed, so
    [AllocationFailed] does not occur. *)

From S2P Require Import Prelude Bytes Geometry Entries.

Class Platform := {
  size_of_Slot : Z;
  (** [Lookup::allocation_size] of a table that was reserved for [n] entries. *)
  allocation_size : Z -> Z;
  size_of_Slot_pos : 0 < size_of_Slot;
  allocation_size_nonneg n : 0 <= allocation_size n;
  allocation_size_mono n m : n <= m -> allocation_size n <= allocation_size m;
  (** [Lookup::allocation_size] of a table reserved for [n] entries that now
      holds [live] entries after any insertions and removals. *)
  table_allocation : Z -> Z -> Z;
  (** hashbrown does not grow a table that stays at half of its reservation. *)
  table_no_growth n live : 2 * live <= n -> table_allocation n live = allocation_size n;
}.

Definition USIZE : Z := 64.

Record Sizing := {
  requested_bytes : Z;
  page_count : Z;
  capacity : Z;
  slot_bytes : Z;
  lookup_bytes : Z;
  policy_bytes : Z;
  sort_bytes : Z;
  total_bytes : Z;   (* allocated_bytes *)
}.

Module Sizing.
Section sizing.
Context `{Platform}.

(** [new_lookup]: the table is reserved for twice its entries; the result is
    the size of its allocation. *)
Definition new_lookup (capacity : Z) : result CacheError Z :=
  reserve <-? ok_or (checked_mul USIZE capacity 2) SizeOverflow ;;
  Ok (allocation_size reserve).

Definition for_capacity (capacity : Z) : result CacheError Sizing :=
  fail_if (capacity =? 0) InvalidCapacity ;;?
  slot_bytes <-? ok_or (checked_mul USIZE capacity size_of_Slot) SizeOverflow ;;
  policy_bytes <-? ok_or (checked_mul USIZE (div_ceil capacity 64) 8) SizeOverflow ;;
  lookup_bytes <-? new_lookup capacity ;;
  sort_bytes <-? ok_or (checked_mul USIZE capacity 4) SizeOverflow ;;
  b1 <-? ok_or (checked_add USIZE slot_bytes lookup_bytes) SizeOverflow ;;
  b2 <-? ok_or (checked_add USIZE b1 policy_bytes) SizeOverflow ;;
  b3 <-? ok_or (checked_add USIZE b2 sort_bytes) SizeOverflow ;;
  Ok {| requested_bytes := 0; page_count := 0; capacity := capacity;
        slot_bytes := slot_bytes; lookup_bytes := lookup_bytes;
        policy_bytes := policy_bytes; sort_bytes := sort_bytes; total_bytes := b3 |}.

(** The binary search of [Sizing::new]; every step at least halves [high - low],
    so [fuel] steps cover [2 ^ fuel] candidates. *)
Fixpoint search (fuel : nat) (requested low high : Z) : result CacheError (option Z) :=
  if low <? high then
    match fuel with
    | O => Ok None
    | S fuel =>
        let middle := low + div_ceil (high - low) 2 in
        s <-? for_capacity middle ;;
        if total_bytes s <=? requested then search fuel requested middle high
        else search fuel requested low (middle - 1)
    end
  else Ok (Some low).

(** [budget.unwrap_or(logical_bytes / 10_000)]. *)
Definition requested (logical_bytes : Z) (budget : option Z) : Z :=
  match budget with Some b => b | None => logical_bytes / 10000 end.

Definition upper (requested_bytes page_count : Z) : Z :=
  Z.min (Z.max (requested_bytes / size_of_Slot) 1) page_count.

Definition search_fuel : nat := 64.

Definition new (logical_bytes : Z) (budget : option Z) : result CacheError Sizing :=
  let blocks := logical_bytes / BLOCK_SIZE in
  fail_if (negb (is_multiple_of logical_bytes BLOCK_SIZE) || (blocks =? 0)
           || (MAX_VOLUME_BLOCKS <? blocks)) InvalidGeometry ;;?
  let page_count := div_ceil blocks ENTRIES_PER_PAGE in
  fail_if (u32_max <? page_count) SizeOverflow ;;?
  let requested_bytes := requested logical_bytes budget in
  found <-? search search_fuel requested_bytes 1 (upper requested_bytes page_count) ;;
  low <-? expect found ;;
  s <-? for_capacity low ;;
  Ok {| requested_bytes := requested_bytes; page_count := page_count; capacity := capacity s;
        slot_bytes := slot_bytes s; lookup_bytes := lookup_bytes s;
        policy_bytes := policy_bytes s; sort_bytes := sort_bytes s; total_bytes := total_bytes s |}.

(** ** What a capacity costs *)

Definition cost (n : Z) : Z :=
  n * size_of_Slot + allocation_size (n * 2) + div_ceil n 64 * 8 + n * 4.

Lemma div_ceil_mono a b c : 0 < c -> a <= b -> div_ceil a c <= div_ceil b c.
Proof. intros. unfold div_ceil. apply Z.div_le_mono; lia. Qed.

Lemma cost_mono n m : 0 < n <= m -> cost n <= cost m.
Proof.
  intros Hn. unfold cost. pose proof size_of_Slot_pos.
  pose proof (allocation_size_mono (n * 2) (m * 2) ltac:(lia)).
  pose proof (div_ceil_mono n m 64 ltac:(lia) ltac:(lia)). nia.
Qed.

Lemma for_capacity_Ok n s :
  0 < n -> for_capacity n = Ok s ->
  s = {| requested_bytes := 0; page_count := 0; capacity := n; slot_bytes := n * size_of_Slot;
         lookup_bytes := allocation_size (n * 2); policy_bytes := div_ceil n 64 * 8;
         sort_bytes := n * 4; total_bytes := cost n |}.
Proof.
  intros Hn E. unfold for_capacity, new_lookup in E. ok_inv.
  repeat match goal with
  | H : ok_or (checked_mul _ _ _) _ = Ok _ |- _ => apply ok_or_Ok, checked_mul_Some in H as [-> _]
  | H : ok_or (checked_add _ _ _) _ = Ok _ |- _ => apply ok_or_Ok, checked_add_Some in H as [-> _]
  end.
  done.
Qed.

(** A capacity whose cost fits [usize] is accepted. *)
Lemma for_capacity_total n :
  0 < n -> cost n < 2 ^ USIZE -> n * 2 < 2 ^ USIZE -> exists s, for_capacity n = Ok s.
Proof.
  intros Hn Hc H2. unfold for_capacity, new_lookup, checked_mul, checked_add. unfold cost in Hc.
  pose proof size_of_Slot_pos. pose proof (allocation_size_nonneg (n * 2)).
  pose proof (div_ceil_nonneg n 64 ltac:(lia) ltac:(lia)).
  destruct (Z.eqb_spec n 0); [lia|].
  repeat (match goal with |- context [?a <? ?b] => destruct (Z.ltb_spec a b); [|nia] end;
          cbn [fail_if ok_or rbind]). eauto.
Qed.

(** The candidate at the end of the search is the last one within the request. *)
Lemma search_spec fuel req low high r :
  0 < low <= high -> (forall n, 0 < n <= high -> exists s, for_capacity n = Ok s) ->
  high - low < 2 ^ Z.of_nat fuel ->
  search fuel req low high = Ok r ->
  exists n, r = Some n /\ low <= n <= high /\ (n = low \/ cost n <= req) /\
    forall m, n < m <= high -> req < cost m.
Proof.
  revert low high. induction fuel as [|fuel IH]; intros low high Hlow Htot Hfuel Hs.
  { cbn [search] in Hs. destruct (Z.ltb_spec low high).
    - change (2 ^ Z.of_nat 0) with 1 in Hfuel. lia.
    - injection Hs as <-. exists low. split_and!; auto; lia. }
  cbn [search] in Hs. destruct (Z.ltb_spec low high) as [Hlt|].
  2: { injection Hs as <-. exists low. split_and!; auto; lia. }
  pose proof (div_ceil_spec (high - low) 2 ltac:(lia)) as Hd.
  set (middle := low + div_ceil (high - low) 2) in *.
  destruct (Htot middle ltac:(lia)) as [s Hm]. rewrite Hm in Hs. cbn [rbind] in Hs.
  apply for_capacity_Ok in Hm; [|lia]. rewrite Hm in Hs. cbn [total_bytes] in Hs.
  rewrite Nat2Z.inj_succ, Z.pow_succ_r in Hfuel by lia.
  destruct (Z.leb_spec (cost middle) req) as [Hle|Hgt].
  - apply IH in Hs as (n & -> & Hn & Hc & Hmax); [|lia|intros; apply Htot; lia|lia].
    exists n. split_and!; auto; try lia. destruct Hc as [->|]; auto.
  - apply IH in Hs as (n & -> & Hn & Hc & Hmax); [|lia|intros; apply Htot; lia|lia].
    exists n. split_and!; auto; try lia. intros m Hm'.
    destruct (Z.le_gt_cases m (middle - 1)); [apply Hmax; lia|].
    pose proof (cost_mono middle m ltac:(lia)). lia.
Qed.

Lemma search_total fuel req low high :
  0 < low -> (forall n, 0 < n <= high -> exists s, for_capacity n = Ok s) ->
  exists r, search fuel req low high = Ok r.
Proof.
  revert low high. induction fuel as [|fuel IH]; intros low high Hlow Htot; cbn [search].
  { destruct (low <? high); eauto. }
  destruct (Z.ltb_spec low high) as [Hlt|]; [|eauto].
  pose proof (div_ceil_spec (high - low) 2 ltac:(lia)) as Hd.
  destruct (Htot (low + div_ceil (high - low) 2) ltac:(lia)) as [s Hm]. rewrite Hm. cbn [rbind].
  destruct (_ <=? _); apply IH; try lia; intros; apply Htot; lia.
Qed.

Lemma above_upper req pages m :
  0 < size_of_Slot -> upper req pages < m -> m <= pages -> req < m * size_of_Slot.
Proof.
  unfold upper. generalize size_of_Slot. intros size Hslot Hup Hm.
  assert (req / size < m) by lia. pose proof (Z.div_mod req size ltac:(lia)).
  pose proof (Z.mod_pos_bound req size Hslot). nia.
Qed.

Definition page_count_of (logical_bytes : Z) : Z := div_ceil (logical_bytes / BLOCK_SIZE) ENTRIES_PER_PAGE.

(** The cache takes as many slots as the budget pays for, and no more
    than the volume has pages: every larger capacity that is useful costs more
    than the request; a single slot is the floor.  The search terminates within
    its fuel and no step of it can fail when the largest table fits [usize]. *)
Theorem new_takes_the_budget logical_bytes budget :
  is_u64 logical_bytes ->
  logical_bytes mod BLOCK_SIZE = 0 -> 0 < logical_bytes / BLOCK_SIZE <= MAX_VOLUME_BLOCKS ->
  (forall b, budget = Some b -> is_u64 b) ->
  cost (page_count_of logical_bytes) < 2 ^ USIZE ->
  exists s, new logical_bytes budget = Ok s /\
    page_count s = page_count_of logical_bytes /\
    requested_bytes s = requested logical_bytes budget /\
    1 <= capacity s <= page_count s /\ total_bytes s = cost (capacity s) /\
    (total_bytes s <= requested_bytes s \/ capacity s = 1) /\
    forall n, capacity s < n <= page_count s -> requested_bytes s < cost n.
Proof.
  intros Hl64 Hmod Hb Hbudget Hcost. unfold new.
  set (blocks := logical_bytes / BLOCK_SIZE) in *. set (pages := page_count_of logical_bytes) in *.
  change (div_ceil blocks ENTRIES_PER_PAGE) with pages.
  assert (Hpages : 1 <= pages < 2 ^ 31).
  { pose proof (div_ceil_spec blocks 336 ltac:(lia)). change MAX_VOLUME_BLOCKS with (2 ^ 31) in Hb.
    unfold pages, page_count_of. fold blocks. change ENTRIES_PER_PAGE with 336. lia. }
  unfold is_multiple_of. rewrite Hmod. destruct (Z.eqb_spec blocks 0) as [|Hb0]; [lia|].
  destruct (Z.ltb_spec MAX_VOLUME_BLOCKS blocks); [lia|]. cbn [negb orb fail_if rbind Z.eqb].
  destruct (Z.ltb_spec u32_max pages); [unfold u32_max in *; lia|]. cbn [fail_if rbind].
  set (req := requested logical_bytes budget).
  pose proof size_of_Slot_pos as Hslot.
  assert (Hup : 1 <= upper req pages <= pages) by (unfold upper; lia).
  assert (Htot : forall n, 0 < n <= pages -> exists s, for_capacity n = Ok s).
  { intros n Hn. apply for_capacity_total; [lia| |unfold USIZE; lia].
    pose proof (cost_mono n pages Hn). lia. }
  destruct (search_total search_fuel req 1 (upper req pages)) as [r Hr]; [lia|intros; apply Htot; lia|].
  pose proof Hr as Hs. apply search_spec in Hs as (n & -> & Hn & Hc & Hmax);
    [|lia|intros; apply Htot; lia|change (2 ^ Z.of_nat search_fuel) with (2 ^ 64); lia].
  rewrite Hr. cbn [rbind expect]. destruct (Htot n ltac:(lia)) as [s Hs]. rewrite Hs. cbn [rbind].
  apply for_capacity_Ok in Hs; [|lia]. rewrite Hs. eexists. split; [done|]. cbn.
  split_and!; try done; try lia.
  intros m Hm. destruct (Z.le_gt_cases m (upper req pages)); [apply Hmax; lia|].
  assert (req < m * size_of_Slot) by (apply (above_upper req pages); [done..|lia]).
  unfold cost. pose proof (allocation_size_nonneg (m * 2)).
  pose proof (div_ceil_nonneg m 64 ltac:(lia) ltac:(lia)). lia.
Qed.

Lemma search_ge fuel req low high n : search fuel req low high = Ok (Some n) -> low <= n.
Proof.
  revert low high. induction fuel as [|fuel IH]; intros low high; cbn [search].
  { destruct (_ <? _); [discriminate|]. intros [= <-]. lia. }
  destruct (Z.ltb_spec low high) as [Hlt|]; [|intros [= <-]; lia].
  pose proof (div_ceil_spec (high - low) 2 ltac:(lia)) as Hd.
  destruct (for_capacity _) as [s| |]; cbn [rbind]; [|discriminate..].
  destruct (_ <=? _); intros Hs%IH; lia.
Qed.

(** What every accepted sizing satisfies. *)
Lemma new_Ok logical_bytes budget s :
  new logical_bytes budget = Ok s -> 0 < logical_bytes ->
  logical_bytes = logical_bytes / BLOCK_SIZE * BLOCK_SIZE /\
  0 < logical_bytes / BLOCK_SIZE <= MAX_VOLUME_BLOCKS /\
  page_count s = page_count_of logical_bytes /\ 1 <= capacity s /\
  slot_bytes s = capacity s * size_of_Slot /\
  lookup_bytes s = allocation_size (capacity s * 2) /\
  policy_bytes s = div_ceil (capacity s) 64 * 8 /\
  capacity s * 2 < 2 ^ USIZE.
Proof.
  unfold new. intros E Hl. ok_inv. apply orb_false_iff in H0 as [H0 Hm]. bool_prop.
  match goal with Hx : search _ _ _ _ = Ok _ |- _ => apply search_ge in Hx as Hge end.
  match goal with Hx : for_capacity _ = Ok _ |- _ => pose proof Hx as Hfc; apply for_capacity_Ok in Hx; [|lia] end.
  subst. cbn. split_and!; try done; try lia.
  - unfold is_multiple_of in *. bool_prop. change BLOCK_SIZE with 4096 in *.
    pose proof (Z.div_mod logical_bytes 4096 ltac:(lia)). lia.
  - pose proof (Z.div_pos logical_bytes BLOCK_SIZE ltac:(lia) ltac:(reflexivity)). lia.
  - unfold for_capacity, new_lookup in Hfc. ok_inv.
    match goal with Hx : ok_or (checked_mul _ _ 2) _ = Ok _ |- _ =>
      apply ok_or_Ok, checked_mul_Some in Hx as [_ Hx]; exact Hx end.
Qed.

End sizing.
End Sizing.

(** A concrete platform: 4040-byte slots, a table of [n] entries takes [9 n] bytes. *)
Definition example_platform : Platform.
Proof.
  refine {| size_of_Slot := 4040; allocation_size := fun n => Z.max 0 (9 * n);
            table_allocation := fun n live => Z.max 0 (9 * n) |}; intros; lia.
Defined.

Lemma new_takes_the_budget_witness :
  let H := example_platform in
  exists s, Sizing.new (4096 * 10000) (Some 65536) = Ok s /\
    page_count s = Sizing.page_count_of (4096 * 10000) /\
    requested_bytes s = Sizing.requested (4096 * 10000) (Some 65536) /\
    1 <= capacity s <= page_count s /\ total_bytes s = Sizing.cost (capacity s) /\
    (total_bytes s <= requested_bytes s \/ capacity s = 1) /\
    forall n, capacity s < n <= page_count s -> requested_bytes s < Sizing.cost n.
Proof.
  intros H. refine (Sizing.new_takes_the_budget (4096 * 10000) (Some 65536) _ _ _ _ _).
  - split; [discriminate | reflexivity].
  - reflexivity.
  - split; [reflexivity | discriminate].
  - intros b [= <-]. split; [discriminate | reflexivity].
  - reflexivity.
Defined.
