(* ===== verification/MappingCache.v ===== *)
(** The bounded cache of mapping pages: [src/rust/src/mapping_cache.rs].

    The borrows [CachedPage] and [VacantPage] become the index of the slot they
    borrow.  The counters are [u64]s that are taken not to reach [2^64]. *)

From S2P Require Import Prelude Bytes Geometry Entries Clock Sizing.

Record Slot := {
  s_entries : MappingEntries;
  s_page_id : Z;
  s_dirty : bool;
  s_prefetched : bool;
}.

Inductive Access := Foreground | RecoveryAccess.

Record Lookups := { hits : Z; misses : Z }.

Record Counters := {
  foreground : Lookups;
  recovery : Lookups;
  clean_evictions : Z;
  victim_slots_examined : Z;
  checkpoint_required : Z;
  prefetched_pages : Z;
  prefetch_hits : Z;
  prefetch_unused_evictions : Z;
}.

(** [Counters::default]. *)
Definition zero_counters : Counters :=
  {| foreground := {| hits := 0; misses := 0 |}; recovery := {| hits := 0; misses := 0 |};
     clean_evictions := 0; victim_slots_examined := 0; checkpoint_required := 0;
     prefetched_pages := 0; prefetch_hits := 0; prefetch_unused_evictions := 0 |}.

Record Snapshot := {
  n_counters : Counters;
  resident_slots : Z;
  dirty_slots : Z;
  n_sizing : Sizing;
}.

Record MappingCache := {
  slots : list Slot;
  dirty_order : list Z;
  lookup : gmap Z Z;
  clock : Clock;
  sizing : Sizing;
  volume_blocks : Z;
  resident : Z;
  counters : Counters;
}.

Inductive Acquisition :=
  | Resident (slot valid_entries : Z)
  | Vacant (page_id slot : Z)
  | CheckpointRequired (pending : Z).

(** [Lookups::hit_rate], as an exact fraction. *)
Definition hit_rate (l : Lookups) : option (Z * Z) :=
  let total := hits l + misses l in
  if total =? 0 then None else Some (hits l, total).

Module MappingCache.
Section cache.
Context `{Platform}.

(** Assignments to one field. *)
Definition with_slots x c := {| slots := x; dirty_order := dirty_order c; lookup := lookup c;
  clock := clock c; sizing := sizing c; volume_blocks := volume_blocks c; resident := resident c;
  counters := counters c |}.
Definition with_dirty_order x c := {| slots := slots c; dirty_order := x; lookup := lookup c;
  clock := clock c; sizing := sizing c; volume_blocks := volume_blocks c; resident := resident c;
  counters := counters c |}.
Definition with_lookup x c := {| slots := slots c; dirty_order := dirty_order c; lookup := x;
  clock := clock c; sizing := sizing c; volume_blocks := volume_blocks c; resident := resident c;
  counters := counters c |}.
Definition with_clock x c := {| slots := slots c; dirty_order := dirty_order c; lookup := lookup c;
  clock := x; sizing := sizing c; volume_blocks := volume_blocks c; resident := resident c;
  counters := counters c |}.
Definition with_resident x c := {| slots := slots c; dirty_order := dirty_order c; lookup := lookup c;
  clock := clock c; sizing := sizing c; volume_blocks := volume_blocks c; resident := x;
  counters := counters c |}.
Definition with_counters x c := {| slots := slots c; dirty_order := dirty_order c; lookup := lookup c;
  clock := clock c; sizing := sizing c; volume_blocks := volume_blocks c; resident := resident c;
  counters := x |}.

Definition bump (l : Lookups) (hit : bool) : Lookups :=
  if hit then {| hits := hits l + 1; misses := misses l |}
  else {| hits := hits l; misses := misses l + 1 |}.

(** The counter updates, one per statement of the source. *)
Definition count_lookup (access : Access) (hit : bool) (k : Counters) : Counters :=
  {| foreground := match access with Foreground => bump (foreground k) hit | _ => foreground k end;
     recovery := match access with RecoveryAccess => bump (recovery k) hit | _ => recovery k end;
     clean_evictions := clean_evictions k; victim_slots_examined := victim_slots_examined k;
     checkpoint_required := checkpoint_required k; prefetched_pages := prefetched_pages k;
     prefetch_hits := prefetch_hits k; prefetch_unused_evictions := prefetch_unused_evictions k |}.
Definition count (evictions examined required prefetched hit unused : Z) (k : Counters) : Counters :=
  {| foreground := foreground k; recovery := recovery k;
     clean_evictions := clean_evictions k + evictions;
     victim_slots_examined := victim_slots_examined k + examined;
     checkpoint_required := checkpoint_required k + required;
     prefetched_pages := prefetched_pages k + prefetched;
     prefetch_hits := prefetch_hits k + hit;
     prefetch_unused_evictions := prefetch_unused_evictions k + unused |}.
Definition tally (f : Counters -> Counters) : ME CacheError MappingCache unit :=
  mmodify (fun c => with_counters (f (counters c)) c).

(** A call on the clock of the cache. *)
Definition on_clock (f : Clock -> result CacheError Clock) : ME CacheError MappingCache unit :=
  c <- mget ;; k <- mlift (f (clock c)) ;; mmodify (with_clock k).

Definition blank_slot : Slot :=
  {| s_entries := Entries.zeroed; s_page_id := 0; s_dirty := false; s_prefetched := false |}.

Definition new (logical_bytes : Z) (budget : option Z) : result CacheError MappingCache :=
  sizing <-? Sizing.new logical_bytes budget ;;
  lookup_bytes' <-? Sizing.new_lookup (capacity sizing) ;;
  clock <-? Clock.new (capacity sizing) ;;
  let slots := replicate (Z.to_nat (capacity sizing)) blank_slot in
  assert_ (lookup_bytes' =? lookup_bytes sizing) ;;?
  assert_ (Clock.allocated_bytes clock =? policy_bytes sizing) ;;?
  assert_ (lenZ slots * size_of_Slot =? slot_bytes sizing) ;;?
  let blocks := logical_bytes / BLOCK_SIZE in
  assert_ (blocks <=? u32_max) ;;?
  Ok {| slots := slots; dirty_order := zeros (capacity sizing); lookup := ∅; clock := clock;
        sizing := sizing; volume_blocks := blocks; resident := 0; counters := zero_counters |}.

Definition validate_page (c : MappingCache) (page_id : Z) : result CacheError unit :=
  fail_if (page_count (sizing c) <=? page_id) InvalidPage.

Definition valid_entries (c : MappingCache) (page_id : Z) : result CacheError Z :=
  assert_ (page_id <? page_count (sizing c)) ;;?
  Ok (Z.min (volume_blocks c - page_id * ENTRIES_PER_PAGE) ENTRIES_PER_PAGE).

(** [self.slots[slot]] and [self.slots.get_mut(slot).expect(..)]. *)
Definition slot_at (c : MappingCache) (slot : Z) : result CacheError Slot :=
  expect (slots c !! Z.to_nat slot).
Definition store_slot (slot : Z) (s : Slot) : ME CacheError MappingCache unit :=
  mmodify (fun c => with_slots (<[Z.to_nat slot := s]> (slots c)) c).

(** The predicate the clock is given; it is only asked for slots of the array. *)
Definition clean (c : MappingCache) (slot : Z) : bool :=
  match slots c !! Z.to_nat slot with Some s => negb (s_dirty s) | None => false end.

Definition set_prefetched (b : bool) (s : Slot) : Slot :=
  {| s_entries := s_entries s; s_page_id := s_page_id s; s_dirty := s_dirty s; s_prefetched := b |}.

Definition resolve (page_id : Z) : ME CacheError MappingCache Acquisition :=
  c <- mget ;;
  match lookup c !! page_id with
  | Some slot =>
      s <- mlift (slot_at c slot) ;;
      (if s_prefetched s then
         tally (count 0 0 0 0 1 0) ;;;
         store_slot slot (set_prefetched false s)
       else mret tt) ;;;
      on_clock (Clock.access slot) ;;;
      valid <- mlift (valid_entries c page_id) ;;
      mret (Resident slot valid)
  | None =>
      chosen <-
        (if resident c <? lenZ (slots c) then mret (Some (resident c))
         else
           found <- mlift (Clock.victim (clean c) (clock c)) ;;
           let '(victim, examined, clock) := found in
           mmodify (with_clock clock) ;;;
           tally (count 0 examined 0 0 0 0) ;;;
           mret victim) ;;
      match chosen with
      | Some slot => mret (Vacant page_id slot)
      | None => tally (count 0 0 1 0 0 0) ;;; mret (CheckpointRequired page_id)
      end
  end.

Definition acquire (page_id : Z) (access : Access) : ME CacheError MappingCache Acquisition :=
  c <- mget ;;
  mlift (validate_page c page_id) ;;;
  tally (count_lookup access (bool_decide (is_Some (lookup c !! page_id)))) ;;;
  resolve page_id.

Definition retry (pending : Z) : ME CacheError MappingCache Acquisition :=
  c <- mget ;;
  mlift (validate_page c pending) ;;;
  resolve pending.

(** The resident slots that are dirty, in slot order. *)
Definition dirty_slots_of (c : MappingCache) : list Slot :=
  filter (fun s => s_dirty s = true) (take (Z.to_nat (resident c)) (slots c)).

Definition dirty_pages (c : MappingCache) : list (Z * MappingEntries) :=
  (fun s => (s_page_id s, s_entries s)) <$> dirty_slots_of c.

(** [self.dirty_order] receives the dirty page ids, which are then sorted. *)
Definition sorted_dirty_pages : ME CacheError MappingCache (list (Z * MappingEntries)) :=
  c <- mget ;;
  let ids := s_page_id <$> dirty_slots_of c in
  mlift (assert_ (lenZ ids <=? lenZ (dirty_order c))) ;;;
  let ids := merge_sort Z.le ids in
  mmodify (with_dirty_order (ids ++ drop (length ids) (dirty_order c))) ;;;
  mlift (rmapM (fun id => slot <-? expect (lookup c !! id) ;;
                          s <-? slot_at c slot ;;
                          Ok (id, s_entries s)) ids).

(** [VacantPage::install]. *)
Definition install (page_id slot : Z) (entries : MappingEntries) :
    ME CacheError MappingCache Acquisition :=
  c <- mget ;;
  valid <- mlift (valid_entries c page_id) ;;
  mlift (match Entries.validate entries valid with Some e => Err e | None => Ok tt end) ;;;
  s <- mlift (slot_at c slot) ;;
  mlift (assert_ (negb (s_dirty s))) ;;;
  (if slot <? resident c then
     (if s_prefetched s then tally (count 0 0 0 0 0 1) else mret tt) ;;;
     c <- mget ;;
     let removed := lookup c !! s_page_id s in
     mmodify (with_lookup (delete (s_page_id s) (lookup c))) ;;;
     mlift (assert_ (bool_decide (removed = Some slot))) ;;;
     on_clock (Clock.remove slot) ;;;
     tally (count 1 0 0 0 0 0)
   else
     mlift (assert_ (slot =? resident c)) ;;;
     mmodify (with_resident (resident c + 1))) ;;;
  c <- mget ;;
  let previous := lookup c !! page_id in
  let table := <[page_id := slot]> (lookup c) in
  mmodify (with_lookup table) ;;;
  mlift (assert_ (bool_decide (previous = None))) ;;;
  mlift (assert_ (table_allocation (capacity (sizing c) * 2) (Z.of_nat (size table))
                  =? lookup_bytes (sizing c))) ;;;
  store_slot slot {| s_entries := entries; s_page_id := page_id; s_dirty := false;
                     s_prefetched := false |} ;;;
  on_clock (Clock.insert slot) ;;;
  mret (Resident slot valid).

Definition prefetch (page_id : Z) (entries : MappingEntries) : ME CacheError MappingCache bool :=
  c <- mget ;;
  mlift (validate_page c page_id) ;;;
  if bool_decide (is_Some (lookup c !! page_id)) then mret false
  else
    chosen <-
      (if resident c <? lenZ (slots c) then mret (Some (resident c))
       else
         candidates <- mlift (Clock.cold_candidates (clock c)) ;;
         match List.find (clean c) candidates with
         | Some slot => on_clock (Clock.advance_past slot) ;;; mret (Some slot)
         | None => mret None
         end) ;;
    match chosen with
    | None => mret false
    | Some slot =>
        _ <- install page_id slot entries ;;
        c <- mget ;;
        s <- mlift (slot_at c slot) ;;
        store_slot slot (set_prefetched true s) ;;;
        on_clock (Clock.remove slot) ;;;
        tally (count 0 0 0 1 0 0) ;;;
        mret true
    end.

Definition clear_dirty (s : Slot) : Slot :=
  {| s_entries := s_entries s; s_page_id := s_page_id s; s_dirty := false;
     s_prefetched := s_prefetched s |}.

Definition checkpoint_published (c : MappingCache) : MappingCache :=
  with_slots ((clear_dirty <$> take (Z.to_nat (resident c)) (slots c))
              ++ drop (Z.to_nat (resident c)) (slots c)) c.

Definition snapshot (c : MappingCache) : Snapshot :=
  {| n_counters := counters c; resident_slots := resident c;
     dirty_slots := lenZ (dirty_pages c); n_sizing := sizing c |}.

(** [CachedPage::entries] and [CachedPage::update] of the page in [slot]. *)
Definition entries (slot : Z) (c : MappingCache) : result CacheError MappingEntries :=
  s <-? slot_at c slot ;; Ok (s_entries s).

Definition update (slot valid entry physical checksum : Z) : ME CacheError MappingCache unit :=
  mlift (fail_if (valid <=? entry) InvalidEntry) ;;;
  mlift (fail_if ((physical =? 0) && negb (checksum =? 0)) InvalidMapping) ;;;
  c <- mget ;;
  s <- mlift (slot_at c slot) ;;
  mlift (assert_ (entry <? ENTRIES_PER_PAGE)) ;;;
  store_slot slot {| s_entries := Entries.set (s_entries s) entry physical checksum;
                     s_page_id := s_page_id s; s_dirty := true; s_prefetched := s_prefetched s |}.

Fixpoint take_while {A} (f : A -> bool) (l : list A) : list A :=
  match l with [] => [] | x :: l => if f x then x :: take_while f l else [] end.

(** [VacantPage::prefetch_limit]. *)
Definition prefetch_limit (c : MappingCache) (page_id slot maximum : Z) : result CacheError Z :=
  assert_ (0 <? maximum) ;;?
  let unused := lenZ (slots c) - resident c in
  candidates <-? Clock.cold_candidates (clock c) ;;
  let cold := filter (fun s => s < resident c /\ s <> slot /\ clean c s = true) candidates in
  let available := saturating_sub unused (of_bool (slot =? resident c))
                   + Z.min (lenZ cold) (maximum - 1) in
  let run := take_while
    (fun offset => let id := page_id + offset in
                   (id <? page_count (sizing c)) && negb (bool_decide (is_Some (lookup c !! id))))
    (seqZ 1 (Z.min maximum (available + 1) - 1)) in
  Ok (lenZ run + 1).

(** ** Invariant *)

(** The number of entries of a page that name blocks of the volume. *)
Definition page_entries (volume page_id : Z) : Z :=
  Z.min (volume - page_id * ENTRIES_PER_PAGE) ENTRIES_PER_PAGE.

Record slot_ok (pages volume : Z) (s : Slot) : Prop := {
  ok_page : 0 <= s_page_id s < pages;
  ok_shape : Entries.shaped (s_entries s);
  ok_valid : Entries.valid (s_entries s) (page_entries volume (s_page_id s));
}.

Record wf (c : MappingCache) : Prop := {
  wf_clock : Clock.wf (clock c);
  wf_clock_capacity : clock_capacity (clock c) = lenZ (slots c);
  wf_slots : lenZ (slots c) = capacity (sizing c);
  wf_order : lenZ (dirty_order c) = lenZ (slots c);
  wf_resident : 0 <= resident c <= lenZ (slots c);
  wf_volume : 0 < volume_blocks c <= MAX_VOLUME_BLOCKS;
  wf_pages : page_count (sizing c) = div_ceil (volume_blocks c) ENTRIES_PER_PAGE;
  wf_table : lookup_bytes (sizing c) = allocation_size (capacity (sizing c) * 2);
  wf_size : Z.of_nat (size (lookup c)) = resident c;
  wf_lookup : forall p s, lookup c !! p = Some s <->
    0 <= s < resident c /\ exists sl, slots c !! Z.to_nat s = Some sl /\ s_page_id sl = p;
  wf_slot : forall s sl, 0 <= s < resident c -> slots c !! Z.to_nat s = Some sl ->
    slot_ok (page_count (sizing c)) (volume_blocks c) sl;
  wf_free : forall s sl, resident c <= s -> slots c !! Z.to_nat s = Some sl -> s_dirty sl = false;
}.

(** What the cache holds for a page: its entries and whether they are dirty. *)
Definition view (c : MappingCache) (p : Z) : option (MappingEntries * bool) :=
  match lookup c !! p with
  | Some slot =>
      match slots c !! Z.to_nat slot with
      | Some s => Some (s_entries s, s_dirty s)
      | None => None
      end
  | None => None
  end.

Lemma slot_exists c s : wf c -> 0 <= s < lenZ (slots c) -> exists sl, slots c !! Z.to_nat s = Some sl.
Proof. intros _ Hs. apply lookup_lt_is_Some_2. lia. Qed.

Lemma view_Some c p e d :
  wf c -> view c p = Some (e, d) <->
  exists s sl, 0 <= s < resident c /\ slots c !! Z.to_nat s = Some sl /\ s_page_id sl = p /\
    s_entries sl = e /\ s_dirty sl = d /\ lookup c !! p = Some s.
Proof.
  intros Hwf. unfold view. destruct (lookup c !! p) as [s|] eqn:Hl; cbn.
  - pose proof Hl as Hl2. apply (wf_lookup c Hwf) in Hl2 as (Hs & sl & Hsl & Hp).
    rewrite Hsl. cbn. split.
    + intros [= <- <-]. by exists s, sl.
    + intros (s' & sl' & _ & Hsl' & _ & <- & <- & [= <-]). congruence.
  - split; [discriminate|]. naive_solver.
Qed.

Lemma view_None c p : wf c -> view c p = None <-> lookup c !! p = None.
Proof.
  intros Hwf. unfold view. destruct (lookup c !! p) as [s|] eqn:Hl; [|done].
  apply (wf_lookup c Hwf) in Hl as (_ & sl & -> & _). done.
Qed.

Lemma resident_page c p s : wf c -> lookup c !! p = Some s ->
  0 <= s < resident c /\ exists sl, slots c !! Z.to_nat s = Some sl /\ s_page_id sl = p.
Proof. intros Hwf. apply (wf_lookup c Hwf). Qed.

(** A change of the clock or of the counters is invisible. *)
Lemma wf_policy c k t :
  wf c -> Clock.wf k -> clock_capacity k = clock_capacity (clock c) ->
  wf (with_counters t (with_clock k c)).
Proof. intros [] Hk Hcap. constructor; try done. cbn. congruence. Qed.

Lemma wf_with_clock c k :
  wf c -> Clock.wf k -> clock_capacity k = clock_capacity (clock c) -> wf (with_clock k c).
Proof. intros [] Hk Hcap. constructor; try done. cbn. congruence. Qed.

Lemma wf_with_counters c t : wf c -> wf (with_counters t c).
Proof. intros []. by constructor. Qed.

Lemma on_clock_set c slot b :
  wf c -> 0 <= slot < lenZ (slots c) ->
  exists k, on_clock (Clock.set slot b) c = (Ok tt, with_clock k c) /\
    Clock.wf k /\ clock_capacity k = clock_capacity (clock c) /\ Clock.bit k slot = b.
Proof.
  intros Hwf Hs. unfold on_clock, mbind, mget, mlift, mmodify.
  destruct (Clock.set_Ok (clock c) slot b (wf_clock c Hwf)) as (k & -> & Hk & _ & Hcap & Hb).
  { unfold Clock.in_range. by rewrite (wf_clock_capacity c Hwf). }
  exists k. split_and!; try done. by rewrite Hb, Z.eqb_refl by lia.
Qed.

(** Overwriting a resident slot with a slot of the same page. *)
Lemma wf_store c slot sl sl' :
  wf c -> 0 <= slot < resident c -> slots c !! Z.to_nat slot = Some sl ->
  s_page_id sl' = s_page_id sl -> slot_ok (page_count (sizing c)) (volume_blocks c) sl' ->
  let c' := with_slots (<[Z.to_nat slot := sl']> (slots c)) c in
  wf c' /\ forall q, view c' q =
    if decide (q = s_page_id sl) then Some (s_entries sl', s_dirty sl') else view c q.
Proof.
  intros Hwf Hslot Hsl Hid Hok c'. pose proof (lookup_lt_Some _ _ _ Hsl) as Hlt.
  assert (Hnth : forall n, slots c' !! n = if decide (n = Z.to_nat slot) then Some sl' else slots c !! n).
  { intros n. unfold c'; cbn. destruct (decide (n = Z.to_nat slot)) as [->|].
    - by apply list_lookup_insert_eq.
    - by apply list_lookup_insert_ne. }
  split.
  - destruct Hwf as [H1 H2 H3 H4 H5 H6 H7 H8 H9 H10 H11 H12].
    constructor; try done; try (cbn; rewrite ?length_insert; done).
    + intros p s. change (lookup c') with (lookup c). rewrite H10. change (resident c') with (resident c).
      split; intros (Hr & sl0 & Hsl0 & <-); split; try done; rewrite Hnth in *; destruct (decide _) as [E|E].
      * exists sl'. split; [done|]. rewrite Hid. congruence.
      * by exists sl0.
      * exists sl. split; [congruence|]. injection Hsl0 as <-. done.
      * by exists sl0.
    + intros s sl0 Hs. rewrite Hnth. destruct (decide _); [by intros [= <-] | by apply H11].
    + intros s sl0 Hs. rewrite Hnth. change (resident c') with (resident c) in Hs.
      destruct (decide _); [lia|]. eauto.
  - intros q. unfold view. change (lookup c') with (lookup c).
    destruct (decide (q = s_page_id sl)) as [->|Hne].
    + rewrite (proj2 (wf_lookup c Hwf (s_page_id sl) slot)); [|eauto].
      rewrite Hnth, decide_True by done. done.
    + destruct (lookup c !! q) as [s|] eqn:Hl; [|done].
      apply (resident_page c q s Hwf) in Hl as (Hs & sl0 & Hsl0 & Hq).
      rewrite Hnth. destruct (decide _) as [E|]; [|done].
      rewrite E in Hsl0. congruence.
Qed.

(** ** Acquisition *)

(** The parts of a cache that no operation but [new] changes. *)
Definition same_shape (c c' : MappingCache) : Prop :=
  sizing c' = sizing c /\ volume_blocks c' = volume_blocks c /\
  length (slots c') = length (slots c).

(** [Vacant p s] was offered: [s] is the next free slot, or holds a clean page. *)
Definition offered (c : MappingCache) (p s : Z) : Prop :=
  0 <= p < page_count (sizing c) /\ lookup c !! p = None /\
  ((s = resident c /\ s < lenZ (slots c)) \/ (0 <= s < resident c /\ clean c s = true)).

Definition acquired (c : MappingCache) (p : Z) (a : Acquisition) : Prop :=
  match a with
  | Resident s valid => lookup c !! p = Some s /\ valid = page_entries (volume_blocks c) p
  | Vacant p' s => p' = p /\ offered c p s
  | CheckpointRequired p' => p' = p /\ lookup c !! p = None /\ resident c = lenZ (slots c) /\
      forall q e d, view c q = Some (e, d) -> d = true
  end.

Lemma valid_entries_Ok c p :
  0 <= p < page_count (sizing c) -> valid_entries c p = Ok (page_entries (volume_blocks c) p).
Proof. intros Hp. unfold valid_entries. destruct (Z.ltb_spec p (page_count (sizing c))); [done|lia]. Qed.

Lemma wf_lookup_page c p s : wf c -> lookup c !! p = Some s -> 0 <= p < page_count (sizing c).
Proof.
  intros Hwf Hl. apply (resident_page c p s Hwf) in Hl as (Hs & sl & Hsl & <-).
  apply (wf_slot c Hwf s sl Hs Hsl).
Qed.

Lemma resolve_resident c p s :
  wf c -> lookup c !! p = Some s ->
  exists c', resolve p c = (Ok (Resident s (page_entries (volume_blocks c) p)), c') /\
    wf c' /\ same_shape c c' /\ lookup c' = lookup c /\ (forall q, view c' q = view c q).
Proof.
  intros Hwf Hl. pose proof (resident_page c p s Hwf Hl) as (Hs & sl & Hsl & Hp).
  pose proof (wf_resident c Hwf) as Hres.
  pose proof (wf_lookup_page c p s Hwf Hl) as Hpage.
  unfold resolve. step. rewrite Hl. unfold slot_at. rewrite Hsl. step.
  assert (exists c1, (if s_prefetched sl then
         tally (count 0 0 0 0 1 0) ;;; store_slot s (set_prefetched false sl)
       else mret tt) c = (Ok tt, c1) /\ wf c1 /\ same_shape c c1 /\ lookup c1 = lookup c /\
       (forall q, view c1 q = view c q)) as (c1 & Hrun & Hwf1 & Hsh & Hlk & Hv).
  { destruct (s_prefetched sl) eqn:Epre; [|exists c; unfold same_shape; by split_and!].
    destruct (wf_store _ s sl (set_prefetched false sl)
                (wf_with_counters c (count 0 0 0 0 1 0 (counters c)) Hwf) Hs Hsl eq_refl)
      as [Hwf1 Hv1].
    { destruct (wf_slot c Hwf s sl Hs Hsl). by constructor. }
    eexists. split; [reflexivity|]. split; [exact Hwf1|]. split.
    { unfold same_shape; cbn. by rewrite length_insert. }
    split; [done|]. intros q. rewrite Hv1. cbn. destruct (decide _) as [->|]; [|done].
    rewrite Hp. change (view (with_counters _ c)) with (view c). symmetry.
    apply view_Some; [done|]. by exists s, sl. }
  step_with Hrun. destruct Hsh as (Hsz & Hvol & Hlen).
  destruct (on_clock_set c1 s true Hwf1) as (k & Hk & Hkw & Hkc & _); [rewrite Hlen; lia|].
  step_with Hk. rewrite valid_entries_Ok by done. step.
  eexists. split; [reflexivity|]. split; [by apply wf_with_clock|].
  split; [unfold same_shape; auto|]. split; [exact Hlk | exact Hv].
Qed.

Lemma resolve_vacant c p :
  wf c -> 0 <= p < page_count (sizing c) -> lookup c !! p = None ->
  exists a c', resolve p c = (Ok a, c') /\ acquired c' p a /\ (forall s v, a <> Resident s v) /\
    wf c' /\ same_shape c c' /\ lookup c' = lookup c /\ (forall q, view c' q = view c q).
Proof.
  intros Hwf Hp Hl. pose proof (wf_resident c Hwf) as Hres. unfold resolve. step. rewrite Hl.
  destruct (Z.ltb_spec (resident c) (lenZ (slots c))) as [Hfree|Hfull].
  { step. exists (Vacant p (resident c)), c. split; [done|]. unfold acquired, offered, same_shape.
    split_and!; auto; try done; lia. }
  destruct (Clock.victim_Ok (clean c) (clock c) (wf_clock c Hwf)) as (x & k & Hv & Hk & Hkc & _).
  erewrite mbind_run. 2: { rewrite Hv. step. cbn beta iota. step. step. reflexivity. }
  destruct (Clock.choice (clean c) (clock c)) as [s|] eqn:Hc.
  - apply Clock.choice_clean in Hc as [Hin Hcl]; [|apply Hwf]. unfold Clock.in_range in Hin.
    rewrite (wf_clock_capacity c Hwf) in Hin.
    eexists _, _. split; [reflexivity|]. unfold acquired, offered. split.
    { split; [done|]. split; [done|]. split; [done|]. right. cbn. split; [lia|done]. }
    split; [done|]. split; [by apply wf_policy|]. unfold same_shape. auto.
  - rewrite Clock.choice_None in Hc by apply Hwf.
    step. eexists _, _. split; [reflexivity|].
    split; [|split; [done|]; split; [by apply wf_with_counters, wf_policy|]; unfold same_shape; auto].
    cbn. split_and!; try done; [lia|]. intros q e d Hq.
    change (view c q = Some (e, d)) in Hq. apply view_Some in Hq as (s & sl & Hs & Hsl & _ & _ & <- & _); [|done].
    specialize (Hc s). unfold Clock.in_range in Hc. rewrite (wf_clock_capacity c Hwf) in Hc.
    specialize (Hc ltac:(lia)). unfold clean in Hc. rewrite Hsl in Hc. by apply negb_false_iff in Hc.
Qed.

(** ** Installation *)

Definition installed_slot (p : Z) (e : MappingEntries) : Slot :=
  {| s_entries := e; s_page_id := p; s_dirty := false; s_prefetched := false |}.

(** The cache after [install], with the clock [k] and the counters [t]. *)
Definition installed (c : MappingCache) (p s : Z) (e : MappingEntries) (k : Clock) (t : Counters) :
    MappingCache :=
  {| slots := <[Z.to_nat s := installed_slot p e]> (slots c);
     dirty_order := dirty_order c;
     lookup := <[p := s]> (match slots c !! Z.to_nat s with
                           | Some old => if s <? resident c then delete (s_page_id old) (lookup c)
                                         else lookup c
                           | None => lookup c end);
     clock := k; sizing := sizing c; volume_blocks := volume_blocks c;
     resident := if s <? resident c then resident c else resident c + 1;
     counters := t |}.

Lemma offered_slot c p s :
  wf c -> offered c p s -> exists sl, slots c !! Z.to_nat s = Some sl /\ s_dirty sl = false /\
    0 <= s < lenZ (slots c) /\
    (s < resident c -> lookup c !! s_page_id sl = Some s /\ s_page_id sl <> p).
Proof.
  intros Hwf (Hp & Hl & Ho). pose proof (wf_resident c Hwf) as Hr.
  destruct (slot_exists c s Hwf ltac:(lia)) as [sl Hsl]. exists sl. split; [done|].
  split.
  { destruct Ho as [[-> _]|[_ Hcl]]; [by apply (wf_free c Hwf (resident c)); [lia|]|].
    unfold clean in Hcl. rewrite Hsl in Hcl. by apply negb_true_iff in Hcl. }
  split; [lia|]. intros Hlt. assert (Hls : lookup c !! s_page_id sl = Some s).
  { apply (wf_lookup c Hwf). split; [lia|]. by exists sl. }
  split; [done|]. intros E. rewrite E in Hls. congruence.
Qed.

Lemma installed_lookup c p s e k t q :
  wf c -> offered c p s ->
  lookup (installed c p s e k t) !! q =
    if decide (q = p) then Some s
    else if decide (lookup c !! q = Some s) then None else lookup c !! q.
Proof.
  intros Hwf Ho. destruct (offered_slot c p s Hwf Ho) as (sl & Hsl & _ & Hs & Hold).
  unfold installed; cbn. rewrite Hsl. destruct (decide (q = p)) as [->|Hne]; [by rewrite lookup_insert_eq|].
  rewrite lookup_insert_ne by done.
  destruct (Z.ltb_spec s (resident c)) as [Hlt|Hge].
  - destruct (Hold Hlt) as [Hls _]. destruct (decide (lookup c !! q = Some s)) as [Hq|Hq].
    + apply (resident_page c q s Hwf) in Hq as (_ & sl' & Hsl' & <-).
      assert (sl' = sl) as -> by congruence. by rewrite lookup_delete_eq.
    + rewrite lookup_delete_ne; [done|]. congruence.
  - destruct (decide (lookup c !! q = Some s)) as [Hq|Hq]; [|done].
    apply (resident_page c q s Hwf) in Hq as (? & _). lia.
Qed.

Lemma installed_view c p s e k t q :
  wf c -> offered c p s ->
  view (installed c p s e k t) q =
    if decide (q = p) then Some (e, false)
    else if decide (lookup c !! q = Some s) then None else view c q.
Proof.
  intros Hwf Ho. destruct (offered_slot c p s Hwf Ho) as (sl & Hsl & _ & Hs & Hold).
  pose proof (lookup_lt_Some _ _ _ Hsl) as Hlt.
  unfold view at 1. rewrite installed_lookup by done. cbn [slots installed].
  destruct (decide (q = p)) as [->|Hne]; [by rewrite list_lookup_insert_eq|].
  destruct (decide (lookup c !! q = Some s)) as [Hq|Hq]; [done|].
  unfold view. destruct (lookup c !! q) as [s'|] eqn:Hs'; [|done].
  pose proof (resident_page c q s' Hwf Hs') as (? & _).
  rewrite list_lookup_insert_ne; [done|]. intros E. apply Hq. f_equal. lia.
Qed.

Lemma installed_wf c p s e k t :
  wf c -> offered c p s -> Entries.shaped e -> Entries.valid e (page_entries (volume_blocks c) p) ->
  Clock.wf k -> clock_capacity k = clock_capacity (clock c) ->
  wf (installed c p s e k t).
Proof.
  intros Hwf Ho He Hv Hk Hkc.
  destruct (offered_slot c p s Hwf Ho) as (sl & Hsl & Hd & Hs & Hold).
  pose proof (installed_lookup c p s e k t) as Hil.
  pose proof (lookup_lt_Some _ _ _ Hsl) as Hlt. pose proof Ho as (Hp & Hl & Hoff).
  set (r := if s <? resident c then resident c else resident c + 1).
  assert (Hr : resident c <= r <= lenZ (slots c) /\ s < r /\
               forall x, 0 <= x < r -> x <> s -> 0 <= x < resident c).
  { unfold r. pose proof (wf_resident c Hwf). destruct (Z.ltb_spec s (resident c)); split_and!; lia. }
  destruct Hr as (Hr & Hsr & Hother).
  assert (Hnth : forall n, slots (installed c p s e k t) !! n =
                 if decide (n = Z.to_nat s) then Some (installed_slot p e) else slots c !! n).
  { intros n. cbn. destruct (decide (n = Z.to_nat s)) as [->|];
      [by apply list_lookup_insert_eq | by apply list_lookup_insert_ne]. }
  constructor; try done; try (cbn; rewrite ?length_insert; apply Hwf).
  - cbn. rewrite length_insert, Hkc. apply Hwf.
  - cbn. rewrite length_insert. fold r. pose proof (wf_resident c Hwf). lia.
  - cbn. rewrite Hsl. fold r. pose proof (wf_size c Hwf) as Hsz. unfold r.
    destruct (Z.ltb_spec s (resident c)) as [Hlt'|Hge].
    + destruct (Hold Hlt') as [Hls Hne]. rewrite map_size_insert_None, map_size_delete, Hls.
      * assert (size (lookup c) <> 0%nat) by (intros E%map_size_empty_inv; rewrite E in Hls; done). lia.
      * rewrite lookup_delete_ne by done. done.
    + rewrite map_size_insert_None by done. lia.
  - intros q x. rewrite Hil by done. change (resident (installed c p s e k t)) with r.
    destruct (decide (q = p)) as [->|Hne].
    + split.
      * intros [= <-]. split; [lia|]. exists (installed_slot p e). rewrite Hnth, decide_True by done. done.
      * intros (Hx & sl' & Hsl' & Hq). f_equal. rewrite Hnth in Hsl'.
        destruct (decide (x = s)) as [->|Hxs]; [done|]. rewrite decide_False in Hsl' by lia.
        assert (lookup c !! p = Some x); [|congruence].
        apply (wf_lookup c Hwf). split; [by apply Hother|]. by exists sl'.
    + split.
      * destruct (decide (lookup c !! q = Some s)) as [|Hqs]; [discriminate|]. intros Hq.
        assert (x <> s) by congruence. pose proof (resident_page c q x Hwf Hq) as (Hx & sl' & Hsl' & Hq').
        split; [lia|]. exists sl'. rewrite Hnth, decide_False by lia. done.
      * intros (Hx & sl' & Hsl' & Hq). rewrite Hnth in Hsl'.
        destruct (decide (Z.to_nat x = Z.to_nat s)); [injection Hsl' as <-; cbn in Hq; done|].
        assert (Hlx : lookup c !! q = Some x).
        { apply (wf_lookup c Hwf). split; [apply Hother; [done|congruence]|]. by exists sl'. }
        rewrite decide_False; [done|]. rewrite Hlx. congruence.
  - intros x sl' Hx. rewrite Hnth. change (resident (installed c p s e k t)) with r in Hx.
    destruct (decide _) as [E|E]; [intros [= <-]; by constructor|]. intros Hsl'.
    apply (wf_slot c Hwf x sl'); [apply Hother; [done|congruence]|done].
  - intros x sl' Hx. rewrite Hnth. change (resident (installed c p s e k t)) with r in Hx.
    destruct (decide _); [lia|]. apply (wf_free c Hwf). lia.
Qed.

Lemma install_invalid c p s e :
  0 <= p < page_count (sizing c) -> Entries.shaped e ->
  ~ Entries.valid e (page_entries (volume_blocks c) p) ->
  install p s e c = (Err InvalidMapping, c).
Proof.
  intros Hp He Hv. unfold install. step. rewrite valid_entries_Ok by done. step.
  rewrite <- Entries.validate_None in Hv by done.
  unfold Entries.validate in *. destruct (existsb _ _); [|done]. reflexivity.
Qed.

(** The table stays within half of its reservation. *)
Lemma installed_fits c p s e k t :
  wf c -> offered c p s -> Entries.shaped e -> Entries.valid e (page_entries (volume_blocks c) p) ->
  Z.of_nat (size (lookup (installed c p s e k t))) <= capacity (sizing c).
Proof.
  intros Hwf Ho He Hv.
  pose proof (installed_wf c p s e (clock c) t Hwf Ho He Hv (wf_clock c Hwf) eq_refl) as Hwf'.
  change (lookup (installed c p s e k t)) with (lookup (installed c p s e (clock c) t)).
  rewrite (wf_size _ Hwf'). pose proof (wf_resident _ Hwf'). pose proof (wf_slots _ Hwf'). cbn in *. lia.
Qed.

Lemma install_Ok c p s e :
  wf c -> offered c p s -> Entries.shaped e -> Entries.valid e (page_entries (volume_blocks c) p) ->
  exists k t, Clock.wf k /\ clock_capacity k = clock_capacity (clock c) /\
    install p s e c = (Ok (Resident s (page_entries (volume_blocks c) p)), installed c p s e k t).
Proof.
  intros Hwf Ho He Hv. pose proof Ho as (Hp & Hl & Hoff).
  destruct (offered_slot c p s Hwf Ho) as (sl & Hsl & Hd & Hs & Hold).
  pose proof (installed_lookup c p s e) as Hil.
  unfold install. step. rewrite valid_entries_Ok by done. step.
  rewrite (proj2 (Entries.validate_None e _ He) Hv). step.
  unfold slot_at. rewrite Hsl. step. rewrite Hd. step.
  (* The slot is vacated. *)
  set (table := if s <? resident c then delete (s_page_id sl) (lookup c) else lookup c).
  set (r := if s <? resident c then resident c else resident c + 1).
  match goal with |- context [mbind (if s <? resident c then ?a else ?b) ?f c] =>
    assert (exists k t, Clock.wf k /\ clock_capacity k = clock_capacity (clock c) /\
      (if s <? resident c then a else b) c
      = (Ok tt, with_resident r (with_counters t (with_clock k (with_lookup table c)))))
      as (k1 & t1 & Hk1 & Hkc1 & Hrun)
  end.
  { subst table r. destruct (Z.ltb_spec s (resident c)) as [Hlt|Hge].
    - destruct (Hold Hlt) as [Hls _].
      assert (exists t0, (if s_prefetched sl then tally (count 0 0 0 0 0 1) else mret tt) c
              = (Ok tt, with_counters t0 c)) as [t0 Ht0].
      { destruct (s_prefetched sl); [by eexists|]. exists (counters c). by destruct c. }
      destruct (Clock.set_Ok (clock c) s false (wf_clock c Hwf)) as (k & Hk & Hkw & _ & Hkc & _).
      { unfold Clock.in_range. by rewrite (wf_clock_capacity c Hwf). }
      exists k, (count 1 0 0 0 0 0 t0). split; [done|]. split; [done|].
      step_with Ht0. step. step. cbn [lookup with_counters]. rewrite Hls, bool_decide_true by done.
      step. unfold on_clock at 1. erewrite mbind_run.
      2: { step. unfold Clock.remove. cbn [clock with_lookup with_counters]. rewrite Hk. step. reflexivity. }
      reflexivity.
    - exists (clock c), (counters c). split; [apply Hwf|]. split; [done|].
      assert (s = resident c) as -> by lia. rewrite Z.eqb_refl. step. unfold mmodify. by destruct c. }
  step_with Hrun. step. cbn [lookup with_resident with_counters with_clock with_lookup].
  assert (Htab : forall k t, <[p := s]> table = lookup (installed c p s e k t)).
  { intros k t. unfold installed; cbn. rewrite Hsl. done. }
  assert (Hnone : table !! p = None).
  { subst table. destruct (_ <? _); [|done]. rewrite lookup_delete_None. by right. }
  step. rewrite Hnone, bool_decide_true by done. step.
  cbn [sizing with_resident with_counters with_clock with_lookup].
  rewrite (wf_table c Hwf), (Htab (clock c) (counters c)).
  rewrite table_no_growth, Z.eqb_refl.
  2: { pose proof (installed_fits c p s e (clock c) (counters c) Hwf Ho He Hv). lia. }
  step. step.
  match goal with |- context [on_clock (Clock.insert s)] => idtac end.
  destruct (Clock.set_Ok k1 s true Hk1) as (k & Hk & Hkw & _ & Hkc & _).
  { unfold Clock.in_range. rewrite Hkc1. by rewrite (wf_clock_capacity c Hwf). }
  exists k, t1. split; [done|]. split; [congruence|].
  unfold on_clock. erewrite mbind_run.
  2: { step. unfold Clock.insert. cbn [clock with_slots with_lookup with_resident with_counters with_clock].
       rewrite Hk. step. reflexivity. }
  unfold mret. f_equal.
Qed.

(** ** The operations on the view *)

(** A page that is resident in [c] stays or, if it is clean, is evicted. *)
Definition kept (c c' : MappingCache) (q : Z) : Prop :=
  view c' q = view c q \/ (view c' q = None /\ exists e, view c q = Some (e, false)).

Lemma acquire_Ok c p access :
  wf c -> 0 <= p < page_count (sizing c) -> exists a c',
    acquire p access c = (Ok a, c') /\ acquired c' p a /\ wf c' /\ same_shape c c' /\
    (view c p = None <-> forall s v, a <> Resident s v) /\
    forall q, view c' q = view c q.
Proof.
  intros Hwf [Hp Hpp]. unfold acquire, validate_page.
  step. destruct (Z.leb_spec (page_count (sizing c)) p); [lia|]. step. step.
  set (t := count_lookup access _ (counters c)).
  pose proof (wf_with_counters c t Hwf) as Hwf1. pose proof (view_None c p Hwf) as Hvn.
  destruct (lookup c !! p) as [s|] eqn:Hl.
  - destruct (resolve_resident (with_counters t c) p s Hwf1 Hl) as (c' & Hrun & Hwf' & Hsh & Hlk & Hv).
    eexists _, c'. split; [exact Hrun|]. destruct Hsh as (Hsz & Hvol & Hlen).
    split; [cbn; rewrite Hlk, Hvol; done|]. split; [exact Hwf'|]. split; [by unfold same_shape|].
    split; [|exact Hv]. rewrite Hvn. split; [discriminate|]. intros Hn. by destruct (Hn s (page_entries (volume_blocks c) p)).
  - destruct (resolve_vacant (with_counters t c) p Hwf1 ltac:(done) Hl)
      as (a & c' & Hrun & Ha & Hnr & Hwf' & Hsh & Hlk & Hv).
    exists a, c'. split; [exact Hrun|]. split; [done|]. split; [done|].
    split; [done|]. split; [by rewrite Hvn | exact Hv].
Qed.

(** [retry] resolves the page again without counting a lookup. *)
Lemma retry_Ok c p :
  wf c -> 0 <= p < page_count (sizing c) -> exists a c',
    retry p c = (Ok a, c') /\ acquired c' p a /\ wf c' /\ same_shape c c' /\
    forall q, view c' q = view c q.
Proof.
  intros Hwf [Hp Hpp]. unfold retry, validate_page. step.
  destruct (Z.leb_spec (page_count (sizing c)) p); [lia|]. step.
  destruct (lookup c !! p) as [s|] eqn:Hl.
  - destruct (resolve_resident c p s Hwf Hl) as (c' & Hrun & Hwf' & Hsh & Hlk & Hv).
    eexists _, c'. split; [exact Hrun|]. pose proof Hsh as (_ & Hvol & _). split; [|done].
    cbn. by rewrite Hlk, Hvol.
  - destruct (resolve_vacant c p Hwf ltac:(done) Hl) as (a & c' & Hrun & Ha & _ & Hwf' & Hsh & _ & Hv).
    by exists a, c'.
Qed.

(** C18. Acquiring a page is invisible to the contents of the cache.  A resident
    page is handed out; a missing page is offered the next free slot, or a slot
    that holds a clean page; a checkpoint is asked for only when every slot of
    the cache is dirty. *)
Theorem acquire_spec c p access :
  wf c -> 0 <= p ->
  (page_count (sizing c) <= p -> acquire p access c = (Err InvalidPage, c)) /\
  (p < page_count (sizing c) -> exists a c',
     acquire p access c = (Ok a, c') /\ acquired c' p a /\ wf c' /\ same_shape c c' /\
     (view c p = None <-> forall s v, a <> Resident s v) /\
     forall q, view c' q = view c q).
Proof.
  intros Hwf Hp. split; intros Hpp; [|by apply acquire_Ok].
  unfold acquire, validate_page. step. destruct (Z.leb_spec (page_count (sizing c)) p); [done|lia].
Qed.

Lemma installed_kept c p s e k t q :
  wf c -> offered c p s -> q <> p -> kept c (installed c p s e k t) q.
Proof.
  intros Hwf Ho Hq. unfold kept. rewrite installed_view, (decide_False (P := q = p)) by done.
  destruct (decide (lookup c !! q = Some s)) as [Hs|]; [right|by left]. split; [done|].
  destruct (offered_slot c p s Hwf Ho) as (sl & Hsl & Hd & _). exists (s_entries sl). unfold view.
  by rewrite Hs, Hsl, Hd.
Qed.

Lemma install_run c p s e :
  wf c -> offered c p s -> Entries.shaped e -> Entries.valid e (page_entries (volume_blocks c) p) ->
  exists c', install p s e c = (Ok (Resident s (page_entries (volume_blocks c) p)), c') /\ wf c' /\
    same_shape c c' /\ lookup c' !! p = Some s /\ view c' p = Some (e, false) /\
    (forall q, q <> p -> kept c c' q) /\
    (forall q, q <> p -> lookup c !! q <> Some s -> view c' q = view c q).
Proof.
  intros Hwf Ho He Hv.
  destruct (install_Ok c p s e Hwf Ho He Hv) as (k & t & Hk & Hkc & Hrun).
  pose proof (installed_view c p s e k t) as Hview.
  exists (installed c p s e k t). split; [exact Hrun|]. split; [by apply installed_wf|].
  split; [unfold same_shape; cbn; by rewrite length_insert|].
  split; [by rewrite installed_lookup, decide_True|].
  split; [by rewrite Hview, decide_True|]. split; [intros; by apply installed_kept|].
  intros q Hq Hs. by rewrite Hview, !decide_False.
Qed.

Lemma kept_dirty c c' q d : kept c c' q -> view c q = Some (d, true) -> view c' q = Some (d, true).
Proof. intros [->|[_ [e ->]]]; [done | discriminate]. Qed.

(** C19. Installing a page in an offered slot makes it resident and clean.  At
    most the clean page that held the slot leaves the cache: no dirty page is
    ever lost.  Entries that fail validation change nothing. *)
Theorem install_spec c p s e :
  wf c -> offered c p s -> Entries.shaped e ->
  (Entries.valid e (page_entries (volume_blocks c) p) -> exists c',
     install p s e c = (Ok (Resident s (page_entries (volume_blocks c) p)), c') /\ wf c' /\
     same_shape c c' /\ lookup c' !! p = Some s /\ view c' p = Some (e, false) /\
     (forall q, q <> p -> lookup c !! q <> Some s -> view c' q = view c q) /\
     (forall q d, view c q = Some (d, true) -> view c' q = Some (d, true))) /\
  (~ Entries.valid e (page_entries (volume_blocks c) p) ->
     install p s e c = (Err InvalidMapping, c)).
Proof.
  intros Hwf Ho He. split; intros Hv; [|apply install_invalid; [apply Ho|done|done]].
  destruct (install_run c p s e Hwf Ho He Hv) as (c' & Hrun & Hwf' & Hsh & Hl & Hp & Hk & Hq).
  exists c'. split_and!; auto. intros q d Hd. apply (kept_dirty c c'); [|done]. apply Hk.
  intros ->. destruct Ho as (_ & Hn & _). apply (view_None c p Hwf) in Hn. congruence.
Qed.

Lemma update_Ok c p s entry physical checksum :
  wf c -> lookup c !! p = Some s -> 0 <= entry < page_entries (volume_blocks c) p ->
  (physical = 0 -> checksum = 0) -> exists e d c',
    view c p = Some (e, d) /\
    update s (page_entries (volume_blocks c) p) entry physical checksum c = (Ok tt, c') /\ wf c' /\
    same_shape c c' /\ lookup c' = lookup c /\
    forall q, view c' q =
      if decide (q = p) then Some (Entries.set e entry physical checksum, true) else view c q.
Proof.
  intros Hwf Hl [He Hlt] Hpc. set (valid := page_entries (volume_blocks c) p) in *. unfold update.
  pose proof (resident_page c p s Hwf Hl) as (Hs & sl & Hsl & Hid).
  destruct (Z.leb_spec valid entry); [lia|]. step.
  assert ((physical =? 0) && negb (checksum =? 0) = false) as ->.
  { destruct (Z.eqb_spec physical 0), (Z.eqb_spec checksum 0); cbn; tauto. }
  step. step. unfold slot_at; rewrite Hsl; step.
  destruct (Z.ltb_spec entry ENTRIES_PER_PAGE); [|unfold valid, page_entries in *; lia]. step.
  set (sl' := Build_Slot _ _ _ _). pose proof (wf_slot c Hwf s sl Hs Hsl) as [Hpg Hsh Hva].
  destruct (wf_store c s sl sl' Hwf Hs Hsl eq_refl) as [Hwf' Hv'].
  { constructor; [done | by apply Entries.set_shaped | apply Entries.set_valid; try done].
    cbn [s_page_id sl']. rewrite Hid. exact Hlt. }
  exists (s_entries sl), (s_dirty sl). eexists. split.
  { apply view_Some; [done|]. by exists s, sl. }
  split; [reflexivity|]. split; [exact Hwf'|].
  split; [unfold same_shape; cbn; by rewrite length_insert|]. split; [done|].
  intros q. rewrite Hv', Hid. done.
Qed.

(** C20. [CachedPage::update] changes one entry of its page and marks the page
    dirty; a rejected update changes nothing. *)
Theorem update_spec c p s entry physical checksum :
  wf c -> lookup c !! p = Some s -> 0 <= entry ->
  let valid := page_entries (volume_blocks c) p in
  (valid <= entry -> update s valid entry physical checksum c = (Err InvalidEntry, c)) /\
  (entry < valid -> physical = 0 -> checksum <> 0 ->
     update s valid entry physical checksum c = (Err InvalidMapping, c)) /\
  (entry < valid -> (physical = 0 -> checksum = 0) -> exists e d c',
     view c p = Some (e, d) /\ update s valid entry physical checksum c = (Ok tt, c') /\ wf c' /\
     same_shape c c' /\ lookup c' = lookup c /\
     forall q, view c' q =
       if decide (q = p) then Some (Entries.set e entry physical checksum, true) else view c q).
Proof.
  intros Hwf Hl He valid. split_and!.
  - intros Hge. unfold update. destruct (Z.leb_spec valid entry); [done|lia].
  - intros Hlt -> Hne. unfold update. destruct (Z.leb_spec valid entry); [lia|]. step.
    destruct (Z.eqb_spec checksum 0); [done|]. reflexivity.
  - intros Hlt Hpc. by apply update_Ok.
Qed.

(** ** Dirty pages *)

Lemma dirty_slots_elem c sl :
  wf c -> sl ∈ dirty_slots_of c <->
  s_dirty sl = true /\ exists s, 0 <= s < resident c /\ slots c !! Z.to_nat s = Some sl.
Proof.
  intros Hwf. pose proof (wf_resident c Hwf). unfold dirty_slots_of.
  rewrite list_elem_of_filter. apply and_iff_compat_l. rewrite list_elem_of_lookup. split.
  - intros (n & Hn). apply lookup_take_Some in Hn as [Hn Hlt]. exists (Z.of_nat n).
    rewrite Nat2Z.id. split; [lia | done].
  - intros (s & Hs & Hsl). exists (Z.to_nat s). apply lookup_take_Some. split; [done | lia].
Qed.

(** No page is listed twice. *)
Lemma dirty_ids_NoDup c : wf c -> NoDup (s_page_id <$> dirty_slots_of c).
Proof.
  intros Hwf. pose proof (wf_resident c Hwf) as Hr. unfold dirty_slots_of.
  assert (Hinj : NoDup (s_page_id <$> take (Z.to_nat (resident c)) (slots c))).
  { apply NoDup_alt. intros i j p Hi Hj.
    assert (Hat : forall n, (s_page_id <$> take (Z.to_nat (resident c)) (slots c)) !! n = Some p ->
                  lookup c !! p = Some (Z.of_nat n)).
    { intros n (a & Ha & Hn)%list_lookup_fmap_Some. apply lookup_take_Some in Hn as [Hn Hlt].
      apply (wf_lookup c Hwf). split; [lia|]. exists a. by rewrite Nat2Z.id. }
    apply Hat in Hi. apply Hat in Hj. rewrite Hi in Hj. injection Hj. lia. }
  revert Hinj. generalize (take (Z.to_nat (resident c)) (slots c)). clear.
  intros l. induction l as [|x l IH]; [constructor|]. rewrite fmap_cons. intros [Hx Hnd]%NoDup_cons.
  rewrite filter_cons. destruct (decide _); [|by apply IH].
  rewrite fmap_cons. apply NoDup_cons. split; [|by apply IH].
  intros Hin. apply Hx. apply list_elem_of_fmap in Hin as (y & -> & Hy%list_elem_of_filter).
  apply list_elem_of_fmap. exists y. tauto.
Qed.

Lemma dirty_pages_elem c p e : wf c -> (p, e) ∈ dirty_pages c <-> view c p = Some (e, true).
Proof.
  intros Hwf. unfold dirty_pages. rewrite list_elem_of_fmap, view_Some by done. split.
  - intros (sl & [= -> ->] & (Hd & s & Hs & Hsl)%dirty_slots_elem); [|done].
    exists s, sl. split_and!; auto; try lia. apply (wf_lookup c Hwf). eauto.
  - intros (s & sl & Hs & Hsl & <- & <- & Hd & _). exists sl. split; [done|].
    apply dirty_slots_elem; eauto.
Qed.

(** The ids of the dirty pages. *)
Definition dirty_ids (c : MappingCache) : list Z := fst <$> dirty_pages c.

Lemma dirty_ids_elem c p : wf c -> p ∈ dirty_ids c <-> exists e, view c p = Some (e, true).
Proof.
  intros Hwf. unfold dirty_ids. rewrite list_elem_of_fmap. split.
  - intros ([q e] & -> & Hin). apply dirty_pages_elem in Hin; eauto.
  - intros [e Hv]. exists (p, e). split; [done|]. by apply dirty_pages_elem.
Qed.

Lemma NoDup_dirty_ids c : wf c -> NoDup (dirty_ids c).
Proof.
  intros Hwf. pose proof (dirty_ids_NoDup c Hwf) as Hn. unfold dirty_ids, dirty_pages.
  rewrite <- list_fmap_compose. exact Hn.
Qed.

(** The dirty pages are at most as many as any list that names them all. *)
Lemma dirty_count_le c (l : list Z) :
  wf c -> (forall q e, view c q = Some (e, true) -> q ∈ l) -> lenZ (dirty_pages c) <= lenZ l.
Proof.
  intros Hwf Hl. pose proof (submseteq_length (dirty_ids c) l) as Hs. unfold dirty_ids in Hs at 2.
  rewrite length_fmap in Hs. enough (dirty_ids c ⊆+ l) by (specialize (Hs ltac:(done)); lia).
  apply NoDup_submseteq; [by apply NoDup_dirty_ids|]. intros q [e He]%dirty_ids_elem; [eauto | done].
Qed.

Lemma dirty_count_mono c c' :
  wf c -> wf c' -> (forall q e, view c q = Some (e, true) -> exists e', view c' q = Some (e', true)) ->
  lenZ (dirty_pages c) <= lenZ (dirty_pages c').
Proof.
  intros Hc Hc' Hv. replace (lenZ (dirty_pages c')) with (lenZ (dirty_ids c'))
    by (unfold dirty_ids; by rewrite length_fmap).
  apply dirty_count_le; [done|]. intros q e Hq. apply dirty_ids_elem; eauto.
Qed.

Lemma dirty_count_eq c c' :
  wf c -> wf c' -> (forall q e, view c q = Some (e, true) <-> view c' q = Some (e, true)) ->
  lenZ (dirty_pages c) = lenZ (dirty_pages c').
Proof.
  intros Hc Hc' Hv. apply Z.le_antisymm; apply dirty_count_mono; try done; intros q e Hq; exists e; by apply Hv.
Qed.

Lemma dirty_count_resident c : wf c -> lenZ (dirty_pages c) <= resident c.
Proof.
  intros Hwf. pose proof (wf_resident c Hwf). unfold dirty_pages, dirty_slots_of. rewrite length_fmap.
  pose proof (length_filter (fun s => s_dirty s = true) (take (Z.to_nat (resident c)) (slots c))).
  rewrite length_take in *. lia.
Qed.

(** When a checkpoint is asked for, every slot of the cache holds a dirty page. *)
Lemma required_count c p p' :
  wf c -> acquired c p (CheckpointRequired p') ->
  lenZ (dirty_pages c) = capacity (sizing c) /\ p ∉ dirty_ids c.
Proof.
  intros Hwf (-> & Hl & Hr & Hall). pose proof (wf_slots c Hwf) as Hs. split.
  - rewrite <- Hs, <- Hr. unfold dirty_pages, dirty_slots_of. rewrite length_fmap.
    assert (Hd : forall s, s ∈ take (Z.to_nat (resident c)) (slots c) -> s_dirty s = true).
    { intros sl (n & Hn)%list_elem_of_lookup. apply lookup_take_Some in Hn as [Hn Hlt].
      assert (Hv : view c (s_page_id sl) = Some (s_entries sl, s_dirty sl)).
      { apply view_Some; [done|]. exists (Z.of_nat n), sl. rewrite Nat2Z.id. split_and!; try done; try lia.
        apply (wf_lookup c Hwf). rewrite Nat2Z.id. split; [lia|]. by exists sl. }
      by apply Hall in Hv. }
    assert (Hf : forall l : list Slot, (forall s, s ∈ l -> s_dirty s = true) ->
      filter (fun s => s_dirty s = true) l = l).
    { induction l as [|s l IH]; intros Hl'; [done|]. rewrite filter_cons_True by set_solver.
      rewrite IH; set_solver. }
    rewrite Hf by done. rewrite length_take. lia.
  - intros [e He]%dirty_ids_elem; [|done]. apply (view_None c p Hwf) in Hl. congruence.
Qed.

Definition entries_of (c : MappingCache) (p : Z) : MappingEntries :=
  match view c p with Some (e, _) => e | None => Entries.zeroed end.

Lemma dirty_pages_fmap c :
  wf c -> dirty_pages c = (fun id => (id, entries_of c id)) <$> (s_page_id <$> dirty_slots_of c).
Proof.
  intros Hwf. unfold dirty_pages. rewrite <- list_fmap_compose. apply list_fmap_ext.
  intros i sl Hi. cbn. f_equal. apply list_elem_of_lookup_2 in Hi.
  apply dirty_slots_elem in Hi as (Hd & s & Hs & Hsl); [|done]. unfold entries_of, view.
  rewrite (proj2 (wf_lookup c Hwf (s_page_id sl) s)) by eauto. by rewrite Hsl.
Qed.

Lemma sorted_dirty_pages_Ok c :
  wf c -> exists l c',
    sorted_dirty_pages c = (Ok l, c') /\ wf c' /\ same_shape c c' /\ (forall q, view c' q = view c q) /\
    Sorted Z.le (fst <$> l) /\ NoDup (fst <$> l) /\
    (forall p e, (p, e) ∈ l <-> view c p = Some (e, true)) /\
    Permutation l (dirty_pages c).
Proof.
  intros Hwf. pose proof (wf_resident c Hwf) as Hr. pose proof (wf_order c Hwf) as Ho.
  pose proof (dirty_ids_NoDup c Hwf) as Hnd. pose proof (dirty_pages_fmap c Hwf) as Hdp.
  unfold sorted_dirty_pages. step. set (ids := s_page_id <$> dirty_slots_of c) in *.
  assert (Hlen : (length ids <= length (dirty_order c))%nat).
  { unfold ids. rewrite length_fmap. unfold dirty_slots_of.
    pose proof (length_filter (fun s => s_dirty s = true) (take (Z.to_nat (resident c)) (slots c))).
    rewrite length_take in *. lia. }
  destruct (Z.leb_spec (lenZ ids) (lenZ (dirty_order c))); [|lia]. step. step.
  pose proof (merge_sort_Permutation Z.le ids) as Hperm.
  set (sorted := merge_sort Z.le ids) in *.
  set (c' := with_dirty_order _ c). set (l := (fun id => (id, entries_of c id)) <$> sorted).
  assert (Hfst : fst <$> l = sorted).
  { unfold l. rewrite <- list_fmap_compose. apply list_fmap_id. }
  exists l, c'. split.
  { unfold mlift. f_equal. apply rmapM_fmap. intros p Hp. rewrite Hperm in Hp.
    apply list_elem_of_fmap in Hp as (sl & -> & (Hd & s & Hs & Hsl)%dirty_slots_elem); [|done].
    unfold entries_of, view, slot_at.
    rewrite (proj2 (wf_lookup c Hwf (s_page_id sl) s)) by eauto. cbn. by rewrite Hsl. }
  assert (Hpl : Permutation l (dirty_pages c)) by (rewrite Hdp; apply fmap_Permutation, Hperm).
  split.
  { destruct Hwf. constructor; try done. cbn. rewrite length_app, length_drop.
    apply Permutation_length in Hperm. lia. }
  split; [done|]. split; [done|]. rewrite Hfst. split; [apply Sorted_merge_sort, _|].
  split; [by rewrite Hperm|]. split; [|done]. intros p e. rewrite Hpl. by apply dirty_pages_elem.
Qed.

(** [sorted_dirty_pages] lists exactly the dirty pages, each once, in the
    increasing order of their ids, and changes nothing but the scratch array. *)
Theorem sorted_dirty_pages_spec c :
  wf c -> exists l c',
    sorted_dirty_pages c = (Ok l, c') /\ wf c' /\ (forall q, view c' q = view c q) /\
    Sorted Z.le (fst <$> l) /\ NoDup (fst <$> l) /\
    (forall p e, (p, e) ∈ l <-> view c p = Some (e, true)) /\
    Permutation l (dirty_pages c).
Proof.
  intros Hwf. destruct (sorted_dirty_pages_Ok c Hwf) as (l & c' & Hrun & Hwf' & _ & Hs). by exists l, c'.
Qed.

(** ** Prefetching *)

Lemma clean_dirty_view c p d s :
  wf c -> view c p = Some (d, true) -> clean c s = true -> lookup c !! p <> Some s.
Proof.
  intros Hwf Hv Hcl Hl. apply view_Some in Hv as (s' & sl & _ & Hsl & _ & _ & Hd & Hl'); [|done].
  assert (s' = s) as -> by congruence. unfold clean in Hcl. by rewrite Hsl, Hd in Hcl.
Qed.

(** What [install] leaves behind, with the slot marked as prefetched. *)
Lemma mark_prefetched c p s e k t :
  wf c -> offered c p s -> Entries.shaped e -> Entries.valid e (page_entries (volume_blocks c) p) ->
  Clock.wf k -> clock_capacity k = clock_capacity (clock c) ->
  exists c', (c1 <- mget ;; s1 <- mlift (slot_at c1 s) ;;
              store_slot s (set_prefetched true s1) ;;;
              on_clock (Clock.remove s) ;;; tally (count 0 0 0 1 0 0) ;;; mret true)
             (installed c p s e k t) = (Ok true, c') /\ wf c' /\ same_shape c c' /\
             (forall q, view c' q = view (installed c p s e k t) q) /\
             lookup c' !! p = Some s /\ Clock.bit (clock c') s = false.
Proof.
  intros Hwf Ho He Hv Hk Hkc. pose proof (installed_wf c p s e k t Hwf Ho He Hv Hk Hkc) as Hwf1.
  set (c1 := installed c p s e k t) in *.
  assert (Hl : lookup c1 !! p = Some s) by (unfold c1; by rewrite installed_lookup, decide_True).
  destruct (offered_slot c p s Hwf Ho) as (sl0 & Hsl0 & _ & Hs0 & _).
  pose proof (resident_page c1 p s Hwf1 Hl) as (Hs & sl & Hsl & Hid).
  step. unfold slot_at. rewrite Hsl. step. step.
  destruct (wf_store c1 s sl (set_prefetched true sl) Hwf1 Hs Hsl eq_refl) as [Hwf2 Hv2].
  { destruct (wf_slot c1 Hwf1 s sl Hs Hsl). by constructor. }
  destruct (on_clock_set _ s false Hwf2) as (k' & Hrun & Hk' & Hkc' & Hbit).
  { cbn. rewrite !length_insert. lia. }
  step_with Hrun. step. eexists. split; [reflexivity|].
  split; [by apply wf_with_counters, wf_with_clock|].
  split; [unfold same_shape; cbn; by rewrite !length_insert|].
  split; [|split; [exact Hl|exact Hbit]].
  intros q. change (view (with_slots (<[Z.to_nat s:=set_prefetched true sl]> (slots c1)) c1) q = view c1 q).
  rewrite Hv2. destruct (decide _) as [->|]; [|done]. symmetry. rewrite Hid.
  apply view_Some; [done|]. by exists s, sl.
Qed.

(** What [prefetch] does once it has a slot. *)
Lemma prefetch_into c p s e :
  wf c -> offered c p s -> Entries.shaped e -> Entries.valid e (page_entries (volume_blocks c) p) ->
  exists c', (_ <- install p s e ;; c1 <- mget ;; s1 <- mlift (slot_at c1 s) ;;
              store_slot s (set_prefetched true s1) ;;;
              on_clock (Clock.remove s) ;;; tally (count 0 0 0 1 0 0) ;;; mret true) c = (Ok true, c') /\
    wf c' /\ same_shape c c' /\ (forall q, q <> p -> kept c c' q) /\
    lookup c' !! p = Some s /\ Clock.bit (clock c') s = false /\
    forall q, view c' q = if decide (q = p) then Some (e, false)
                          else if decide (lookup c !! q = Some s) then None else view c q.
Proof.
  intros Hwf Ho He Hv. destruct (install_Ok c p s e Hwf Ho He Hv) as (k & t & Hk & Hkc & Hrun). step_with Hrun.
  destruct (mark_prefetched c p s e k t Hwf Ho He Hv Hk Hkc) as (c' & Hrun' & Hwf' & (? & ? & ?) & Hv' & Hl & Hb).
  exists c'. split; [exact Hrun'|]. split; [done|]. split; [unfold same_shape; split_and!; congruence|].
  split; [intros q Hq; unfold kept; rewrite Hv'; by apply installed_kept|]. split; [done|]. split; [done|].
  intros q. by rewrite Hv', installed_view.
Qed.

(** The first of the next slots that the hand will pass, 32 at most, that was not
    referenced and is clean. *)
Definition coldest (c : MappingCache) : option Z :=
  List.find (fun s => negb (Clock.bit (clock c) s) && clean c s)
    (map (fun i => (cursor (clock c) + i) mod clock_capacity (clock c))
       (seqZ 0 (Z.min (clock_capacity (clock c)) 32))).

(** The slot for a page that is read ahead: a free one, or the coldest. *)
Definition prefetch_slot (c : MappingCache) (p : Z) : option Z :=
  match view c p with
  | Some _ => None
  | None => if resident c <? lenZ (slots c) then Some (resident c) else coldest c
  end.

Lemma find_filter {A} (f g : A -> bool) (l : list A) :
  List.find f (filter (fun x => g x = false) l) = List.find (fun x => negb (g x) && f x) l.
Proof.
  induction l as [|x l IH]; [done|]. rewrite filter_cons. cbn [List.find].
  destruct (g x); case_decide; try done; cbn [negb andb List.find]; by rewrite IH.
Qed.

Lemma prefetch_exact c p e :
  wf c -> 0 <= p < page_count (sizing c) -> Entries.shaped e ->
  Entries.valid e (page_entries (volume_blocks c) p) ->
  exists c', prefetch p e c = (Ok (bool_decide (is_Some (prefetch_slot c p))), c') /\ wf c' /\ same_shape c c' /\
    match prefetch_slot c p with
    | None => c' = c
    | Some s => lookup c' !! p = Some s /\ Clock.bit (clock c') s = false /\
        forall q, view c' q = if decide (q = p) then Some (e, false)
                              else if decide (lookup c !! q = Some s) then None else view c q
    end /\ forall q, q <> p -> kept c c' q.
Proof.
  intros Hwf Hp He Hv. pose proof (wf_resident c Hwf) as Hr. pose proof (view_None c p Hwf) as Hvn.
  assert (Hsame : forall q, q <> p -> kept c c q) by (intros; by left).
  unfold prefetch, validate_page, prefetch_slot. step.
  destruct (Z.leb_spec (page_count (sizing c)) p); [lia|]. step.
  destruct (view c p) as [x|] eqn:Evp.
  { assert (lookup c !! p <> None) as Hl by (intros E; apply Hvn in E; congruence).
    destruct (lookup c !! p) as [s0|] eqn:Hl0; [|done]. rewrite bool_decide_true by done. exists c.
    rewrite bool_decide_false by (by intros []). by split_and!. }
  pose proof (proj1 Hvn eq_refl) as Hnone. rewrite Hnone. rewrite bool_decide_false by (by intros []).
  destruct (Z.ltb_spec (resident c) (lenZ (slots c))) as [Hfree|Hfull].
  { step. destruct (prefetch_into c p (resident c) e Hwf) as (c' & Hrun & ? & ? & ? & ? & ? & ?); try done.
    { split; [done|]. split; [done|]. left. lia. }
    exists c'. rewrite bool_decide_true by done. split; [exact Hrun|]. by split_and!. }
  rewrite (Clock.cold_candidates_Ok (clock c)) by apply Hwf.
  assert (Hcold : List.find (clean c) (filter (fun s => Clock.bit (clock c) s = false)
    (Clock.order (clock c) (Z.min (clock_capacity (clock c)) 32))) = coldest c) by apply find_filter.
  destruct (coldest c) as [s|] eqn:Hf.
  2: { erewrite mbind_run; [|step; rewrite Hcold; reflexivity]. exists c. rewrite bool_decide_false by (by intros []).
       by split_and!. }
  destruct (List.find_some _ _ Hf) as [Hin Hcl]. apply list_elem_of_In in Hin. apply andb_true_iff in Hcl as [_ Hcl].
  apply (Clock.order_in_range (clock c)) in Hin; [|apply Hwf].
  unfold Clock.in_range in Hin. pose proof (wf_clock_capacity c Hwf) as Hcap.
  set (k := {| referenced := referenced (clock c); clock_capacity := clock_capacity (clock c);
               cursor := (s + 1) mod clock_capacity (clock c) |}).
  assert (Hk : Clock.wf k).
  { destruct (wf_clock c Hwf). constructor; cbn; [done | by apply Z.mod_pos_bound | done]. }
  erewrite mbind_run.
  2: { step. rewrite Hcold. unfold on_clock. erewrite mbind_run.
       2: { step. unfold Clock.advance_past. destruct (Z.ltb_spec s (clock_capacity (clock c))); [|lia].
            step. reflexivity. } reflexivity. }
  destruct (prefetch_into (with_clock k c) p s e) as (c' & Hrun & ? & ? & ? & ? & ? & ?); try done.
  { by apply wf_with_clock. }
  { split; [done|]. split; [done|]. right. cbn. split; [lia|done]. }
  exists c'. rewrite bool_decide_true by done. split; [exact Hrun|]. by split_and!.
Qed.

Lemma prefetch_Ok c p e :
  wf c -> 0 <= p < page_count (sizing c) -> Entries.shaped e ->
  Entries.valid e (page_entries (volume_blocks c) p) ->
  exists b c', prefetch p e c = (Ok b, c') /\ wf c' /\ same_shape c c' /\
    (if b then view c p = None /\ view c' p = Some (e, false)
     else forall q, view c' q = view c q) /\
    (forall q, q <> p -> kept c c' q) /\
    (view c p = None -> resident c < lenZ (slots c) -> b = true).
Proof.
  intros Hwf Hp He Hv. destruct (prefetch_exact c p e Hwf Hp He Hv) as (c' & Hrun & Hwf' & Hsh & Hx & Hk).
  eexists _, c'. split; [exact Hrun|]. unfold prefetch_slot in *. split_and!; try done.
  - destruct (view c p) eqn:E; [rewrite bool_decide_false by (by intros []); by subst c'|].
    destruct (if _ <? _ then _ else _) as [s|]; [|rewrite bool_decide_false by (by intros []); by subst c'].
    rewrite bool_decide_true by done. split; [done|]. destruct Hx as (_ & _ & Hx). by rewrite Hx, decide_True.
  - intros -> Hlt. destruct (Z.ltb_spec (resident c) (lenZ (slots c))); [by apply bool_decide_true|lia].
Qed.

(** C21. [prefetch] takes a page that is not resident into a free slot or, when the cache is
    full, into the first of the next 32 slots of the hand that was not referenced since the
    hand last passed it and is clean, whose page is evicted; it gives up, and changes
    nothing, exactly when the page is resident or there is no such slot.  The new page is
    cold until it is used; every other page keeps its entries, and dirty pages stay. *)
Theorem prefetch_spec c p e :
  wf c -> 0 <= p < page_count (sizing c) -> Entries.shaped e ->
  Entries.valid e (page_entries (volume_blocks c) p) ->
  exists c', prefetch p e c = (Ok (bool_decide (is_Some (prefetch_slot c p))), c') /\ wf c' /\ same_shape c c' /\
    match prefetch_slot c p with
    | None => c' = c
    | Some s => lookup c' !! p = Some s /\ Clock.bit (clock c') s = false /\
        forall q, view c' q = if decide (q = p) then Some (e, false)
                              else if decide (lookup c !! q = Some s) then None else view c q
    end /\
    (forall q d, view c q = Some (d, true) -> view c' q = Some (d, true)).
Proof.
  intros Hwf Hp He Hv. destruct (prefetch_exact c p e Hwf Hp He Hv) as (c' & Hrun & Hwf' & Hsh & Hx & Hk).
  exists c'. split_and!; auto. intros q d Hq. destruct (decide (q = p)) as [->|Hne].
  - unfold prefetch_slot in Hx. rewrite Hq in Hx. by subst c'.
  - apply (kept_dirty c c'); [by apply Hk | done].
Qed.

Lemma take_while_Forall {A} (f : A -> bool) l x : x ∈ take_while f l -> f x = true /\ x ∈ l.
Proof.
  induction l as [|y l IH]; cbn; [set_solver|]. destruct (f y) eqn:E; [|set_solver].
  intros [->|H']%elem_of_cons; [set_solver|]. apply IH in H'. set_solver.
Qed.

Lemma take_while_prefix {A} (f : A -> bool) l : exists l', l = take_while f l ++ l'.
Proof.
  induction l as [|y l [l' IH]]; cbn; [by exists []|]. destruct (f y); [|by exists (y :: l)].
  exists l'. cbn. by rewrite <- IH.
Qed.

Lemma prefetch_limit_Ok c p s maximum :
  wf c -> 0 <= p < page_count (sizing c) -> 0 < maximum ->
  exists n, prefetch_limit c p s maximum = Ok n /\ 1 <= n <= maximum /\
    forall q, p < q < p + n -> q < page_count (sizing c) /\ view c q = None.
Proof.
  intros Hwf Hp Hmax. unfold prefetch_limit. destruct (Z.ltb_spec 0 maximum); [|lia].
  rewrite (Clock.cold_candidates_Ok (clock c)) by apply Hwf. cbn [assert_ rbind].
  set (cold := filter _ (filter _ _)).
  set (available := saturating_sub _ _ + Z.min (lenZ cold) (maximum - 1)). cbv zeta.
  set (top := Z.min maximum (available + 1) - 1).
  match goal with |- context [take_while ?g (seqZ 1 top)] => set (f := g) end.
  destruct (take_while_prefix f (seqZ 1 top)) as [rest Hrest].
  eexists. split; [reflexivity|].
  assert (Hlen : (length (take_while f (seqZ 1 top)) <= Z.to_nat top)%nat).
  { pose proof (length_seqZ 1 top) as Hl. rewrite Hrest, length_app in Hl. lia. }
  assert (0 <= available).
  { unfold available, saturating_sub. pose proof (Nat2Z.is_nonneg (length cold)). lia. }
  split; [unfold top in *; lia|]. intros q Hq.
  assert (Hin : q - p ∈ take_while f (seqZ 1 top)).
  { apply list_elem_of_lookup. exists (Z.to_nat (q - p - 1)).
    assert (Hlt : (Z.to_nat (q - p - 1) < length (take_while f (seqZ 1 top)))%nat) by lia.
    assert (Hs : seqZ 1 top !! Z.to_nat (q - p - 1) = Some (q - p)).
    { apply lookup_seqZ. lia. }
    rewrite Hrest, lookup_app_l in Hs by done. exact Hs. }
  apply take_while_Forall in Hin as [Hf _]. unfold f in Hf. replace (p + (q - p)) with q in Hf by lia.
  bool_prop. split; [done|]. apply view_None; [done|]. by apply eq_None_not_Some.
Qed.

(** The pages that [prefetch_limit] allows to be read along with a vacant
    page are within the volume and not resident, and there are at most as many
    as were asked for. *)
Theorem prefetch_limit_spec c p s maximum :
  wf c -> 0 <= p < page_count (sizing c) -> 0 < maximum ->
  exists n, prefetch_limit c p s maximum = Ok n /\ 1 <= n <= maximum /\
    forall q, p < q < p + n -> q < page_count (sizing c) /\ view c q = None.
Proof. apply prefetch_limit_Ok. Qed.

(** ** Publication *)

Lemma published_nth c n :
  wf c -> slots (checkpoint_published c) !! n =
    match slots c !! n with
    | Some sl => Some (if Z.of_nat n <? resident c then clear_dirty sl else sl)
    | None => None
    end.
Proof.
  intros Hwf. pose proof (wf_resident c Hwf) as Hr. cbn.
  rewrite lookup_app, list_lookup_fmap, length_fmap, length_take.
  destruct (Z.ltb_spec (Z.of_nat n) (resident c)).
  - rewrite lookup_take_lt by lia. destruct (slots c !! n) eqn:E; [done|].
    cbn. apply lookup_ge_None in E. lia.
  - rewrite lookup_take_ge by lia. cbn. rewrite lookup_drop.
    replace (Z.to_nat (resident c) + (n - Z.to_nat (resident c) `min` length (slots c)))%nat with n by lia.
    by destruct (slots c !! n).
Qed.

Lemma published_Ok c :
  wf c -> wf (checkpoint_published c) /\ same_shape c (checkpoint_published c) /\ dirty_pages (checkpoint_published c) = [] /\
    forall p, view (checkpoint_published c) p =
      match view c p with Some (e, _) => Some (e, false) | None => None end.
Proof.
  intros Hwf. pose proof (fun n => published_nth c n Hwf) as Hnth.
  assert (Hlen : length (slots (checkpoint_published c)) = length (slots c)).
  { cbn. rewrite length_app, length_fmap, length_take, length_drop. lia. }
  assert (Hwf' : wf (checkpoint_published c)).
  { destruct Hwf as [H1 H2 H3 H4 H5 H6 H7 H8 H9 H10 H11 H12].
    constructor; try done; try (rewrite Hlen; done).
    - intros p s. change (lookup (checkpoint_published c)) with (lookup c).
      change (resident (checkpoint_published c)) with (resident c). rewrite H10.
      apply and_iff_compat_l. rewrite Hnth. destruct (slots c !! Z.to_nat s) as [sl|].
      + split; intros (sl' & [= <-] & <-); eexists; split; try done; by destruct (_ <? _).
      + split; by intros (? & ? & _).
    - intros s sl Hs. rewrite Hnth. change (resident (checkpoint_published c)) with (resident c) in Hs.
      destruct (slots c !! Z.to_nat s) as [sl'|] eqn:E; [|done]. intros [= <-].
      destruct (H11 s sl' Hs E). destruct (_ <? _); by constructor.
    - intros s sl Hs. rewrite Hnth. change (resident (checkpoint_published c)) with (resident c) in Hs.
      destruct (slots c !! Z.to_nat s) as [sl'|] eqn:E; [|done].
      destruct (Z.ltb_spec (Z.of_nat (Z.to_nat s)) (resident c)); [by intros [= <-]|].
      intros [= <-]. by apply (H12 s). }
  assert (Hview : forall p, view (checkpoint_published c) p =
      match view c p with Some (e, _) => Some (e, false) | None => None end).
  { intros p. unfold view. change (lookup (checkpoint_published c)) with (lookup c).
    destruct (lookup c !! p) as [s|] eqn:Hl; [|done]. rewrite Hnth.
    apply (resident_page c p s Hwf) in Hl as (Hs & sl & -> & _).
    destruct (Z.ltb_spec (Z.of_nat (Z.to_nat s)) (resident c)); [done|lia]. }
  split; [done|]. split; [done|]. split; [|done].
  destruct (dirty_pages (checkpoint_published c)) as [|[p e] l] eqn:E; [done|].
  assert (view (checkpoint_published c) p = Some (e, true)) as Hp.
  { apply dirty_pages_elem; [done|]. rewrite E. by left. }
  rewrite Hview in Hp. by destruct (view c p) as [[]|].
Qed.

(** After [checkpoint_published] every page is still resident with the same
    entries, and none is dirty. *)
Theorem checkpoint_published_spec c :
  wf c -> wf (checkpoint_published c) /\ dirty_pages (checkpoint_published c) = [] /\
    forall p, view (checkpoint_published c) p =
      match view c p with Some (e, _) => Some (e, false) | None => None end.
Proof. intros Hwf. destruct (published_Ok c Hwf) as (Hp & _ & Hq). by split. Qed.

(** ** Creation *)

Lemma new_Ok_cache logical_bytes budget s :
  Sizing.new logical_bytes budget = Ok s -> 0 < logical_bytes ->
  exists c, new logical_bytes budget = Ok c /\ wf c /\ sizing c = s /\ resident c = 0 /\
    volume_blocks c = logical_bytes / BLOCK_SIZE /\ forall p, view c p = None.
Proof.
  intros Hs Hl. pose proof (Sizing.new_Ok _ _ _ Hs Hl) as (_ & Hb & Hpc & Hcap & Hslot & Hlook & Hpol & H64).
  unfold new. rewrite Hs. cbn [rbind]. unfold Sizing.new_lookup.
  assert (checked_mul USIZE (capacity s) 2 = Some (capacity s * 2)) as -> by (by apply checked_mul_Some).
  cbn [ok_or rbind]. destruct (Clock.new_wf_clock (capacity s) ltac:(lia)) as (k & Hk & Hkw & Hkc & _ & _ & Hkb).
  rewrite Hk. cbn [rbind]. rewrite Hlook, Z.eqb_refl, Hkb, Hpol, Z.eqb_refl. cbn [assert_ rbind].
  rewrite length_replicate, Z2Nat.id, Hslot, Z.eqb_refl by lia. cbn [assert_ rbind].
  destruct (Z.leb_spec (logical_bytes / BLOCK_SIZE) u32_max);
    [|change MAX_VOLUME_BLOCKS with 2147483648 in Hb; change u32_max with 4294967295 in *; lia].
  cbn [assert_ rbind]. eexists. split; [reflexivity|]. split; [|by cbn].
  constructor; cbn; try done; try (rewrite ?length_replicate, ?length_zeros; lia).
  - intros p x. rewrite lookup_empty. split; [done|]. intros [? _]. lia.
  - intros x sl _ Hx. apply list_elem_of_lookup_2 in Hx. apply elem_of_replicate in Hx as [-> _]. done.
Qed.

End cache.
End MappingCache.

#[local] Existing Instance example_platform.

(** A cache of two slots for a volume of three pages, with one page resident. *)
Definition example_sizing : Sizing :=
  the_ok {| requested_bytes := 0; page_count := 0; capacity := 0; slot_bytes := 0;
            lookup_bytes := 0; policy_bytes := 0; sort_bytes := 0; total_bytes := 0 |}
    (Sizing.new (4096 * 1000) (Some 10000)).

Definition example_cache : MappingCache :=
  the_ok {| slots := []; dirty_order := []; lookup := ∅;
            clock := {| referenced := []; clock_capacity := 0; cursor := 0 |};
            sizing := example_sizing; volume_blocks := 0; resident := 0; counters := zero_counters |}
    (MappingCache.new (4096 * 1000) (Some 10000)).

Lemma example_cache_wf :
  MappingCache.wf example_cache /\ sizing example_cache = example_sizing /\
  resident example_cache = 0 /\ volume_blocks example_cache = 1000.
Proof.
  assert (Hs : Sizing.new (4096 * 1000) (Some 10000) = Ok example_sizing)
    by (apply is_ok_the; vm_compute; reflexivity).
  destruct (MappingCache.new_Ok_cache _ _ _ Hs ltac:(reflexivity))
    as (c & Hc & Hwf & Hsz & Hr & Hv & _).
  unfold example_cache. rewrite Hc. cbn [the_ok]. by split_and!.
Qed.

Lemma example_pages : page_count (sizing example_cache) = 3.
Proof. rewrite (proj1 (proj2 example_cache_wf)). vm_compute. reflexivity. Qed.

Lemma example_offered : MappingCache.offered example_cache 1 0.
Proof.
  destruct example_cache_wf as (Hwf & Hsz & Hr & Hv). split; [rewrite example_pages; lia|].
  split.
  - destruct (lookup example_cache !! 1) as [s|] eqn:E; [|done].
    apply (MappingCache.resident_page _ _ _ Hwf) in E as [? _]. lia.
  - left. rewrite Hr, (MappingCache.wf_slots _ Hwf), Hsz. split; [done|]. vm_compute. reflexivity.
Qed.

(** The same cache after page 1 was installed. *)
Definition example_filled : MappingCache :=
  snd (MappingCache.install 1 0 Entries.zeroed example_cache).

Lemma example_filled_wf :
  MappingCache.wf example_filled /\ lookup example_filled !! 1 = Some 0 /\
  sizing example_filled = example_sizing.
Proof.
  destruct example_cache_wf as (Hwf & Hsz & Hr & Hv).
  destruct (MappingCache.install_Ok example_cache 1 0 Entries.zeroed Hwf
              example_offered (proj1 Entries.zeroed_typed) (Entries.zeroed_valid _)) as (k & t & Hk & Hkc & Hrun).
  unfold example_filled. rewrite Hrun. cbn [snd]. split_and!.
  - apply MappingCache.installed_wf; auto using example_offered, (Entries.zeroed_valid).
    apply Entries.zeroed_typed.
  - rewrite MappingCache.installed_lookup by auto using example_offered. by rewrite decide_True.
  - done.
Qed.

Lemma acquire_spec_witness :
  exists a c', MappingCache.acquire 1 Foreground example_cache = (Ok a, c') /\
    MappingCache.acquired c' 1 a.
Proof.
  destruct example_cache_wf as (Hwf & Hsz & Hr & Hv).
  destruct (proj2 (MappingCache.acquire_spec example_cache 1 Foreground Hwf ltac:(lia)))
    as (a & c' & Hrun & Ha & _).
  - rewrite example_pages. reflexivity.
  - exists a, c'. split; [exact Hrun | exact Ha].
Defined.

Lemma install_spec_witness :
  exists c', MappingCache.install 1 0 Entries.zeroed example_cache
             = (Ok (Resident 0 336), c') /\ MappingCache.view c' 1 = Some (Entries.zeroed, false).
Proof.
  destruct example_cache_wf as (Hwf & Hsz & Hr & Hv).
  destruct (proj1 (MappingCache.install_spec example_cache 1 0 Entries.zeroed Hwf
              example_offered (proj1 Entries.zeroed_typed)) (Entries.zeroed_valid _))
    as (c' & Hrun & _ & _ & _ & Hview & _).
  exists c'. split; [|exact Hview]. rewrite Hrun, Hv. reflexivity.
Defined.

Lemma update_spec_witness :
  exists e d c', MappingCache.view example_filled 1 = Some (e, d) /\
    MappingCache.update 0 (MappingCache.page_entries (volume_blocks example_filled) 1) 5 42 7 example_filled
      = (Ok tt, c') /\ MappingCache.view c' 1 = Some (Entries.set e 5 42 7, true).
Proof.
  destruct example_filled_wf as (Hwf & Hl & Hsz).
  destruct (proj2 (proj2 (MappingCache.update_spec example_filled 1 0 5 42 7 Hwf Hl
              ltac:(lia)))) as (e & d & c' & Hv & Hrun & _ & _ & _ & Hview).
  - vm_compute. reflexivity.
  - discriminate.
  - exists e, d, c'. split; [exact Hv|]. split; [exact Hrun|]. rewrite Hview. reflexivity.
Defined.

Lemma sorted_dirty_pages_spec_witness :
  exists l c', MappingCache.sorted_dirty_pages example_filled = (Ok l, c') /\
    Permutation l (MappingCache.dirty_pages example_filled).
Proof.
  destruct example_filled_wf as (Hwf & _).
  destruct (MappingCache.sorted_dirty_pages_spec example_filled Hwf)
    as (l & c' & Hrun & _ & _ & _ & _ & _ & Hp).
  exists l, c'. split; [exact Hrun | exact Hp].
Defined.

Lemma checkpoint_published_spec_witness :
  MappingCache.dirty_pages (MappingCache.checkpoint_published example_filled) = [].
Proof.
  exact (proj1 (proj2 (MappingCache.checkpoint_published_spec example_filled
                         (proj1 example_filled_wf)))).
Defined.

Lemma prefetch_spec_witness :
  MappingCache.prefetch_slot example_cache 1 = Some 0 /\
  exists c', MappingCache.prefetch 1 Entries.zeroed example_cache = (Ok true, c') /\
    MappingCache.wf c' /\ lookup c' !! 1 = Some 0.
Proof.
  destruct example_cache_wf as (Hwf & Hsz & Hr & Hv).
  assert (Hs : MappingCache.prefetch_slot example_cache 1 = Some 0) by (vm_compute; reflexivity).
  destruct (MappingCache.prefetch_spec example_cache 1 Entries.zeroed Hwf)
    as (c' & Hrun & Hwf' & _ & Hx & _).
  - rewrite example_pages. split; [discriminate | reflexivity].
  - exact (proj1 Entries.zeroed_typed).
  - apply Entries.zeroed_valid.
  - rewrite Hs in Hrun, Hx. rewrite bool_decide_true in Hrun by (eexists; reflexivity).
    split; [exact Hs|]. exists c'. split; [exact Hrun|]. split; [exact Hwf'|]. exact (proj1 Hx).
Defined.

Lemma prefetch_limit_spec_witness :
  exists n, MappingCache.prefetch_limit example_cache 1 0 32 = Ok n /\ 1 <= n <= 32.
Proof.
  destruct example_cache_wf as (Hwf & Hsz & Hr & Hv).
  destruct (MappingCache.prefetch_limit_spec example_cache 1 0 32 Hwf) as (n & Hrun & Hn & _).
  - rewrite example_pages. split; [discriminate | reflexivity].
  - reflexivity.
  - exists n. split; [exact Hrun | exact Hn].
Defined.
