(* ===== verification/Config.v ===== *)
(** Volume options, release counters and space accounting: the plain data of
    [src/rust/src/lib.rs]. *)

From S2P Require Import Prelude Bytes Geometry.

Definition DEFAULT_CHECKPOINT_AFTER_BYTES : Z := 64 * 1024 * 1024.
Definition MINIMUM_WRITE_BUFFER_BYTES : Z := BLOCK_SIZE.
Definition MAXIMUM_WRITE_BUFFER_BYTES : Z := 16 * 1024 * 1024.
Definition WRITE_BUFFER_DEVICE_DIVISOR : Z := 4.

Inductive ReleaseTrigger := Full | Flush.

Record ReleaseStats := {
  r_records : Z;
  r_payloads : Z;
  r_footer_bytes : Z;
  r_payload_bytes : Z;
  r_full_releases : Z;
  r_flush_releases : Z;
  r_histogram : list Z;
}.

Record SpaceUsage := {
  u_volume_bytes : Z;
  u_live_bytes : Z;
  u_backing_bytes : Z;
  u_allocated_bytes : Z;
  u_metadata_bytes : Z;
  u_log_capacity_bytes : Z;
  u_log_used_bytes : Z;
}.

Record VolumeOpenOptions := {
  checkpoint_after_bytes : Z;
  write_buffer_bytes : Z;
  cache_budget_bytes : option Z;
}.

Module Stats.

(** [ReleaseStats::default]. *)
Definition zero : ReleaseStats :=
  {| r_records := 0; r_payloads := 0; r_footer_bytes := 0; r_payload_bytes := 0;
     r_full_releases := 0; r_flush_releases := 0; r_histogram := zeros 7 |}.

(** The bucket of a record: [1], [2], [3-8], [9-32], [33-128], [129-337], [338]. *)
Definition bucket (payloads : Z) : Z :=
  if payloads <=? 1 then 0
  else if payloads =? 2 then 1
  else if payloads <=? 8 then 2
  else if payloads <=? 32 then 3
  else if payloads <=? 128 then 4
  else if payloads <=? 337 then 5
  else 6.

(** [ReleaseStats::record]. *)
Definition record (payloads : Z) (s : ReleaseStats) : ReleaseStats :=
  {| r_records := r_records s + 1;
     r_payloads := r_payloads s + payloads;
     r_footer_bytes := r_footer_bytes s + BLOCK_SIZE;
     r_payload_bytes := r_payload_bytes s + payloads * BLOCK_SIZE;
     r_full_releases := r_full_releases s;
     r_flush_releases := r_flush_releases s;
     r_histogram := alter (Z.add 1) (Z.to_nat (bucket payloads)) (r_histogram s) |}.

(** The counter of the trigger of a release. *)
Definition trigger (t : ReleaseTrigger) (s : ReleaseStats) : ReleaseStats :=
  {| r_records := r_records s; r_payloads := r_payloads s; r_footer_bytes := r_footer_bytes s;
     r_payload_bytes := r_payload_bytes s;
     r_full_releases := r_full_releases s + match t with Full => 1 | Flush => 0 end;
     r_flush_releases := r_flush_releases s + match t with Full => 0 | Flush => 1 end;
     r_histogram := r_histogram s |}.

(** The identities that make the counters readable. *)
Record consistent (s : ReleaseStats) : Prop := {
  st_histogram : length (r_histogram s) = 7%nat;
  st_records : foldr Z.add 0 (r_histogram s) = r_records s;
  st_payload_bytes : r_payload_bytes s = r_payloads s * BLOCK_SIZE;
  st_footer_bytes : r_footer_bytes s = r_records s * BLOCK_SIZE;
}.

Lemma zero_consistent : consistent zero.
Proof. by constructor. Qed.

Lemma bucket_range payloads : 0 <= bucket payloads <= 6.
Proof. unfold bucket. repeat case_match; lia. Qed.

Lemma sum_alter i l :
  (i < length l)%nat -> foldr Z.add 0 (alter (Z.add 1) i l) = foldr Z.add 0 l + 1.
Proof.
  revert i. induction l as [|x l IH]; intros [|i] Hi; cbn in *; try lia.
  change (list_alter _ i l) with (alter (Z.add 1) i l). rewrite IH by lia. lia.
Qed.

Lemma record_consistent payloads s : consistent s -> consistent (record payloads s).
Proof.
  intros [H1 H2 H3 H4]. pose proof (bucket_range payloads). constructor; cbn.
  - by rewrite length_alter.
  - rewrite sum_alter by lia. lia.
  - lia.
  - lia.
Qed.

Lemma trigger_consistent t s : consistent s -> consistent (trigger t s).
Proof. intros []. by constructor. Qed.

End Stats.

Module Options.

(** [VolumeOpenOptions::default]. *)
Definition default : VolumeOpenOptions :=
  {| checkpoint_after_bytes := DEFAULT_CHECKPOINT_AFTER_BYTES;
     write_buffer_bytes := MINIMUM_WRITE_BUFFER_BYTES;
     cache_budget_bytes := None |}.

Definition validate (o : VolumeOpenOptions) : res unit :=
  fail_if (negb (is_multiple_of (checkpoint_after_bytes o) BLOCK_SIZE)
           || (checkpoint_after_bytes o <? MAXIMUM_RECORD_BLOCKS * BLOCK_SIZE))
    (InvalidInput "invalid checkpoint_after_bytes") ;;?
  fail_if (negb (is_multiple_of (write_buffer_bytes o) BLOCK_SIZE)
           || (write_buffer_bytes o <? MINIMUM_WRITE_BUFFER_BYTES)
           || (MAXIMUM_WRITE_BUFFER_BYTES <? write_buffer_bytes o))
    (InvalidInput "invalid write_buffer_bytes").

(** [clamp_write_buffer_blocks]; the result fits [usize]. *)
Definition clamp_write_buffer_blocks (write_buffer_bytes backing_blocks log_start : Z) : Z :=
  let configured := Z.max (write_buffer_bytes / BLOCK_SIZE) 1 in
  let log_capacity := saturating_sub backing_blocks log_start in
  let device_limit := Z.max (log_capacity / WRITE_BUFFER_DEVICE_DIVISOR) 1 in
  Z.max (Z.min configured device_limit) 1.

(** [SpaceUsage::log_free_bytes]. *)
Definition log_free_bytes (u : SpaceUsage) : Z :=
  saturating_sub (u_log_capacity_bytes u) (u_log_used_bytes u).

Lemma default_valid : validate default = Ok tt.
Proof. reflexivity. Qed.

Lemma validate_options_Ok o :
  validate o = Ok tt <->
  (exists c, checkpoint_after_bytes o = c * BLOCK_SIZE /\ MAXIMUM_RECORD_BLOCKS <= c) /\
  (exists b, write_buffer_bytes o = b * BLOCK_SIZE /\ 1 <= b <= 4096).
Proof.
  unfold validate. rewrite rbind_Ok.
  assert (Hm := is_multiple_of_spec (checkpoint_after_bytes o) BLOCK_SIZE ltac:(discriminate)).
  assert (Hb := is_multiple_of_spec (write_buffer_bytes o) BLOCK_SIZE ltac:(discriminate)).
  change BLOCK_SIZE with 4096 in *. change MAXIMUM_RECORD_BLOCKS with 339.
  change MINIMUM_WRITE_BUFFER_BYTES with 4096. change MAXIMUM_WRITE_BUFFER_BYTES with 16777216.
  split.
  - intros ([] & H1 & H2). apply fail_if_Ok in H1, H2.
    apply orb_false_iff in H1 as [H1%negb_false_iff H1'%Z.ltb_ge].
    apply orb_false_iff in H2 as [[H2%negb_false_iff H2'%Z.ltb_ge]%orb_false_iff H3%Z.ltb_ge].
    apply Hm in H1 as [c Hc]. apply Hb in H2 as [b Hb']. split; [exists c | exists b]; lia.
  - intros [(c & Hc & Hc') (b & Hb1 & Hb2)]. exists tt. rewrite !fail_if_Ok.
    rewrite (proj2 Hm), (proj2 Hb) by eauto. cbn [negb orb]. rewrite orb_false_iff, !Z.ltb_ge. lia.
Qed.

(** The buffer never takes more than a quarter of the log, unless that quarter
    is less than one block. *)
Lemma clamp_bounds w b s :
  1 <= clamp_write_buffer_blocks w b s /\
  (clamp_write_buffer_blocks w b s <= Z.max 1 (w / BLOCK_SIZE)) /\
  (clamp_write_buffer_blocks w b s <= Z.max 1 (saturating_sub b s / 4)).
Proof. unfold clamp_write_buffer_blocks, WRITE_BUFFER_DEVICE_DIVISOR. lia. Qed.

End Options.
