(* ===== verification/Reservation.v ===== *)
(** Append-space admission: [src/rust/src/format_v3/reservation.rs]. *)

From S2P Require Import Prelude Bytes Geometry Config.

Record Reservation := {
  payload_blocks : Z;
  data_records : Z;
  pending_pages : Z;
  mapping_snapshots : Z;
  total_blocks : Z;
}.

Module Reservation.

Definition page_of (lba : Z) : Z := lba / ENTRIES_PER_PAGE.

Definition buffer_limit : Z := MAXIMUM_WRITE_BUFFER_BYTES / BLOCK_SIZE.

Definition dirty_limit : Z := div_ceil MAX_VOLUME_BLOCKS ENTRIES_PER_PAGE.

Definition for_counts (payloads pages dirty_pages : Z) : res Reservation :=
  fail_if (dirty_limit <? dirty_pages) (InvalidInput "dirty page count exceeds volume limit") ;;?
  snapshots <-? ok_or (checked_add 64 dirty_pages pages)
                  (InvalidInput "mapping snapshot reservation overflow") ;;
  let records := div_ceil payloads MAXIMUM_PAYLOAD_BLOCKS in
  with_records <-? ok_or (checked_add 64 payloads records)
                     (InvalidInput "append reservation overflow") ;;
  total <-? ok_or (checked_add 64 with_records snapshots)
              (InvalidInput "append reservation overflow") ;;
  Ok {| payload_blocks := payloads; data_records := records; pending_pages := pages;
        mapping_snapshots := snapshots; total_blocks := total |}.

Definition admit_ (lbas : list Z) (page_count dirty_pages lba : Z) : res Reservation :=
  fail_if (buffer_limit <=? lenZ lbas)
    (InvalidInput "pending writes exceed the write-buffer limit") ;;?
  assert_ (page_count <=? lenZ lbas) ;;?
  assert_ (negb (existsb (Z.eqb lba) lbas)) ;;?
  let page := page_of lba in
  let additional_page := negb (existsb (fun earlier => page_of earlier =? page) lbas) in
  for_counts (lenZ lbas + 1) (page_count + of_bool additional_page) dirty_pages.

Definition ensure_space (boundary backing_blocks required : Z) : res unit :=
  fail_if ((MAX_BACKING_BLOCKS <? backing_blocks) || (backing_blocks <=? boundary))
    (InvalidInput "invalid append geometry") ;;?
  let available := backing_blocks - (boundary + 1) in
  fail_if (available <? required) (RawOs ENOSPC).

(** ** Counting pages *)

(** The distinct mapping pages of a set of blocks. *)
Definition pages_of (lbas : list Z) : gset Z := list_to_set (page_of <$> lbas).
Definition distinct_pages (lbas : list Z) : Z := Z.of_nat (size (pages_of lbas)).

Lemma distinct_pages_le lbas : distinct_pages lbas <= lenZ lbas.
Proof.
  unfold distinct_pages, pages_of. induction lbas as [|l lbas IH]; [done|].
  rewrite fmap_cons, list_to_set_cons. cbn [length].
  pose proof (size_union_alt {[page_of l]} (list_to_set (page_of <$> lbas) : gset Z)) as Hs.
  pose proof (subseteq_size ((list_to_set (page_of <$> lbas) : gset Z) ∖ {[page_of l]})
                (list_to_set (page_of <$> lbas)) ltac:(set_solver)).
  rewrite size_singleton in Hs. lia.
Qed.

Lemma existsb_page lbas page :
  existsb (fun earlier => page_of earlier =? page) lbas = true <-> page ∈ pages_of lbas.
Proof.
  unfold pages_of. rewrite elem_of_list_to_set, list_elem_of_fmap, existsb_exists.
  setoid_rewrite list_elem_of_In. setoid_rewrite Z.eqb_eq. naive_solver.
Qed.

Lemma distinct_pages_snoc lbas lba :
  distinct_pages (lbas ++ [lba])
  = distinct_pages lbas + of_bool (negb (existsb (fun e => page_of e =? page_of lba) lbas)).
Proof.
  unfold distinct_pages.
  assert (pages_of (lbas ++ [lba]) = pages_of lbas ∪ {[page_of lba]}) as ->.
  { unfold pages_of. apply set_eq. intros x.
    rewrite fmap_app, list_to_set_app, fmap_cons. set_solver. }
  destruct (existsb _ lbas) eqn:E; cbn [negb of_bool].
  - apply existsb_page in E. assert (pages_of lbas ∪ {[page_of lba]} = pages_of lbas) as -> by set_solver.
    lia.
  - assert (page_of lba ∉ pages_of lbas) by (rewrite <- existsb_page, E; done).
    rewrite size_union, size_singleton by set_solver. lia.
Qed.

Lemma for_counts_Ok payloads pages dirty :
  0 <= payloads <= 4096 -> 0 <= pages <= 4096 -> 0 <= dirty <= dirty_limit ->
  for_counts payloads pages dirty =
    Ok {| payload_blocks := payloads; data_records := div_ceil payloads MAXIMUM_PAYLOAD_BLOCKS;
          pending_pages := pages; mapping_snapshots := dirty + pages;
          total_blocks := payloads + div_ceil payloads MAXIMUM_PAYLOAD_BLOCKS + (dirty + pages) |}.
Proof.
  intros Hp Hg Hd. unfold for_counts. destruct (Z.ltb_spec dirty_limit dirty); [lia|].
  change dirty_limit with 6391321 in *.
  pose proof (div_ceil_spec payloads MAXIMUM_PAYLOAD_BLOCKS ltac:(reflexivity)) as Hc.
  change MAXIMUM_PAYLOAD_BLOCKS with 338 in *. unfold checked_add.
  destruct (Z.ltb_spec (dirty + pages) (2 ^ 64)); [|lia].
  cbn [fail_if ok_or rbind].
  destruct (Z.ltb_spec (payloads + div_ceil payloads 338) (2 ^ 64)); [|lia].
  cbn [fail_if ok_or rbind].
  destruct (Z.ltb_spec (payloads + div_ceil payloads 338 + (dirty + pages)) (2 ^ 64)); [done|lia].
Qed.

Lemma admit_Ok lbas dirty lba :
  lba ∉ lbas -> 0 <= dirty <= dirty_limit -> lenZ lbas < 4096 ->
  let len := lenZ lbas + 1 in
  let pages := distinct_pages (lbas ++ [lba]) in
  admit_ lbas (distinct_pages lbas) dirty lba =
    Ok {| payload_blocks := len; data_records := div_ceil len MAXIMUM_PAYLOAD_BLOCKS; pending_pages := pages;
          mapping_snapshots := dirty + pages;
          total_blocks := len + div_ceil len MAXIMUM_PAYLOAD_BLOCKS + (dirty + pages) |}.
Proof.
  intros Hnew Hd Hlen len pages. unfold admit_. change buffer_limit with 4096.
  destruct (Z.leb_spec 4096 (lenZ lbas)); [lia|]. cbn [fail_if rbind].
  pose proof (distinct_pages_le lbas). destruct (Z.leb_spec (distinct_pages lbas) (lenZ lbas)); [|lia].
  assert (existsb (Z.eqb lba) lbas = false) as ->.
  { apply not_true_iff_false. intros (x & Hx & E)%existsb_exists. apply Z.eqb_eq in E as ->.
    by apply Hnew, list_elem_of_In. }
  cbn [assert_ rbind negb]. rewrite <- distinct_pages_snoc.
  pose proof (distinct_pages_le (lbas ++ [lba])) as Hle. rewrite length_app in Hle. cbn [length] in Hle.
  apply for_counts_Ok; [unfold len; lia | unfold pages, distinct_pages in *; lia | done].
Qed.

(** A new block is admitted exactly when the buffer has room, and the
    reservation covers its whole release: every payload, one footer for each
    338 of them, a snapshot of each page that is dirty now and one of each
    page that the buffered writes will dirty. *)
Theorem admit_covers_the_release lbas dirty lba :
  lba ∉ lbas -> 0 <= dirty <= dirty_limit ->
  (lenZ lbas < 4096 -> exists r,
     admit_ lbas (distinct_pages lbas) dirty lba = Ok r /\
     payload_blocks r = lenZ (lbas ++ [lba]) /\
     338 * (data_records r - 1) < payload_blocks r <= 338 * data_records r /\
     pending_pages r = distinct_pages (lbas ++ [lba]) /\
     mapping_snapshots r = dirty + pending_pages r /\
     total_blocks r = payload_blocks r + data_records r + mapping_snapshots r) /\
  (4096 <= lenZ lbas -> admit_ lbas (distinct_pages lbas) dirty lba =
     Err (InvalidInput "pending writes exceed the write-buffer limit")).
Proof.
  intros Hnew Hd. split; intros Hlen.
  - eexists. split; [by apply admit_Ok|].
    cbn [payload_blocks data_records pending_pages mapping_snapshots total_blocks]. rewrite length_app. cbn [length].
    pose proof (div_ceil_spec (lenZ lbas + 1) MAXIMUM_PAYLOAD_BLOCKS ltac:(reflexivity)) as Hc.
    change MAXIMUM_PAYLOAD_BLOCKS with 338 in *. split_and!; lia.
  - unfold admit_. change buffer_limit with 4096. destruct (Z.leb_spec 4096 (lenZ lbas)); [done|lia].
Qed.

Lemma ensure_space_Ok boundary backing required :
  ensure_space boundary backing required = Ok tt <->
  backing <= MAX_BACKING_BLOCKS /\ boundary < backing /\ boundary + required < backing.
Proof.
  unfold ensure_space. rewrite rbind_Ok. split.
  - intros ([] & H1 & H2). apply fail_if_Ok in H1, H2. bool_prop. lia.
  - intros (H1 & H2 & H3). exists tt. rewrite !fail_if_Ok, orb_false_iff, !Z.ltb_ge, Z.leb_gt. lia.
Qed.

Lemma ensure_space_not_Panic boundary backing required : ensure_space boundary backing required <> Panic.
Proof. unfold ensure_space. no_panic. Qed.

Lemma ensure_space_ENOSPC boundary backing required :
  backing <= MAX_BACKING_BLOCKS -> boundary < backing ->
  ensure_space boundary backing required =
    if boundary + required <? backing then Ok tt else Err (RawOs ENOSPC).
Proof.
  intros H1 H2. unfold ensure_space. destruct (Z.ltb_spec MAX_BACKING_BLOCKS backing); [lia|].
  destruct (Z.leb_spec backing boundary); [lia|]. cbn [orb fail_if rbind].
  destruct (Z.ltb_spec (boundary + required) backing), (Z.ltb_spec (backing - (boundary + 1)) required);
    cbn; (done || lia).
Qed.

End Reservation.

Lemma admit_covers_the_release_witness :
  exists r, Reservation.admit_ [5; 400] (Reservation.distinct_pages [5; 400]) 3 6 = Ok r /\
    pending_pages r = 2 /\ total_blocks r = 3 + 1 + (3 + 2).
Proof.
  destruct (proj1 (Reservation.admit_covers_the_release [5; 400] 3 6 ltac:(set_solver) ltac:(vm_compute; split; discriminate))
              ltac:(reflexivity)) as (r & Hr & Hp & Hd & Hpp & Hm & Ht).
  exists r. split; [exact Hr|].
  assert (pending_pages r = 2) as E by (rewrite Hpp; vm_compute; reflexivity).
  split; [exact E|]. rewrite Ht, Hm, E, Hp. cbn [length] in *. rewrite Hp in Hd. cbn [length app] in *. lia.
Defined.
