(* ===== verification/WriteBuffer.v ===== *)
(** The write-back buffer: [WriteBackBuffer] of [src/rust/src/lib.rs]. *)

From S2P Require Import Prelude Bytes.

Record WriteBackBuffer := {
  arena : list (list Z);
  lbas : list Z;
  slot_of_lba : gmap Z Z;
}.

Module Buffer.

(** [WriteBackBuffer::with_capacity]. *)
Definition with_capacity (capacity_blocks : Z) : res WriteBackBuffer :=
  assert_ (1 <=? capacity_blocks) ;;?
  Ok {| arena := replicate (Z.to_nat capacity_blocks) zero_block; lbas := []; slot_of_lba := ∅ |}.

Definition capacity (b : WriteBackBuffer) : Z := lenZ (arena b).
Definition len (b : WriteBackBuffer) : Z := lenZ (lbas b).

Definition get (b : WriteBackBuffer) (lba : Z) : res (option (list Z)) :=
  match slot_of_lba b !! lba with
  | Some slot => block <-? expect (arena b !! Z.to_nat slot) ;; Ok (Some block)
  | None => Ok None
  end.

(** Stores the payload; the result tells whether it took a new slot. *)
Definition store (lba : Z) (data : list Z) : M WriteBackBuffer bool :=
  b <- mget ;;
  match slot_of_lba b !! lba with
  | Some slot =>
      mlift (assert_ (slot <? lenZ (arena b))) ;;;
      mput {| arena := <[Z.to_nat slot := data]> (arena b); lbas := lbas b;
              slot_of_lba := slot_of_lba b |} ;;;
      mret false
  | None =>
      let slot := lenZ (lbas b) in
      mlift (assert_ (slot <? lenZ (arena b))) ;;;
      mput {| arena := <[Z.to_nat slot := data]> (arena b); lbas := lbas b ++ [lba];
              slot_of_lba := <[lba := slot]> (slot_of_lba b) |} ;;;
      mret true
  end.

Definition clear (b : WriteBackBuffer) : WriteBackBuffer :=
  {| arena := arena b; lbas := []; slot_of_lba := ∅ |}.

Definition sort_by_lba (b : WriteBackBuffer) : WriteBackBuffer :=
  {| arena := arena b; lbas := merge_sort Z.le (lbas b); slot_of_lba := slot_of_lba b |}.

(** ** Invariant *)

Record wf (b : WriteBackBuffer) : Prop := {
  wf_capacity : 1 <= capacity b;
  wf_fits : len b <= capacity b;
  wf_nodup : NoDup (lbas b);
  wf_indexed : forall lba, is_Some (slot_of_lba b !! lba) <-> lba ∈ lbas b;
  wf_slot : forall lba s, slot_of_lba b !! lba = Some s -> 0 <= s < len b;
  wf_inj : forall l1 l2 s, slot_of_lba b !! l1 = Some s -> slot_of_lba b !! l2 = Some s -> l1 = l2;
}.

(** The contents of the buffer. *)
Definition content (b : WriteBackBuffer) (lba : Z) : option (list Z) :=
  match slot_of_lba b !! lba with Some slot => arena b !! Z.to_nat slot | None => None end.

Lemma with_capacity_wf n : 1 <= n -> exists b, with_capacity n = Ok b /\ wf b /\ capacity b = n /\ lbas b = [] /\
  forall lba, content b lba = None.
Proof.
  intros Hn. unfold with_capacity. destruct (Z.leb_spec 1 n); [|lia]. cbn [assert_ rbind].
  eexists. split; [reflexivity|].
  assert (Hc : lenZ (replicate (Z.to_nat n) zero_block) = n) by (rewrite length_replicate; lia).
  split; [|done]. constructor; unfold capacity, len; cbn; try done; try lia.
  - constructor.
  - intros lba. rewrite lookup_empty. split; [by intros [] | set_solver].
Qed.

Lemma get_Ok b lba : wf b -> get b lba = Ok (content b lba).
Proof.
  intros Hwf. unfold get, content. destruct (slot_of_lba b !! lba) as [s|] eqn:E; [|done].
  apply (wf_slot b Hwf) in E. pose proof (wf_fits b Hwf). unfold capacity in *.
  destruct (lookup_lt_is_Some_2 (arena b) (Z.to_nat s)) as [x ->]; [lia|done].
Qed.

Lemma content_None b lba : wf b -> content b lba = None <-> lba ∉ lbas b.
Proof.
  intros Hwf. rewrite <- (wf_indexed b Hwf), <- eq_None_not_Some. unfold content.
  destruct (slot_of_lba b !! lba) as [s|] eqn:E; [|done].
  apply (wf_slot b Hwf) in E. pose proof (wf_fits b Hwf). unfold capacity in *.
  destruct (lookup_lt_is_Some_2 (arena b) (Z.to_nat s)) as [x ->]; [lia|done].
Qed.

(** Storing into an occupied slot, or into the next free one. *)
Lemma store_Ok b lba data :
  wf b -> (content b lba = None -> len b < capacity b) ->
  exists b', store lba data b = (Ok (bool_decide (content b lba = None)), b') /\ wf b' /\
    capacity b' = capacity b /\
    lbas b' = (if decide (content b lba = None) then lbas b ++ [lba] else lbas b) /\
    forall l, content b' l = if decide (l = lba) then Some data else content b l.
Proof.
  intros Hwf Hroom. pose proof (content_None b lba Hwf) as Hnone. pose proof (wf_fits b Hwf) as Hfits.
  unfold store. step. destruct (slot_of_lba b !! lba) as [s|] eqn:E.
  - pose proof (wf_slot b Hwf lba s E) as Hs. pose proof Hs as [Hs0 Hs1].
    assert (Hin : lba ∈ lbas b) by (apply (wf_indexed b Hwf); by eexists).
    destruct (Z.ltb_spec s (lenZ (arena b))); [|unfold capacity in *; lia]. step. step.
    eexists. split.
    { rewrite bool_decide_false by (rewrite Hnone; tauto). reflexivity. }
    rewrite decide_False by (rewrite Hnone; tauto).
    split; [destruct Hwf; constructor; try done; unfold capacity, len in *; cbn; by rewrite ?length_insert|].
    split; [unfold capacity; cbn; by rewrite length_insert|]. split; [done|].
    intros l. unfold content at 1; cbn. destruct (decide (l = lba)) as [->|Hne].
    + rewrite E. rewrite list_lookup_insert_eq; [done|unfold capacity in *; lia].
    + unfold content. destruct (slot_of_lba b !! l) as [t|] eqn:El; [|done].
      apply list_lookup_insert_ne. intros Ht. apply Hne.
      pose proof (wf_slot b Hwf l t El). assert (s = t) as -> by lia. by apply (wf_inj b Hwf l lba t).
  - assert (Hc : content b lba = None) by (unfold content; by rewrite E).
    assert (Hnin : lba ∉ lbas b) by tauto. specialize (Hroom Hc).
    destruct (Z.ltb_spec (lenZ (lbas b)) (lenZ (arena b))); [|unfold capacity, len in *; lia]. step. step.
    eexists. split; [rewrite bool_decide_true by done; reflexivity|]. rewrite decide_True by done.
    unfold capacity, len in *. split.
    { destruct Hwf as [H1 H2 H3 H4 H5 H6]. constructor; unfold capacity, len in *; cbn;
        rewrite ?length_insert, ?length_app; cbn [length]; try lia.
      - apply NoDup_app. split; [done|]. split; [set_solver|apply NoDup_singleton].
      - intros l. rewrite elem_of_app, list_elem_of_singleton. rewrite lookup_insert_is_Some. rewrite H4.
        destruct (decide (lba = l)); naive_solver.
      - intros l s [[<- <-]|[? Hl]]%lookup_insert_Some; [lia|]. apply H5 in Hl. lia.
      - intros l1 l2 s [[<- <-]|[? Hl1]]%lookup_insert_Some [[<- Hs]|[? Hl2]]%lookup_insert_Some; try done.
        + apply H5 in Hl2. lia.
        + subst. apply H5 in Hl1. lia.
        + by apply (H6 l1 l2 s). }
    split; [cbn; by rewrite length_insert|]. split; [done|].
    intros l. unfold content; cbn. destruct (decide (l = lba)) as [->|Hne].
    + rewrite lookup_insert_eq, list_lookup_insert_eq; [done|lia].
    + rewrite lookup_insert_ne by done. destruct (slot_of_lba b !! l) as [t|] eqn:El; [|done].
      apply list_lookup_insert_ne. pose proof (wf_slot b Hwf l t El). unfold len in *. lia.
Qed.

(** The buffer is a map from block addresses to payloads: a store is seen
    by every later read and changes no other address, it reports whether the
    address is new, and it never moves a payload out of its slot's arena. *)
Theorem store_spec b lba data :
  wf b -> (content b lba = None -> len b < capacity b) ->
  exists b', store lba data b = (Ok (bool_decide (content b lba = None)), b') /\ wf b' /\
    capacity b' = capacity b /\
    len b' = len b + of_bool (bool_decide (content b lba = None)) /\
    forall l, get b' l = if decide (l = lba) then Ok (Some data) else get b l.
Proof.
  intros Hwf Hroom. destruct (store_Ok b lba data Hwf Hroom) as (b' & Hrun & Hwf' & Hcap & Hl & Hc).
  exists b'. split; [exact Hrun|]. split; [done|]. split; [done|]. split.
  - unfold len. rewrite Hl. case_decide; case_bool_decide; try done; rewrite ?length_app; cbn; lia.
  - intros l. rewrite (get_Ok b' l Hwf'), (get_Ok b l Hwf), Hc. by destruct (decide (l = lba)).
Qed.

Lemma sort_wf b : wf b -> wf (sort_by_lba b) /\ Sorted Z.le (lbas (sort_by_lba b)) /\
  Permutation (lbas (sort_by_lba b)) (lbas b) /\ (forall l, content (sort_by_lba b) l = content b l) /\
  capacity (sort_by_lba b) = capacity b.
Proof.
  intros Hwf. pose proof (merge_sort_Permutation Z.le (lbas b)) as Hp.
  split; [|split; [apply Sorted_merge_sort, _|done]].
  pose proof (Permutation_length Hp) as Hlen.
  destruct Hwf as [H1 H2 H3 H4 H5 H6]. constructor; unfold capacity, len in *; cbn; try done; rewrite ?Hlen; try done.
  - by rewrite Hp.
  - intros l. rewrite Hp. apply H4.
Qed.

Lemma clear_wf b : wf b -> wf (clear b) /\ capacity (clear b) = capacity b /\ len (clear b) = 0 /\
  forall l, content (clear b) l = None.
Proof.
  intros [H1 H2 H3 H4 H5 H6]. split; [|done]. constructor; unfold capacity, len in *; cbn; try done; try lia.
  - constructor.
  - intros l. rewrite lookup_empty. split; [by intros [] | set_solver].
Qed.

End Buffer.

Definition example_buffer : WriteBackBuffer :=
  {| arena := [zero_block; zero_block]; lbas := [7]; slot_of_lba := {[7 := 0]} |}.

Lemma store_spec_witness :
  exists b', Buffer.store 9 zero_block example_buffer = (Ok true, b') /\ Buffer.wf b' /\
    Buffer.get b' 9 = Ok (Some zero_block).
Proof.
  assert (Hwf : Buffer.wf example_buffer).
  { constructor; try (vm_compute; congruence).
    - apply NoDup_singleton.
    - intros lba. cbn. rewrite lookup_singleton_is_Some, list_elem_of_singleton. done.
    - intros lba s. cbn. intros [<- <-]%lookup_singleton_Some. vm_compute. split; congruence.
    - intros l1 l2 s. cbn. intros [<- _]%lookup_singleton_Some [<- _]%lookup_singleton_Some. done. }
  destruct (Buffer.store_spec example_buffer 9 zero_block Hwf ltac:(reflexivity))
    as (b' & Hrun & Hwf' & _ & _ & Hget).
  exists b'. split; [exact Hrun|]. split; [exact Hwf'|]. rewrite Hget. reflexivity.
Defined.
