(* ===== verification/Accounting.v ===== *)
(** The shared I/O ledger: [src/rust/src/io_accounting.rs].

    The single writer publishes its counters through a sequence of atomic
    stores; readers in other processes take their loads at any points in
    between.  A writer operation is therefore modelled by the stores it makes,
    in order, and a reader by the ledgers that its successive loads see. *)

From S2P Require Import Prelude Bytes.

Definition LEDGER_VERSION : Z := 1.
Definition MODE : Z := 384.   (* 0o600 *)
Definition FLAG_INCOMPLETE : Z := 1.
Definition FLAG_BUDGET_EXHAUSTED : Z := 2.
Definition KNOWN_FLAGS : Z := Z.lor FLAG_INCOMPLETE FLAG_BUDGET_EXHAUSTED.
Definition SNAPSHOT_ATTEMPTS : nat := 100.
(** [size_of::<Ledger>()] of the [repr(C)] struct: eleven [u64]s, four [u32]s, one [u64]. *)
Definition LEDGER_LENGTH : Z := 8 + 4 * 4 + 8 + 10 * 8.

(** [u64::from_ne_bytes] of the eight bytes of the magic, on a little-endian host. *)
Definition LEDGER_MAGIC : Z := le_value [77; 66; 83; 73; 79; 65; 67; 49].

Record Ledger := {
  l_magic : Z;
  l_version : Z;
  l_length : Z;
  l_owner_uid : Z;
  l_write_limit : Z;
  l_epoch : Z;
  l_write_reserved : Z;
  l_write_completed : Z;
  l_read_completed : Z;
  l_read_operations : Z;
  l_write_operations : Z;
  l_flush_operations : Z;
  l_pending : Z;
  l_errors : Z;
  l_flags : Z;
}.

Inductive Operation :=
  | OpRead (bytes : Z)
  | OpWrite (bytes : Z)
  | OpFlush.

Record LedgerSnapshot := {
  sn_write_limit : Z;
  sn_write_reserved : Z;
  sn_write_completed : Z;
  sn_read_completed : Z;
  sn_read_operations : Z;
  sn_write_operations : Z;
  sn_flush_operations : Z;
  sn_pending : Z;
  sn_errors : Z;
  sn_incomplete : bool;
  sn_budget_exhausted : bool;
}.

(** [PendingOperation], without the borrow of its writer. *)
Record PendingOperation := {
  po_operation : Operation;
  po_finish_epoch : Z;
  po_error_after_failure : Z;
}.

(** The atomic fields. *)
Inductive Field :=
  | Epoch | WriteReserved | WriteCompleted | ReadCompleted | ReadOperations
  | WriteOperations | FlushOperations | Pending | Errors | Flags.

Module Ledger.

Definition load (f : Field) (l : Ledger) : Z :=
  match f with
  | Epoch => l_epoch l
  | WriteReserved => l_write_reserved l
  | WriteCompleted => l_write_completed l
  | ReadCompleted => l_read_completed l
  | ReadOperations => l_read_operations l
  | WriteOperations => l_write_operations l
  | FlushOperations => l_flush_operations l
  | Pending => l_pending l
  | Errors => l_errors l
  | Flags => l_flags l
  end.

(** One atomic store. *)
Definition store (s : Field * Z) (l : Ledger) : Ledger :=
  let '(f, x) := s in
  {| l_magic := l_magic l; l_version := l_version l; l_length := l_length l;
     l_owner_uid := l_owner_uid l; l_write_limit := l_write_limit l;
     l_epoch := match f with Epoch => x | _ => l_epoch l end;
     l_write_reserved := match f with WriteReserved => x | _ => l_write_reserved l end;
     l_write_completed := match f with WriteCompleted => x | _ => l_write_completed l end;
     l_read_completed := match f with ReadCompleted => x | _ => l_read_completed l end;
     l_read_operations := match f with ReadOperations => x | _ => l_read_operations l end;
     l_write_operations := match f with WriteOperations => x | _ => l_write_operations l end;
     l_flush_operations := match f with FlushOperations => x | _ => l_flush_operations l end;
     l_pending := match f with Pending => x | _ => l_pending l end;
     l_errors := match f with Errors => x | _ => l_errors l end;
     l_flags := match f with Flags => x | _ => l_flags l end |}.

(** The ledger after a sequence of stores. *)
Definition after (stores : list (Field * Z)) (l : Ledger) : Ledger := foldl (fun l s => store s l) l stores.

Definition new_ledger (write_limit owner : Z) : Ledger :=
  {| l_magic := 0; l_version := LEDGER_VERSION; l_length := LEDGER_LENGTH; l_owner_uid := owner;
     l_write_limit := write_limit; l_epoch := 0; l_write_reserved := 0; l_write_completed := 0;
     l_read_completed := 0; l_read_operations := 0; l_write_operations := 0;
     l_flush_operations := 0; l_pending := 0; l_errors := 0; l_flags := 0 |}.

Definition validate_header (euid : Z) (l : Ledger) : res unit :=
  fail_if (negb (l_magic l =? LEDGER_MAGIC) || negb (l_version l =? LEDGER_VERSION)
           || negb (l_length l =? LEDGER_LENGTH) || negb (l_owner_uid l =? euid)
           || (l_write_limit l =? 0))
    (InvalidData "ledger header mismatch").

Definition checked_add_field (f : Field) (amount : Z) (l : Ledger) (message : string) : res Z :=
  ok_or (checked_add 64 (load f l) amount) (OtherError message).

(** ** The writer *)

(** [Writer::begin]: its result and the stores it makes. *)
Definition begin (operation : Operation) (l : Ledger) : res PendingOperation * list (Field * Z) :=
  match operation with
  | OpRead 0 | OpWrite 0 => (Err (InvalidInput "I/O length must be nonzero"), [])
  | _ =>
      if negb (l_pending l =? 0) then (Err (OtherError "an operation is already pending"), [])
      else
        match checked_add_field Errors 1 l "error count overflow" with
        | Err e => (Err e, [])
        | Panic => (Panic, [])
        | Ok error_after_failure =>
            let epoch := l_epoch l in
            if negb (Z.land epoch 1 =? 0) || negb (bool_decide (is_Some (checked_add 64 epoch 4))) then
              (Err (OtherError "invalid or exhausted writer epoch"), [])
            else
              let reserved :=
                match operation with
                | OpWrite bytes =>
                    match checked_add 64 (l_write_reserved l) bytes with
                    | Some next => if next <=? l_write_limit l then Some next else None
                    | None => None
                    end
                | _ => None
                end in
              match operation, reserved with
              | OpWrite _, None =>
                  (Err (RawOs ENOSPC),
                   [(Epoch, epoch + 1); (Flags, Z.lor (l_flags l) FLAG_BUDGET_EXHAUSTED);
                    (Epoch, epoch + 2)])
              | _, _ =>
                  (Ok {| po_operation := operation; po_finish_epoch := epoch + 4;
                         po_error_after_failure := error_after_failure |},
                   [(Epoch, epoch + 1)]
                   ++ match reserved with Some bytes => [(WriteReserved, bytes)] | None => [] end
                   ++ [(Pending, 1); (Epoch, epoch + 2)])
              end
        end
  end.

(** [PendingOperation::record_failure]; dropping an unfinished operation does the same. *)
Definition record_failure (p : PendingOperation) (l : Ledger) : list (Field * Z) :=
  [(Epoch, po_finish_epoch p - 1); (Pending, 0); (Errors, po_error_after_failure p);
   (Flags, Z.lor (l_flags l) FLAG_INCOMPLETE); (Epoch, po_finish_epoch p)].

(** The counters of an operation: operations, bytes, and the number of bytes. *)
Definition counters_of (operation : Operation) : Field * option Field * Z :=
  match operation with
  | OpRead bytes => (ReadOperations, Some ReadCompleted, bytes)
  | OpWrite bytes => (WriteOperations, Some WriteCompleted, bytes)
  | OpFlush => (FlushOperations, None, 0)
  end.

(** [PendingOperation::finish].  On an overflow the operation is dropped unfinished. *)
Definition finish (success : bool) (p : PendingOperation) (l : Ledger) :
    res unit * list (Field * Z) :=
  if negb success then (Ok tt, record_failure p l)
  else
    let '(operation_counter, byte_counter, byte_count) := counters_of (po_operation p) in
    match checked_add_field operation_counter 1 l "completed operation count overflow" with
    | Ok operations =>
        match byte_counter with
        | None =>
            (Ok tt, [(Epoch, po_finish_epoch p - 1); (operation_counter, operations);
                     (Pending, 0); (Epoch, po_finish_epoch p)])
        | Some counter =>
            match checked_add_field counter byte_count l "completed byte count overflow" with
            | Ok bytes =>
                (Ok tt, [(Epoch, po_finish_epoch p - 1); (operation_counter, operations);
                         (counter, bytes); (Pending, 0); (Epoch, po_finish_epoch p)])
            | Err e => (Err e, record_failure p l)
            | Panic => (Panic, record_failure p l)
            end
        end
    | Err e => (Err e, record_failure p l)
    | Panic => (Panic, record_failure p l)
    end.

(** ** The reader *)

(** [stable_snapshot].  [env k] is the ledger that the [k]-th load sees, the
    loads numbered from [k] on; an attempt with an even first epoch makes eleven. *)
Definition snapshot_of (env : nat -> Ledger) (k : nat) : LedgerSnapshot :=
  let flags := l_flags (env (k + 1)%nat) in
  {| sn_write_limit := l_write_limit (env (k + 2)%nat);
     sn_write_reserved := l_write_reserved (env (k + 2)%nat);
     sn_write_completed := l_write_completed (env (k + 3)%nat);
     sn_read_completed := l_read_completed (env (k + 4)%nat);
     sn_read_operations := l_read_operations (env (k + 5)%nat);
     sn_write_operations := l_write_operations (env (k + 6)%nat);
     sn_flush_operations := l_flush_operations (env (k + 7)%nat);
     sn_pending := l_pending (env (k + 8)%nat);
     sn_errors := l_errors (env (k + 9)%nat);
     sn_incomplete := negb (Z.land flags FLAG_INCOMPLETE =? 0);
     sn_budget_exhausted := negb (Z.land flags FLAG_BUDGET_EXHAUSTED =? 0) |}.

Fixpoint attempts (n : nat) (env : nat -> Ledger) (k : nat) : res LedgerSnapshot :=
  match n with
  | O => Err (WouldBlock "ledger changed throughout bounded snapshot retries")
  | S n =>
      let before := l_epoch (env k) in
      if negb (Z.land before 1 =? 0) then attempts n env (k + 1)%nat
      else
        let flags := l_flags (env (k + 1)%nat) in
        let snapshot := snapshot_of env k in
        if before =? l_epoch (env (k + 10)%nat) then
          fail_if (negb (Z.ldiff flags KNOWN_FLAGS =? 0)
                   || (sn_write_limit snapshot <? sn_write_reserved snapshot)
                   || (sn_write_reserved snapshot <? sn_write_completed snapshot)
                   || (1 <? sn_pending snapshot))
            (InvalidData "invalid ledger counters or flags") ;;?
          Ok snapshot
        else attempts n env (k + 11)%nat
  end.

Definition stable_snapshot (env : nat -> Ledger) : res LedgerSnapshot :=
  attempts SNAPSHOT_ATTEMPTS env 0.

(** ** Files *)

(** What [fstat] reports, and the ledger that the mapping shows. *)
Record LedgerFile := {
  lf_is_file : bool;
  lf_uid : Z;
  lf_mode : Z;
  lf_len : Z;
  lf_ledger : Ledger;
}.

(** [open_validated], after a successful [open]. *)
Definition open_validated (euid : Z) (f : LedgerFile) : res unit :=
  fail_if (negb (lf_is_file f)) (InvalidData "ledger is not a regular file") ;;?
  fail_if (negb (lf_uid f =? euid) || negb (Z.land (lf_mode f) 4095 =? MODE))
    (PermissionDenied "ledger owner or mode mismatch") ;;?
  fail_if (negb (lf_len f =? LEDGER_LENGTH)) (InvalidData "ledger size mismatch").

(** [Reader::create], after the exclusive creation of the file. *)
Definition create (euid write_limit : Z) : res Ledger :=
  fail_if (write_limit =? 0) (InvalidInput "write limit must be nonzero") ;;?
  let l := new_ledger write_limit euid in
  let l := {| l_magic := LEDGER_MAGIC; l_version := l_version l; l_length := l_length l;
              l_owner_uid := l_owner_uid l; l_write_limit := l_write_limit l; l_epoch := l_epoch l;
              l_write_reserved := l_write_reserved l; l_write_completed := l_write_completed l;
              l_read_completed := l_read_completed l; l_read_operations := l_read_operations l;
              l_write_operations := l_write_operations l; l_flush_operations := l_flush_operations l;
              l_pending := l_pending l; l_errors := l_errors l; l_flags := l_flags l |} in
  validate_header euid l ;;?
  Ok l.

(** [Reader::open]; [env] is what its loads see. *)
Definition reader_open (euid : Z) (f : LedgerFile) (env : nat -> Ledger) : res unit :=
  open_validated euid f ;;?
  validate_header euid (lf_ledger f) ;;?
  _ <-? stable_snapshot env ;;
  Ok tt.

(** [Writer::open]; [locked] is the result of [flock]. *)
Definition writer_open (euid : Z) (locked : res unit) (f : LedgerFile) (env : nat -> Ledger) : res unit :=
  open_validated euid f ;;?
  locked ;;?
  validate_header euid (lf_ledger f) ;;?
  snapshot <-? stable_snapshot env ;;
  fail_if (negb (sn_pending snapshot =? 0) || sn_incomplete snapshot)
    (InvalidData "ledger was not closed cleanly").

(** ** Histories of the writer *)

(** The bytes a pending operation may still add to the completed writes. *)
Definition planned (o : Operation) : Z := match o with OpWrite bytes => bytes | _ => 0 end.
Definition typed_operation (o : Operation) : Prop :=
  match o with OpRead bytes | OpWrite bytes => 0 <= bytes | OpFlush => True end.

(** The ledger between two stores of the writer that belong to different operations. *)
Record sound (l : Ledger) (w : option PendingOperation) : Prop := {
  so_epoch : l_epoch l mod 2 = 0;
  so_flags : Z.ldiff (l_flags l) KNOWN_FLAGS = 0;
  so_completed : 0 <= l_write_completed l;
  so_budget : l_write_completed l + match w with Some p => planned (po_operation p) | None => 0 end
              <= l_write_reserved l <= l_write_limit l;
  so_pending : l_pending l = match w with Some _ => 1 | None => 0 end;
  so_owned : forall p, w = Some p ->
    po_finish_epoch p = l_epoch l + 2 /\ po_error_after_failure p = l_errors l + 1 /\
    typed_operation (po_operation p);
}.

(** The stores of a writer that began with the ledger [l0], and its pending operation. *)
Inductive history (l0 : Ledger) : list (Field * Z) -> option PendingOperation -> Prop :=
  | h_open : sound l0 None -> history l0 [] None
  | h_begin ss o p s : history l0 ss None -> typed_operation o ->
      begin o (after ss l0) = (Ok p, s) -> history l0 (ss ++ s) (Some p)
  | h_reject ss o e s : history l0 ss None -> typed_operation o ->
      begin o (after ss l0) = (Err e, s) -> history l0 (ss ++ s) None
  | h_finish ss p b r s : history l0 ss (Some p) ->
      finish b p (after ss l0) = (r, s) -> history l0 (ss ++ s) None
  | h_drop ss p : history l0 ss (Some p) ->
      history l0 (ss ++ record_failure p (after ss l0)) None.

Lemma land_1 z : Z.land z 1 = z mod 2.
Proof. apply (Z.land_ones z 1). lia. Qed.

Lemma after_app a b l : after (a ++ b) l = after b (after a l).
Proof. unfold after. apply foldl_app. Qed.

Lemma flags_or l f : Z.ldiff (l_flags l) KNOWN_FLAGS = 0 -> Z.ldiff f KNOWN_FLAGS = 0 ->
  Z.ldiff (Z.lor (l_flags l) f) KNOWN_FLAGS = 0.
Proof.
  intros H1 H2. apply Z.bits_inj'. intros i Hi.
  apply (f_equal (fun z => Z.testbit z i)) in H1. apply (f_equal (fun z => Z.testbit z i)) in H2.
  rewrite Z.ldiff_spec, Z.bits_0 in H1, H2. rewrite Z.ldiff_spec, Z.lor_spec, Z.bits_0.
  destruct (Z.testbit (l_flags l) i), (Z.testbit f i), (Z.testbit KNOWN_FLAGS i); done.
Qed.

(** The operations, case by case. *)
Lemma begin_cases o l :
  sound l None -> typed_operation o ->
  match begin o l with
  | (Ok p, s) => sound (after s l) (Some p) /\ po_operation p = o
  | (Err _, s) => sound (after s l) None
  | (Panic, _) => False
  end.
Proof.
  intros [He Hf Hc Hb Hp _] Ho. unfold begin, checked_add_field, checked_add. cbn [load].
  assert (Hidle : sound l None) by (constructor; auto; discriminate).
  rewrite land_1, He, Hp. cbn [negb Z.eqb].
  assert (He1 : (l_epoch l + 2) mod 2 = 0) by (rewrite <- He; apply (Z.mod_add _ 1 2); lia).
  destruct o as [bytes|bytes|].
  - destruct bytes as [|b|b]; [done| |done].
    destruct (_ <? _); cbn [ok_or]; [|done]. destruct (bool_decide _); cbn [negb orb]; [|done].
    split; [|done]. constructor; cbn; auto; try lia.
    intros p [= <-]. cbn. split_and!; auto; lia.
  - destruct bytes as [|b|b]; [done| |done].
    destruct (_ <? _) eqn:E1; cbn [ok_or]; [|done]. destruct (bool_decide _); cbn [negb orb]; [|done].
    destruct (l_write_reserved l + Z.pos b <? 2 ^ 64).
    2: { constructor; cbn; auto; try lia; [by apply flags_or|discriminate]. }
    destruct (Z.leb_spec (l_write_reserved l + Z.pos b) (l_write_limit l)).
    2: { constructor; cbn; auto; try lia; [by apply flags_or|discriminate]. }
    split; [|done]. constructor; cbn; auto; try lia.
    intros p [= <-]. cbn. split_and!; auto; lia.
  - destruct (_ <? _); cbn [ok_or]; [|done]. destruct (bool_decide _); cbn [negb orb]; [|done].
    split; [|done]. constructor; cbn; auto; try lia.
    intros p [= <-]. cbn. split_and!; auto; lia.
Qed.

Lemma record_failure_sound p l : sound l (Some p) -> sound (after (record_failure p l) l) None.
Proof.
  intros [He Hf Hc Hb Hp Hown]. destruct (Hown p eq_refl) as (Hfe & _ & Hty).
  constructor; cbn; auto; try discriminate.
  - rewrite Hfe, <- He. apply (Z.mod_add _ 1 2). lia.
  - by apply flags_or.
  - unfold planned, typed_operation in *. destruct (po_operation p); lia.
Qed.

Lemma finish_sound b p l : sound l (Some p) -> sound (after (finish b p l).2 l) None.
Proof.
  intros Hs. pose proof (record_failure_sound p l Hs) as Hfail. unfold finish.
  destruct b; cbn [negb]; [|exact Hfail]. destruct Hs as [He Hf Hc Hb Hp Hown].
  destruct (Hown p eq_refl) as (Hfe & _ & Hty).
  assert (He1 : po_finish_epoch p mod 2 = 0) by (rewrite Hfe, <- He; apply (Z.mod_add _ 1 2); lia).
  cbn beta iota in Hb.
  unfold checked_add_field, checked_add. destruct (po_operation p) as [bytes|bytes|] eqn:Eo; cbn [counters_of load];
    cbn [planned typed_operation] in Hb, Hty;
    (destruct (_ <? _); cbn [ok_or snd]; [|exact Hfail]);
    try (destruct (_ <? _); cbn [ok_or snd]; [|exact Hfail]);
    constructor; cbn; auto; try discriminate; lia.
Qed.

Lemma history_sound l0 ss w : history l0 ss w -> sound (after ss l0) w.
Proof.
  induction 1 as [H0|ss o p s Hh IH Ho Hb|ss o e s Hh IH Ho Hb|ss p b r s Hh IH Hf|ss p Hh IH]; [done|..];
    rewrite after_app.
  - pose proof (begin_cases o _ IH Ho) as Hc. rewrite Hb in Hc. apply Hc.
  - pose proof (begin_cases o _ IH Ho) as Hc. by rewrite Hb in Hc.
  - pose proof (finish_sound b p _ IH) as Hc. by rewrite Hf in Hc.
  - by apply record_failure_sound.
Qed.

(** ** Stores, one at a time *)

(** A counter changes only while the epoch is odd, and the epoch only counts up. *)
Definition store_ok (l : Ledger) (s : Field * Z) : Prop :=
  match s.1 with
  | Epoch => s.2 = l_epoch l + 1
  | WriteReserved => l_epoch l mod 2 = 1 /\ l_write_completed l <= s.2 <= l_write_limit l
  | WriteCompleted => l_epoch l mod 2 = 1 /\ s.2 <= l_write_reserved l
  | _ => l_epoch l mod 2 = 1
  end.

Fixpoint stores_ok (l : Ledger) (ss : list (Field * Z)) : Prop :=
  match ss with [] => True | s :: ss => store_ok l s /\ stores_ok (store s l) ss end.

Lemma stores_ok_app l a b : stores_ok l (a ++ b) <-> stores_ok l a /\ stores_ok (after a l) b.
Proof. revert l. induction a as [|s a IH]; intros l; cbn; [tauto|]. rewrite IH. tauto. Qed.

Lemma odd_epoch e : e mod 2 = 0 -> (e + 1) mod 2 = 1.
Proof. intros H. rewrite Z.add_mod, H by lia. done. Qed.

Lemma begin_stores o l :
  sound l None -> typed_operation o -> stores_ok l (begin o l).2.
Proof.
  intros [He Hf Hc Hb Hp _] Ho. pose proof (odd_epoch _ He) as Hodd.
  unfold begin, checked_add_field, checked_add. cbn [load].
  rewrite land_1, He, Hp. cbn [negb Z.eqb].
  destruct o as [bytes|bytes|]; try destruct bytes as [|b|b]; try done;
    (destruct (_ <? _); cbn [ok_or]; [|done]; destruct (bool_decide _); cbn [negb orb]; [|done]).
  - cbn. unfold store_ok; cbn. split_and!; auto; lia.
  - destruct (l_write_reserved l + Z.pos b <? 2 ^ 64); [destruct (Z.leb_spec (l_write_reserved l + Z.pos b) (l_write_limit l))|];
      cbn; unfold store_ok; cbn; split_and!; auto; lia.
  - cbn. unfold store_ok; cbn. split_and!; auto; lia.
Qed.

Lemma record_failure_stores p l : sound l (Some p) -> stores_ok l (record_failure p l).
Proof.
  intros [He Hf Hc Hb Hp Hown]. destruct (Hown p eq_refl) as (Hfe & _ & Hty).
  pose proof (odd_epoch _ He) as Hodd. cbn. unfold store_ok; cbn. rewrite Hfe.
  replace (l_epoch l + 2 - 1) with (l_epoch l + 1) by lia. split_and!; auto; lia.
Qed.

Lemma finish_stores b p l : sound l (Some p) -> stores_ok l (finish b p l).2.
Proof.
  intros Hs. pose proof (record_failure_stores p l Hs) as Hfail. unfold finish.
  destruct b; cbn [negb]; [|exact Hfail]. destruct Hs as [He Hf Hc Hb Hp Hown].
  destruct (Hown p eq_refl) as (Hfe & _ & Hty). pose proof (odd_epoch _ He) as Hodd. cbn beta iota in Hb.
  unfold checked_add_field, checked_add. destruct (po_operation p) as [bytes|bytes|] eqn:Eo; cbn [counters_of load];
    cbn [planned typed_operation] in Hb, Hty;
    (destruct (_ <? _); cbn [ok_or snd]; [|exact Hfail]);
    try (destruct (_ <? _); cbn [ok_or snd]; [|exact Hfail]);
    cbn; unfold store_ok; cbn; rewrite Hfe;
    replace (l_epoch l + 2 - 1) with (l_epoch l + 1) by lia; split_and!; auto; lia.
Qed.

Lemma history_stores l0 ss w : history l0 ss w -> stores_ok l0 ss.
Proof.
  induction 1 as [H0|ss o p s Hh IH Ho Hb|ss o e s Hh IH Ho Hb|ss p b r s Hh IH Hf|ss p Hh IH]; [done|..];
    apply stores_ok_app; (split; [exact IH|]); pose proof (history_sound _ _ _ Hh) as Hs.
  - pose proof (begin_stores o _ Hs Ho) as Hc. by rewrite Hb in Hc.
  - pose proof (begin_stores o _ Hs Ho) as Hc. by rewrite Hb in Hc.
  - pose proof (finish_stores b p _ Hs) as Hc. by rewrite Hf in Hc.
  - by apply record_failure_stores.
Qed.

Lemma history_start l0 ss w : history l0 ss w -> sound l0 None.
Proof. induction 1; auto. Qed.

(** Every store keeps the budget, also those within an operation. *)
Lemma stores_budget l ss :
  stores_ok l ss -> l_write_completed l <= l_write_reserved l <= l_write_limit l ->
  l_write_completed (after ss l) <= l_write_reserved (after ss l) <= l_write_limit (after ss l) /\
  l_write_limit (after ss l) = l_write_limit l.
Proof.
  revert l. induction ss as [|[f x] ss IH]; intros l Hok Hb; [done|]. destruct Hok as [Hs Hok].
  cbn [after foldl]. change (foldl (fun l s => store s l) (store (f, x) l) ss) with (after ss (store (f, x) l)).
  destruct (IH (store (f, x) l) Hok) as [Hb' Hl]; [|split; [done|rewrite Hl; done]].
  unfold store_ok in Hs; cbn in Hs. destruct f; cbn; lia.
Qed.

(** An epoch that reads the same, and even, at two times was not left in between. *)
Lemma epoch_grows l ss : stores_ok l ss -> l_epoch l <= l_epoch (after ss l).
Proof.
  revert l. induction ss as [|[f x] ss IH]; intros l Hok; [cbn; lia|]. destruct Hok as [Hs Hok].
  specialize (IH _ Hok). cbn [after foldl].
  change (foldl (fun l s => store s l) (store (f, x) l) ss) with (after ss (store (f, x) l)).
  unfold store_ok in Hs; cbn in Hs. destruct f; cbn in *; lia.
Qed.

Lemma epoch_same l ss :
  stores_ok l ss -> l_epoch l mod 2 = 0 -> l_epoch (after ss l) = l_epoch l -> ss = [].
Proof.
  intros Hok He Hsame. destruct ss as [|[f x] ss]; [done|]. destruct Hok as [Hs Hok]. exfalso.
  apply epoch_grows in Hok. cbn [after foldl] in Hsame.
  change (foldl (fun l s => store s l) (store (f, x) l) ss) with (after ss (store (f, x) l)) in Hsame.
  rewrite Hsame in Hok. unfold store_ok in Hs; cbn in Hs. destruct f; cbn in Hok; lia.
Qed.

(** The ledger at time [t] of a history. *)
Definition at_time (l0 : Ledger) (ss : list (Field * Z)) (t : nat) : Ledger := after (take t ss) l0.

Lemma at_time_split l0 ss t u :
  (t <= u)%nat -> at_time l0 ss u = after (drop t (take u ss)) (at_time l0 ss t).
Proof.
  intros Htu. unfold at_time. rewrite <- after_app. f_equal.
  rewrite <- (take_drop t (take u ss)) at 1. rewrite take_take, Nat.min_l by done. done.
Qed.

Lemma stable_between l0 ss t u v :
  stores_ok l0 ss -> (t <= v <= u)%nat -> l_epoch (at_time l0 ss t) mod 2 = 0 ->
  l_epoch (at_time l0 ss u) = l_epoch (at_time l0 ss t) -> at_time l0 ss v = at_time l0 ss t.
Proof.
  intros Hok Htv He Hsame. rewrite (at_time_split l0 ss t u) in Hsame by lia.
  assert (Hok' : stores_ok (at_time l0 ss t) (drop t (take u ss))).
  { rewrite <- (take_drop u ss) in Hok. apply stores_ok_app in Hok as [Hok _].
    rewrite <- (take_drop t (take u ss)) in Hok. apply stores_ok_app in Hok as [_ Hok].
    rewrite take_take, Nat.min_l in Hok by lia. exact Hok. }
  apply epoch_same in Hok'; [|done|done]. rewrite (at_time_split l0 ss t v) by lia.
  assert (drop t (take v ss) = []) as ->; [|done].
  apply drop_ge. rewrite length_take. apply (f_equal length) in Hok'.
  rewrite length_drop, length_take in Hok'. cbn in Hok'. lia.
Qed.

(** The counters of one ledger. *)
Definition snapshot_at (l : Ledger) : LedgerSnapshot := snapshot_of (fun _ => l) 0.

Lemma sound_snapshot_valid l w :
  sound l w ->
  negb (Z.ldiff (l_flags l) KNOWN_FLAGS =? 0) || (l_write_limit l <? l_write_reserved l)
  || (l_write_reserved l <? l_write_completed l) || (1 <? l_pending l) = false.
Proof.
  intros [He Hf Hc Hb Hp Hown]. rewrite Hf. cbn [negb Z.eqb orb].
  rewrite !orb_false_iff, !Z.ltb_ge.
  assert (0 <= match w with Some p => planned (po_operation p) | None => 0 end).
  { destruct w as [p|]; [|lia]. destruct (Hown p eq_refl) as (_ & _ & Hty).
    destruct (po_operation p); cbn in *; lia. }
  destruct w; lia.
Qed.

(** ** Operations are bracketed by two epoch stores *)

Definition bracketed (l : Ledger) (s : list (Field * Z)) : Prop :=
  s = [] \/ exists mid y, s = (Epoch, l_epoch l + 1) :: mid ++ [(Epoch, y)] /\
    Forall (fun st => st.1 <> Epoch) mid.

Lemma no_epoch_store mid l : Forall (fun st => st.1 <> Epoch) mid -> l_epoch (after mid l) = l_epoch l.
Proof.
  intros Hm. revert l. induction Hm as [|[f x] mid Hf Hm IH]; intros l; [done|].
  cbn [after foldl]. change (foldl (fun l s => store s l) (store (f, x) l) mid) with (after mid (store (f, x) l)).
  rewrite IH. cbn in *. by destruct f.
Qed.

Lemma bracketed_inside l s j :
  bracketed l s -> l_epoch l mod 2 = 0 -> (j <= length s)%nat ->
  l_epoch (after (take j s) l) mod 2 = 0 -> j = 0%nat \/ j = length s.
Proof.
  intros [->|(mid & y & -> & Hm)] He Hj Hodd; [cbn in Hj; lia|].
  destruct j as [|j]; [by left|]. right. cbn [length] in *. rewrite length_app in *. cbn [length] in *.
  destruct (decide (j = length mid + 1)%nat) as [->|Hne]; [lia|]. exfalso.
  cbn [take] in Hodd. rewrite take_app_le in Hodd by lia. cbn [after foldl] in Hodd.
  change (foldl (fun l s => store s l) (store (Epoch, l_epoch l + 1) l) (take j mid))
    with (after (take j mid) (store (Epoch, l_epoch l + 1) l)) in Hodd.
  rewrite no_epoch_store in Hodd by (by apply Forall_take). cbn in Hodd.
  rewrite odd_epoch in Hodd by done. done.
Qed.

Lemma begin_bracketed o l : bracketed l (begin o l).2.
Proof.
  unfold begin, checked_add_field. cbv zeta.
  assert (Hnil : forall r : res PendingOperation, bracketed l (r, @nil (Field * Z)).2) by (by left).
  assert (Hok : forall (r : res PendingOperation) mid y, Forall (fun st => st.1 <> Epoch) mid ->
            bracketed l (r, [(Epoch, l_epoch l + 1)] ++ mid ++ [(Epoch, y)]).2).
  { intros r mid y Hm. right. by exists mid, y. }
  destruct o as [[|b|b]|[|b|b]|]; try apply Hnil;
    (destruct (negb (l_pending l =? 0)); [apply Hnil|]);
    (destruct (ok_or _ _); [|apply Hnil..]);
    (destruct (_ || _); [apply Hnil|]).
  all: try (destruct (checked_add 64 (l_write_reserved l) _) as [next|];
            [destruct (next <=? l_write_limit l)|]).
  all: match goal with
       | |- bracketed _ (_, [(Epoch, _)] ++ [?a] ++ [?b; (Epoch, ?y)]).2 => apply (Hok _ [a; b] y)
       | |- bracketed _ (_, [(Epoch, _)] ++ [] ++ [?b; (Epoch, ?y)]).2 => apply (Hok _ [b] y)
       | |- bracketed _ (_, [(Epoch, _); ?b; (Epoch, ?y)]).2 => apply (Hok _ [b] y)
       end; repeat constructor; done.
Qed.

Lemma record_failure_bracketed p l :
  po_finish_epoch p = l_epoch l + 2 -> bracketed l (record_failure p l).
Proof.
  intros Hf. right. unfold record_failure.
  exists [(Pending, 0); (Errors, po_error_after_failure p); (Flags, Z.lor (l_flags l) FLAG_INCOMPLETE)],
    (po_finish_epoch p). rewrite Hf. split; [cbn; repeat f_equal; lia|]. repeat constructor; done.
Qed.

Lemma finish_bracketed b p l :
  po_finish_epoch p = l_epoch l + 2 -> bracketed l (finish b p l).2.
Proof.
  intros Hf. pose proof (record_failure_bracketed p l Hf) as Hfail. unfold finish.
  destruct b; cbn [negb]; [|exact Hfail].
  assert (Hok : forall mid, Forall (fun st => st.1 <> Epoch) mid ->
     bracketed l ((Epoch, po_finish_epoch p - 1) :: mid ++ [(Epoch, po_finish_epoch p)])).
  { intros mid Hm. right. exists mid, (po_finish_epoch p). split; [|done]. rewrite Hf. repeat f_equal. lia. }
  unfold checked_add_field. destruct (po_operation p) as [bytes|bytes|]; cbn [counters_of];
    (destruct (ok_or _ _); [|exact Hfail..]); try (destruct (ok_or _ _); [|exact Hfail..]); cbn [snd].
  - apply (Hok [_; _; _]). repeat constructor; done.
  - apply (Hok [_; _; _]). repeat constructor; done.
  - apply (Hok [_; _]). repeat constructor; done.
Qed.

(** A ledger with an even epoch lies between two operations. *)
Lemma even_is_sound l0 ss w t :
  history l0 ss w -> (t <= length ss)%nat -> l_epoch (at_time l0 ss t) mod 2 = 0 ->
  exists w', sound (at_time l0 ss t) w'.
Proof.
  intros Hh. revert t.
  assert (Hseg : forall ss w s w', history l0 ss w -> history l0 (ss ++ s) w' ->
    bracketed (after ss l0) s ->
    (forall t, (t <= length ss)%nat -> l_epoch (at_time l0 ss t) mod 2 = 0 ->
       exists w', sound (at_time l0 ss t) w') ->
    forall t, (t <= length (ss ++ s))%nat -> l_epoch (at_time l0 (ss ++ s) t) mod 2 = 0 ->
       exists w', sound (at_time l0 (ss ++ s) t) w').
  { clear. intros ss w s w' Hh Hh' Hbr IH t Ht He. rewrite length_app in Ht.
    destruct (decide (t <= length ss)%nat) as [Hle|Hgt].
    - unfold at_time in *. rewrite take_app_le in * by done. by apply IH.
    - unfold at_time in *. rewrite take_app_ge in * by lia. rewrite after_app in *.
      destruct (bracketed_inside _ s (t - length ss) Hbr) as [E|E]; [|lia|exact He|lia|].
      { apply (so_epoch _ _ (history_sound _ _ _ Hh)). }
      rewrite E, firstn_all. exists w'. rewrite <- after_app. by apply history_sound. }
  induction Hh as [H0|ss o p s Hh IH Ho Hb|ss o e s Hh IH Ho Hb|ss p b r s Hh IH Hf|ss p Hh IH].
  - intros t Ht _. cbn in Ht. assert (t = 0%nat) as -> by lia. by exists None.
  - eapply Hseg; [exact Hh | by eapply h_begin | | exact IH].
    pose proof (begin_bracketed o (after ss l0)) as H. by rewrite Hb in H.
  - eapply Hseg; [exact Hh | by eapply h_reject | | exact IH].
    pose proof (begin_bracketed o (after ss l0)) as H. by rewrite Hb in H.
  - eapply Hseg; [exact Hh | by eapply h_finish | | exact IH].
    pose proof (history_sound _ _ _ Hh) as Hs. destruct (so_owned _ _ Hs p eq_refl) as (Hfe & _).
    pose proof (finish_bracketed b p (after ss l0) Hfe) as H. by rewrite Hf in H.
  - eapply Hseg; [exact Hh | by apply h_drop | | exact IH].
    pose proof (history_sound _ _ _ Hh) as Hs. destruct (so_owned _ _ Hs p eq_refl) as (Hfe & _).
    by apply record_failure_bracketed.
Qed.

(** ** Coherent snapshots *)

(** The loads of a reader fall on nondecreasing times of the history. *)
Definition sampled (l0 : Ledger) (ss : list (Field * Z)) (env : nat -> Ledger) : Prop :=
  exists times : nat -> nat, (forall k, times k <= length ss)%nat /\
    (forall j k, (j <= k)%nat -> (times j <= times k)%nat) /\
    forall k, env k = at_time l0 ss (times k).

Lemma snapshot_of_stable env k l :
  (forall j, (k <= j <= k + 10)%nat -> env j = l) -> snapshot_of env k = snapshot_at l.
Proof.
  intros Hl. unfold snapshot_at, snapshot_of.
  rewrite !Hl by lia. reflexivity.
Qed.

Lemma attempts_coherent l0 ss w env n k :
  history l0 ss w -> sampled l0 ss env ->
  attempts n env k = Err (WouldBlock "ledger changed throughout bounded snapshot retries") \/
  exists t w', (t <= length ss)%nat /\ sound (at_time l0 ss t) w' /\
    attempts n env k = Ok (snapshot_at (at_time l0 ss t)).
Proof.
  intros Hh (times & Hlen & Hmono & Henv). revert k. induction n as [|n IH]; intros k; cbn [attempts]; [by left|].
  rewrite land_1. destruct (Z.eqb_spec (l_epoch (env k) mod 2) 0) as [He|]; cbn [negb]; [|apply IH].
  destruct (Z.eqb_spec (l_epoch (env k)) (l_epoch (env (k + 10)%nat))) as [Hsame|]; [|apply IH].
  right. rewrite Henv in He. destruct (even_is_sound l0 ss w (times k) Hh (Hlen k) He) as [w' Hs].
  assert (Hall : forall j, (k <= j <= k + 10)%nat -> env j = at_time l0 ss (times k)).
  { intros j Hj. rewrite Henv. apply (stable_between l0 ss (times k) (times (k + 10)%nat)).
    - by eapply history_stores.
    - split; apply Hmono; lia.
    - exact He.
    - rewrite <- !Henv. by symmetry. }
  exists (times k), w'. split; [apply Hlen|]. split; [exact Hs|].
  rewrite (snapshot_of_stable env k _ Hall), Hall by lia. cbv zeta.
  pose proof (sound_snapshot_valid _ _ Hs) as Hv. cbn. rewrite Hv. reflexivity.
Qed.

(** Without a concurrent writer the first attempt succeeds. *)
Lemma quiet_attempt l w n k : sound l w -> attempts (S n) (fun _ => l) k = Ok (snapshot_at l).
Proof.
  intros Hs. cbn [attempts]. rewrite land_1, (so_epoch _ _ Hs). cbn [negb Z.eqb]. rewrite Z.eqb_refl.
  rewrite (snapshot_of_stable (fun _ => l) k l) by done. cbv zeta.
  pose proof (sound_snapshot_valid _ _ Hs) as Hv. cbn. by rewrite Hv.
Qed.

Lemma quiet_snapshot l w : sound l w -> stable_snapshot (fun _ => l) = Ok (snapshot_at l).
Proof. apply (quiet_attempt l w 99 0). Qed.

(** C16. Whatever the interleaving of the writer's stores with the reader's
    loads, a snapshot is the ledger of a single moment between two operations:
    never a mix of two of them, never one that validation rejects.  The only
    other outcome is to give up after the bounded number of attempts. *)
Theorem snapshot_coherent l0 ss w env :
  history l0 ss w -> sampled l0 ss env ->
  stable_snapshot env = Err (WouldBlock "ledger changed throughout bounded snapshot retries") \/
  exists t w', (t <= length ss)%nat /\ sound (at_time l0 ss t) w' /\
    stable_snapshot env = Ok (snapshot_at (at_time l0 ss t)).
Proof. apply attempts_coherent. Qed.

(** C17. At every moment, also between two stores of one operation and after
    a crash of the writer, the completed writes are covered by the reserved
    ones and these by the limit; an admitted write is within the limit and any
    other one is refused with [ENOSPC]. *)
Theorem write_budget l0 ss w t :
  history l0 ss w ->
  let l := at_time l0 ss t in
  l_write_completed l <= l_write_reserved l <= l_write_limit l0 /\
  forall bytes, 0 < bytes -> w = None ->
    match begin (OpWrite bytes) (after ss l0) with
    | (Ok _, _) => l_write_reserved (after ss l0) + bytes <= l_write_limit l0
    | (Err (RawOs e), _) => e = ENOSPC /\
        (2 ^ 64 <= l_write_reserved (after ss l0) + bytes \/
         l_write_limit l0 < l_write_reserved (after ss l0) + bytes)
    | _ => True
    end.
Proof.
  intros Hh l. pose proof (history_start _ _ _ Hh) as H0. pose proof (history_stores _ _ _ Hh) as Hok.
  assert (Hok' : stores_ok l0 (take t ss)).
  { rewrite <- (take_drop t ss) in Hok. by apply stores_ok_app in Hok as [Hok _]. }
  assert (Hb : l_write_completed l0 <= l_write_reserved l0 <= l_write_limit l0) by (destruct H0; lia).
  split.
  { destruct (stores_budget l0 (take t ss) Hok' Hb) as [H1 H2]. subst l. unfold at_time. lia. }
  destruct (stores_budget l0 ss Hok Hb) as [_ Hlim]. intros bytes Hby ->.
  unfold begin, checked_add_field. destruct bytes as [|b|b]; [lia| |lia].
  destruct (negb _); [done|]. destruct (ok_or _ _) as [x|[]|] eqn:E; try done.
  2: { unfold ok_or in E. by destruct (checked_add _ _ _). }
  cbv zeta. destruct (_ || _); [done|]. unfold checked_add.
  destruct (Z.ltb_spec (l_write_reserved (after ss l0) + Z.pos b) (2 ^ 64)); [|by auto].
  destruct (Z.leb_spec (l_write_reserved (after ss l0) + Z.pos b) (l_write_limit (after ss l0))); [lia|].
  split; [done|]. right. lia.
Qed.

End Ledger.

(** A writer that completes one write of 100 bytes out of a limit of 150. *)
Definition example_ledger : Ledger := the_ok (Ledger.new_ledger 0 0) (Ledger.create 1000 150).
Definition example_pending : PendingOperation :=
  {| po_operation := OpWrite 100; po_finish_epoch := 4; po_error_after_failure := 1 |}.
Definition example_stores : list (Field * Z) :=
  ([] ++ (Ledger.begin (OpWrite 100) example_ledger).2)
  ++ (Ledger.finish true example_pending
        (Ledger.after ([] ++ (Ledger.begin (OpWrite 100) example_ledger).2) example_ledger)).2.

Lemma example_history : Ledger.history example_ledger example_stores None.
Proof.
  assert (H0 : Ledger.history example_ledger [] None).
  { constructor. constructor; try done; vm_compute; repeat split; congruence. }
  assert (H1 : Ledger.history example_ledger ([] ++ (Ledger.begin (OpWrite 100) example_ledger).2)
                 (Some example_pending)).
  { apply (Ledger.h_begin _ [] (OpWrite 100)); [exact H0 | vm_compute; congruence | reflexivity]. }
  unfold example_stores. eapply Ledger.h_finish; [exact H1 | apply surjective_pairing].
Qed.

Lemma snapshot_coherent_witness :
  let env := fun k => Ledger.at_time example_ledger example_stores (Nat.min k (length example_stores)) in
  Ledger.stable_snapshot env = Err (WouldBlock "ledger changed throughout bounded snapshot retries") \/
  exists t w', (t <= length example_stores)%nat /\ Ledger.sound (Ledger.at_time example_ledger example_stores t) w' /\
    Ledger.stable_snapshot env
    = Ok (Ledger.snapshot_at (Ledger.at_time example_ledger example_stores t)).
Proof.
  intros env. refine (Ledger.snapshot_coherent example_ledger example_stores None env example_history _).
  exists (fun k => Nat.min k (length example_stores)). split; [lia|]. split; [lia|]. reflexivity.
Defined.

Lemma write_budget_witness :
  (l_write_reserved (Ledger.after example_stores example_ledger) + 50 <= 150) /\
  let l := Ledger.at_time example_ledger example_stores 3 in
  l_write_completed l <= l_write_reserved l <= 150.
Proof.
  destruct (Ledger.write_budget example_ledger example_stores None 3 example_history) as [Hb Ha].
  split; [exact (Ha 50 ltac:(reflexivity) eq_refl) | exact Hb].
Defined.
