(* ===== verification/Uring.v ===== *)
(** Submission and completion on the ring: [submit_exact_raw] and [wait_exact]
    of [src/rust/src/lib.rs].

    The [io_uring] crate and the kernel behind it are a parameter: pushing an
    entry, submitting, and taking the next completion. *)

From S2P Require Import Prelude Bytes.

(** A submission entry, with the memory it refers to. *)
Inductive Sqe :=
  | SqeRead (offset len : Z)
  | SqeWrite (offset : Z) (bytes : list Z)
  | SqeWritev (offset : Z) (buffers : list (list Z))
  | SqeFsync
  | SqeOther (opcode : Z).

Record Cqe := { cqe_user_data : Z; cqe_flags : Z; cqe_result : Z }.

Class IoUring (U : Type) := {
  (** [None]: the submission queue is full. *)
  push : Sqe -> Z -> U -> option U;
  submit_and_wait : U -> res Z * U;
  next_completion : U -> option Cqe * U;
}.

(** [Option<IoUring>]; the file remains when the ring is dropped. *)
Record Ring (U : Type) := { ring_open : bool; ring : U }.
Arguments ring_open {U}.
Arguments ring {U}.

Module Uring.
Section uring.
Context {U : Type} `{!IoUring U}.

Definition unavailable : io_error := OtherError "io_uring unavailable".

Definition opened (u : U) : Ring U := {| ring_open := true; ring := u |}.
(** [drop(ring.take())]. *)
Definition dropped (u : U) : Ring U := {| ring_open := false; ring := u |}.

(** [wait_exact_with]: the loop, which waits as long as the kernel is silent.
    [None] says that it is still waiting after [fuel] rounds. *)
Fixpoint wait_exact_with (fuel : nat) (user_data expected_result : Z) (submitted : Z)
    (unexpected : bool) (r : Ring U) : option (res unit) * Ring U :=
  match fuel with
  | O => (None, r)
  | S fuel =>
      if negb (ring_open r) then (Some (Err unavailable), r)
      else
        let '(count, u) := submit_and_wait (ring r) in
        let poll (submitted : Z) :=
          let '(completion, u) := next_completion u in
          match completion with
          | None => wait_exact_with fuel user_data expected_result submitted unexpected (opened u)
          | Some cqe =>
              if negb (cqe_user_data cqe =? user_data) then
                wait_exact_with fuel user_data expected_result submitted true (opened u)
              else if unexpected || negb (cqe_flags cqe =? 0) then
                (Some (Err (OtherError "unexpected io_uring completion")), opened u)
              else if cqe_result cqe <? 0 then
                (Some (Err (RawOs (- cqe_result cqe))), opened u)
              else if negb (cqe_result cqe =? expected_result) then
                (Some (Err (OtherError "short io_uring operation")), opened u)
              else
                let '(extra, u) := next_completion u in
                match extra with
                | Some _ => (Some (Err (OtherError "unexpected extra io_uring completion")), opened u)
                | None => (Some (Ok tt), opened u)
                end
          end in
        match count with
        | Ok n =>
            if n <=? 1 - submitted then poll (submitted + n)
            else (Some (Err (OtherError "unexpected io_uring submission count")), dropped u)
        | Err e => if is_interrupted e then poll submitted else (Some (Err e), dropped u)
        | Panic => (Some Panic, dropped u)
        end
  end.

Definition wait_exact (fuel : nat) (user_data expected_result : Z) (r : Ring U) :
    option (res unit) * Ring U :=
  wait_exact_with fuel user_data expected_result 0 false r.

Definition submit_exact_raw (fuel : nat) (entry : Sqe) (user_data expected_result : Z) (r : Ring U) :
    option (res unit) * Ring U :=
  if negb (ring_open r) then (Some (Err unavailable), r)
  else
    match push entry user_data (ring r) with
    | None => (Some (Err (OtherError "io_uring submission queue is full")), dropped (ring r))
    | Some u => wait_exact fuel user_data expected_result (opened u)
    end.

(** ** What success means *)

(** A round that submits at most what is left to submit and sees no completion. *)
Inductive quiet : U -> U -> Prop :=
  | quiet_round u r u1 u2 : submit_and_wait u = (r, u1) -> next_completion u1 = (None, u2) -> quiet u u2.

(** The completion that [wait_exact] accepts, and nothing behind it. *)
Definition completed (user_data expected_result : Z) (u u' : U) : Prop :=
  exists r u1 cqe u2, submit_and_wait u = (r, u1) /\ next_completion u1 = (Some cqe, u2) /\
    cqe_user_data cqe = user_data /\ cqe_flags cqe = 0 /\ cqe_result cqe = expected_result /\
    next_completion u2 = (None, u').

Lemma wait_unexpected_never_Ok fuel ud ex sub r r' :
  wait_exact_with fuel ud ex sub true r <> (Some (Ok tt), r').
Proof.
  revert sub r. induction fuel as [|fuel IH]; intros sub r; cbn [wait_exact_with]; [done|].
  destruct (negb _); [done|]. destruct (submit_and_wait (ring r)) as [count u].
  destruct count as [n|e|]; [destruct (_ <=? _)|destruct (is_interrupted e)|]; try done;
    destruct (next_completion u) as [[cqe|] u']; try apply IH;
    (destruct (negb _); [apply IH | done]).
Qed.

Lemma wait_Ok fuel ud ex sub r r' :
  wait_exact_with fuel ud ex sub false r = (Some (Ok tt), r') ->
  ring_open r = true /\ ring_open r' = true /\
  exists u, rtc quiet (ring r) u /\ completed ud ex u (ring r').
Proof.
  revert sub r. induction fuel as [|fuel IH]; intros sub r; cbn [wait_exact_with]; [done|].
  destruct (ring_open r) eqn:Ho; cbn [negb]; [|done].
  destruct (submit_and_wait (ring r)) as [count u] eqn:Hs.
  assert (Hpoll : forall sub', (let '(completion, u) := next_completion u in
          match completion with
          | None => wait_exact_with fuel ud ex sub' false (opened u)
          | Some cqe =>
              if negb (cqe_user_data cqe =? ud) then wait_exact_with fuel ud ex sub' true (opened u)
              else if false || negb (cqe_flags cqe =? 0) then
                (Some (Err (OtherError "unexpected io_uring completion")), opened u)
              else if cqe_result cqe <? 0 then (Some (Err (RawOs (- cqe_result cqe))), opened u)
              else if negb (cqe_result cqe =? ex) then
                (Some (Err (OtherError "short io_uring operation")), opened u)
              else
                let '(extra, u) := next_completion u in
                match extra with
                | Some _ => (Some (Err (OtherError "unexpected extra io_uring completion")), opened u)
                | None => (Some (Ok tt), opened u)
                end
          end) = (Some (Ok tt), r') ->
     ring_open r' = true /\ exists u0, rtc quiet (ring r) u0 /\ completed ud ex u0 (ring r')).
  { intros sub' Hp. destruct (next_completion u) as [[cqe|] u1] eqn:Hn.
    - destruct (Z.eqb_spec (cqe_user_data cqe) ud) as [Hud|]; cbn [negb] in Hp;
        [|by apply wait_unexpected_never_Ok in Hp].
      destruct (Z.eqb_spec (cqe_flags cqe) 0) as [Hfl|]; cbn [negb orb] in Hp; [|done].
      destruct (cqe_result cqe <? 0); [done|].
      destruct (Z.eqb_spec (cqe_result cqe) ex) as [Hre|]; cbn [negb] in Hp; [|done].
      destruct (next_completion u1) as [[extra|] u2] eqn:Hn2; [done|]. injection Hp as <-.
      split; [done|]. exists (ring r). split; [apply rtc_refl|]. cbn.
      exists count, u, cqe, u1. by split_and!.
    - apply IH in Hp as (_ & Hopen & u0 & Hq & Hc). split; [done|]. exists u0. split; [|done].
      eapply rtc_l; [|exact Hq]. by eapply quiet_round. }
  intros Hw. split; [done|]. destruct count as [n|e|]; [destruct (_ <=? _)|destruct (is_interrupted e)|]; try done;
    by eapply Hpoll.
Qed.

(** C30. [submit_exact_raw] reports success only if the ring was open, took the
    entry, and then delivered exactly one completion, for this entry and with
    exactly the expected result; the ring is still open afterwards. *)
Theorem submit_exact_success fuel entry ud ex r r' :
  submit_exact_raw fuel entry ud ex r = (Some (Ok tt), r') ->
  ring_open r = true /\ ring_open r' = true /\
  exists u0 u, push entry ud (ring r) = Some u0 /\ rtc quiet u0 u /\ completed ud ex u (ring r').
Proof.
  unfold submit_exact_raw, wait_exact. destruct (ring_open r); cbn [negb]; [|done].
  destruct (push entry ud (ring r)) as [u0|]; [|done]. intros Hw.
  apply wait_Ok in Hw as (_ & Ho & u & Hq & Hc). split; [done|]. split; [done|]. by exists u0, u.
Qed.

(** The kernel delivers a completion for [user_data], or fails, within [n] more rounds. *)
Inductive delivers (user_data : Z) : nat -> U -> Prop :=
  | del_error u r u1 n : submit_and_wait u = (r, u1) ->
      (forall k, r = Ok k -> 1 < k) -> (forall e, r = Err e -> is_interrupted e = false) ->
      delivers user_data (S n) u
  | del_cqe u r u1 cqe u2 n : submit_and_wait u = (r, u1) -> next_completion u1 = (Some cqe, u2) ->
      cqe_user_data cqe = user_data -> delivers user_data (S n) u
  | del_later u r u1 c u2 n : submit_and_wait u = (r, u1) -> next_completion u1 = (c, u2) ->
      delivers user_data n u2 -> delivers user_data (S n) u.

Lemma wait_terminates fuel ud ex sub unexpected r :
  0 <= sub -> (forall u, 0 <= the_ok 0 (submit_and_wait u).1) ->
  ring_open r = true -> delivers ud fuel (ring r) ->
  exists x, (wait_exact_with fuel ud ex sub unexpected r).1 = Some x.
Proof.
  intros Hsub Hnn. revert sub unexpected r Hsub.
  induction fuel as [|fuel IH]; intros sub unexpected r Hsub Ho Hd; [inversion Hd|].
  cbn [wait_exact_with]. rewrite Ho. cbn [negb]. pose proof (Hnn (ring r)) as Hn0.
  destruct (submit_and_wait (ring r)) as [count u] eqn:Hs.
  assert (Hrest : forall sub', 0 <= sub' ->
    (forall cqe u2, next_completion u = (Some cqe, u2) -> cqe_user_data cqe = ud \/ delivers ud fuel u2) ->
    (forall u2, next_completion u = (None, u2) -> delivers ud fuel u2) ->
    exists x, (let '(completion, u) := next_completion u in
          match completion with
          | None => wait_exact_with fuel ud ex sub' unexpected (opened u)
          | Some cqe =>
              if negb (cqe_user_data cqe =? ud) then wait_exact_with fuel ud ex sub' true (opened u)
              else if unexpected || negb (cqe_flags cqe =? 0) then
                (Some (Err (OtherError "unexpected io_uring completion")), opened u)
              else if cqe_result cqe <? 0 then (Some (Err (RawOs (- cqe_result cqe))), opened u)
              else if negb (cqe_result cqe =? ex) then
                (Some (Err (OtherError "short io_uring operation")), opened u)
              else
                let '(extra, u) := next_completion u in
                match extra with
                | Some _ => (Some (Err (OtherError "unexpected extra io_uring completion")), opened u)
                | None => (Some (Ok tt), opened u)
                end
          end).1 = Some x).
  { intros sub' Hsub' Hcqe Hnone. destruct (next_completion u) as [[cqe|] u1].
    - destruct (Z.eqb_spec (cqe_user_data cqe) ud) as [|Hne]; cbn [negb].
      + destruct (_ || _); [by eexists|]. destruct (_ <? _); [by eexists|].
        destruct (negb _); [by eexists|]. destruct (next_completion u1) as [[]]; by eexists.
      + destruct (Hcqe cqe u1 eq_refl) as [|Hd']; [done|]. by apply IH.
    - apply IH; auto. }
  inversion Hd as [u' r' u1 n Hs' Hk He|u' r' u1 cqe u2 n Hs' Hc Hud|u' r' u1 c u2 n Hs' Hc Hdl]; subst;
    rewrite Hs in Hs'; injection Hs' as <- <-.
  - destruct count as [k|e|]; [|rewrite (He e eq_refl)|]; try by eexists.
    specialize (Hk k eq_refl). destruct (Z.leb_spec k (1 - sub)); [lia|by eexists].
  - assert (H1 : forall cqe' u2', next_completion u = (Some cqe', u2') ->
              cqe_user_data cqe' = cqe_user_data cqe \/ delivers (cqe_user_data cqe) fuel u2').
    { intros cqe' u2' E. rewrite Hc in E. injection E as <- <-. by left. }
    assert (H2 : forall u2', next_completion u = (None, u2') -> delivers (cqe_user_data cqe) fuel u2').
    { intros u2' E. by rewrite Hc in E. }
    destruct count as [k|e|]; [destruct (_ <=? _)|destruct (is_interrupted e)|]; try by eexists.
    + apply Hrest; [cbn in Hn0; lia | exact H1 | exact H2].
    + apply Hrest; [lia | exact H1 | exact H2].
  - assert (H1 : forall cqe u2', next_completion u = (Some cqe, u2') ->
              cqe_user_data cqe = ud \/ delivers ud fuel u2').
    { intros cqe u2' E. rewrite Hc in E. injection E as -> <-. by right. }
    assert (H2 : forall u2', next_completion u = (None, u2') -> delivers ud fuel u2').
    { intros u2' E. rewrite Hc in E. by injection E as -> <-. }
    destruct count as [k|e|]; [destruct (_ <=? _)|destruct (is_interrupted e)|]; try by eexists.
    + apply Hrest; [cbn in Hn0; lia | exact H1 | exact H2].
    + apply Hrest; [lia | exact H1 | exact H2].
Qed.

(** C31. Waiting ends: with a kernel that completes the entry, or fails, within
    [fuel] rounds, [submit_exact_raw] returns.  Interrupted, empty and foreign
    rounds only cost one round each. *)
Theorem submit_exact_returns fuel entry ud ex r u :
  (forall u, 0 <= the_ok 0 (submit_and_wait u).1) ->
  push entry ud (ring r) = Some u -> delivers ud fuel u ->
  exists x, (submit_exact_raw fuel entry ud ex r).1 = Some x.
Proof.
  intros Hnn Hp Hd. unfold submit_exact_raw, wait_exact. destruct (ring_open r); cbn [negb]; [|by eexists].
  rewrite Hp. by apply wait_terminates.
Qed.

(** A dropped ring refuses everything and touches nothing. *)
Lemma dropped_refuses fuel entry ud ex u :
  submit_exact_raw fuel entry ud ex (dropped u) = (Some (Err unavailable), dropped u).
Proof. done. Qed.

End uring.
End Uring.

(** A ring that is silent for one round, then completes with 4096. *)
Definition example_uring : IoUring nat := {|
  push := fun _ _ u => Some u;
  submit_and_wait := fun u => (Ok (if decide (u = 0%nat) then 1 else 0), u);
  next_completion := fun u =>
    (if decide (u = 1%nat) then Some {| cqe_user_data := 5; cqe_flags := 0; cqe_result := 4096 |} else None,
     S u)
|}.

Lemma submit_exact_success_witness :
  let H := example_uring in
  exists u0 u, push SqeFsync 5 0%nat = Some u0 /\ rtc Uring.quiet u0 u /\ Uring.completed 5 4096 u 3%nat.
Proof.
  intros H.
  exact (proj2 (proj2 (Uring.submit_exact_success 10 SqeFsync 5 4096 (Uring.opened 0%nat)
                         (Uring.opened 3%nat) eq_refl))).
Defined.

Lemma submit_exact_returns_witness :
  let H := example_uring in
  exists x, (Uring.submit_exact_raw 2 SqeFsync 5 4096 (Uring.opened 0%nat)).1 = Some x.
Proof.
  intros H. refine (Uring.submit_exact_returns 2 SqeFsync 5 4096 (Uring.opened 0%nat) 0%nat _ eq_refl _).
  - intros u. cbn. destruct (decide (u = 0%nat)); discriminate.
  - eapply Uring.del_later; [reflexivity | reflexivity |].
    eapply Uring.del_cqe; reflexivity.
Defined.
