(* ===== verification/Device.v ===== *)
(** The backing device as the engine uses it: what [submit_exact_raw] promises
    for a file behind a working ring.

    [content] is what a read of a block returns, and [may_hold] says what the
    file may hold after a crash: everything written since the last completed
    [fsync] may be there, missing, or torn, block by block. *)

From S2P Require Import Prelude Bytes Uring.

Class Device (D : Type) := {
  (** [submit_exact_raw]: entry, user data, expected result; the bytes that a read stored. *)
  submit : Sqe -> Z -> Z -> M D (list Z);
  content : D -> Z -> list Z;
  may_hold : D -> (Z -> list Z) -> Prop;
  (** The errors that a submission may report. *)
  fault : io_error -> Prop;
}.

(** [n] blocks from block [b] on. *)
Definition blocks_of (file : Z -> list Z) (b n : Z) : list Z := concat (file <$> seqZ b n).

(** [file] with [blocks] stored from block [b] on. *)
Definition overwrite (file : Z -> list Z) (b : Z) (blocks : list (list Z)) : Z -> list Z :=
  fun x => match (if b <=? x then blocks !! Z.to_nat (x - b) else None) with
           | Some block => block
           | None => file x
           end.

Definition outside (b n x : Z) : Prop := x < b \/ b + n <= x.

(** The entries that write, with the block they start at and the blocks they store. *)
Definition writes (e : Sqe) (b : Z) (blocks : list (list Z)) : Prop :=
  (e = SqeWrite (b * BLOCK_SIZE) (concat blocks) \/ e = SqeWritev (b * BLOCK_SIZE) blocks) /\
  0 <= b /\ Forall block_ok blocks.

(** A crash after a partial change of the blocks of a range. *)
Definition torn {D} `{Device D} (d d' : D) (b n : Z) : Prop :=
  forall c, may_hold d' c -> exists c0, may_hold d c0 /\ forall x, outside b n x -> c x = c0 x.

Class DeviceLaws (D : Type) `{!Device D} := {
  submit_no_panic e u x d : (submit e u x d).1 <> Panic;
  submit_error e u x d error : (submit e u x d).1 = Err error -> fault error;
  (** The errors of the ring are errnos and [ErrorKind::Other]. *)
  fault_not_data error : fault error -> is_invalid_data error = false;
  content_ok d b : block_ok (content d b);
  content_may_hold d : may_hold d (content d);
  read_law b n u d r d' :
    0 <= b -> 0 < n ->
    submit (SqeRead (b * BLOCK_SIZE) (n * BLOCK_SIZE)) u (n * BLOCK_SIZE) d = (r, d') ->
    (forall x, content d' x = content d x) /\ (forall c, may_hold d' c -> may_hold d c) /\
    forall bytes, r = Ok bytes -> bytes = blocks_of (content d) b n;
  write_law e b blocks u d r d' :
    writes e b blocks ->
    submit e u (lenZ blocks * BLOCK_SIZE) d = (r, d') ->
    (forall x, outside b (lenZ blocks) x -> content d' x = content d x) /\
    torn d d' b (lenZ blocks) /\
    forall bytes, r = Ok bytes -> forall x, content d' x = overwrite (content d) b blocks x;
  fsync_law u d r d' :
    submit SqeFsync u 0 d = (r, d') ->
    (forall x, content d' x = content d x) /\ (forall c, may_hold d' c -> may_hold d c) /\
    forall bytes, r = Ok bytes -> forall c, may_hold d' c -> forall x, c x = content d' x;
}.

Lemma overwrite_outside file b blocks x :
  outside b (lenZ blocks) x -> overwrite file b blocks x = file x.
Proof.
  intros Ho. unfold overwrite. destruct (Z.leb_spec b x); [|done].
  destruct Ho; [lia|]. rewrite lookup_ge_None_2 by lia. done.
Qed.

Lemma overwrite_inside file b blocks i block :
  0 <= i -> blocks !! Z.to_nat i = Some block -> overwrite file b blocks (b + i) = block.
Proof.
  intros Hi Hb. unfold overwrite. destruct (Z.leb_spec b (b + i)); [|lia].
  replace (b + i - b) with i by lia. by rewrite Hb.
Qed.

Lemma blocks_of_1 file b : blocks_of file b 1 = file b.
Proof. unfold blocks_of. rewrite seqZ_cons by lia. cbn. apply app_nil_r. Qed.

Lemma length_blocks_of file b n :
  (forall x, block_ok (file x)) -> 0 <= n -> lenZ (blocks_of file b n) = n * 4096.
Proof.
  intros Hf Hn. unfold blocks_of. remember (Z.to_nat n) as m eqn:Em. revert b n Hn Em.
  induction m as [|m IH]; intros b n Hn Em; [rewrite seqZ_nil by lia; cbn; lia|].
  rewrite seqZ_cons by lia. cbn [fmap list_fmap concat]. rewrite length_app.
  destruct (Hf b) as [Hl _]. change BLOCK_SIZE with 4096 in Hl. specialize (IH (Z.succ b) (Z.pred n)). lia.
Qed.

(** The blocks of a buffer that was read. *)
Lemma blocks_of_slice file b n i :
  (forall x, block_ok (file x)) -> 0 <= i < n ->
  slice (i * BLOCK_SIZE) BLOCK_SIZE (blocks_of file b n) = file (b + i).
Proof.
  intros Hf [Hi Hn]. change BLOCK_SIZE with 4096. remember (Z.to_nat i) as m eqn:Em. revert b n i Hi Hn Em.
  induction m as [|m IH]; intros b n i Hi Hn Em; unfold blocks_of; rewrite seqZ_cons by lia;
    cbn [fmap list_fmap concat]; destruct (Hf b) as [Hl _]; change BLOCK_SIZE with 4096 in Hl.
  - replace i with 0 by lia. rewrite Z.add_0_r. by apply slice_app_l.
  - specialize (IH (Z.succ b) (Z.pred n) (Z.pred i) ltac:(lia) ltac:(lia) ltac:(lia)).
    replace (b + i) with (Z.succ b + Z.pred i) by lia. rewrite <- IH, slice_app_r by lia.
    unfold blocks_of. f_equal. lia.
Qed.

(** ** A device in memory

    A witness that the laws can hold: a file that loses nothing while it runs,
    with a script of the submissions that fail. *)

Record MemDevice := {
  md_now : Z -> list Z;
  md_stable : Z -> list Z;
  md_unsynced : list Z;
  md_faults : list bool;
}.

Definition EIO : Z := 5.

Definition sanitize (b : list Z) : list Z := if block_okb b then b else zero_block.

Lemma sanitize_ok b : block_ok (sanitize b).
Proof. unfold sanitize. destruct (block_okb b) eqn:E; [by apply block_okb_spec | apply zero_block_ok]. Qed.

Lemma sanitize_id b : block_ok b -> sanitize b = b.
Proof. intros Hb. unfold sanitize. apply block_okb_spec in Hb. by rewrite Hb. Qed.

Definition md_content (d : MemDevice) (b : Z) : list Z := sanitize (md_now d b).

(** Cuts a buffer into blocks. *)
Fixpoint cut (n : nat) (bytes : list Z) : list (list Z) :=
  match n with
  | O => []
  | S n => take 4096 bytes :: cut n (drop 4096 bytes)
  end.

Definition md_write (d : MemDevice) (b : Z) (blocks : list (list Z)) (faults : list bool) : MemDevice :=
  {| md_now := overwrite (md_now d) b blocks; md_stable := md_stable d;
     md_unsynced := seqZ b (lenZ blocks) ++ md_unsynced d; md_faults := faults |}.

Definition md_submit (e : Sqe) (user_data expected : Z) : M MemDevice (list Z) := fun d =>
  let faults := tail (md_faults d) in
  let d1 := {| md_now := md_now d; md_stable := md_stable d; md_unsynced := md_unsynced d;
               md_faults := faults |} in
  if match md_faults d with true :: _ => true | _ => false end then (Err (RawOs EIO), d1)
  else
    match e with
    | SqeRead offset len =>
        (Ok (blocks_of (md_content d) (offset / BLOCK_SIZE) (len / BLOCK_SIZE)), d1)
    | SqeWrite offset bytes =>
        (Ok [], md_write d (offset / BLOCK_SIZE) (cut (length bytes / 4096) bytes) faults)
    | SqeWritev offset blocks => (Ok [], md_write d (offset / BLOCK_SIZE) blocks faults)
    | SqeFsync =>
        (Ok [], {| md_now := md_now d; md_stable := md_now d; md_unsynced := []; md_faults := faults |})
    | SqeOther _ => (Err (RawOs EIO), d1)
    end.

#[global] Instance mem_device : Device MemDevice := {|
  submit := md_submit;
  content := md_content;
  may_hold := fun d c => forall b, b ∉ md_unsynced d -> c b = md_content d b;
  fault := fun e => e = RawOs EIO;
|}.

Lemma cut_concat blocks :
  Forall block_ok blocks -> cut (length (concat blocks) / 4096) (concat blocks) = blocks.
Proof.
  intros Hb. assert (length (concat blocks) = length blocks * 4096)%nat as ->.
  { induction Hb as [|b blocks [Hb _] _ IH]; [done|]. cbn [concat length].
    rewrite length_app, IH. change BLOCK_SIZE with 4096 in Hb. lia. }
  rewrite Nat.div_mul by done.
  induction Hb as [|b blocks [Hb _] _ IH]; [done|]. cbn [concat length cut].
  change BLOCK_SIZE with 4096 in Hb.
  rewrite take_app_length', drop_app_length' by lia. by rewrite IH.
Qed.

Lemma md_write_laws d b blocks faults :
  Forall block_ok blocks ->
  (forall x, md_content (md_write d b blocks faults) x = overwrite (md_content d) b blocks x) /\
  torn d (md_write d b blocks faults) b (lenZ blocks).
Proof.
  intros Hb. assert (Hc : forall x, md_content (md_write d b blocks faults) x = overwrite (md_content d) b blocks x).
  { intros x. unfold md_content, md_write, overwrite; cbn.
    destruct (if b <=? x then _ else None) as [block|] eqn:E; [|done].
    apply sanitize_id. destruct (b <=? x); [|done]. by eapply Forall_lookup_1. }
  split; [exact Hc|]. intros c Hm. exists (fun x => if decide (x ∈ seqZ b (lenZ blocks)) then md_content d x else c x).
  split.
  - intros x Hx. case_decide as Hin; [done|]. cbn in Hm. rewrite Hm by set_solver. rewrite Hc.
    apply overwrite_outside. rewrite elem_of_seqZ in Hin. unfold outside. lia.
  - intros x Ho. rewrite decide_False; [done|]. rewrite elem_of_seqZ. unfold outside in Ho. lia.
Qed.

#[global] Instance mem_device_laws : DeviceLaws MemDevice.
Proof.
  split.
  - intros e u x d. cbn. unfold md_submit. destruct (match md_faults d with true :: _ => true | _ => false end); [done|].
    by destruct e.
  - intros e u x d error. cbn. unfold md_submit. destruct (match md_faults d with true :: _ => true | _ => false end);
      [by intros [= <-]|]. destruct e; try discriminate. by intros [= <-].
  - by intros error ->.
  - intros d b. apply sanitize_ok.
  - intros d b _. done.
  - intros b n u d r d' Hb Hn. cbn. unfold md_submit.
    destruct (match md_faults d with true :: _ => true | _ => false end); intros [= <- <-]; [done|].
    split; [done|]. split; [done|]. intros bytes [= <-]. change BLOCK_SIZE with 4096. by rewrite !Z.div_mul.
  - intros e b blocks u d r d' (He & Hb & Hok). cbn. unfold md_submit.
    destruct (match md_faults d with true :: _ => true | _ => false end).
    { intros [= <- <-]. split; [done|]. split; [|done]. intros c Hc. by exists c. }
    destruct (md_write_laws d b blocks (tail (md_faults d)) Hok) as [Hc Ht].
    destruct He as [->| ->].
    + rewrite cut_concat by done. change BLOCK_SIZE with 4096. rewrite Z.div_mul by done.
      intros [= <- <-]. split; [intros x Ho; rewrite Hc; by apply overwrite_outside|]. by split.
    + change BLOCK_SIZE with 4096. rewrite Z.div_mul by done.
      intros [= <- <-]. split; [intros x Ho; rewrite Hc; by apply overwrite_outside|]. by split.
  - intros u d r d'. cbn. unfold md_submit.
    destruct (match md_faults d with true :: _ => true | _ => false end); intros [= <- <-]; [done|].
    split; [done|]. split.
    + intros c Hc b Hb. apply Hc. set_solver.
    + intros bytes _ c Hc x. apply Hc. set_solver.
Qed.
