(* ===== verification/BackingIo.v ===== *)
(** Accounted backing I/O: [src/rust/src/accounted_io.rs], the block helpers of
    [src/rust/src/lib.rs] and of [src/rust/src/format_v3/storage.rs], and the
    I/O counters of [src/rust/src/format_v3/metrics.rs]. *)

From S2P Require Import Prelude Bytes Geometry Accounting Uring Device.

Record MappingIo := {
  i_page_reads : Z;
  i_demand_page_read_ops : Z;
  i_prefetch_rejected : Z;
  i_page_writes : Z;
  i_index_bytes_written : Z;
  i_tail_blocks_read : Z;
}.

Definition zero_mapping_io : MappingIo :=
  {| i_page_reads := 0; i_demand_page_read_ops := 0; i_prefetch_rejected := 0;
     i_page_writes := 0; i_index_bytes_written := 0; i_tail_blocks_read := 0 |}.

(** The ring with the file, the optional ledger of the writer, and the counters. *)
Record BackingIo (D : Type) := {
  dev : D;
  accounting : option Ledger;
  mapping_io : MappingIo;
}.
Arguments dev {D}.
Arguments accounting {D}.
Arguments mapping_io {D}.
Arguments Build_BackingIo {D}.

Definition CHECKPOINT_BATCH_BLOCKS : Z := 32.

Module Io.
Section io.
Context {D : Type} `{!Device D}.

Definition with_dev (x : D) (io : BackingIo D) : BackingIo D :=
  {| dev := x; accounting := accounting io; mapping_io := mapping_io io |}.
Definition with_accounting (x : option Ledger) (io : BackingIo D) : BackingIo D :=
  {| dev := dev io; accounting := x; mapping_io := mapping_io io |}.

(** [BackingIo::new], with a ring that was created. *)
Definition new (d : D) (accounting : option Ledger) : BackingIo D :=
  {| dev := d; accounting := accounting; mapping_io := zero_mapping_io |}.

(** The additions to the counters. *)
Definition tally (page_reads read_ops rejected page_writes index_bytes tail_blocks : Z) :
    M (BackingIo D) unit :=
  mmodify (fun io => {| dev := dev io; accounting := accounting io;
    mapping_io := {|
      i_page_reads := i_page_reads (mapping_io io) + page_reads;
      i_demand_page_read_ops := i_demand_page_read_ops (mapping_io io) + read_ops;
      i_prefetch_rejected := i_prefetch_rejected (mapping_io io) + rejected;
      i_page_writes := i_page_writes (mapping_io io) + page_writes;
      i_index_bytes_written := i_index_bytes_written (mapping_io io) + index_bytes;
      i_tail_blocks_read := i_tail_blocks_read (mapping_io io) + tail_blocks |} |}).

Definition positive_bytes (expected_result : Z) : res Z :=
  fail_if (expected_result <=? 0) (InvalidInput "I/O expected result must be positive") ;;?
  Ok expected_result.

Definition classify_operation (entry : Sqe) (expected_result : Z) : res Operation :=
  match entry with
  | SqeRead _ _ => bytes <-? positive_bytes expected_result ;; Ok (OpRead bytes)
  | SqeWrite _ _ | SqeWritev _ _ => bytes <-? positive_bytes expected_result ;; Ok (OpWrite bytes)
  | SqeFsync =>
      fail_if (negb (expected_result =? 0)) (InvalidInput "fsync expected result must be zero") ;;?
      Ok OpFlush
  | SqeOther _ => Err (InvalidInput "unsupported accounted io_uring opcode")
  end.

(** [Writer::begin] and [PendingOperation::finish] on the ledger. *)
Definition begin (operation : Operation) : M Ledger PendingOperation := fun l =>
  let '(r, stores) := Ledger.begin operation l in (r, Ledger.after stores l).
Definition finish (success : bool) (p : PendingOperation) : M Ledger unit := fun l =>
  let '(r, stores) := Ledger.finish success p l in (r, Ledger.after stores l).

Definition reject_unclassified (error : io_error) : M Ledger unit :=
  pending <- begin OpFlush ;;
  finish false pending ;;;
  mlift (Err error).

(** The ledger part of the state, when there is one. *)
Definition on_ledger {A} (l : Ledger) (m : M Ledger A) : M (BackingIo D) A :=
  zoom (fun io => match accounting io with Some l => l | None => l end)
       (fun l => with_accounting (Some l)) m.
Definition on_dev {A} (m : M D A) : M (BackingIo D) A := zoom dev with_dev m.

(** [submit_exact]; the value is the bytes that a read stored. *)
Definition submit_exact (entry : Sqe) (user_data expected_result : Z) : M (BackingIo D) (list Z) :=
  io <- mget ;;
  match accounting io with
  | None => on_dev (submit entry user_data expected_result)
  | Some l =>
      match classify_operation entry expected_result with
      | Ok operation =>
          pending <- on_ledger l (begin operation) ;;
          io_result <- mtry (on_dev (submit entry user_data expected_result)) ;;
          accounting_result <- mtry (on_ledger l (finish (is_ok io_result) pending)) ;;
          match io_result with
          | Ok bytes =>
              match (accounting_result : res unit) with
              | Ok _ => mret bytes
              | Err e => mlift (Err e)
              | Panic => mlift Panic
              end
          | r => mlift r
          end
      | Err error => on_ledger l (reject_unclassified error) ;;; mret []
      | Panic => mlift Panic
      end
  end.

(** [read_block_exact]. *)
Definition read_block_exact (physical_block : Z) : M (BackingIo D) (list Z) :=
  submit_exact (SqeRead (physical_block * BLOCK_SIZE) BLOCK_SIZE) physical_block BLOCK_SIZE.

(** [storage::write_blocks]. *)
Definition write_blocks (physical_block : Z) (blocks : list (list Z)) : M (BackingIo D) unit :=
  mlift (assert_ ((0 <? lenZ blocks) && (lenZ blocks <=? CHECKPOINT_BATCH_BLOCKS))) ;;;
  mlift (assert_ (physical_block + lenZ blocks <=? MAX_BACKING_BLOCKS)) ;;;
  submit_exact (SqeWrite (physical_block * BLOCK_SIZE) (concat blocks)) physical_block
    (lenZ blocks * BLOCK_SIZE) ;;;
  mret tt.

(** [storage::sync]. *)
Definition sync : M (BackingIo D) unit := submit_exact SqeFsync 0 0 ;;; mret tt.

(** [clear_stale_tail]: zeroes as many blocks as a record may have, from
    [append_block] on, and makes them durable. *)
Definition clear_stale_tail (append_block backing_blocks : Z) : M (BackingIo D) unit :=
  let clear_blocks := Z.min MAXIMUM_RECORD_BLOCKS (saturating_sub backing_blocks append_block) in
  mfor (seqZ 0 clear_blocks) (fun block_index =>
    submit_exact (SqeWrite ((append_block + block_index) * BLOCK_SIZE) zero_block)
      (append_block + block_index) BLOCK_SIZE ;;;
    mret tt) ;;;
  submit_exact SqeFsync append_block 0 ;;;
  mret tt.

(** ** What the accounting adds *)

Lemma zoom_run {S T A} (get : S -> T) (set : T -> S -> S) (m : M T A) s r t :
  m (get s) = (r, t) -> zoom get set m s = (r, set t s).
Proof. unfold zoom. by intros ->. Qed.

(** No ledger appears where there was none. *)
Definition unbooked (io io' : BackingIo D) : Prop := accounting io = None -> accounting io' = None.

Lemma unbooked_some io io' : is_Some (accounting io) -> unbooked io io'.
Proof. by intros [l E] E'; rewrite E in E'. Qed.

(** The device sees exactly the entry, or nothing: accounting decides only
    whether an entry is submitted, and it can only replace a success by an error. *)
Lemma submit_exact_cases entry u x io :
  let (r, io') := submit_exact entry u x io in
  (mapping_io io' = mapping_io io /\ unbooked io io') /\
  ((dev io' = dev io /\ r <> Panic /\ (forall bytes, r = Ok bytes -> False)) \/
   (dev io' = (submit entry u x (dev io)).2 /\
    (r = (submit entry u x (dev io)).1 \/ (is_err r = true /\ is_ok (submit entry u x (dev io)).1 = true)
     \/ (submit entry u x (dev io)).1 = Panic))).
Proof.
  unfold submit_exact, mbind at 1, mget. destruct (accounting io) as [l|] eqn:Ha.
  2: { unfold on_dev, zoom. destruct (submit entry u x (dev io)) as [r d] eqn:E. split; [split; [done|by intros _]|]. right.
       cbn. auto. }
  assert (Hun : forall io', unbooked io io') by (intros; apply unbooked_some; by rewrite Ha).
  assert (Hbegin : forall o, (begin o l).1 <> Panic).
  { intros o. unfold begin, Ledger.begin, Ledger.checked_add_field, ok_or.
    destruct o as [[]|[]|]; cbn [fst]; try done;
      repeat (case_match; cbn [fst]; try done); congruence. }
  assert (Hfinish : forall b p l', (finish b p l').1 <> Panic).
  { intros b p l'. unfold finish, Ledger.finish, Ledger.checked_add_field, ok_or.
    destruct b, (po_operation p); cbn; repeat (case_match; cbn; try done); congruence. }
  destruct (classify_operation entry x) as [o|e|] eqn:Hcl.
  - unfold mbind at 1, on_ledger, zoom. rewrite Ha. specialize (Hbegin o).
    destruct (begin o l) as [[p|e|] l1]; [|cbn; split; [split; [done|apply Hun]|]; left; done | done].
    unfold mbind at 1, mtry at 1, on_dev, zoom. cbn [dev with_accounting].
    destruct (submit entry u x (dev io)) as [r d] eqn:E.
    destruct r as [bytes|e|].
    + cbn [is_ok]. unfold mbind, mtry. cbn [accounting with_dev with_accounting].
      specialize (Hfinish true p l1). destruct (finish true p l1) as [[[]|e|] l2]; cbn; [| |done];
        (split; [split; [done|apply Hun]|]; right; cbn; auto).
    + cbn [is_ok]. unfold mbind, mtry. cbn [accounting with_dev with_accounting].
      specialize (Hfinish false p l1). destruct (finish false p l1) as [[[]|e'|] l2]; cbn; [| |done];
        (split; [split; [done|apply Hun]|]; right; cbn; auto).
    + cbn. split; [split; [done|apply Hun]|]. right. auto.
  - unfold mbind, on_ledger, zoom, reject_unclassified, mbind. rewrite Ha. specialize (Hbegin OpFlush).
    destruct (begin OpFlush l) as [[p|e'|] l1]; [|cbn; split; [split; [done|apply Hun]|]; left; done | done].
    specialize (Hfinish false p l1). destruct (finish false p l1) as [[[]|e'|] l2]; [| |done];
      cbn; (split; [split; [done|apply Hun]|left; done]).
  - exfalso. unfold classify_operation, positive_bytes, fail_if in Hcl.
    destruct entry; repeat (case_match; try discriminate); discriminate.
Qed.

End io.

(** ** What the block operations do to the file *)

Section laws.
Context {D : Type} `{!Device D} `{!DeviceLaws D}.

(** The file as reads see it. *)
Definition file (io : BackingIo D) : Z -> list Z := content (dev io).

(** What a ledger may report. *)
Definition refusal (e : io_error) : Prop :=
  (exists o l, (begin o l).1 = Err e) \/ (exists success p l, (finish success p l).1 = Err e).

(** What an operation may report: an error of the device or, where there is a ledger, of the
    ledger. *)
Definition failure (io : BackingIo D) (e : io_error) : Prop :=
  fault e \/ (is_Some (accounting io) /\ refusal e).

(** Nothing was written. *)
Definition untouched (io io' : BackingIo D) : Prop :=
  (forall x, file io' x = file io x) /\ (forall c, may_hold (dev io') c -> may_hold (dev io) c) /\ unbooked io io'.

(** Only [n] blocks from [b] on may have changed, now or after a crash. *)
Definition touched (io io' : BackingIo D) (b n : Z) : Prop :=
  (forall x, outside b n x -> file io' x = file io x) /\ torn (dev io) (dev io') b n /\ unbooked io io'.

(** What was written is what a crash leaves. *)
Definition durable (io : BackingIo D) : Prop :=
  forall c, may_hold (dev io) c -> forall x, c x = file io x.

Lemma refusal_not_data e : refusal e -> is_invalid_data e = false.
Proof.
  intros [(o & l & He)|(b & p & l & He)]; revert He;
    unfold begin, finish, Ledger.begin, Ledger.finish, Ledger.checked_add_field, ok_or.
  - destruct o as [[]|[]|]; cbn [fst]; repeat (case_match; cbn [fst]); intros; by simplify_eq.
  - destruct b, (po_operation p); cbn; repeat (case_match; cbn); intros; by simplify_eq.
Qed.

(** No failure looks like a damaged block. *)
Lemma failure_not_data io e : failure io e -> is_invalid_data e = false.
Proof. intros [Hf|[_ Hr]]; [by apply fault_not_data|by apply refusal_not_data]. Qed.

Lemma failure_unbooked io io' e : unbooked io io' -> failure io' e -> failure io e.
Proof.
  unfold failure, unbooked. intros Hu [?|[[l Hl] ?]]; [by left|]. destruct (accounting io); [right; by split|].
  by rewrite Hu in Hl.
Qed.

Lemma untouched_refl io : untouched io io.
Proof. split; [done|]. by split; [|intros E]. Qed.

Lemma untouched_trans a b c : untouched a b -> untouched b c -> untouched a c.
Proof. intros (H1 & H2 & H3) (H4 & H5 & H6). split; [intros x; by rewrite H4|]. split; [auto|]. intros E. auto. Qed.

Lemma untouched_touched a b x n : untouched a b -> touched a b x n.
Proof.
  intros (H1 & H2 & H3). split; [intros y _; apply H1|]. split; [|done]. intros c Hc. exists c. split; [by apply H2 | done].
Qed.

Lemma untouched_same (a b : BackingIo D) : dev b = dev a -> unbooked a b -> untouched a b.
Proof. intros E Hu. unfold untouched, file. rewrite E. by split_and!. Qed.

Lemma failure_untouched a b e : untouched a b -> failure b e -> failure a e.
Proof. intros (_ & _ & Hu). by apply failure_unbooked. Qed.

Lemma touched_mono a b x n y m :
  touched a b x n -> y <= x -> x + n <= y + m -> touched a b y m.
Proof.
  intros (H1 & H2 & H3) Hy Hm. assert (Ho : forall z, outside y m z -> outside x n z) by (unfold outside; lia).
  split; [intros z Hz; by apply H1, Ho|]. split; [|done]. intros c Hc. destruct (H2 c Hc) as (c0 & Hc0 & Heq).
  exists c0. split; [done|]. intros z Hz. by apply Heq, Ho.
Qed.

Lemma touched_trans a b c x n : touched a b x n -> touched b c x n -> touched a c x n.
Proof.
  intros (H1 & H2 & Hb1) (H3 & H4 & Hb2). split; [intros y Hy; rewrite H3, H1; done|]. split; [|intros E; auto].
  intros k Hk. destruct (H4 k Hk) as (k1 & Hk1 & E1). destruct (H2 k1 Hk1) as (k0 & Hk0 & E0).
  exists k0. split; [done|]. intros y Hy. rewrite E1, E0; done.
Qed.

(** Only blocks of [P] may have changed, now or after a crash. *)
Definition changed (P : Z -> Prop) (io io' : BackingIo D) : Prop :=
  (forall x, ~ P x -> file io' x = file io x) /\
  (forall c, may_hold (dev io') c ->
     exists c0, may_hold (dev io) c0 /\ forall x, ~ P x -> c x = c0 x) /\
  unbooked io io'.

Lemma untouched_changed P a b : untouched a b -> changed P a b.
Proof.
  intros (H1 & H2 & H3). split; [intros x _; apply H1|]. split; [|done]. intros c Hc. exists c. split; [by apply H2 | done].
Qed.

Lemma changed_refl P a : changed P a a.
Proof. apply untouched_changed, untouched_refl. Qed.

Lemma changed_mono (P Q : Z -> Prop) a b : (forall x, P x -> Q x) -> changed P a b -> changed Q a b.
Proof.
  intros Hpq (H1 & H2 & H3). split; [intros x Hx; apply H1; auto|]. split; [|done].
  intros c Hc. destruct (H2 c Hc) as (c0 & Hc0 & E). exists c0. split; [done|]. intros x Hx. apply E; auto.
Qed.

Lemma changed_trans P a b c : changed P a b -> changed P b c -> changed P a c.
Proof.
  intros (H1 & H2 & Hb1) (H3 & H4 & Hb2). split; [intros x Hx; rewrite H3, H1; done|]. split; [|intros E; auto].
  intros k Hk. destruct (H4 k Hk) as (k1 & Hk1 & E1). destruct (H2 k1 Hk1) as (k0 & Hk0 & E0).
  exists k0. split; [done|]. intros x Hx. rewrite E1, E0; done.
Qed.

Lemma touched_changed P a b x n :
  touched a b x n -> (forall y, x <= y < x + n -> P y) -> changed P a b.
Proof.
  intros (H1 & H2 & H3) HP. assert (Ho : forall y, ~ P y -> outside x n y).
  { intros y Hy. unfold outside. destruct (Z.lt_ge_cases y x); [by left|]. right.
    destruct (Z.le_gt_cases (x + n) y); [done|]. destruct Hy. apply HP. lia. }
  split; [intros y Hy; apply H1; auto|]. split; [|done]. intros c Hc. destruct (H2 c Hc) as (c0 & Hc0 & E).
  exists c0. split; [done|]. intros y Hy. apply E; auto.
Qed.

Lemma failure_changed P a b e : changed P a b -> failure b e -> failure a e.
Proof. intros (_ & _ & Hu). by apply failure_unbooked. Qed.

(** [durable] survives reads. *)
Lemma durable_untouched a b : untouched a b -> durable a -> durable b.
Proof. intros (H1 & H2 & _) Hd c Hc x. rewrite H1. by apply Hd, H2. Qed.

Lemma submit_exact_no_panic entry u x io : (submit_exact entry u x io).1 <> Panic.
Proof.
  pose proof (submit_exact_cases entry u x io) as Hc. destruct (submit_exact entry u x io) as [r io'].
  destruct Hc as [_ [(_ & Hr & _)|(_ & [->|[Hr|Hr]])]]; cbn.
  - done.
  - apply submit_no_panic.
  - intros ->. by destruct Hr.
  - by apply submit_no_panic in Hr.
Qed.

Lemma submit_exact_read b n u io r io' :
  0 <= b -> 0 < n ->
  submit_exact (SqeRead (b * BLOCK_SIZE) (n * BLOCK_SIZE)) u (n * BLOCK_SIZE) io = (r, io') ->
  untouched io io' /\ mapping_io io' = mapping_io io /\
  forall bytes, r = Ok bytes -> bytes = blocks_of (file io) b n.
Proof.
  intros Hb Hn Hrun.
  pose proof (submit_exact_cases (SqeRead (b * BLOCK_SIZE) (n * BLOCK_SIZE)) u (n * BLOCK_SIZE) io) as Hc.
  rewrite Hrun in Hc. destruct Hc as [[Hm Hbk] Hc].
  destruct (submit (SqeRead (b * BLOCK_SIZE) (n * BLOCK_SIZE)) u (n * BLOCK_SIZE) (dev io)) as [r0 d0] eqn:E.
  destruct (read_law b n u (dev io) r0 d0 Hb Hn E) as (H1 & H2 & H3).
  destruct Hc as [(Hd & _ & Hno)|(Hd & Hr)].
  - split; [by apply untouched_same|]. split; [done|]. intros bytes Hok. by destruct (Hno bytes).
  - cbn [snd fst] in *. split; [unfold untouched, file; rewrite Hd; by split_and!|]. split; [done|].
    intros bytes ->. destruct Hr as [Hr|[[Hr _]|Hr]]; [by apply H3|done|].
    exfalso. apply (submit_no_panic (SqeRead (b * BLOCK_SIZE) (n * BLOCK_SIZE)) u (n * BLOCK_SIZE) (dev io)).
    by rewrite E.
Qed.

Lemma submit_exact_write e b blocks u io r io' :
  writes e b blocks -> submit_exact e u (lenZ blocks * BLOCK_SIZE) io = (r, io') ->
  touched io io' b (lenZ blocks) /\ mapping_io io' = mapping_io io /\
  forall bytes, r = Ok bytes -> forall x, file io' x = overwrite (file io) b blocks x.
Proof.
  intros Hw Hrun. pose proof (submit_exact_cases e u (lenZ blocks * BLOCK_SIZE) io) as Hc.
  rewrite Hrun in Hc. destruct Hc as [[Hm Hbk] Hc].
  destruct (submit e u (lenZ blocks * BLOCK_SIZE) (dev io)) as [r0 d0] eqn:E.
  destruct (write_law e b blocks u (dev io) r0 d0 Hw E) as (H1 & H2 & H3).
  destruct Hc as [(Hd & _ & Hno)|(Hd & Hr)].
  - split; [by apply untouched_touched, untouched_same|]. split; [done|].
    intros bytes Hok. by destruct (Hno bytes).
  - cbn [snd fst] in *. split; [unfold touched, file; rewrite Hd; by split_and!|]. split; [done|].
    intros bytes ->. unfold file. rewrite Hd.
    destruct Hr as [Hr|[[Hr _]|Hr]]; [by apply (H3 bytes)|done|].
    exfalso. apply (submit_no_panic e u (lenZ blocks * BLOCK_SIZE) (dev io)). by rewrite E.
Qed.

Lemma submit_exact_fsync u io r io' :
  submit_exact SqeFsync u 0 io = (r, io') ->
  untouched io io' /\ mapping_io io' = mapping_io io /\ forall bytes, r = Ok bytes -> durable io'.
Proof.
  intros Hrun. pose proof (submit_exact_cases SqeFsync u 0 io) as Hc.
  rewrite Hrun in Hc. destruct Hc as [[Hm Hbk] Hc].
  destruct (submit SqeFsync u 0 (dev io)) as [r0 d0] eqn:E.
  destruct (fsync_law u (dev io) r0 d0 E) as (H1 & H2 & H3).
  destruct Hc as [(Hd & _ & Hno)|(Hd & Hr)].
  - split; [by apply untouched_same|]. split; [done|]. intros bytes Hok. by destruct (Hno bytes).
  - cbn [snd fst] in *. split; [unfold untouched, file; rewrite Hd; by split_and!|]. split; [done|].
    intros bytes ->. unfold durable, file. rewrite Hd.
    destruct Hr as [Hr|[[Hr _]|Hr]]; [by apply (H3 bytes)|done|].
    exfalso. apply (submit_no_panic SqeFsync u 0 (dev io)). by rewrite E.
Qed.

Lemma submit_exact_error entry u x io e :
  (exists operation, classify_operation entry x = Ok operation) ->
  (submit_exact entry u x io).1 = Err e -> failure io e.
Proof.
  intros [o Ho]. unfold submit_exact, mbind at 1, mget, failure. destruct (accounting io) as [l|] eqn:Ha.
  2: { unfold on_dev, zoom. destruct (submit entry u x (dev io)) as [r d] eqn:E. cbn. intros ->. left.
       apply (submit_error entry u x (dev io)). by rewrite E. }
  assert (Hsome : is_Some (Some l)) by by eexists.
  rewrite Ho. unfold mbind at 1, on_ledger, zoom. rewrite Ha.
  destruct (begin o l) as [[p|e'|] l1] eqn:Eb;
    [|cbn; intros [= <-]; right; split; [done|]; left; exists o, l; by rewrite Eb|done].
  unfold mbind at 1, mtry at 1, on_dev, zoom. cbn [dev with_accounting].
  destruct (submit entry u x (dev io)) as [r d] eqn:E. destruct r as [bytes|e1|]; [| |done].
  - cbn [is_ok]. unfold mbind, mtry. cbn [accounting with_dev with_accounting].
    destruct (finish true p l1) as [[[]|e'|] l2] eqn:Ef; cbn; try discriminate.
    intros [= <-]. right. split; [done|]. right. exists true, p, l1. by rewrite Ef.
  - cbn [is_ok]. unfold mbind, mtry. cbn [accounting with_dev with_accounting].
    destruct (finish false p l1) as [[[]|e'|] l2]; cbn; try discriminate; intros [= <-]; left;
      apply (submit_error entry u x (dev io)); by rewrite E.
Qed.

(** The helpers, as the engine uses them. *)
Lemma read_block_spec b io r io' :
  0 <= b -> read_block_exact b io = (r, io') ->
  untouched io io' /\ mapping_io io' = mapping_io io /\ r <> Panic /\
  forall bytes, r = Ok bytes -> bytes = file io b.
Proof.
  intros Hb Hrun. pose proof (submit_exact_no_panic (SqeRead (b * BLOCK_SIZE) BLOCK_SIZE) b BLOCK_SIZE io) as Hp.
  unfold read_block_exact in Hrun. rewrite Hrun in Hp. cbn in Hp.
  destruct (submit_exact_read b 1 b io r io' Hb ltac:(lia)) as (H1 & H2 & H3); [by rewrite Z.mul_1_l|].
  split; [done|]. split; [done|]. split; [done|]. intros bytes ->. rewrite (H3 bytes eq_refl). apply blocks_of_1.
Qed.

Lemma read_block_error b io e : (read_block_exact b io).1 = Err e -> failure io e.
Proof. apply submit_exact_error. by eexists. Qed.

Lemma tally_spec a b c d e f io :
  exists io', tally a b c d e f io = (Ok tt, io') /\ dev io' = dev io /\ untouched io io'.
Proof. eexists. split; [reflexivity|]. split; [done | by apply untouched_same; [|intros E]]. Qed.

Lemma write_blocks_spec b blocks io r io' :
  0 <= b -> Forall block_ok blocks -> write_blocks b blocks io = (r, io') ->
  touched io io' b (lenZ blocks) /\
  (r = Ok tt -> forall x, file io' x = overwrite (file io) b blocks x) /\
  (0 < lenZ blocks <= 32 -> b + lenZ blocks <= MAX_BACKING_BLOCKS -> r <> Panic).
Proof.
  intros Hb Hok. unfold write_blocks. unfold mbind at 1, mlift at 1.
  assert (Hid : touched io io b (lenZ blocks)) by apply untouched_touched, untouched_refl.
  destruct ((0 <? lenZ blocks) && (lenZ blocks <=? CHECKPOINT_BATCH_BLOCKS)) eqn:E1; cbn [assert_].
  2: { intros [= <- <-]. split; [done|]. split; [done|]. intros Hl. exfalso.
       apply andb_false_iff in E1. change CHECKPOINT_BATCH_BLOCKS with 32 in E1.
       destruct E1 as [E1%Z.ltb_ge|E1%Z.leb_gt]; lia. }
  unfold mbind at 1, mlift at 1. destruct (Z.leb_spec (b + lenZ blocks) MAX_BACKING_BLOCKS); cbn [assert_].
  2: { intros [= <- <-]. split; [done|]. split; [done|]. lia. }
  unfold mbind, mret. intros Hrun.
  pose proof (submit_exact_no_panic (SqeWrite (b * BLOCK_SIZE) (concat blocks)) b (lenZ blocks * BLOCK_SIZE) io) as Hp.
  destruct (submit_exact (SqeWrite (b * BLOCK_SIZE) (concat blocks)) b (lenZ blocks * BLOCK_SIZE) io)
    as [r0 io0] eqn:E.
  destruct (submit_exact_write (SqeWrite (b * BLOCK_SIZE) (concat blocks)) b blocks b io r0 io0) as (H1 & H2 & H3).
  { split; [by left|]. split; [done|done]. }
  { exact E. }
  destruct r0 as [bytes|e|]; injection Hrun as <- <-; (split; [done|]); split; try done.
  intros _. by apply (H3 bytes).
Qed.

Lemma sync_spec io r io' :
  sync io = (r, io') -> untouched io io' /\ r <> Panic /\ (r = Ok tt -> durable io').
Proof.
  unfold sync, mbind, mret. pose proof (submit_exact_no_panic SqeFsync 0 0 io) as Hp.
  destruct (submit_exact SqeFsync 0 0 io) as [r0 io0] eqn:E.
  destruct (submit_exact_fsync 0 io r0 io0 E) as (H1 & _ & H3).
  destruct r0 as [bytes|e|]; intros [= <- <-]; split; try done. split; [done|]. intros _. by apply (H3 bytes).
Qed.

(** The loop of [clear_stale_tail] from block [k] on. *)
Lemma clear_loop b k n io r io' :
  0 <= b + k -> 0 <= n ->
  mfor (seqZ k n) (fun i => submit_exact (SqeWrite ((b + i) * BLOCK_SIZE) zero_block) (b + i) BLOCK_SIZE ;;;
                            mret tt) io = (r, io') ->
  r <> Panic /\ touched io io' (b + k) n /\
  (r = Ok tt -> forall x, b + k <= x < b + k + n -> file io' x = zero_block).
Proof.
  intros Hbk Hn. remember (Z.to_nat n) as m eqn:Em. revert k n io Hbk Hn Em.
  induction m as [|m IH]; intros k n io Hbk Hn Em.
  { rewrite seqZ_nil by lia. cbn. intros [= <- <-]. split; [done|].
    split; [apply untouched_touched, untouched_refl|]. lia. }
  rewrite seqZ_cons by lia. cbn [mfor]. unfold mbind at 1 2, mret at 1.
  pose proof (submit_exact_no_panic (SqeWrite ((b + k) * BLOCK_SIZE) zero_block) (b + k) BLOCK_SIZE io) as Hp.
  destruct (submit_exact (SqeWrite ((b + k) * BLOCK_SIZE) zero_block) (b + k) BLOCK_SIZE io) as [r0 io0] eqn:E.
  destruct (submit_exact_write (SqeWrite ((b + k) * BLOCK_SIZE) zero_block) (b + k) [zero_block] (b + k) io r0 io0)
    as (H1 & _ & H3).
  { split; [left; cbn; by rewrite app_nil_r|]. split; [done|]. apply Forall_singleton, zero_block_ok. }
  { exact E. }
  assert (H1' : touched io io0 (b + k) n) by (apply (touched_mono io io0 (b + k) 1); [exact H1|lia|lia]).
  destruct r0 as [bytes|e|]; [|intros [= <- <-]; split; [done|]; split; [exact H1'|done]|done].
  intros Hrun. apply IH in Hrun as (Hnp & Ht & Hz); [|lia..].
  split; [done|]. split.
  { apply (touched_trans io io0); [exact H1'|]. apply (touched_mono io0 io' (b + Z.succ k) (Z.pred n)); [exact Ht|lia|lia]. }
  intros -> x Hx. destruct (decide (x = b + k)) as [->|Hne]; [|apply Hz; [done|lia]].
  destruct Ht as [Ht _]. rewrite Ht by (unfold outside; lia). rewrite (H3 bytes eq_refl).
  replace (b + k) with (b + k + 0) at 2 by lia. by apply (overwrite_inside (file io) (b + k) [zero_block] 0).
Qed.

Lemma clear_stale_tail_Ok append backing io r io' :
  0 <= append -> clear_stale_tail append backing io = (r, io') ->
  let n := Z.min MAXIMUM_RECORD_BLOCKS (saturating_sub backing append) in
  r <> Panic /\ touched io io' append n /\
  (r = Ok tt -> durable io' /\ forall x, append <= x < append + n -> file io' x = zero_block).
Proof.
  intros Ha. unfold clear_stale_tail. set (n := Z.min _ _). intros Hrun. cbv zeta.
  assert (Hn : 0 <= n) by (unfold n, saturating_sub; change MAXIMUM_RECORD_BLOCKS with 339; lia).
  unfold mbind at 1 in Hrun.
  match type of Hrun with (match ?m io with _ => _ end) = _ => destruct (m io) as [r0 io0] eqn:E end.
  apply (clear_loop append 0 n io r0 io0) in E as (Hp0 & Ht & Hz); [|lia|done].
  rewrite Z.add_0_r in *. destruct r0 as [[]|e|]; [|injection Hrun as <- <-; by split_and!|done].
  unfold mbind, mret in Hrun. pose proof (submit_exact_no_panic SqeFsync append 0 io0) as Hp.
  destruct (submit_exact SqeFsync append 0 io0) as [r1 io1] eqn:E1.
  destruct (submit_exact_fsync append io0 r1 io1 E1) as (Hu & _ & Hd).
  assert (Ht' : touched io io1 append n) by (eapply touched_trans; [exact Ht | by apply untouched_touched]).
  destruct r1 as [bytes|e|]; injection Hrun as <- <-; (split; [done|]); (split; [exact Ht'|]); try done.
  intros _. split; [by apply (Hd bytes)|]. intros x Hx. destruct Hu as [Hu _]. rewrite Hu. by apply Hz.
Qed.

(** Clearing the stale tail touches at most the blocks that one record can
    span, and when it succeeds they are zero and durable: no footer of an
    abandoned record survives behind the end of the log. *)
Theorem clear_stale_tail_clears append backing io r io' :
  0 <= append -> clear_stale_tail append backing io = (r, io') ->
  let n := Z.min MAXIMUM_RECORD_BLOCKS (saturating_sub backing append) in
  r <> Panic /\ touched io io' append n /\
  (r = Ok tt -> durable io' /\ forall x, append <= x < append + n -> file io' x = zero_block).
Proof. apply clear_stale_tail_Ok. Qed.

End laws.
#[global] Hint Resolve untouched_refl : core.

End Io.

Definition example_device : MemDevice :=
  {| md_now := fun _ => zero_block; md_stable := fun _ => zero_block; md_unsynced := []; md_faults := [] |}.

Lemma clear_stale_tail_clears_witness :
  let run := Io.clear_stale_tail 7 10 (Io.new example_device None) in
  is_ok run.1 = true /\ Io.durable run.2 /\ forall x, 7 <= x < 10 -> Io.file run.2 x = zero_block.
Proof.
  intros run. assert (Hok : run.1 = Ok tt) by reflexivity.
  pose proof (surjective_pairing run) as E. rewrite Hok in E.
  destruct (Io.clear_stale_tail_clears 7 10 (Io.new example_device None) (Ok tt) run.2 ltac:(discriminate) E)
    as (_ & _ & H).
  split; [rewrite Hok; reflexivity|]. exact (H eq_refl).
Defined.
