(* ===== verification/Tail.v ===== *)
(** Replay of the log tail: [src/rust/src/format_v3/tail.rs]. *)

From S2P Require Import Prelude Bytes Geometry Format DataRecord Entries MappingPage.
From S2P Require Import Checkpoint Accounting Uring Device BackingIo.

(** [LogPosition] of checkpoint_publish.rs. *)
Record LogPosition := { p_lsn : Z; p_at : Z (* boundary *) }.

#[global] Instance log_position_eq_dec : EqDecision LogPosition.
Proof. solve_decision. Defined.

Inductive LogRecord :=
  | LogData (record : DataRecord)
  | LogMapping (header : RecordHeader).

Module Tail.

(** [LogRecord::header] and [LogRecord::position]. *)
Definition header (r : LogRecord) : RecordHeader :=
  match r with LogData record => d_header record | LogMapping header => header end.

Definition position (r : LogRecord) : LogPosition :=
  {| p_lsn := h_lsn (header r); p_at := h_boundary (header r) |}.

Definition current_metadata (bytes : list Z) (volume_id : Z) : bool :=
  bool_decide (slice 0 4 bytes = RECORD_MAGIC) && (read_u64 bytes 8 =? volume_id).

Definition unsupported (bytes : list Z) : bool :=
  negb (getb bytes 4 =? VERSION) || is_err (kind_of_byte (getb bytes 5)).

Section tail.
Context `{Xxh3} {D : Type} `{!Device D}.

(** The guard on the replay cursor. *)
Definition outside_tail (k : CheckpointDescriptor) (g : Geometry) (p : LogPosition) : bool :=
  (p_lsn p <? c_checkpoint_lsn k)
  || (p_at p <? c_last_record_boundary k)
  || (g_backing_blocks g <=? p_at p)
  || (p_at p - c_last_record_boundary k <? p_lsn p - c_checkpoint_lsn k)
  || negb (Bool.eqb (p_lsn p =? c_checkpoint_lsn k) (p_at p =? c_last_record_boundary k)).

(** The block right behind the position, read as a mapping snapshot. *)
Definition mapping_at (bytes : list Z) (k : CheckpointDescriptor) (g : Geometry) (p : LogPosition)
    (first : Z) : res (option RecordHeader) :=
  if current_metadata bytes (c_volume_id k) then
    match PageRecord.decode_framing bytes g (c_volume_id k) with
    | Ok header =>
        if follows header (p_lsn p) (p_at p) && (h_boundary header =? first)
        then Ok (Some header) else Ok None
    | Err _ => Ok None
    | Panic => Panic
    end
  else Ok None.

(** A block at [boundary] that could be the footer of the next data record. *)
Definition data_at (bytes : list Z) (k : CheckpointDescriptor) (g : Geometry) (p : LogPosition)
    (boundary : Z) : res (option DataRecord) :=
  if negb (current_metadata bytes (c_volume_id k))
     || negb (bool_decide (Some (read_u64 bytes 16) = checked_add 64 (p_lsn p) 1))
     || negb (read_u32 bytes 24 =? p_at p)
     || negb (read_u32 bytes 28 =? boundary)
  then Ok None
  else
    fail_if (unsupported bytes)
      (InvalidData "unsupported record version or kind in replay tail") ;;?
    match DataRecord.decode bytes g (c_volume_id k) with
    | Ok record => Ok (Some record)
    | Err _ => Ok None
    | Panic => Panic
    end.

(** [for boundary in first + 1..=limit]. *)
Fixpoint search_footer (boundaries : list Z) (k : CheckpointDescriptor) (g : Geometry)
    (p : LogPosition) : M (BackingIo D) (option DataRecord) :=
  match boundaries with
  | [] => mret None
  | boundary :: boundaries =>
      bytes <- Io.read_block_exact boundary ;;
      Io.tally 0 0 0 0 0 1 ;;;
      found <- mlift (data_at bytes k g p boundary) ;;
      match found with
      | Some record => mret (Some record)
      | None => search_footer boundaries k g p
      end
  end.

Definition read_next (k : CheckpointDescriptor) (p : LogPosition) :
    M (BackingIo D) (option LogRecord) :=
  g <- mlift (Descriptor.geometry k) ;;
  mlift (fail_if (outside_tail k g p) (InvalidData "replay cursor is outside the checkpoint tail")) ;;;
  let first := p_at p + 1 in
  if first =? g_backing_blocks g then mret None
  else
    bytes <- Io.read_block_exact first ;;
    Io.tally 0 0 0 0 0 1 ;;;
    mapping <- mlift (mapping_at bytes k g p first) ;;
    match mapping with
    | Some header => mret (Some (LogMapping header))
    | None =>
        let suspect_mapping :=
          current_metadata bytes (c_volume_id k)
          && ((getb bytes 5 =? kind_byte MappingPage) || unsupported bytes) in
        let limit := Z.min (p_at p + MAXIMUM_RECORD_BLOCKS) (g_backing_blocks g - 1) in
        found <- search_footer (seqZ (first + 1) (limit - first)) k g p ;;
        match found with
        | Some record => mret (Some (LogData record))
        | None =>
            mlift (fail_if suspect_mapping (InvalidData "invalid mapping framing in replay tail")) ;;;
            mret None
        end
    end.

End tail.
End Tail.
