(* ===== verification/PageRead.v ===== *)
(** Reading mapping pages with adjacent read-ahead:
    [src/rust/src/format_v3/page_read.rs]. *)

From S2P Require Import Prelude Bytes Geometry Format Entries MappingPage Checkpoint Index.
From S2P Require Import Clock Sizing MappingCache Accounting Uring Device BackingIo.

Definition READ_AHEAD_PAGES : Z := 4.

(** [PageRead]: the blocks of the last read, [pr_count] of them. *)
Record PageRead := { pr_blocks : list (list Z); pr_count : Z }.

(** [io::Error::other(format!("mapping cache: {error:?}"))]. *)
Definition cache_error_name (e : CacheError) : string :=
  match e with
  | InvalidGeometry => "InvalidGeometry"
  | InvalidCapacity => "InvalidCapacity"
  | InvalidPage => "InvalidPage"
  | InvalidEntry => "InvalidEntry"
  | InvalidMapping => "InvalidMapping"
  | SizeOverflow => "SizeOverflow"
  | AllocationFailed => "AllocationFailed"
  end.
Definition cache_error (prefix : string) (e : CacheError) : io_error :=
  OtherError (prefix +:+ cache_error_name e).

Module PageRead.
Section read.
Context `{Xxh3} `{Platform} {D : Type} `{!Device D}.

Definition new : PageRead := {| pr_blocks := replicate (Z.to_nat READ_AHEAD_PAGES) zero_block; pr_count := 0 |}.

(** The loop over the pointers that follow [boundary] in the log. *)
Fixpoint run_length (fuel : nat) (limit : Z) (pointers : list Z) (page_id boundary count : Z) : Z :=
  match fuel with
  | O => count
  | S fuel =>
      if (count <? limit)
         && bool_decide (pointers !! Z.to_nat (page_id + count) = Some (boundary + count))
      then run_length fuel limit pointers page_id boundary (count + 1)
      else count
  end.

Definition expectation (k : Checkpoint) (g : Geometry) (page_id boundary : Z) : PageExpectation :=
  {| x_geometry := g; x_volume_id := c_volume_id (k_descriptor k); x_page_id := page_id;
     x_boundary := boundary; x_maximum_lsn := c_checkpoint_lsn (k_descriptor k) |}.

Definition decode (r : PageRead) (k : Checkpoint) (first_id offset : Z) : res MappingEntries :=
  assert_ (offset <? pr_count r) ;;?
  let page_id := first_id + offset in
  bytes <-? expect (pr_blocks r !! Z.to_nat offset) ;;
  g <-? Descriptor.geometry (k_descriptor k) ;;
  boundary <-? expect (k_pages k !! Z.to_nat page_id) ;;
  record <-? PageRecord.decode bytes (expectation k g page_id boundary) ;;
  Ok (p_entries record).

(** The buffer as [READ_AHEAD_PAGES] blocks, the first of which were read. *)
Definition stored (bytes : list Z) (r : PageRead) (n : Z) : list (list Z) :=
  map (fun i => slice (i * BLOCK_SIZE) BLOCK_SIZE bytes) (seqZ 0 n) ++ drop (Z.to_nat n) (pr_blocks r).

Definition read (k : Checkpoint) (page_id limit : Z) (r : PageRead) :
    M (BackingIo D) (MappingEntries * PageRead) :=
  mlift (assert_ ((1 <=? limit) && (limit <=? READ_AHEAD_PAGES))) ;;;
  g <- mlift (Descriptor.geometry (k_descriptor k)) ;;
  mlift (Geometry.page_entries g page_id) ;;;
  boundary <- mlift (expect (k_pages k !! Z.to_nat page_id)) ;;
  if boundary =? 0 then mret (Entries.zeroed, r)
  else
    let count := run_length (Z.to_nat limit) limit (k_pages k) page_id boundary 1 in
    let expected := count * BLOCK_SIZE in
    bytes <- Io.submit_exact (SqeRead (boundary * BLOCK_SIZE) expected) boundary expected ;;
    Io.tally count 1 0 0 0 0 ;;;
    let r := {| pr_blocks := stored bytes r count; pr_count := count |} in
    entries <- mlift (decode r k page_id 0) ;;
    mret (entries, r).

(** [install_prefetched]: the state is the I/O and the cache. *)
Definition install_prefetched (r : PageRead) (k : Checkpoint) (page_id : Z) :
    M (BackingIo D * MappingCache) unit :=
  mfor (seqZ 1 (pr_count r - 1)) (fun offset =>
    match decode r k page_id offset with
    | Ok entries =>
        kept <- zoom snd (fun c s => (fst s, c))
                  (mmap_err (cache_error "mapping cache: ")
                     (MappingCache.prefetch (page_id + offset) entries)) ;;
        if (kept : bool) then mret tt
        else zoom fst (fun io s => (io, snd s)) (Io.tally 0 0 1 0 0 0)
    | Err _ => zoom fst (fun io s => (io, snd s)) (Io.tally 0 0 1 0 0 0)
    | Panic => mlift Panic
    end).

End read.

(** ** The pages on disk *)

Section disk.
Context `{Xxh3}.

(** The page that the index of [k] points at in [f]. *)
Definition disk_page (f : Z -> list Z) (k : Checkpoint) (g : Geometry) (p : Z) : option MappingEntries :=
  match k_pages k !! Z.to_nat p with
  | None => None
  | Some b =>
      if b =? 0 then Some Entries.zeroed
      else match PageRecord.decode (f b) (expectation k g p b) with
           | Ok r => Some (p_entries r)
           | _ => None
           end
  end.

Lemma disk_page_ext f f' k g p :
  (forall b, b ∈ k_pages k -> b <> 0 -> f' b = f b) -> disk_page f' k g p = disk_page f k g p.
Proof.
  intros Hf. unfold disk_page. destruct (k_pages k !! Z.to_nat p) as [b|] eqn:E; [|done].
  destruct (Z.eqb_spec b 0); [done|]. rewrite Hf; [done | by eapply list_elem_of_lookup_2 | done].
Qed.

(** A later checkpoint of the volume with the same pointer has the same page. *)
Lemma disk_page_later f f' k k' g p e :
  k_pages k' !! Z.to_nat p = k_pages k !! Z.to_nat p ->
  (forall b, k_pages k !! Z.to_nat p = Some b -> b <> 0 -> f' b = f b) ->
  c_volume_id (k_descriptor k') = c_volume_id (k_descriptor k) ->
  c_checkpoint_lsn (k_descriptor k) <= c_checkpoint_lsn (k_descriptor k') ->
  disk_page f k g p = Some e -> disk_page f' k' g p = Some e.
Proof.
  intros Hp Hf Hv Hl. unfold disk_page. rewrite Hp.
  destruct (k_pages k !! Z.to_nat p) as [b|] eqn:E; [|done].
  destruct (Z.eqb_spec b 0) as [|Hb]; [done|]. rewrite (Hf b eq_refl Hb).
  destruct (PageRecord.decode (f b) (expectation k g p b)) as [r| |] eqn:Hd; try done. intros [= <-].
  rewrite (PageRecord.page_decode_later _ _ (expectation k' g p b) _ Hd); done.
Qed.

(** What a page on disk maps lies in the log before the end of the checkpoint. *)
Lemma disk_page_valid f k g p e :
  (forall b, block_ok (f b)) -> Index.wf k g -> 0 <= p -> disk_page f k g p = Some e ->
  Entries.typed e /\ Entries.valid e (MappingCache.page_entries (g_volume_blocks g) p) /\
  forall i, 0 <= i < ENTRIES_PER_PAGE -> (Entries.get e i).1 <> 0 ->
    g_log_start g <= (Entries.get e i).1 < c_last_record_boundary (k_descriptor k).
Proof.
  intros Hf Hwf Hp. unfold disk_page. destruct (k_pages k !! Z.to_nat p) as [b|] eqn:E; [|done].
  destruct (Z.eqb_spec b 0) as [->|Hb].
  { intros [= <-]. split; [apply Entries.zeroed_typed|]. split; [apply Entries.zeroed_valid|].
    intros i _. by rewrite Entries.get_zeroed. }
  destruct (PageRecord.decode (f b) (expectation k g p b)) as [r| |] eqn:Hd; try done. intros [= <-].
  pose proof (Geometry.new_wf _ _ _ (Index.wf_positive _ _ Hwf) (Index.wf_geometry _ _ Hwf)) as ([] & _).
  apply PageRecord.page_decode_Ok in Hd as ((Hty & Hu & Hte) & Hv & _ & Hid & Hbd & _); [|done].
  cbn [x_geometry x_page_id x_boundary expectation] in *.
  apply PageRecord.page_validate_Ok in Hv as []; [|lia].
  pose proof (proj1 (Forall_lookup _ _) (Index.wf_pointers _ _ Hwf) _ _ E) as (_ & [->|Hptr]); [done|].
  split; [done|]. split; [unfold MappingCache.page_entries; change ENTRIES_PER_PAGE with 336; by rewrite <- Hid|].
  intros i Hi Hne. specialize (pv_log i Hi Hne). lia.
Qed.

Lemma run_length_spec fuel limit ps p b c :
  0 <= p -> 1 <= c <= limit -> (forall i, 0 <= i < c -> ps !! Z.to_nat (p + i) = Some (b + i)) ->
  c <= run_length fuel limit ps p b c <= limit /\
  forall i, 0 <= i < run_length fuel limit ps p b c -> ps !! Z.to_nat (p + i) = Some (b + i).
Proof.
  intros Hp. revert c. induction fuel as [|fuel IH]; intros c Hc Hps; cbn [run_length]; [split; [lia|done]|].
  destruct (Z.ltb_spec c limit); cbn [andb]; [|split; [lia|done]].
  case_bool_decide as Hn; [|split; [lia|done]].
  destruct (IH (c + 1)) as [H1 H2]; [lia| |split; [lia|done]].
  intros i Hi. destruct (decide (i = c)) as [->|]; [done|]. apply Hps. lia.
Qed.

(** Decoding a block of the buffer that was read from [b] on. *)
Lemma decode_stored rd k g p b f off :
  Index.wf k g -> 0 <= off < pr_count rd -> pr_blocks rd !! Z.to_nat off = Some (f (b + off)) ->
  k_pages k !! Z.to_nat (p + off) = Some (b + off) -> b + off <> 0 ->
  decode rd k p off <> Panic /\
  forall e, decode rd k p off = Ok e -> disk_page f k g (p + off) = Some e.
Proof.
  intros Hwf Ho Hb Hk Hne. unfold decode, disk_page. destruct (Z.ltb_spec off (pr_count rd)); [|lia].
  rewrite Hb, (Index.wf_geometry _ _ Hwf), Hk. cbn [assert_ expect rbind].
  pose proof (PageRecord.page_decode_not_Panic (f (b + off)) (expectation k g (p + off) (b + off))) as Hnp.
  destruct (Z.eqb_spec (b + off) 0); [done|].
  destruct (PageRecord.decode _ _); cbn [rbind]; split; try done. by intros e [= <-].
Qed.

End disk.

(** ** The reads *)

Section reads.
Context `{Xxh3} `{Platform} {D : Type} `{!Device D} `{!DeviceLaws D}.

Lemma stored_nth bytes rd n i :
  0 <= i < n -> stored bytes rd n !! Z.to_nat i = Some (slice (i * BLOCK_SIZE) BLOCK_SIZE bytes).
Proof.
  intros Hi. unfold stored. rewrite lookup_app_l by (rewrite length_map, length_seqZ; lia).
  change (map ?f ?l) with (f <$> l). rewrite list_lookup_fmap, lookup_seqZ_lt by lia. cbn. do 3 f_equal. lia.
Qed.

(** A read returns the page on disk and buffers its neighbours in the log, as
    far as they hold the neighbouring pages. *)
Lemma read_spec k g p limit rd io r io' :
  Index.wf k g -> 0 <= p < g_page_count g -> 1 <= limit <= READ_AHEAD_PAGES -> pr_count rd = 0 ->
  read k p limit rd io = (r, io') ->
  Io.untouched io io' /\ r <> Panic /\
  forall e rd', r = Ok (e, rd') ->
    disk_page (Io.file io) k g p = Some e /\
    forall off, 1 <= off < pr_count rd' -> p + off < g_page_count g /\
      decode rd' k p off <> Panic /\
      forall e', decode rd' k p off = Ok e' -> disk_page (Io.file io) k g (p + off) = Some e'.
Proof.
  intros Hwf Hp Hl Hrd. pose proof (Index.wf_length _ _ Hwf) as Hlen. unfold read.
  destruct (lookup_lt_is_Some_2 (k_pages k) (Z.to_nat p)) as [b Hb]; [lia|].
  assert ((1 <=? limit) && (limit <=? READ_AHEAD_PAGES) = true) as -> by lia.
  rewrite (Index.wf_geometry _ _ Hwf). do 2 step.
  rewrite (proj2 (Geometry.page_entries_Ok g p _)) by (split; [lia | reflexivity]). step. rewrite Hb. step.
  destruct (Z.eqb_spec b 0) as [->|Hb0].
  { intros [= <- <-]. split; [apply Io.untouched_refl|]. split; [done|]. intros e rd' [= <- <-].
    unfold disk_page. rewrite Hb. cbn. split; [done|]. lia. }
  destruct (run_length_spec (Z.to_nat limit) limit (k_pages k) p b 1) as [Hn Hrun]; [lia|lia| |].
  { intros i Hi. assert (i = 0) as -> by lia. by rewrite !Z.add_0_r. }
  set (n := run_length _ _ _ _ _ _) in *. cbv zeta.
  pose proof (proj1 (Forall_lookup _ _) (Index.wf_pointers _ _ Hwf) _ _ Hb) as ([Hb1 _] & _).
  pose proof (Io.submit_exact_no_panic (SqeRead (b * BLOCK_SIZE) (n * BLOCK_SIZE)) b (n * BLOCK_SIZE) io) as Hnp.
  unfold mbind at 1. destruct (Io.submit_exact _ b (n * BLOCK_SIZE) io) as [r1 io1] eqn:E.
  apply Io.submit_exact_read in E as (Hu & _ & Hbytes); [|lia..].
  destruct r1 as [bytes|e|]; [|intros [= <- <-]; by split_and!|done].
  specialize (Hbytes bytes eq_refl). subst bytes. destruct (Io.tally_spec n 1 0 0 0 0 io1) as (io2 & Ht & _ & Hu2).
  step_with Ht. set (rd1 := Build_PageRead _ _).
  assert (Hdec : forall off, 0 <= off < n -> p + off < g_page_count g /\ decode rd1 k p off <> Panic /\
      forall e', decode rd1 k p off = Ok e' -> disk_page (Io.file io) k g (p + off) = Some e').
  { intros off Ho. pose proof (Hrun off Ho) as Hptr. pose proof (lookup_lt_Some _ _ _ Hptr).
    split; [lia|]. apply (decode_stored rd1 k g p b (Io.file io) off Hwf); try done; [|lia].
    unfold rd1; cbn [pr_blocks]. rewrite stored_nth by done. f_equal.
    apply blocks_of_slice; [intros x; apply content_ok | done]. }
  destruct (Hdec 0 ltac:(lia)) as (_ & Hnp0 & Hd0). rewrite Z.add_0_r in Hd0.
  unfold mbind, mlift, mret. pose proof (Io.untouched_trans _ _ _ Hu Hu2) as Hu3.
  destruct (decode rd1 k p 0) as [e| |]; [|intros [= <- <-]; by split_and!|done].
  intros [= <- <-]. split; [done|]. split; [done|]. intros e' rd' [= <- <-]. split; [by apply Hd0|].
  intros off Ho. apply Hdec. cbn [pr_count rd1] in Ho. lia.
Qed.

(** What the cache may do behind the scenes: drop clean pages, and hold clean
    copies of the pages on disk. *)
Definition refreshed (f : Z -> list Z) (k : Checkpoint) (g : Geometry) (c c' : MappingCache) : Prop :=
  forall q, MappingCache.view c' q = MappingCache.view c q \/
    ((forall e, MappingCache.view c q <> Some (e, true)) /\
     (MappingCache.view c' q = None \/
      exists e, MappingCache.view c' q = Some (e, false) /\ disk_page f k g q = Some e)).

Lemma refreshed_refl f k g c : refreshed f k g c c.
Proof. intros q. by left. Qed.

Lemma refreshed_trans f k g a b c : refreshed f k g a b -> refreshed f k g b c -> refreshed f k g a c.
Proof.
  intros Hab Hbc q. destruct (Hbc q) as [->|[Hn Hc]]; [apply Hab|].
  destruct (Hab q) as [E|[Hn' _]]; right; (split; [|done]); [by rewrite <- E | done].
Qed.

Lemma kept_refreshed f k g c c' :
  (forall q, MappingCache.kept c c' q) -> refreshed f k g c c'.
Proof.
  intros Hk q. destruct (Hk q) as [->|[-> [e He]]]; [by left|]. right. split; [|by left].
  intros e'. rewrite He. congruence.
Qed.

(** A clean copy of a page was brought in. *)
Lemma brought_refreshed f k g c c' p e :
  (forall d, MappingCache.view c p <> Some (d, true)) -> MappingCache.view c' p = Some (e, false) ->
  disk_page f k g p = Some e -> (forall q, q <> p -> MappingCache.kept c c' q) -> refreshed f k g c c'.
Proof.
  intros Hc Hp He Hk q. destruct (decide (q = p)) as [->|Hne].
  - right. split; [done|]. right. eauto.
  - destruct (Hk q Hne) as [->|[-> [d Hd]]]; [by left|]. right. split; [|by left]. intros d'. rewrite Hd. congruence.
Qed.

(** Installing the read-ahead never fails and only refreshes the cache. *)
Lemma install_prefetched_spec k g p rd f (io : BackingIo D) c :
  MappingCache.wf c -> volume_blocks c = g_volume_blocks g -> page_count (sizing c) = g_page_count g ->
  (forall b, block_ok (f b)) -> Index.wf k g -> 0 <= p ->
  (forall off, 1 <= off < pr_count rd -> p + off < g_page_count g /\
      decode rd k p off <> Panic /\
      forall e', decode rd k p off = Ok e' -> disk_page f k g (p + off) = Some e') ->
  exists (io' : BackingIo D) c', install_prefetched rd k p (io, c) = (Ok tt, (io', c')) /\ Io.untouched io io' /\
    MappingCache.wf c' /\ MappingCache.same_shape c c' /\ refreshed f k g c c'.
Proof.
  intros Hc Hvol Hpc Hf Hk Hp Hdec. unfold install_prefetched.
  assert (Hin : forall off, off ∈ seqZ 1 (pr_count rd - 1) -> 1 <= off < pr_count rd)
    by (intros off Ho%elem_of_seqZ; lia).
  revert Hin. generalize (seqZ 1 (pr_count rd - 1)) as offs. intros offs.
  revert io c Hc Hvol Hpc. induction offs as [|off offs IH]; intros io c Hc Hvol Hpc Hin.
  { exists io, c. split; [done|]. split; [apply Io.untouched_refl|]. split; [done|].
    split; [by unfold MappingCache.same_shape | apply refreshed_refl]. }
  destruct (Hdec off) as (Hlt & Hnp & Hok); [apply Hin; by left|].
  assert (Hnext : forall io1 c1, Io.untouched io io1 -> MappingCache.wf c1 -> MappingCache.same_shape c c1 ->
    refreshed f k g c c1 ->
    exists io' c', mfor offs (fun offset =>
      match decode rd k p offset with
      | Ok entries =>
          kept <- zoom snd (fun c s => (fst s, c))
                    (mmap_err (cache_error "mapping cache: ")
                       (MappingCache.prefetch (p + offset) entries)) ;;
          if (kept : bool) then mret tt
          else zoom fst (fun io s => (io, snd s)) (Io.tally 0 0 1 0 0 0)
      | Err _ => zoom fst (fun io s => (io, snd s)) (Io.tally 0 0 1 0 0 0)
      | Panic => mlift Panic
      end) (io1, c1) = (Ok tt, (io', c')) /\ Io.untouched io io' /\
    MappingCache.wf c' /\ MappingCache.same_shape c c' /\ refreshed f k g c c').
  { intros io1 c1 Hd1 Hc1 (Hs1 & Hv1 & Hl1) Hr1.
    destruct (IH io1 c1 Hc1 ltac:(congruence) ltac:(congruence)) as (io' & c' & Hrun & Hd & Hc' & (Hs & Hv & Hl) & Hr).
    { intros o Ho. apply Hin. by right. }
    exists io', c'. split; [exact Hrun|]. split; [by eapply Io.untouched_trans|]. split; [done|].
    split; [unfold MappingCache.same_shape; split_and!; congruence | by apply (refreshed_trans f k g c c1)]. }
  assert (Hrefl : MappingCache.same_shape c c) by (by unfold MappingCache.same_shape).
  cbn [mfor]. destruct (decode rd k p off) as [e|err|] eqn:Ed; [|step; apply Hnext; [by apply Io.untouched_same; [|intros E]|done|done|apply refreshed_refl]|done].
  specialize (Hok e eq_refl).
  destruct (disk_page_valid f k g (p + off) e Hf Hk) as ([Hsh _] & Hva & _);
    [specialize (Hin off ltac:(by left)); lia | done |].
  destruct (MappingCache.prefetch_Ok c (p + off) e Hc) as (b & c1 & Hrun & Hc1 & Hs1 & Hb & Hkept & _);
    [specialize (Hin off ltac:(by left)); lia | done | by rewrite Hvol |].
  unfold mbind at 1 2, zoom at 1, mmap_err. cbn [snd]. rewrite Hrun. cbn [map_err fst].
  destruct b.
  - unfold mret at 1. apply Hnext; try done. destruct Hb as [Hb1 Hb2].
    apply (brought_refreshed f k g c c1 (p + off) e); try done. intros d. by rewrite Hb1.
  - unfold zoom at 1, Io.tally, mmodify. cbn [fst snd]. apply Hnext; try done; [by apply Io.untouched_same; [|intros E]|].
    apply kept_refreshed. intros q. left. apply Hb.
Qed.

End reads.
End PageRead.
