(* ===== verification/CheckpointLoad.v ===== *)
(** Selection of the active checkpoint: [src/rust/src/format_v3/checkpoint_load.rs]. *)

From S2P Require Import Prelude Bytes Geometry Format Entries MappingPage Checkpoint Index.
From S2P Require Import Accounting Uring Device BackingIo Clock Sizing MappingCache PageRead.

Module Load.
Section load.
Context `{Xxh3} {D : Type} `{!Device D}.

(** The loop over the index blocks: decodes each and collects what was hashed. *)
Fixpoint read_index (blocks : list Z) (g : Geometry) (k : Checkpoint) (hashed : list Z) :
    M (BackingIo D) (Checkpoint * list Z) :=
  match blocks with
  | [] => mret (k, hashed)
  | block :: blocks =>
      bytes <- Io.read_block_exact (body_start (c_slot (k_descriptor k)) g + block) ;;
      k <- mlift (Index.decode_block k block bytes) ;;
      read_index blocks g k (hashed ++ bytes)
  end.

Definition mapped_entries (e : MappingEntries) : Z :=
  lenZ (filter (fun address => address <> 0) (physical_addr e)).

(** The loop over the pages: every snapshot must decode; counts the mapped blocks. *)
Fixpoint verify_pages (pages : list (Z * Z)) (g : Geometry) (k : Checkpoint) (live_blocks : Z) :
    M (BackingIo D) Z :=
  match pages with
  | [] => mret live_blocks
  | (page_id, boundary) :: pages =>
      if boundary =? 0 then verify_pages pages g k live_blocks
      else
        bytes <- Io.read_block_exact boundary ;;
        Io.tally 1 0 0 0 0 0 ;;;
        page <- mlift (PageRecord.decode bytes (PageRead.expectation k g page_id boundary)) ;;
        verify_pages pages g k (live_blocks + mapped_entries (p_entries page))
  end.

Definition load_candidate (descriptor : CheckpointDescriptor) : M (BackingIo D) (Checkpoint * Z) :=
  g <- mlift (Descriptor.geometry descriptor) ;;
  empty <- mlift (Index.empty g (c_volume_id descriptor)) ;;
  let k := {| k_descriptor := descriptor; k_pages := k_pages empty |} in
  loaded <- read_index (seqZ 0 (g_index_blocks g)) g k [] ;;
  let '(k, hashed) := loaded in
  mlift (fail_if (negb (xxh3 0 hashed =? c_index_checksum descriptor))
           (InvalidData "checkpoint index checksum mismatch")) ;;;
  live_blocks <- verify_pages (zip (seqZ 0 (lenZ (k_pages k))) (k_pages k)) g k 0 ;;
  mret (k, live_blocks).

(** A candidate: [InvalidData] means that there is none. *)
Definition read_descriptor (slot : CheckpointSlot) (backing_blocks : Z) :
    M (BackingIo D) (option CheckpointDescriptor) :=
  bytes <- Io.read_block_exact (slot_number slot) ;;
  match Descriptor.decode bytes slot backing_blocks with
  | Ok descriptor => mret (Some descriptor)
  | Err error => if is_invalid_data error then mret None else mlift (Err error)
  | Panic => mlift Panic
  end.

(** The candidates, newest first. *)
Definition order (green blue : option CheckpointDescriptor) : res (list CheckpointDescriptor) :=
  match green, blue with
  | Some g, Some b =>
      Descriptor.validate_pair g b ;;?
      Ok (if c_generation g <? c_generation b then [b; g] else [g; b])
  | _, _ => Ok (option_list green ++ option_list blue)
  end.

Fixpoint try_candidates (candidates : list CheckpointDescriptor) : M (BackingIo D) (Checkpoint * Z) :=
  match candidates with
  | [] => mlift (Err (InvalidData "no valid version-3 checkpoint"))
  | descriptor :: candidates =>
      loaded <- mtry (load_candidate descriptor) ;;
      match loaded with
      | Ok checkpoint => mret checkpoint
      | Err error => if is_invalid_data error then try_candidates candidates else mlift (Err error)
      | Panic => mlift Panic
      end
  end.

Definition load (backing_blocks : Z) : M (BackingIo D) (Checkpoint * Z) :=
  mlift (fail_if (negb ((2 <=? backing_blocks) && (backing_blocks <=? MAX_BACKING_BLOCKS)))
           (InvalidData "invalid checkpoint backing size")) ;;;
  green <- read_descriptor Green backing_blocks ;;
  blue <- read_descriptor Blue backing_blocks ;;
  candidates <- mlift (order green blue) ;;
  try_candidates candidates.

End load.
End Load.
