(* ===== verification/Publish.v ===== *)
(** Checkpoint publication: [src/rust/src/format_v3/checkpoint_publish.rs]. *)

From S2P Require Import Prelude Bytes Geometry Format Entries MappingPage Checkpoint Index.
From S2P Require Import Clock Sizing MappingCache Config Reservation Accounting Uring Device.
From S2P Require Import BackingIo Tail PageRead.

(** The [&mut] arguments of [publish]. *)
Record Store (D : Type) := {
  st_io : BackingIo D;
  st_active : Checkpoint;
  st_cache : MappingCache;
}.
Arguments st_io {D}.
Arguments st_active {D}.
Arguments st_cache {D}.
Arguments Build_Store {D}.

Module Publish.
Section publish.
Context `{Xxh3} `{Platform} {D : Type} `{!Device D}.

Definition on_io {A} (m : M (BackingIo D) A) : M (Store D) A :=
  zoom st_io (fun io s => {| st_io := io; st_active := st_active s; st_cache := st_cache s |}) m.
Definition on_cache {A} (m : M MappingCache A) : M (Store D) A :=
  zoom st_cache (fun c s => {| st_io := st_io s; st_active := st_active s; st_cache := c |}) m.

(** The descriptor with new log coordinates. *)
Definition advance (d : CheckpointDescriptor) (lsn boundary : Z) : CheckpointDescriptor :=
  {| c_slot := c_slot d; c_volume_id := c_volume_id d; c_volume_blocks := c_volume_blocks d;
     c_backing_blocks := c_backing_blocks d; c_checkpoint_lsn := lsn;
     c_last_record_boundary := boundary; c_index_checksum := c_index_checksum d;
     c_generation := c_generation d |}.

(** The descriptor in the other slot, with the next generation. *)
Definition successor (d : CheckpointDescriptor) (generation : Z) (tail : LogPosition) : CheckpointDescriptor :=
  {| c_slot := slot_other (c_slot d); c_volume_id := c_volume_id d;
     c_volume_blocks := c_volume_blocks d; c_backing_blocks := c_backing_blocks d;
     c_checkpoint_lsn := p_lsn tail; c_last_record_boundary := p_at tail;
     c_index_checksum := c_index_checksum d; c_generation := generation |}.

Definition with_checksum (d : CheckpointDescriptor) (sum : Z) : CheckpointDescriptor :=
  {| c_slot := c_slot d; c_volume_id := c_volume_id d; c_volume_blocks := c_volume_blocks d;
     c_backing_blocks := c_backing_blocks d; c_checkpoint_lsn := c_checkpoint_lsn d;
     c_last_record_boundary := c_last_record_boundary d; c_index_checksum := sum;
     c_generation := c_generation d |}.

Definition with_descriptor (d : CheckpointDescriptor) (k : Checkpoint) : Checkpoint :=
  {| k_descriptor := d; k_pages := k_pages k |}.

Definition prepare (active : Checkpoint) (cache : MappingCache) (tail : LogPosition) : res Checkpoint :=
  let descriptor := k_descriptor active in
  g <-? Descriptor.geometry descriptor ;;
  assert_ (lenZ (k_pages active) =? g_page_count g) ;;?
  let snapshots := lenZ (MappingCache.dirty_pages cache) in
  fail_if ((p_lsn tail <? c_checkpoint_lsn descriptor)
           || (p_at tail <? c_last_record_boundary descriptor)
           || (p_at tail - c_last_record_boundary descriptor <? p_lsn tail - c_checkpoint_lsn descriptor)
           || negb (Bool.eqb (p_lsn tail =? c_checkpoint_lsn descriptor)
                             (p_at tail =? c_last_record_boundary descriptor)))
    (InvalidInput "checkpoint tail precedes or contradicts active root") ;;?
  Reservation.ensure_space (p_at tail) (g_backing_blocks g) snapshots ;;?
  ok_or (checked_add 64 (p_lsn tail) snapshots) (InvalidInput "checkpoint LSN exhausted") ;;?
  generation <-? Descriptor.next_generation descriptor ;;
  candidate <-? Index.try_clone active ;;
  Ok (with_descriptor (successor descriptor generation tail) candidate).

(** The loop of [append_batch] over the ids of the pages that were written. *)
Fixpoint point_at (page_ids : list Z) (candidate : Checkpoint) : res Checkpoint :=
  match page_ids with
  | [] => Ok candidate
  | page_id :: page_ids =>
      let d := k_descriptor candidate in
      let d := advance d (c_checkpoint_lsn d + 1) (c_last_record_boundary d + 1) in
      assert_ (page_id <? lenZ (k_pages candidate)) ;;?
      point_at page_ids
        {| k_descriptor := d;
           k_pages := <[Z.to_nat page_id := c_last_record_boundary d]> (k_pages candidate) |}
  end.

Definition append_batch (candidate : Checkpoint) (blocks : list (list Z)) (page_ids : list Z) :
    M (BackingIo D) Checkpoint :=
  mlift (assert_ (lenZ blocks =? lenZ page_ids)) ;;;
  Io.write_blocks (c_last_record_boundary (k_descriptor candidate) + 1) blocks ;;;
  Io.tally 0 0 0 (lenZ blocks) 0 0 ;;;
  mlift (point_at page_ids candidate).

(** The snapshot of a page, [count] records behind the candidate's end of log. *)
Definition snapshot_record (d : CheckpointDescriptor) (count page_id : Z) (entries : MappingEntries) :
    MappingPageRecord :=
  let previous := c_last_record_boundary d + count in
  {| p_header := {| h_kind := MappingPage; h_volume_id := c_volume_id d;
                    h_lsn := c_checkpoint_lsn d + count + 1;
                    h_previous_boundary := previous; h_boundary := previous + 1 |};
     p_page_id := page_id; p_entries := entries |}.

(** The loop of [append_snapshots]; [blocks] and [ids] are the batch so far. *)
Fixpoint append_pages (pages : list (Z * MappingEntries)) (g : Geometry) (candidate : Checkpoint)
    (blocks : list (list Z)) (ids : list Z) : M (BackingIo D) Checkpoint :=
  match pages with
  | [] => if lenZ blocks =? 0 then mret candidate else append_batch candidate blocks ids
  | (page_id, entries) :: pages =>
      block <- mlift (PageRecord.encode
                        (snapshot_record (k_descriptor candidate) (lenZ blocks) page_id entries) g) ;;
      let blocks := blocks ++ [block] in
      let ids := ids ++ [page_id] in
      if lenZ blocks =? CHECKPOINT_BATCH_BLOCKS then
        candidate <- append_batch candidate blocks ids ;;
        append_pages pages g candidate [] []
      else append_pages pages g candidate blocks ids
  end.

(** [append_snapshots]; the candidate is returned instead of updated in place. *)
Definition append_snapshots (candidate : Checkpoint) : M (BackingIo D * MappingCache) Checkpoint :=
  g <- mlift (Descriptor.geometry (k_descriptor candidate)) ;;
  pages <- zoom snd (fun c s => (fst s, c))
             (mmap_err (fun _ => OtherError "unreachable") MappingCache.sorted_dirty_pages) ;;
  zoom fst (fun io s => (io, snd s)) (append_pages pages g candidate [] []).

(** The batches of the index body. *)
Definition write_body (g : Geometry) (candidate : Checkpoint) (start : Z) : M (BackingIo D) unit :=
  let count := Z.min (g_index_blocks g - start) CHECKPOINT_BATCH_BLOCKS in
  blocks <- mlift (rmapM (fun offset => Index.encode_block candidate (start + offset)) (seqZ 0 count)) ;;
  Io.write_blocks (body_start (c_slot (k_descriptor candidate)) g + start) blocks ;;;
  Io.tally 0 0 0 0 (count * BLOCK_SIZE) 0.

(** [(0..n).step_by(32)]. *)
Definition batch_starts (n : Z) : list Z :=
  map (fun i => i * CHECKPOINT_BATCH_BLOCKS) (seqZ 0 (div_ceil n CHECKPOINT_BATCH_BLOCKS)).

Definition persist_root (candidate : Checkpoint) : M (BackingIo D) Checkpoint :=
  g <- mlift (Descriptor.geometry (k_descriptor candidate)) ;;
  sum <- mlift (Index.checksum candidate) ;;
  let candidate := with_descriptor (with_checksum (k_descriptor candidate) sum) candidate in
  mfor (batch_starts (g_index_blocks g)) (write_body g candidate) ;;;
  Io.sync ;;;
  block <- mlift (Descriptor.encode (k_descriptor candidate)) ;;
  Io.write_blocks (slot_number (c_slot (k_descriptor candidate))) [block] ;;;
  Io.sync ;;;
  mret candidate.

(** The end of the log of a checkpoint. *)
Definition end_of (k : Checkpoint) : LogPosition :=
  {| p_lsn := c_checkpoint_lsn (k_descriptor k); p_at := c_last_record_boundary (k_descriptor k) |}.

Definition publish (tail : LogPosition) : M (Store D) LogPosition :=
  s <- mget ;;
  candidate <- mlift (prepare (st_active s) (st_cache s) tail) ;;
  candidate <- zoom (fun s => (st_io s, st_cache s))
                 (fun p s => {| st_io := fst p; st_active := st_active s; st_cache := snd p |})
                 (append_snapshots candidate) ;;
  on_io Io.sync ;;;
  candidate <- on_io (persist_root candidate) ;;
  mmodify (fun s => {| st_io := st_io s; st_active := candidate;
                       st_cache := MappingCache.checkpoint_published (st_cache s) |}) ;;;
  mret (end_of candidate).

End publish.

(** ** What publication does to the file *)

Section laws.
Context `{Xxh3} `{Platform} {D : Type} `{!Device D} `{!DeviceLaws D}.

(** [point_at] moves the end of the log up and points the ids at its blocks. *)
Lemma point_at_spec ids k :
  NoDup ids -> (forall p, p ∈ ids -> 0 <= p < lenZ (k_pages k)) ->
  exists k', point_at ids k = Ok k' /\
    k_descriptor k' = advance (k_descriptor k) (c_checkpoint_lsn (k_descriptor k) + lenZ ids)
                        (c_last_record_boundary (k_descriptor k) + lenZ ids) /\
    length (k_pages k') = length (k_pages k) /\
    (forall i p, ids !! i = Some p ->
       k_pages k' !! Z.to_nat p = Some (c_last_record_boundary (k_descriptor k) + Z.of_nat i + 1)) /\
    (forall p, 0 <= p -> p ∉ ids -> k_pages k' !! Z.to_nat p = k_pages k !! Z.to_nat p).
Proof.
  revert k. induction ids as [|p ids IH]; intros k Hnd Hin.
  { exists k. split; [done|]. split; [|done]. cbn. rewrite !Z.add_0_r. by destruct k as [[] ?]. }
  apply NoDup_cons in Hnd as [Hp Hnd]. pose proof (Hin p ltac:(by left)) as Hpr.
  cbn [point_at]. destruct (Z.ltb_spec p (lenZ (k_pages k))); [|lia]. cbn [assert_ rbind].
  set (k1 := Build_Checkpoint _ _). destruct (IH k1 Hnd) as (k' & Hrun & Hd & Hl & Hi & Ho).
  { intros q Hq. unfold k1; cbn [k_pages]. rewrite length_insert. apply Hin. by right. }
  unfold k1 in Hl, Hi, Ho, Hd; cbn [k_pages k_descriptor c_last_record_boundary c_checkpoint_lsn advance] in *.
  rewrite length_insert in Hl. exists k'. split; [exact Hrun|]. split.
  { rewrite Hd. cbn [length]. unfold advance; cbn. f_equal; lia. }
  split; [done|]. split.
  - intros [|i] q Hq; cbn in Hq.
    + injection Hq as <-. rewrite Ho by (done || lia). rewrite list_lookup_insert_eq by lia. f_equal. lia.
    + rewrite (Hi i q Hq). f_equal. lia.
  - intros q Hq Hnot. apply not_elem_of_cons in Hnot as [Hne Hnot]. rewrite Ho by done.
    apply list_lookup_insert_ne. lia.
Qed.

(** [blocks] are the snapshots of [l] behind the end of the log of [d]. *)
Definition encoded (g : Geometry) (d : CheckpointDescriptor) (l : list (Z * MappingEntries))
    (blocks : list (list Z)) : Prop :=
  length blocks = length l /\
  forall i p e, l !! i = Some (p, e) -> exists b, blocks !! i = Some b /\
    PageRecord.encode (snapshot_record d (Z.of_nat i) p e) g = Ok b.

Lemma encoded_snoc g d l blocks p e b :
  encoded g d l blocks -> PageRecord.encode (snapshot_record d (lenZ blocks) p e) g = Ok b ->
  encoded g d (l ++ [(p, e)]) (blocks ++ [b]).
Proof.
  intros [Hl He] Hb. split; [rewrite !length_app; cbn; lia|]. intros i q f Hi.
  destruct (decide (i < length l)%nat).
  - rewrite lookup_app_l in Hi by done. rewrite lookup_app_l by lia. by apply He.
  - rewrite lookup_app_r in Hi by lia.
    destruct (i - length l)%nat as [|n'] eqn:En; [|by destruct n'].
    cbn in Hi. injection Hi as <- <-. exists b. replace i with (length blocks) by lia.
    split; [by rewrite list_lookup_middle | done].
Qed.

Lemma encoded_ok g d l blocks : encoded g d l blocks -> Forall block_ok blocks.
Proof.
  intros [Hl He]. apply Forall_lookup. intros i b Hb. pose proof (lookup_lt_Some _ _ _ Hb).
  destruct (lookup_lt_is_Some_2 l i) as [[p e] Hi]; [lia|]. destruct (He i p e Hi) as (b' & Hb' & Henc).
  assert (b' = b) as -> by congruence. apply PageRecord.page_encode_Ok in Henc as (_ & _ & ->).
  apply seal_ok, PageRecord.snapshot_ok.
Qed.

Lemma snapshot_record_advance d m i p e :
  snapshot_record (advance d (c_checkpoint_lsn d + m) (c_last_record_boundary d + m)) i p e =
  snapshot_record d (m + i) p e.
Proof. unfold snapshot_record, advance; cbn. do 2 f_equal; lia. Qed.

(** The blocks of [l] behind the end of the log of [k], and pointers to them. *)
Definition appended (g : Geometry) (f : Z -> list Z) (k k' : Checkpoint) (l : list (Z * MappingEntries)) : Prop :=
  let d := k_descriptor k in
  k_descriptor k' = advance d (c_checkpoint_lsn d + lenZ l) (c_last_record_boundary d + lenZ l) /\
  length (k_pages k') = length (k_pages k) /\
  (forall i p e, l !! i = Some (p, e) ->
     k_pages k' !! Z.to_nat p = Some (c_last_record_boundary d + Z.of_nat i + 1) /\
     PageRecord.encode (snapshot_record d (Z.of_nat i) p e) g = Ok (f (c_last_record_boundary d + Z.of_nat i + 1))) /\
  (forall p, 0 <= p -> p ∉ l.*1 -> k_pages k' !! Z.to_nat p = k_pages k !! Z.to_nat p).

(** The log blocks that [n] records behind [k] take. *)
Definition behind (k : Checkpoint) (n x : Z) : Prop :=
  c_last_record_boundary (k_descriptor k) < x <= c_last_record_boundary (k_descriptor k) + n.

Lemma append_batch_spec g k l blocks io r io' :
  encoded g (k_descriptor k) l blocks -> NoDup l.*1 ->
  (forall p, p ∈ l.*1 -> 0 <= p < lenZ (k_pages k)) -> (0 < length l <= 32)%nat ->
  0 <= c_last_record_boundary (k_descriptor k) ->
  c_last_record_boundary (k_descriptor k) + lenZ l < MAX_BACKING_BLOCKS ->
  append_batch k blocks l.*1 io = (r, io') ->
  r <> Panic /\ Io.changed (behind k (lenZ l)) io io' /\
  forall k', r = Ok k' -> appended g (Io.file io') k k' l.
Proof.
  intros Henc Hnd Hin Hl Hlast Hmax. pose proof Henc as [Hlen Hblk].
  unfold append_batch. rewrite length_fmap, Hlen, Z.eqb_refl. step. unfold mbind at 1.
  destruct (Io.write_blocks _ blocks io) as [r1 io1] eqn:E.
  apply Io.write_blocks_spec in E as (Ht & Hf & Hnp); [|lia|by eapply encoded_ok].
  rewrite Hlen in *. specialize (Hnp ltac:(lia) ltac:(lia)).
  assert (Hch : Io.changed (behind k (lenZ l)) io io1).
  { eapply Io.touched_changed; [exact Ht|]. unfold behind. lia. }
  destruct r1 as [[]|e|]; [|intros [= <- <-]; by split_and!|done].
  specialize (Hf eq_refl). destruct (Io.tally_spec 0 0 0 (lenZ l) 0 0 io1) as (io2 & Ht2 & Hd2 & Hu2).
  step_with Ht2. destruct (point_at_spec l.*1 k Hnd Hin) as (k1 & Hrun & Hd & Hpl & Hi & Ho).
  rewrite Hrun. intros [= <- <-]. split; [done|].
  split; [eapply Io.changed_trans; [exact Hch | by apply Io.untouched_changed]|].
  intros k' [= <-]. rewrite length_fmap in Hd. split; [exact Hd|]. split; [exact Hpl|]. split; [|exact Ho].
  intros i p e Hpe. split.
  { apply Hi. rewrite list_lookup_fmap, Hpe. done. }
  destruct (Hblk i p e Hpe) as (b & Hb & Hen). rewrite Hen. f_equal. destruct Hu2 as [Hu2 _].
  rewrite Hu2, Hf. symmetry.
  replace (c_last_record_boundary (k_descriptor k) + Z.of_nat i + 1)
    with (c_last_record_boundary (k_descriptor k) + 1 + Z.of_nat i) by lia.
  apply overwrite_inside; [lia|]. by rewrite Nat2Z.id.
Qed.

Lemma point_at_app ids1 ids2 k : point_at (ids1 ++ ids2) k = (k1 <-? point_at ids1 k ;; point_at ids2 k1).
Proof.
  revert k. induction ids1 as [|p ids1 IH]; intros k; [done|]. cbn [app point_at].
  destruct (assert_ _) as [[]|e|]; cbn [rbind]; [apply IH|done..].
Qed.

Lemma append_batch_points k blocks ids io k' io' :
  append_batch (D := D) k blocks ids io = (Ok k', io') -> point_at ids k = Ok k'.
Proof.
  unfold append_batch. intros Hrun. do 3 (apply mbind_Ok in Hrun as (? & ? & _ & Hrun)).
  unfold mlift in Hrun. by injection Hrun as Hp _.
Qed.

(** The checkpoint that the loop makes depends on the pages, not on the device. *)
Lemma append_pages_points g k blocks ids pages io k' io' :
  lenZ ids = lenZ blocks -> append_pages (D := D) pages g k blocks ids io = (Ok k', io') ->
  point_at (ids ++ pages.*1) k = Ok k'.
Proof.
  revert k blocks ids io. induction pages as [|[p e] pages IH]; intros k blocks ids io Hl; cbn [append_pages].
  - rewrite fmap_nil, app_nil_r. destruct (Z.eqb_spec (lenZ blocks) 0) as [E|_]; [|apply append_batch_points].
    assert (ids = []) as -> by (apply nil_length_inv; lia). by intros [= <- _].
  - intros Hrun. apply mbind_Ok in Hrun as (b & io1 & _ & Hrun). cbv zeta in Hrun.
    rewrite fmap_cons, (assoc_L (++) ids [p] pages.*1 : ids ++ p :: pages.*1 = _). cbn [fst].
    destruct (_ =? CHECKPOINT_BATCH_BLOCKS).
    + apply mbind_Ok in Hrun as (k1 & io2 & Hb & Hrun). apply append_batch_points in Hb. apply IH in Hrun; [|done].
      by rewrite point_at_app, Hb.
    + apply IH in Hrun; [done|]. rewrite !length_app. cbn. lia.
Qed.

Lemma append_snapshots_points k io c k' s :
  append_snapshots (D := D) k (io, c) = (Ok k', s) ->
  exists l, (MappingCache.sorted_dirty_pages c).1 = Ok l /\ point_at l.*1 k = Ok k'.
Proof.
  unfold append_snapshots. intros Hrun. apply mbind_Ok in Hrun as (g & s1 & Hg & Hrun).
  unfold mlift in Hg. injection Hg as _ <-. apply mbind_Ok in Hrun as (l & s2 & Hl & Hrun).
  unfold zoom, mmap_err in Hl. cbn [fst snd] in Hl. destruct (MappingCache.sorted_dirty_pages c) as [[l'|e|] c1]; try done.
  injection Hl as -> <-. exists l. split; [done|]. unfold zoom in Hrun. cbn [fst snd] in Hrun.
  destruct (append_pages _ _ _ _ _ _) as [r io1] eqn:E. injection Hrun as -> _.
  by apply append_pages_points in E.
Qed.

(** The root that a publication sets out to write, but for its checksum. *)
Definition planned (tail : LogPosition) (s : Store D) : res Checkpoint :=
  candidate <-? prepare (st_active s) (st_cache s) tail ;;
  pages <-? map_err (fun _ => OtherError "unreachable") (MappingCache.sorted_dirty_pages (st_cache s)).1 ;;
  point_at pages.*1 candidate.

(** Two batches in a row. *)
Lemma appended_app g f f' k k1 k2 l1 l2 :
  NoDup (l1 ++ l2).*1 -> (forall p, p ∈ (l1 ++ l2).*1 -> 0 <= p) ->
  appended g f k k1 l1 -> appended g f' k1 k2 l2 ->
  (forall x, ~ behind k1 (lenZ l2) x -> f' x = f x) ->
  appended g f' k k2 (l1 ++ l2).
Proof.
  intros Hnd Hpos (Hd1 & Hl1 & Hi1 & Ho1) (Hd2 & Hl2 & Hi2 & Ho2) Hf. rewrite fmap_app in *.
  apply NoDup_app in Hnd as (Hn1 & Hdis & Hn2).
  split.
  { rewrite Hd2, Hd1, length_app, Nat2Z.inj_add. unfold advance; cbn [c_slot c_volume_id c_volume_blocks
      c_backing_blocks c_checkpoint_lsn c_last_record_boundary c_index_checksum c_generation].
    f_equal; lia. }
  split; [congruence|]. split.
  - intros i p e Hi. destruct (decide (i < length l1)%nat) as [Hlt|Hge].
    + rewrite lookup_app_l in Hi by done. destruct (Hi1 i p e Hi) as [Hp He].
      assert (Hin : p ∈ l1.*1) by (apply list_elem_of_fmap; exists (p, e); split; [done | by eapply list_elem_of_lookup_2]).
      split; [rewrite Ho2; [done | apply Hpos; set_solver | by apply Hdis]|].
      rewrite He. f_equal. symmetry. apply Hf. unfold behind. rewrite Hd1. cbn. lia.
    + rewrite lookup_app_r in Hi by lia. destruct (Hi2 _ p e Hi) as [Hp He].
      rewrite Hd1, snapshot_record_advance in He. rewrite Hd1 in Hp.
      cbn [advance c_last_record_boundary] in *. split; [rewrite Hp; f_equal; lia|].
      replace (Z.of_nat i) with (lenZ l1 + Z.of_nat (i - length l1)) by lia. rewrite He. do 2 f_equal. lia.
  - intros p Hp Hnot. rewrite Ho2, Ho1 by (done || set_solver). done.
Qed.

Lemma append_pages_spec g k l blocks pages io r io' :
  encoded g (k_descriptor k) l blocks -> NoDup (l ++ pages).*1 ->
  (forall p, p ∈ (l ++ pages).*1 -> 0 <= p < lenZ (k_pages k)) -> (length l < 32)%nat ->
  0 <= c_last_record_boundary (k_descriptor k) ->
  c_last_record_boundary (k_descriptor k) + lenZ (l ++ pages) < MAX_BACKING_BLOCKS ->
  append_pages pages g k blocks l.*1 io = (r, io') ->
  r <> Panic /\ Io.changed (behind k (lenZ (l ++ pages))) io io' /\
  forall k', r = Ok k' -> appended g (Io.file io') k k' (l ++ pages).
Proof.
  revert k l blocks io. induction pages as [|[p e] pages IH]; intros k l blocks io Henc Hnd Hin Hl Hlast Hmax.
  - rewrite app_nil_r in *. cbn [append_pages]. pose proof Henc as [Hlen _].
    destruct (Z.eqb_spec (lenZ blocks) 0) as [E|E].
    + assert (l = []) as -> by (apply nil_length_inv; lia). intros [= <- <-].
      split; [done|]. split; [apply Io.changed_refl|]. intros k' [= <-]. split.
      { cbn. rewrite !Z.add_0_r. by destruct (k_descriptor k). }
      done.
    + apply append_batch_spec; try done. lia.
  - cbn [append_pages]. unfold mbind at 1, mlift at 1.
    pose proof (PageRecord.page_encode_not_Panic (snapshot_record (k_descriptor k) (lenZ blocks) p e) g) as Hnp.
    destruct (PageRecord.encode _ g) as [b|err|] eqn:Eb;
      [|intros [= <- <-]; by split_and!; try apply Io.changed_refl|done].
    pose proof (encoded_snoc g _ l blocks p e b Henc Eb) as Henc'.
    assert (Hids : l.*1 ++ [p] = (l ++ [(p, e)]).*1) by (by rewrite fmap_app).
    assert (Happ : l ++ (p, e) :: pages = (l ++ [(p, e)]) ++ pages) by (by rewrite <- app_assoc).
    rewrite Happ in *. rewrite Hids. cbv zeta. pose proof Henc' as [Hlen' _].
    set (l' := l ++ [(p, e)]) in *. set (blocks' := blocks ++ [b]) in *.
    assert (Hl' : (0 < length l' <= 32)%nat) by (unfold l'; rewrite length_app; cbn; lia).
    change CHECKPOINT_BATCH_BLOCKS with 32. destruct (Z.eqb_spec (lenZ blocks') 32) as [E|E].
    2: { apply IH; try done. lia. }
    unfold mbind at 1. destruct (append_batch k blocks' l'.*1 io) as [r1 io1] eqn:E1.
    rewrite length_app in *. pose proof Hnd as Hnd'. rewrite fmap_app in Hnd'.
    apply NoDup_app in Hnd' as (Hn1 & _ & Hn2).
    apply (append_batch_spec g) in E1 as (Hnp1 & Hch1 & Hok1); try done; try lia.
    2: { intros q Hq. apply Hin. rewrite fmap_app. set_solver. }
    assert (Hch : Io.changed (behind k (lenZ l' + lenZ pages)) io io1).
    { eapply Io.changed_mono; [|exact Hch1]. unfold behind. lia. }
    rewrite Nat2Z.inj_add in *. destruct r1 as [k1|err|]; [|intros [= <- <-]; by split_and!|done].
    specialize (Hok1 k1 eq_refl). pose proof Hok1 as (Hd1 & Hpl1 & _). intros Hrun.
    apply (IH k1 [] []) in Hrun as (Hnp2 & Hch2 & Hok2); try done; rewrite ?Hd1, ?Hpl1; cbn; try lia.
    2: { intros q Hq. apply Hin. rewrite fmap_app. set_solver. }
    assert (Hch2' : Io.changed (behind k (lenZ l' + lenZ pages)) io1 io').
    { eapply Io.changed_mono; [|exact Hch2]. unfold behind. rewrite Hd1. cbn. lia. }
    split; [done|]. split; [by eapply Io.changed_trans|].
    intros k' ->. eapply (appended_app g (Io.file io1)); [exact Hnd| |exact Hok1|by apply Hok2|by apply Hch2].
    intros q Hq. by apply Hin.
Qed.

(** Every dirty page of [c] has a snapshot behind [k]; [k'] points at them. *)
Record snapshotted (g : Geometry) (f : Z -> list Z) (c : MappingCache) (k k' : Checkpoint) : Prop := {
  sn_descriptor : k_descriptor k' = advance (k_descriptor k)
    (c_checkpoint_lsn (k_descriptor k) + lenZ (MappingCache.dirty_pages c))
    (c_last_record_boundary (k_descriptor k) + lenZ (MappingCache.dirty_pages c));
  sn_length : length (k_pages k') = length (k_pages k);
  sn_dirty : forall p e, MappingCache.view c p = Some (e, true) ->
    exists i, 0 <= i < lenZ (MappingCache.dirty_pages c) /\
      k_pages k' !! Z.to_nat p = Some (c_last_record_boundary (k_descriptor k) + i + 1) /\
      PageRecord.encode (snapshot_record (k_descriptor k) i p e) g
        = Ok (f (c_last_record_boundary (k_descriptor k) + i + 1));
  sn_clean : forall p, 0 <= p -> (forall e, MappingCache.view c p <> Some (e, true)) ->
    k_pages k' !! Z.to_nat p = k_pages k !! Z.to_nat p;
}.

Lemma append_snapshots_spec g k io c r s :
  Descriptor.geometry (k_descriptor k) = Ok g -> MappingCache.wf c ->
  page_count (sizing c) = lenZ (k_pages k) ->
  0 <= c_last_record_boundary (k_descriptor k) ->
  c_last_record_boundary (k_descriptor k) + lenZ (MappingCache.dirty_pages c) < MAX_BACKING_BLOCKS ->
  append_snapshots k (io, c) = (r, s) ->
  r <> Panic /\ Io.changed (behind k (lenZ (MappingCache.dirty_pages c))) io s.1 /\
  MappingCache.wf s.2 /\ MappingCache.same_shape c s.2 /\
  (forall q, MappingCache.view s.2 q = MappingCache.view c q) /\
  forall k', r = Ok k' -> snapshotted g (Io.file s.1) c k k'.
Proof.
  intros Hg Hc Hpc Hlast Hmax. unfold append_snapshots. rewrite Hg. step.
  destruct (MappingCache.sorted_dirty_pages_Ok c Hc) as (l & c1 & Hrun & Hc1 & Hsh & Hv & _ & Hnd & Hel & Hperm).
  erewrite mbind_run; [|unfold zoom, mmap_err; cbn [snd fst]; rewrite Hrun; reflexivity].
  unfold zoom; cbn [fst snd map_err]. destruct (append_pages l g k [] [] io) as [r1 io1] eqn:E.
  pose proof (Permutation_length Hperm) as Hlen. intros [= <- <-]. cbn [fst snd].
  apply (append_pages_spec g k [] []) in E as (Hnp & Hch & Hok);
    [|done|exact Hnd| |cbn; lia|done|cbn [app]; lia]; cbn [app] in *.
  2: { intros p ([q e] & -> & Hin)%list_elem_of_fmap. apply Hel in Hin. cbn. rewrite <- Hpc.
       apply MappingCache.view_Some in Hin as (sl & ? & ? & ? & ? & ? & ? & Hl); [|done].
       by eapply MappingCache.wf_lookup_page. }
  rewrite Hlen in *. split; [done|]. split; [done|]. split; [done|]. split; [done|]. split; [done|].
  intros k' ->. destruct (Hok k' eq_refl) as (Hd & Hpl & Hi & Ho). rewrite Hlen in Hd. constructor; try done.
  - intros p e Hpe. apply Hel in Hpe. apply list_elem_of_lookup in Hpe as [i Hpe].
    pose proof (lookup_lt_Some _ _ _ Hpe). exists (Z.of_nat i). split; [lia|]. by apply Hi.
  - intros p Hp Hno. apply Ho; [done|]. intros ([q e] & -> & Hin)%list_elem_of_fmap.
    by apply Hel, Hno in Hin.
Qed.

(** ** The root *)

Definition body_blocks (s : CheckpointSlot) (g : Geometry) (x : Z) : Prop :=
  body_start s g <= x < body_start s g + g_index_blocks g.

(** The descriptor and the index of [k] are on the file. *)
Definition rooted (f : Z -> list Z) (k : Checkpoint) (g : Geometry) : Prop :=
  Descriptor.encode (k_descriptor k) = Ok (f (slot_number (c_slot (k_descriptor k)))) /\
  Index.checksum k = Ok (c_index_checksum (k_descriptor k)) /\
  forall b, 0 <= b < g_index_blocks g ->
    Index.encode_block k b = Ok (f (body_start (c_slot (k_descriptor k)) g + b)).

Lemma body_bounds s g : Geometry.wf g ->
  2 <= body_start s g /\ body_start s g + g_index_blocks g <= g_log_start g /\ g_log_start g <= MAX_BACKING_BLOCKS.
Proof.
  intros [Hv Hp Hi Hs Hb]. change MAX_BACKING_BLOCKS with (2 ^ 32).
  unfold body_start. destruct s; lia.
Qed.

Lemma write_body_spec g k start io r io' :
  Index.wf k g -> Geometry.wf g -> 0 <= start < g_index_blocks g ->
  write_body g k start io = (r, io') ->
  let n := Z.min (g_index_blocks g - start) 32 in
  let body := body_start (c_slot (k_descriptor k)) g in
  r <> Panic /\ Io.changed (fun x => body + start <= x < body + start + n) io io' /\
  (r = Ok tt -> forall b, start <= b < start + n -> Index.encode_block k b = Ok (Io.file io' (body + b))).
Proof.
  intros Hk Hg Hs. pose proof (body_bounds (c_slot (k_descriptor k)) g Hg) as (Hb1 & Hb2 & Hb3).
  unfold write_body. change CHECKPOINT_BATCH_BLOCKS with 32. cbv zeta.
  set (n := Z.min _ 32). set (body := body_start _ g) in *. assert (Hn : 0 < n <= 32) by lia.
  destruct (Index.encode_blocks_total k g start n Hk ltac:(lia) ltac:(lia)) as [blocks Er]. rewrite Er.
  pose proof Er as Hf2. apply rmapM_Ok in Hf2. step.
  pose proof (Forall2_length _ _ _ Hf2) as Hlen. rewrite length_seqZ in Hlen.
  assert (Hnth : forall o, 0 <= o < n -> exists b, blocks !! Z.to_nat o = Some b /\ Index.encode_block k (start + o) = Ok b).
  { intros o Ho. destruct (Forall2_lookup_l _ _ _ (Z.to_nat o) o Hf2) as (b & Hb & He); [|eauto].
    rewrite lookup_seqZ_lt by lia. f_equal. lia. }
  unfold mbind at 1. destruct (Io.write_blocks (body + start) blocks io) as [r1 io1] eqn:E.
  apply Io.write_blocks_spec in E as (Ht & Hf & Hnp); [|lia|].
  2: { apply Forall_lookup. intros i b Hb. pose proof (lookup_lt_Some _ _ _ Hb).
       destruct (Hnth (Z.of_nat i)) as (b' & Hb' & He); [lia|]. rewrite Nat2Z.id in Hb'.
       assert (b' = b) as -> by congruence. apply (Index.encode_block_ok k g (start + Z.of_nat i)); [done|lia|done]. }
  replace (lenZ blocks) with n in * by lia. specialize (Hnp ltac:(lia) ltac:(lia)).
  assert (Hch : Io.changed (fun x => body + start <= x < body + start + n) io io1).
  { eapply Io.touched_changed; [exact Ht | done]. }
  destruct r1 as [[]|e|]; [|intros [= <- <-]; by split_and!|done].
  destruct (Io.tally_spec 0 0 0 0 (n * BLOCK_SIZE) 0 io1) as (io2 & Ht2 & _ & Hu2). rewrite Ht2.
  intros [= <- <-]. split; [done|].
  split; [eapply Io.changed_trans; [exact Hch | by apply Io.untouched_changed]|].
  intros _ b Hb. destruct (Hnth (b - start)) as (blk & Hblk & He); [lia|].
  replace (start + (b - start)) with b in He by lia. rewrite He. f_equal. destruct Hu2 as [Hu2 _].
  rewrite Hu2, (Hf eq_refl). replace (body + b) with (body + start + (b - start)) by lia.
  symmetry. apply overwrite_inside; [lia|done].
Qed.

(** The batches from [j] on. *)
Lemma body_loop g k j m io r io' :
  Index.wf k g -> Geometry.wf g -> 0 <= j -> (m = 0%nat \/ (j + Z.of_nat m - 1) * 32 < g_index_blocks g) ->
  mfor (map (fun i => i * CHECKPOINT_BATCH_BLOCKS) (seqZ j (Z.of_nat m))) (write_body g k) io = (r, io') ->
  let body := body_start (c_slot (k_descriptor k)) g in
  r <> Panic /\ Io.changed (fun x => body + j * 32 <= x < body + g_index_blocks g) io io' /\
  (r = Ok tt -> forall b, j * 32 <= b < Z.min ((j + Z.of_nat m) * 32) (g_index_blocks g) ->
     Index.encode_block k b = Ok (Io.file io' (body + b))).
Proof.
  intros Hk Hg. cbv zeta. set (body := body_start _ g).
  revert j io. induction m as [|m IH]; intros j io Hj Hm.
  { intros [= <- <-]. split; [done|]. split; [apply Io.changed_refl|]. lia. }
  rewrite seqZ_cons by lia. replace (Z.pred (Z.of_nat (S m))) with (Z.of_nat m) by lia.
  cbn [map mfor]. change CHECKPOINT_BATCH_BLOCKS with 32. unfold mbind at 1.
  destruct (write_body g k (j * 32) io) as [r1 io1] eqn:E.
  apply write_body_spec in E as (Hnp & Hch & Hok); [|done|done|lia]. fold body in Hch, Hok.
  assert (Hch' : Io.changed (fun x => body + j * 32 <= x < body + g_index_blocks g) io io1).
  { eapply Io.changed_mono; [|exact Hch]. cbv beta. lia. }
  destruct r1 as [[]|e|]; [|intros [= <- <-]; by split_and!|done]. specialize (Hok eq_refl).
  intros Hrun. apply IH in Hrun as (Hnp2 & Hch2 & Hok2); [|lia|lia].
  split; [done|]. split.
  { eapply Io.changed_trans; [exact Hch'|]. eapply Io.changed_mono; [|exact Hch2]. cbv beta. lia. }
  intros -> b Hb. destruct (decide (b < (j + 1) * 32)); [|apply Hok2; [done|lia]].
  destruct Hch2 as [Hf2 _]. rewrite Hf2 by lia. apply Hok. lia.
Qed.

Lemma write_index_body g k io r io' :
  Index.wf k g -> Geometry.wf g ->
  mfor (batch_starts (g_index_blocks g)) (write_body g k) io = (r, io') ->
  r <> Panic /\ Io.changed (body_blocks (c_slot (k_descriptor k)) g) io io' /\
  (r = Ok tt -> forall b, 0 <= b < g_index_blocks g ->
     Index.encode_block k b = Ok (Io.file io' (body_start (c_slot (k_descriptor k)) g + b))).
Proof.
  intros Hk Hg Hrun. unfold batch_starts in Hrun.
  assert (Hi : 0 < g_index_blocks g) by (destruct Hg; lia).
  pose proof (div_ceil_spec (g_index_blocks g) CHECKPOINT_BATCH_BLOCKS ltac:(done)) as Hd.
  change CHECKPOINT_BATCH_BLOCKS with 32 in Hd at 1 3.
  replace (div_ceil (g_index_blocks g) CHECKPOINT_BATCH_BLOCKS)
    with (Z.of_nat (Z.to_nat (div_ceil (g_index_blocks g) CHECKPOINT_BATCH_BLOCKS))) in Hrun by lia.
  apply body_loop in Hrun as (Hnp & Hch & Hok); [|done|done|lia|lia].
  split; [done|]. split; [eapply Io.changed_mono; [|exact Hch]; unfold body_blocks; cbv beta; lia|].
  intros -> b Hb. apply Hok; [done|]. lia.
Qed.

Lemma wf_reroot k g sum :
  Index.wf k g -> Index.wf (with_descriptor (with_checksum (k_descriptor k) sum) k) g.
Proof. intros []. by constructor. Qed.

(** The body, made durable. *)
Lemma index_body_durable g k io r io' :
  Index.wf k g -> Geometry.wf g ->
  (mfor (batch_starts (g_index_blocks g)) (write_body g k) ;;; Io.sync) io = (r, io') ->
  r <> Panic /\ Io.changed (body_blocks (c_slot (k_descriptor k)) g) io io' /\
  (r = Ok tt -> Io.durable io' /\ forall b, 0 <= b < g_index_blocks g ->
     Index.encode_block k b = Ok (Io.file io' (body_start (c_slot (k_descriptor k)) g + b))).
Proof.
  intros Hk Hg. unfold mbind. destruct (mfor _ (write_body g k) io) as [r1 io1] eqn:E1.
  apply write_index_body in E1 as (Hnp1 & Hch1 & Hok1); [|done|done].
  destruct r1 as [[]|e|]; [|intros [= <- <-]; by split_and!|done].
  intros Hrun. apply Io.sync_spec in Hrun as (Hu & Hnp & Hd). split; [done|].
  split; [eapply Io.changed_trans; [exact Hch1 | by apply Io.untouched_changed]|].
  intros ->. split; [by apply Hd|]. intros b Hb. destruct Hu as [Hu _]. rewrite Hu. by apply Hok1.
Qed.

(** The descriptor, over a durable file. *)
Lemma descriptor_durable slot block io r io' :
  Io.durable io -> block_ok block ->
  (Io.write_blocks (slot_number slot) [block] ;;; Io.sync) io = (r, io') ->
  r <> Panic /\ Io.changed (fun x => x = slot_number slot) io io' /\
  (forall c, may_hold (dev io') c -> forall x, x <> slot_number slot -> c x = Io.file io' x) /\
  (r = Ok tt -> Io.durable io' /\ Io.file io' (slot_number slot) = block).
Proof.
  intros Hdur Hblk. assert (Hslot : 0 <= slot_number slot <= 1) by (by destruct slot).
  unfold mbind. destruct (Io.write_blocks _ _ io) as [r1 io1] eqn:E1.
  apply Io.write_blocks_spec in E1 as (Ht & Hf & Hnp); [|lia|by apply Forall_singleton].
  change (lenZ [block]) with 1 in *.
  specialize (Hnp ltac:(lia) ltac:(change MAX_BACKING_BLOCKS with 4294967296; lia)).
  assert (Hch : Io.changed (fun x => x = slot_number slot) io io1).
  { eapply Io.touched_changed; [exact Ht|]. cbv beta. lia. }
  assert (Hc : forall io2, Io.untouched io1 io2 -> forall c, may_hold (dev io2) c ->
    forall x, x <> slot_number slot -> c x = Io.file io2 x).
  { intros io2 (Hu & Hm & _) c Hc x Hx. destruct Hch as (Hf1 & Hm1 & _). destruct (Hm1 c (Hm c Hc)) as (c0 & Hc0 & Heq).
    by rewrite Heq, (Hdur c0 Hc0), Hu, Hf1. }
  destruct r1 as [[]|e|]; [|intros [= <- <-]; split_and!; try done; by apply Hc, Io.untouched_refl|done].
  intros Hrun. apply Io.sync_spec in Hrun as (Hu & Hnp2 & Hd). split; [done|].
  split; [eapply Io.changed_trans; [exact Hch | by apply Io.untouched_changed]|].
  split; [by apply Hc|]. intros ->. split; [by apply Hd|]. destruct Hu as [Hu _]. rewrite Hu, (Hf eq_refl).
  replace (slot_number slot) with (slot_number slot + 0) at 2 by lia.
  by apply (overwrite_inside (Io.file io) (slot_number slot) [block] 0).
Qed.

(** The body of [k] is on the file, and a crash may only tear the descriptor. *)
Definition body_in_place (io : BackingIo D) (k : Checkpoint) (g : Geometry) : Prop :=
  let slot := c_slot (k_descriptor k) in
  (forall b, 0 <= b < g_index_blocks g ->
     Index.encode_block k b = Ok (Io.file io (body_start slot g + b))) /\
  forall c, may_hold (dev io) c -> forall x, x <> slot_number slot -> c x = Io.file io x.

(** Before the descriptor is written nothing but the index body changes; once
    the descriptor may have been written, everything else is in place, on the
    file and after any crash. *)
Lemma persist_root_spec g k io r io' :
  Index.wf k g -> Geometry.wf g -> persist_root k io = (r, io') ->
  let slot := c_slot (k_descriptor k) in
  r <> Panic /\
  Io.changed (fun x => body_blocks slot g x \/ x = slot_number slot) io io' /\
  (Io.changed (body_blocks slot g) io io' \/ body_in_place io' k g) /\
  forall k', r = Ok k' -> Io.durable io' /\ rooted (Io.file io') k' g /\
    exists sum, k' = with_descriptor (with_checksum (k_descriptor k) sum) k /\ Index.checksum k = Ok sum.
Proof.
  intros Hk Hg. unfold persist_root. rewrite (Index.wf_geometry _ _ Hk). step.
  destruct (Index.checksum_total k g Hk) as (sum & Hsum & _). rewrite Hsum. step.
  set (k1 := with_descriptor (with_checksum (k_descriptor k) sum) k). cbv zeta.
  pose proof (wf_reroot k g sum Hk) as Hk1. fold k1 in Hk1.
  pose proof (fun b => Index.encode_block_ext k1 k b eq_refl eq_refl eq_refl) as Hext.
  pose proof (Index.checksum_ext k1 k eq_refl eq_refl eq_refl) as Hsum1. rewrite Hsum in Hsum1.
  set (slot := c_slot (k_descriptor k)). change (c_slot (k_descriptor k1)) with slot.
  rewrite <- mbind_assoc. unfold mbind at 1.
  match goal with |- context [mbind ?a ?b io] => destruct (mbind a b io) as [r1 io1] eqn:E1 end.
  apply index_body_durable in E1 as (Hnp1 & Hch1 & Hok1); [|done|done].
  change (c_slot (k_descriptor k1)) with slot in Hch1, Hok1.
  set (P := fun x => body_blocks slot g x \/ x = slot_number slot).
  assert (Hch1' : Io.changed P io io1) by (eapply Io.changed_mono; [|exact Hch1]; unfold P; tauto).
  destruct r1 as [[]|e|]; [|intros [= <- <-]; split_and!; try done; by left|done].
  destruct (Hok1 eq_refl) as [Hd1 Hbody1]. unfold mbind at 1, mlift at 1.
  pose proof (Descriptor.descriptor_encode_not_Panic (k_descriptor k1)) as Hnp3.
  destruct (Descriptor.encode (k_descriptor k1)) as [block|e|] eqn:E3;
    [|intros [= <- <-]; split_and!; try done; by left|done].
  assert (Hblk : block_ok block).
  { unfold Descriptor.encode in E3. apply rbind_Ok in E3 as (? & _ & [= <-]).
    apply seal_ok, Descriptor.descriptor_ok. }
  rewrite <- mbind_assoc. unfold mbind at 1.
  match goal with |- context [mbind ?a ?b io1] => destruct (mbind a b io1) as [r2 io2] eqn:E2 end.
  apply descriptor_durable in E2 as (Hnp2 & Hch2 & Hc2 & Hok2); [|done|done].
  assert (Hplace : body_in_place io2 k g).
  { split; [|exact Hc2]. intros b Hb. rewrite <- Hext. destruct Hch2 as [Hf2 _]. rewrite Hf2; [by apply Hbody1|].
    pose proof (body_bounds slot g Hg). fold slot. assert (slot_number slot <= 1) by (by destruct slot). lia. }
  assert (Hch : Io.changed P io io2).
  { eapply Io.changed_trans; [exact Hch1'|]. eapply Io.changed_mono; [|exact Hch2]. unfold P. tauto. }
  destruct r2 as [[]|e|]; intros [= <- <-]; split_and!; try done; try by right.
  destruct (Hok2 eq_refl) as [Hd2 Hf2]. intros k' [= <-]. split; [done|]. split; [|by exists sum].
  split; [change (c_slot (k_descriptor k1)) with slot; by rewrite E3, Hf2|]. split; [exact Hsum1|]. intros b Hb. rewrite Hext. by apply (proj1 Hplace).
Qed.

(** ** Coherent mappings *)

(** The active root [k], the cache [c] and the end [tail] of the log agree with
    the file [f]: every page of the volume can be read, clean pages are copies
    of the pages on disk, and nothing maps a block behind the tail. *)
Record coherent (g : Geometry) (f : Z -> list Z) (k : Checkpoint) (c : MappingCache) (tail : LogPosition) : Prop := {
  co_geometry : Geometry.wf g;
  co_index : Index.wf k g;
  co_typed : Descriptor.typed (k_descriptor k);
  co_start : g_log_start g - 1 <= c_last_record_boundary (k_descriptor k);
  co_cache : MappingCache.wf c;
  co_volume : volume_blocks c = g_volume_blocks g;
  co_lsn : c_checkpoint_lsn (k_descriptor k) <= p_lsn tail < 2 ^ 64;
  co_tail : c_last_record_boundary (k_descriptor k) <= p_at tail < g_backing_blocks g;
  co_disk : forall p, 0 <= p < g_page_count g -> is_Some (PageRead.disk_page f k g p);
  co_clean : forall p e, MappingCache.view c p = Some (e, false) -> PageRead.disk_page f k g p = Some e;
  co_entries : forall p e d, MappingCache.view c p = Some (e, d) -> Entries.typed e /\
    forall i, 0 <= i < ENTRIES_PER_PAGE -> (Entries.get e i).1 <> 0 ->
      g_log_start g <= (Entries.get e i).1 <= p_at tail;
}.

(** The entries of a page, wherever they are. *)
Definition page (g : Geometry) (f : Z -> list Z) (k : Checkpoint) (c : MappingCache) (p : Z) : MappingEntries :=
  match MappingCache.view c p with
  | Some (e, _) => e
  | None => default Entries.zeroed (PageRead.disk_page f k g p)
  end.

Lemma page_count_eq g c :
  Geometry.wf g -> MappingCache.wf c -> volume_blocks c = g_volume_blocks g ->
  page_count (sizing c) = g_page_count g.
Proof.
  intros [Hv Hp _ _ _] Hc He. rewrite (MappingCache.wf_pages _ Hc), He.
  pose proof (div_ceil_spec (g_volume_blocks g) ENTRIES_PER_PAGE ltac:(done)) as Hd.
  change ENTRIES_PER_PAGE with 336 in Hd at 1 3. lia.
Qed.

(** The pointers of a root name blocks of its log. *)
Lemma pointer_range g k p b :
  Index.wf k g -> k_pages k !! p = Some b -> b <> 0 ->
  g_log_start g <= b <= c_last_record_boundary (k_descriptor k) /\ is_u32 b.
Proof.
  intros Hk Hb Hne. pose proof (proj1 (Forall_lookup _ _) (Index.wf_pointers _ _ Hk) _ _ Hb) as (Hu & [->|Hr]);
    [done|]. split; [lia|done].
Qed.

(** Blocks that no mapping of a coherent state names may change. *)
Lemma coherent_frame g f f' k c c' tail :
  coherent g f k c tail -> MappingCache.wf c' -> MappingCache.same_shape c c' ->
  (forall p, MappingCache.view c' p = MappingCache.view c p) ->
  (forall x, g_log_start g <= x <= c_last_record_boundary (k_descriptor k) -> f' x = f x) ->
  coherent g f' k c' tail /\ forall p, page g f' k c' p = page g f k c p.
Proof.
  intros [] Hc' (Hs & Hvol & _) Hv Hf.
  assert (Hd : forall p, PageRead.disk_page f' k g p = PageRead.disk_page f k g p).
  { intros p. apply PageRead.disk_page_ext. intros b Hb Hne. apply Hf.
    apply list_elem_of_lookup in Hb as [i Hi]. by apply (pointer_range g k i b). }
  split.
  - constructor; try done; try congruence.
    + intros p Hp. rewrite Hd. auto.
    + intros p e. rewrite Hv, Hd. auto.
    + intros p e d. rewrite Hv. apply co_entries0.
  - intros p. unfold page. by rewrite Hv, Hd.
Qed.

(** The cache may be refreshed from the disk. *)
Lemma coherent_refreshed g f k c c' tail :
  (forall b, block_ok (f b)) ->
  coherent g f k c tail -> MappingCache.wf c' -> MappingCache.same_shape c c' ->
  PageRead.refreshed f k g c c' ->
  coherent g f k c' tail /\ (forall p, page g f k c' p = page g f k c p) /\
  forall p e, MappingCache.view c' p = Some (e, true) <-> MappingCache.view c p = Some (e, true).
Proof.
  intros Hf Hco Hc' (Hs & Hvol & _) Hr. pose proof Hco as [].
  assert (Hrange : forall p s, MappingCache.view c' p = Some s -> 0 <= p).
  { intros p [e d] Hp. apply MappingCache.view_Some in Hp as (sl & ? & ? & ? & ? & ? & ? & Hl); [|done].
    apply (MappingCache.wf_lookup_page c' p sl Hc' Hl). }
  split_and!.
  - constructor; try done; try congruence.
    + intros p e Hp. destruct (Hr p) as [E|[_ [E|(e' & E & Hd)]]]; rewrite E in Hp; [auto|done|congruence].
    + intros p e d Hp. destruct (Hr p) as [E|[_ [E|(e' & E & Hd)]]]; rewrite E in Hp; [by eapply co_entries0|done|].
      injection Hp as <- <-. destruct (PageRead.disk_page_valid f k g p e' Hf co_index0) as (Ht & _ & Hlog);
        [by eapply Hrange|done|]. split; [done|]. intros i Hi Hne. specialize (Hlog i Hi Hne). lia.
  - intros p. unfold page. destruct (Hr p) as [->|[Hn [->|(e & -> & Hd)]]]; [done| |].
    + destruct (MappingCache.view c p) as [[e []]|] eqn:E; [by destruct (Hn e)| |done].
      by rewrite (co_clean0 p e E).
    + destruct (MappingCache.view c p) as [[e' []]|] eqn:E; [by destruct (Hn e')| |by rewrite Hd].
      apply co_clean0 in E. congruence.
  - intros p e. destruct (Hr p) as [->|[Hn [->|(e' & -> & _)]]]; [done| |]; split; intros Hx;
      try done; by destruct (Hn e).
Qed.

(** ** Publication *)

Lemma prepare_spec g f k c tail :
  coherent g f k c tail -> prepare k c tail <> Panic /\ forall cand, prepare k c tail = Ok cand ->
    cand = with_descriptor (successor (k_descriptor k) (c_generation (k_descriptor k) + 1) tail) k /\
    c_generation (k_descriptor k) + 1 < 2 ^ 64 /\
    p_lsn tail + lenZ (MappingCache.dirty_pages c) < 2 ^ 64 /\
    p_at tail + lenZ (MappingCache.dirty_pages c) < g_backing_blocks g /\
    (p_lsn tail = c_checkpoint_lsn (k_descriptor k) <-> p_at tail = c_last_record_boundary (k_descriptor k)) /\
    p_lsn tail - c_checkpoint_lsn (k_descriptor k) <= p_at tail - c_last_record_boundary (k_descriptor k).
Proof.
  intros []. unfold prepare. rewrite (Index.wf_geometry _ _ co_index0). cbn [rbind].
  rewrite (Index.wf_length _ _ co_index0), Z.eqb_refl. cbn [rbind assert_]. split.
  - apply rbind_not_Panic; [apply fail_if_not_Panic|]. intros _ _.
    apply rbind_not_Panic; [apply Reservation.ensure_space_not_Panic|]. intros _ _.
    apply rbind_not_Panic; [apply ok_or_not_Panic|]. intros _ _.
    apply rbind_not_Panic; [unfold Descriptor.next_generation; apply ok_or_not_Panic|]. intros n _. done.
  - intros cand Hp. ok_inv. unfold Index.try_clone in *. ok_inv. bool_prop.
    match goal with H : Reservation.ensure_space _ _ _ = Ok _ |- _ =>
      apply Reservation.ensure_space_Ok in H as (_ & _ & Hs) end.
    match goal with H : ok_or (checked_add 64 _ _) _ = Ok _ |- _ =>
      apply ok_or_Ok, checked_add_Some in H as [_ Hl] end.
    match goal with H : Descriptor.next_generation _ = Ok _ |- _ =>
      apply Descriptor.next_generation_Ok in H as [-> Hgen] end.
    match goal with H : Bool.eqb _ _ = true |- _ => apply eqb_prop in H end.
    split; [by destruct k|]. split; [done|]. split; [done|]. split; [done|].
    split; [|lia]. rewrite <- !Z.eqb_eq. by f_equiv.
Qed.

(** A root whose snapshots are in place is well formed and has every page. *)
Lemma snapshotted_root g f f' k c tail gen k1 :
  coherent g f k c tail -> p_lsn tail + lenZ (MappingCache.dirty_pages c) < 2 ^ 64 ->
  p_at tail + lenZ (MappingCache.dirty_pages c) < g_backing_blocks g -> is_u64 gen ->
  snapshotted g f' c (with_descriptor (successor (k_descriptor k) gen tail) k) k1 ->
  (forall x, g_log_start g <= x <= p_at tail -> f' x = f x) ->
  Index.wf k1 g /\ Descriptor.typed (k_descriptor k1) /\
  forall p, 0 <= p < g_page_count g -> PageRead.disk_page f' k1 g p = Some (page g f k c p).
Proof.
  intros [] Hlsn Hat Hgen [Hd Hl Hdirty Hclean] Hf. set (n := lenZ (MappingCache.dirty_pages c)) in *.
  unfold with_descriptor, successor, advance in Hd; cbn [k_descriptor k_pages c_slot c_volume_id c_volume_blocks
    c_backing_blocks c_checkpoint_lsn c_last_record_boundary c_index_checksum c_generation] in Hd.
  cbn [with_descriptor k_descriptor k_pages successor c_last_record_boundary] in *.
  destruct co_index0 as [Hgeo Hpos Hlen Hptr]. pose proof co_geometry0 as [Hgv Hgp Hgi Hgs Hgb].
  destruct co_typed0 as (T1 & T2 & T3 & T4 & T5 & T6 & T7).
  assert (Hn : 0 <= n) by (unfold n; lia).
  assert (Hvol : g_volume_blocks g = c_volume_blocks (k_descriptor k) /\
                 g_backing_blocks g = c_backing_blocks (k_descriptor k)).
  { by apply Geometry.new_wf in Hgeo as (_ & <- & <-). }
  assert (Hcase : forall p, (exists e, MappingCache.view c p = Some (e, true)) \/
                            (forall e, MappingCache.view c p <> Some (e, true))).
  { intros p. destruct (MappingCache.view c p) as [[e []]|]; [left; by exists e| |]; right; congruence. }
  split_and!.
  - constructor; rewrite ?Hd; cbn; try done; [lia|]. apply Forall_lookup. intros j b Hb.
    destruct (Hcase (Z.of_nat j)) as [[e He]|Hno].
    + destruct (Hdirty _ e He) as (i & Hi & Hp & _). rewrite Nat2Z.id, Hb in Hp. injection Hp as ->.
      split; [red; lia|]. right. rewrite Hd; cbn. lia.
    + pose proof (Hclean (Z.of_nat j) ltac:(lia) Hno) as Hp. rewrite Nat2Z.id, Hb in Hp. symmetry in Hp.
      destruct (proj1 (Forall_lookup _ _) Hptr _ _ Hp) as [Hu [->|Hr]]; (split; [done|]); [by left|].
      right. rewrite Hd; cbn. lia.
  - rewrite Hd. unfold Descriptor.typed, is_u32, is_u64 in *; cbn. lia.
  - intros p Hp. unfold page. destruct (Hcase p) as [[e He]|Hno].
    + rewrite He. destruct (Hdirty p e He) as (i & Hi & Hb & Henc). unfold PageRead.disk_page. rewrite Hb.
      destruct (Z.eqb_spec (p_at tail + i + 1) 0); [lia|].
      assert (Hty : PageRecord.typed (snapshot_record (successor (k_descriptor k) gen tail) i p e)).
      { unfold PageRecord.typed, header_typed, is_u32, is_u64 in *; cbn.
        split_and!; try lia. by apply (co_entries0 p e true). }
      destruct (PageRecord.page_encode_decode _ g _ (c_checkpoint_lsn (k_descriptor k1)) Hty ltac:(lia) Henc)
        as (_ & _ & Hdec); [rewrite Hd; cbn; lia|].
      cbn in Hdec. unfold PageRead.expectation. rewrite Hd at 1. cbn. by rewrite Hdec.
    + apply (PageRead.disk_page_later f f' k k1); [apply Hclean; [lia|done]| | by rewrite Hd | rewrite Hd; cbn; lia |].
      { intros b Hb Hne. apply Hf. destruct (proj1 (Forall_lookup _ _) Hptr _ _ Hb) as [_ [->|Hr]]; [done|lia]. }
      destruct (MappingCache.view c p) as [[e []]|] eqn:E; [by destruct (Hno e)|by apply co_clean0|].
      destruct (co_disk0 p Hp) as [e ->]. done.
Qed.

(** The blocks that publication may write: the log behind the tail, and the
    other root. *)
Definition log_region (tail : LogPosition) (n x : Z) : Prop := p_at tail < x <= p_at tail + n.

Definition region (g : Geometry) (k : Checkpoint) (tail : LogPosition) (n x : Z) : Prop :=
  let slot := slot_other (c_slot (k_descriptor k)) in
  log_region tail n x \/ body_blocks slot g x \/ x = slot_number slot.

Lemma region_log g k tail n x :
  Geometry.wf g -> g_log_start g - 1 <= p_at tail -> region g k tail n x -> g_log_start g <= x -> log_region tail n x.
Proof.
  intros Hg Ht [?|[Hb|Hs]] Hx; [done| |]; exfalso.
  - pose proof (body_bounds (slot_other (c_slot (k_descriptor k))) g Hg). unfold body_blocks in Hb. lia.
  - destruct Hg, (slot_other (c_slot (k_descriptor k))); cbn in Hs; lia.
Qed.

(** The next root of a volume. *)
Definition follows_root (d d1 : CheckpointDescriptor) : Prop :=
  c_slot d1 = slot_other (c_slot d) /\ c_volume_id d1 = c_volume_id d /\
  c_volume_blocks d1 = c_volume_blocks d /\ c_backing_blocks d1 = c_backing_blocks d /\
  c_generation d1 = c_generation d + 1.

(** All of the new root but its descriptor is in place. *)
Definition complete (g : Geometry) (io : BackingIo D) (k1 : Checkpoint) (pages : Z -> MappingEntries) : Prop :=
  Index.wf k1 g /\ body_in_place io k1 g /\
  forall p, 0 <= p < g_page_count g -> PageRead.disk_page (Io.file io) k1 g p = Some (pages p).

(** The new root took over. *)
Record published (g : Geometry) (s s' : Store D) (tail tail' : LogPosition) : Prop := {
  pb_durable : Io.durable (st_io s');
  pb_rooted : rooted (Io.file (st_io s')) (st_active s') g;
  pb_slot : c_slot (k_descriptor (st_active s')) = slot_other (c_slot (k_descriptor (st_active s)));
  pb_generation : c_generation (k_descriptor (st_active s')) = c_generation (k_descriptor (st_active s)) + 1;
  pb_volume : c_volume_id (k_descriptor (st_active s')) = c_volume_id (k_descriptor (st_active s));
  pb_tail : tail' = end_of (st_active s');
  pb_lsn : p_lsn tail' = p_lsn tail + lenZ (MappingCache.dirty_pages (st_cache s));
  pb_at : p_at tail' = p_at tail + lenZ (MappingCache.dirty_pages (st_cache s));
  pb_views : forall p, MappingCache.view (st_cache s') p =
    match MappingCache.view (st_cache s) p with Some (e, _) => Some (e, false) | None => None end;
  pb_clean : MappingCache.dirty_pages (st_cache s') = [];
}.

(** The state of a publication that failed. *)
Record unpublished (s s' : Store D) : Prop := {
  up_active : st_active s' = st_active s;
  up_views : forall p, MappingCache.view (st_cache s') p = MappingCache.view (st_cache s) p;
}.

Lemma coherent_published g f f3 k c c1 tail k1 sum :
  coherent g f k c tail -> Index.wf k1 g -> Descriptor.typed (k_descriptor k1) -> is_u64 sum ->
  MappingCache.wf c1 -> MappingCache.same_shape c c1 ->
  (forall q, MappingCache.view c1 q = MappingCache.view c q) ->
  (forall p, 0 <= p < g_page_count g -> PageRead.disk_page f3 k1 g p = Some (page g f k c p)) ->
  p_at tail <= c_last_record_boundary (k_descriptor k1) < g_backing_blocks g ->
  c_checkpoint_lsn (k_descriptor k1) < 2 ^ 64 ->
  let k2 := with_descriptor (with_checksum (k_descriptor k1) sum) k1 in
  let c2 := MappingCache.checkpoint_published c1 in
  coherent g f3 k2 c2 (end_of k2) /\
  forall p, 0 <= p < g_page_count g -> page g f3 k2 c2 p = page g f k c p.
Proof.
  intros Hco Hk1 Hty Hsum Hc1 (Hsz & Hvol & _) Hv Hpages Hat Hlsn k2 c2. pose proof Hco as [].
  destruct (MappingCache.published_Ok c1 Hc1) as (Hc2 & (Hsz2 & Hvol2 & _) & _ & Hv2). fold c2 in Hc2, Hsz2, Hvol2, Hv2.
  assert (Hd2 : forall p, 0 <= p < g_page_count g -> PageRead.disk_page f3 k2 g p = Some (page g f k c p)).
  { intros p Hp. apply (PageRead.disk_page_later f3 f3 k1 k2); auto. done. }
  assert (Hview : forall p e d, MappingCache.view c2 p = Some (e, d) ->
    0 <= p < g_page_count g /\ d = false /\ exists d0, MappingCache.view c p = Some (e, d0)).
  { intros p e d Hp. pose proof Hp as Hp'. rewrite Hv2, Hv in Hp.
    apply MappingCache.view_Some in Hp' as (sl & ? & ? & ? & ? & ? & ? & Hl); [|done].
    apply (MappingCache.wf_lookup_page c2 p sl Hc2) in Hl.
    rewrite (page_count_eq g c2) in Hl by (done || congruence). split; [done|].
    destruct (MappingCache.view c p) as [[e0 d0]|]; [|done]. injection Hp as <- <-. eauto. }
  split.
  - constructor; try done; try congruence.
    + by apply wf_reroot.
    + unfold Descriptor.typed in *; cbn; tauto.
    + cbn. lia.
    + change (c_last_record_boundary (k_descriptor k1) <= c_last_record_boundary (k_descriptor k1) < g_backing_blocks g). lia.
    + intros p Hp. rewrite Hd2 by done. by eexists.
    + intros p e Hp. destruct (Hview p e _ Hp) as (Hr & _ & d0 & Hd0). rewrite Hd2 by done. f_equal.
      unfold page. by rewrite Hd0.
    + intros p e d Hp. destruct (Hview p e _ Hp) as (Hr & _ & d0 & Hd0).
      destruct (co_entries0 p e d0 Hd0) as [He Hl]. split; [done|]. intros i Hi Hne. specialize (Hl i Hi Hne).
      change (p_at (end_of k2)) with (c_last_record_boundary (k_descriptor k1)). lia.
  - intros p Hp. unfold page at 1. destruct (MappingCache.view c2 p) as [[e d]|] eqn:E; [|by rewrite Hd2].
    destruct (Hview p e d E) as (_ & _ & d0 & Hd0). unfold page. by rewrite Hd0.
Qed.

(** The first half of [publish]: the snapshots, made durable. *)
Lemma snapshots_durable g k cand io c r s :
  Descriptor.geometry (k_descriptor cand) = Ok g -> MappingCache.wf c ->
  page_count (sizing c) = lenZ (k_pages cand) ->
  0 <= c_last_record_boundary (k_descriptor cand) ->
  c_last_record_boundary (k_descriptor cand) + lenZ (MappingCache.dirty_pages c) < MAX_BACKING_BLOCKS ->
  (candidate <- zoom (fun s => (st_io s, st_cache s))
                 (fun p s => {| st_io := fst p; st_active := st_active s; st_cache := snd p |})
                 (append_snapshots cand) ;;
   on_io Io.sync ;;; mret candidate) {| st_io := io; st_active := k; st_cache := c |} = (r, s) ->
  r <> Panic /\ Io.changed (behind cand (lenZ (MappingCache.dirty_pages c))) io (st_io s) /\
  MappingCache.wf (st_cache s) /\ MappingCache.same_shape c (st_cache s) /\
  (forall q, MappingCache.view (st_cache s) q = MappingCache.view c q) /\ st_active s = k /\
  forall k', r = Ok k' -> Io.durable (st_io s) /\ snapshotted g (Io.file (st_io s)) c cand k' /\
    exists l, (MappingCache.sorted_dirty_pages c).1 = Ok l /\ point_at l.*1 cand = Ok k'.
Proof.
  intros Hg Hc Hpc Hlast Hmax. unfold mbind at 1, zoom; cbn [st_io st_cache st_active].
  destruct (append_snapshots cand (io, c)) as [r1 s1] eqn:E1. pose proof E1 as Epts.
  apply (append_snapshots_spec g) in E1 as (Hnp1 & Hch1 & Hc1 & Hsh1 & Hv1 & Hok1); try done.
  destruct r1 as [k'|e|]; [|intros [= <- <-]; by split_and!|done].
  unfold mbind, on_io, zoom; cbn [st_io st_cache st_active fst snd].
  destruct (Io.sync (fst s1)) as [r2 io2] eqn:E2. apply Io.sync_spec in E2 as (Hu2 & Hnp2 & Hd2).
  assert (Hch2 : Io.changed (behind cand (lenZ (MappingCache.dirty_pages c))) io io2).
  { eapply Io.changed_trans; [exact Hch1 | by apply Io.untouched_changed]. }
  destruct r2 as [[]|e|]; [|intros [= <- <-]; by split_and!|done].
  intros [= <- <-]. split_and!; try done. intros k2 [= <-]. split; [by apply Hd2|]. cbn [st_io].
  split; [|by eapply append_snapshots_points].
  destruct (Hok1 k' eq_refl) as [H1 H2 H3 H4]. constructor; try done. intros p e Hp.
  destruct (H3 p e Hp) as (i & Hi & Hptr & He). exists i. split; [done|]. split; [done|].
  destruct Hu2 as [Hu2 _]. by rewrite Hu2.
Qed.

(** Publication, on every path.  It writes only blocks of [region], none of
    which the active root, its snapshots or the payloads before the tail
    occupy; until all of the new root but its descriptor is durable, the other
    descriptor is as it was; and either the new root has taken over, with every
    page as before, or the state is as before. *)
Record outcome (g : Geometry) (s s' : Store D) (tail : LogPosition) (r : res LogPosition) : Prop := {
  out_region : Io.changed (region g (st_active s) tail (lenZ (MappingCache.dirty_pages (st_cache s))))
                 (st_io s) (st_io s');
  out_order :
    let other := slot_other (c_slot (k_descriptor (st_active s))) in
    Io.changed (fun x => log_region tail (lenZ (MappingCache.dirty_pages (st_cache s))) x
                         \/ body_blocks other g x) (st_io s) (st_io s') \/
    exists k1, planned tail s = Ok k1 /\ follows_root (k_descriptor (st_active s)) (k_descriptor k1) /\
      Descriptor.typed (k_descriptor k1) /\
      complete g (st_io s') k1 (page g (Io.file (st_io s)) (st_active s) (st_cache s));
  out_shape : MappingCache.same_shape (st_cache s) (st_cache s');
  out_coherent : coherent g (Io.file (st_io s')) (st_active s') (st_cache s')
                   (match r with Ok tail' => tail' | _ => tail end);
  out_pages : forall p, 0 <= p < g_page_count g ->
    page g (Io.file (st_io s')) (st_active s') (st_cache s') p =
    page g (Io.file (st_io s)) (st_active s) (st_cache s) p;
  out_result : match r with Ok tail' => published g s s' tail tail' | _ => unpublished s s' end;
}.

(** A publication that stopped before the descriptor. *)
Lemma outcome_early g s s' tail r :
  coherent g (Io.file (st_io s)) (st_active s) (st_cache s) tail ->
  (forall t : LogPosition, r <> Ok t) ->
  Io.changed (fun x => log_region tail (lenZ (MappingCache.dirty_pages (st_cache s))) x
     \/ body_blocks (slot_other (c_slot (k_descriptor (st_active s)))) g x) (st_io s) (st_io s') ->
  st_active s' = st_active s -> MappingCache.wf (st_cache s') ->
  MappingCache.same_shape (st_cache s) (st_cache s') ->
  (forall q, MappingCache.view (st_cache s') q = MappingCache.view (st_cache s) q) ->
  outcome g s s' tail r.
Proof.
  intros Hco Hno Hch Ha Hc2 Hsh2 Hv2. pose proof Hco as [].
  destruct (coherent_frame g (Io.file (st_io s)) (Io.file (st_io s')) (st_active s) (st_cache s) (st_cache s') tail)
    as [H1 H2]; try done.
  { intros x Hx. apply Hch. pose proof (body_bounds (slot_other (c_slot (k_descriptor (st_active s)))) g co_geometry0).
    unfold log_region, body_blocks. lia. }
  constructor; rewrite ?Ha.
  - eapply Io.changed_mono; [|exact Hch]. unfold region. tauto.
  - by left.
  - done.
  - destruct r; [by destruct (Hno a)|done..].
  - intros p _. apply H2.
  - destruct r; [by destruct (Hno a)|by constructor..].
Qed.

(** Failed after the descriptor was written: the root may be in doubt, the state is not. *)
Lemma outcome_late g s s' tail r k1 :
  coherent g (Io.file (st_io s)) (st_active s) (st_cache s) tail ->
  (forall t : LogPosition, r <> Ok t) ->
  Io.changed (region g (st_active s) tail (lenZ (MappingCache.dirty_pages (st_cache s)))) (st_io s) (st_io s') ->
  planned tail s = Ok k1 ->
  follows_root (k_descriptor (st_active s)) (k_descriptor k1) -> Descriptor.typed (k_descriptor k1) ->
  complete g (st_io s') k1 (page g (Io.file (st_io s)) (st_active s) (st_cache s)) ->
  st_active s' = st_active s -> MappingCache.wf (st_cache s') ->
  MappingCache.same_shape (st_cache s) (st_cache s') ->
  (forall q, MappingCache.view (st_cache s') q = MappingCache.view (st_cache s) q) ->
  outcome g s s' tail r.
Proof.
  intros Hco Hno Hch Hplan Hfollow Hty Hcomp Ha Hc2 Hsh2 Hv2. pose proof Hco as [].
  destruct (coherent_frame g (Io.file (st_io s)) (Io.file (st_io s')) (st_active s) (st_cache s) (st_cache s') tail)
    as [H1 H2]; try done.
  { intros x Hx. apply Hch. intros Hr. apply (region_log g) in Hr; [unfold log_region in Hr; lia|done|lia|lia]. }
  constructor; rewrite ?Ha.
  - done.
  - right. by exists k1.
  - done.
  - destruct r; [by destruct (Hno a)|done..].
  - intros p _. apply H2.
  - destruct r; [by destruct (Hno a)|by constructor..].
Qed.

(** The second half of [publish]: the root, the new state. *)
Lemma publish_root g s s1 s' tail gen k1 r :
  coherent g (Io.file (st_io s)) (st_active s) (st_cache s) tail ->
  let n := lenZ (MappingCache.dirty_pages (st_cache s)) in
  let cand := with_descriptor (successor (k_descriptor (st_active s)) gen tail) (st_active s) in
  p_lsn tail + n < 2 ^ 64 -> p_at tail + n < g_backing_blocks g ->
  gen = c_generation (k_descriptor (st_active s)) + 1 -> is_u64 gen -> planned tail s = Ok k1 ->
  Io.changed (log_region tail n) (st_io s) (st_io s1) -> st_active s1 = st_active s ->
  MappingCache.wf (st_cache s1) -> MappingCache.same_shape (st_cache s) (st_cache s1) ->
  (forall q, MappingCache.view (st_cache s1) q = MappingCache.view (st_cache s) q) ->
  snapshotted g (Io.file (st_io s1)) (st_cache s) cand k1 ->
  (candidate <- on_io (persist_root k1) ;;
   mmodify (fun s => {| st_io := st_io s; st_active := candidate;
                        st_cache := MappingCache.checkpoint_published (st_cache s) |}) ;;;
   mret (end_of candidate)) s1 = (r, s') ->
  r <> Panic /\ outcome g s s' tail r.
Proof.
  intros Hco n cand Hlsn Hat Hgen Hgu Hplan Hch1 Ha1 Hc1 Hsh1 Hv1 Hsn. pose proof Hco as [].
  set (slot := slot_other (c_slot (k_descriptor (st_active s)))).
  assert (Hlog : forall x, g_log_start g <= x <= p_at tail -> Io.file (st_io s1) x = Io.file (st_io s) x).
  { intros x Hx. apply Hch1. unfold log_region. lia. }
  destruct (snapshotted_root g (Io.file (st_io s)) (Io.file (st_io s1)) _ _ tail gen k1 Hco Hlsn Hat Hgu Hsn Hlog)
    as (Hk1 & Hty1 & Hpages1).
  pose proof (sn_descriptor _ _ _ _ _ Hsn) as Hd1.
  assert (Hslot : c_slot (k_descriptor k1) = slot) by (by rewrite Hd1).
  assert (Hfollow : follows_root (k_descriptor (st_active s)) (k_descriptor k1)) by (rewrite Hd1; by split_and!).
  unfold mbind at 1, on_io, zoom. destruct (persist_root k1 (st_io s1)) as [r2 io2] eqn:E2.
  apply (persist_root_spec g) in E2 as (Hnp2 & Hch2 & Hord2 & Hok2); [|done|done]. rewrite Hslot in *.
  assert (HchP : Io.changed (region g (st_active s) tail n) (st_io s) io2).
  { apply (Io.changed_trans _ _ (st_io s1)); [eapply Io.changed_mono; [|exact Hch1] | eapply Io.changed_mono; [|exact Hch2]];
      unfold region; fold slot; tauto. }
  assert (Hpages2 : forall p, 0 <= p < g_page_count g -> PageRead.disk_page (Io.file io2) k1 g p =
            Some (page g (Io.file (st_io s)) (st_active s) (st_cache s) p)).
  { intros p Hp. rewrite <- Hpages1 by done. apply PageRead.disk_page_ext. intros b Hb Hne. apply Hch2.
    apply list_elem_of_lookup in Hb as [i Hi]. destruct (pointer_range g k1 i b Hk1 Hi Hne) as [Hr _].
    pose proof (body_bounds slot g co_geometry0). unfold body_blocks. destruct slot; cbn in *; lia. }
  assert (Horder : Io.changed (fun x => log_region tail n x \/ body_blocks slot g x) (st_io s) io2 \/
            body_in_place io2 k1 g).
  { destruct Hord2 as [Hb|Hb]; [left|by right].
    apply (Io.changed_trans _ _ (st_io s1)); [eapply Io.changed_mono; [|exact Hch1] | eapply Io.changed_mono; [|exact Hb]];
      cbv beta; tauto. }
  destruct r2 as [k2|e|]; [|intros [= <- <-]; split; [done|]|done].
  2: { destruct Horder as [Hb|Hb].
       - by apply outcome_early.
       - apply (outcome_late g s _ tail (Err e) k1); try done. }
  destruct (Hok2 k2 eq_refl) as (Hdur & Hroot & sum & Hk2 & Hsum).
  destruct (Index.checksum_total k1 g Hk1) as (sum' & Hsum' & Hu). assert (sum' = sum) as -> by congruence.
  destruct (coherent_published g (Io.file (st_io s)) (Io.file io2) _ _ (st_cache s1) tail k1 sum Hco Hk1 Hty1 Hu
              Hc1 Hsh1 Hv1 Hpages2) as [Hco2 Hpg2]; [rewrite Hd1; cbn; fold n; lia | rewrite Hd1; cbn; fold n; lia |].
  destruct (MappingCache.published_Ok (st_cache s1) Hc1) as (Hc2 & (Hsz2 & Hvol2 & Hln2) & Hclean2 & Hv2).
  unfold mbind, mmodify, mret. intros [= <- <-]. split; [done|]. rewrite <- Hk2 in Hco2, Hpg2.
  constructor; cbn [st_io st_active st_cache]; try done.
  - destruct Horder as [?|?]; [by left | right; by exists k1].
  - destruct Hsh1 as (? & ? & ?). unfold MappingCache.same_shape. split_and!; congruence.
  - constructor; cbn [st_io st_active st_cache]; try done; rewrite ?Hk2; cbn; try (by rewrite Hd1).
    intros p. by rewrite <- Hv1.
Qed.

(** [publish] on every path. *)
Lemma publish_run g s tail r s' :
  coherent g (Io.file (st_io s)) (st_active s) (st_cache s) tail ->
  publish tail s = (r, s') -> r <> Panic /\ outcome g s s' tail r.
Proof.
  intros Hco. pose proof Hco as []. pose proof co_geometry0 as [Hgv Hgp Hgi Hgs Hgb].
  pose proof (Index.wf_geometry _ _ co_index0) as Hgeo.
  unfold publish. step. unfold mbind at 1, mlift at 1. destruct (prepare_spec g _ _ _ _ Hco) as [Hnp Hprep].
  assert (Hsh0 : MappingCache.same_shape (st_cache s) (st_cache s)) by (by unfold MappingCache.same_shape).
  destruct (prepare (st_active s) (st_cache s) tail) as [cand|e|] eqn:Hprepared; [|intros [= <- <-]; split; [done|]|done].
  2: { apply outcome_early; try done. apply Io.changed_refl. }
  destruct (Hprep cand eq_refl) as (Hcand & Hgen & Hlsn & Hat & _ & _).
  rewrite mbind_group. unfold mbind at 1.
  match goal with |- context [mbind ?a ?b s] => destruct (mbind a b s) as [r1 s1] eqn:E1 end.
  destruct s as [io k c]; cbn [st_io st_active st_cache] in *. rewrite Hcand in E1.
  apply (snapshots_durable g) in E1 as (Hnp1 & Hch1 & Hc1 & Hsh1 & Hv1 & Ha1 & Hok1); try done.
  2: { rewrite (page_count_eq g) by done. symmetry. apply (Index.wf_length _ _ co_index0). }
  2,3: cbn; change MAX_BACKING_BLOCKS with (2 ^ 32); lia.
  destruct r1 as [k1|e|]; [|intros [= <- <-]; split; [done|]|done].
  2: { apply outcome_early; try done. eapply Io.changed_mono; [|exact Hch1]. intros x Hx. left. exact Hx. }
  destruct (Hok1 k1 eq_refl) as (_ & Hsn & pages & Hpages & Hpts). destruct co_typed0 as (_ & _ & _ & _ & _ & _ & Hg7).
  intros Hrun. eapply publish_root; try exact Hrun; cbn [st_io st_active st_cache]; try done.
  { unfold is_u64 in *. lia. }
  unfold planned. cbn [st_active st_cache]. by rewrite Hprepared, Hcand; cbn [rbind]; rewrite Hpages; cbn [map_err rbind].
Qed.

(** A new root and an empty cache agree with whatever the file holds. *)
Lemma coherent_new v b g id f c :
  is_u32 v -> is_u64 id -> is_u64 b -> Geometry.new v b = Ok g ->
  MappingCache.wf c -> volume_blocks c = v -> (forall p, MappingCache.view c p = None) ->
  exists k, Index.empty g id = Ok k /\ coherent g f k c (end_of k).
Proof.
  intros Hv Hid Hb Hg Hc Hvol Hview.
  destruct (Index.empty_Ok v b g id Hv Hid Hg Hb) as (k & Hk & Hwf & Hp & _ & Hty & Hva & Hlsn & _).
  destruct (Geometry.new_wf v b g ltac:(apply Hv) Hg) as (Hgw & Hgv & _).
  exists k. split; [done|]. destruct Hva as [Hgeo].
  assert (Hat : c_last_record_boundary (k_descriptor k) = g_log_start g - 1).
  { revert Hk. unfold Index.empty. intros Hk. ok_inv. done. }
  pose proof (Geometry.wf_backing _ Hgw). constructor; try done; cbn [end_of p_lsn p_at]; try congruence; try lia.
  - intros p Hp0. exists Entries.zeroed. unfold PageRead.disk_page. rewrite Hp. unfold zeros.
    rewrite lookup_replicate_2 by lia. done.
Qed.

(** The active root cannot be lost: its descriptor, its index and its snapshots
    are durable. *)
Definition anchored (g : Geometry) (s : Store D) : Prop :=
  let k := st_active s in
  rooted (Io.file (st_io s)) k g /\
  forall c, may_hold (dev (st_io s)) c ->
    forall x, x = slot_number (c_slot (k_descriptor k)) \/ body_blocks (c_slot (k_descriptor k)) g x \/
      g_log_start g <= x <= c_last_record_boundary (k_descriptor k) -> c x = Io.file (st_io s) x.

(** The blocks of a root are none of those that the next publication writes. *)
Lemma region_avoids g k tail n x :
  Geometry.wf g -> c_last_record_boundary (k_descriptor k) <= p_at tail -> g_log_start g - 1 <= p_at tail ->
  x = slot_number (c_slot (k_descriptor k)) \/ body_blocks (c_slot (k_descriptor k)) g x \/
    g_log_start g <= x <= c_last_record_boundary (k_descriptor k) ->
  ~ region g k tail n x.
Proof.
  intros [Hv Hp Hi Hs Hb] Hl Ht Hx. unfold region, log_region, body_blocks, body_start in *.
  destruct (c_slot (k_descriptor k)); cbn in *; lia.
Qed.

(** What a crash at any moment of a publication leaves: the active root is whole, and
    either the other descriptor is as before or the new root is whole but for it. *)
Lemma crash_consistent g s tail r s' c :
  coherent g (Io.file (st_io s)) (st_active s) (st_cache s) tail -> anchored g s ->
  publish tail s = (r, s') -> may_hold (dev (st_io s')) c ->
  let k := st_active s in
  let other := slot_other (c_slot (k_descriptor k)) in
  rooted c k g /\
  (forall p, 0 <= p < g_page_count g -> PageRead.disk_page c k g p = PageRead.disk_page (Io.file (st_io s)) k g p) /\
  exists c0, may_hold (dev (st_io s)) c0 /\
    (forall x, g_log_start g <= x <= p_at tail -> c x = c0 x) /\
    (c (slot_number other) = c0 (slot_number other) \/
     exists k1, planned tail s = Ok k1 /\ follows_root (k_descriptor k) (k_descriptor k1) /\
       Descriptor.typed (k_descriptor k1) /\ Index.wf k1 g /\
       (forall b, 0 <= b < g_index_blocks g -> Index.encode_block k1 b = Ok (c (body_start other g + b))) /\
       forall p, 0 <= p < g_page_count g ->
         PageRead.disk_page c k1 g p = Some (page g (Io.file (st_io s)) k (st_cache s) p)).
Proof.
  intros Hco [Hroot Hdur] Hrun Hc k other. pose proof Hco as [].
  apply (publish_run g) in Hrun as [Hnp []]; [|done].
  destruct out_region0 as (Hf & Hm & _). destruct (Hm c Hc) as (c0 & Hc0 & Heq).
  set (n := lenZ _) in *.
  assert (Hkeep : forall x, x = slot_number (c_slot (k_descriptor k)) \/ body_blocks (c_slot (k_descriptor k)) g x \/
      g_log_start g <= x <= c_last_record_boundary (k_descriptor k) -> c x = Io.file (st_io s) x).
  { intros x Hx. rewrite Heq by (apply region_avoids; try done; unfold k in *; lia). by apply Hdur. }
  destruct Hroot as (He & Hsum & Hidx).
  split; [|split].
  - split; [rewrite Hkeep by (by left); exact He|]. split; [exact Hsum|]. intros b Hb. rewrite Hkeep; [by apply Hidx|].
    right. left. unfold body_blocks. unfold k. lia.
  - intros p Hp. apply PageRead.disk_page_ext. intros b Hb Hne. apply Hkeep. right. right.
    apply list_elem_of_lookup in Hb as [i Hi]. by destruct (pointer_range g k i b co_index0 Hi Hne).
  - pose proof (body_bounds other g co_geometry0) as Hbb.
    destruct out_order0 as [(_ & Ho & _)|(k1 & Hplan & Hfollow & Hty1 & Hwf1 & [Hbody Htorn] & Hpages)].
    + destruct (Ho c Hc) as (c1 & Hc1 & Heq1). exists c1. split; [done|]. split.
      * intros x Hx. apply Heq1. fold k other. unfold log_region, body_blocks. lia.
      * left. apply Heq1. fold k other. unfold log_region, body_blocks.
        pose proof (Index.wf_length _ _ co_index0). unfold body_start in Hbb |- *.
        destruct co_geometry0. destruct other; cbn in *; lia.
    + exists c0. split; [done|]. split.
      * intros x Hx. apply Heq. intros Hr. apply (region_log g) in Hr; [unfold log_region in Hr; lia|done|lia|lia].
      * right. exists k1. pose proof (proj1 Hfollow) as Hslot. fold k other in Hslot. rewrite Hslot in Hbody, Htorn.
        split; [done|]. split; [done|]. split; [done|]. split; [done|]. split.
        -- intros b Hb. rewrite Htorn; [by apply Hbody|done|]. destruct other; cbn; lia.
        -- intros p Hp. etransitivity; [|exact (Hpages p Hp)].
           apply PageRead.disk_page_ext. intros b Hb Hne. apply Htorn; [done|].
           apply list_elem_of_lookup in Hb as [i Hi]. destruct (pointer_range g k1 i b Hwf1 Hi Hne) as [Hr _].
           destruct co_geometry0, other; cbn; lia.
Qed.

End laws.
End Publish.
