(* ===== verification/Snapshots.v ===== *)
(** The snapshots of a publication: which pages can be encoded, that a snapshot is read
    back, and that writing snapshots and a root fails only as the device or the ledger does. *)

From S2P Require Import Prelude Bytes Geometry Format DataRecord Entries MappingPage.
From S2P Require Import Checkpoint Index Clock Sizing MappingCache Config Reservation.
From S2P Require Import Accounting Uring Device BackingIo Tail PageRead Publish.

Module Snapshots.

(** ** Computations that fail only as an operation may *)

Section snapshots.
Context `{Xxh3} `{Platform} {D : Type} `{!Device D} `{!DeviceLaws D}.

(** A computation that does not make up a ledger, and fails only as an operation may. *)
Definition calm {A} (m : M (BackingIo D) A) : Prop :=
  forall io, Io.unbooked io (m io).2 /\ forall e, (m io).1 = Err e -> Io.failure io e.

Lemma calm_bind_at {A B} (m : M (BackingIo D) A) (f : A -> M (BackingIo D) B) :
  calm m -> (forall io a io', m io = (Ok a, io') -> calm (f a)) -> calm (mbind m f).
Proof.
  intros Hm Hf io. unfold mbind. destruct (Hm io) as [Hu He]. destruct (m io) as [[a|x|] io'] eqn:E; cbn in *.
  - destruct (Hf io a io' E io') as [Hu' He']. split; [intros Hn; by apply Hu', Hu|].
    intros e Hr. by eapply Io.failure_unbooked; [exact Hu|apply He'].
  - split; [done|]. intros e [= <-]. by apply He.
  - by split.
Qed.

Lemma calm_bind {A B} (m : M (BackingIo D) A) (f : A -> M (BackingIo D) B) :
  calm m -> (forall a, calm (f a)) -> calm (mbind m f).
Proof. intros Hm Hf. by apply calm_bind_at. Qed.

Lemma calm_lift {A} (r : res A) : (forall e, r <> Err e) -> calm (mlift r).
Proof. intros Hr io. split; [by intros E|]. intros e E. by destruct (Hr e). Qed.

Lemma calm_ret {A} (a : A) : calm (mret a).
Proof. intros io. split; [by intros E|done]. Qed.

Lemma calm_Ok {A} (a : A) : calm (mlift (Ok a)).
Proof. by apply calm_lift. Qed.

Lemma calm_assert b : calm (mlift (assert_ b)).
Proof. apply calm_lift. by destruct b. Qed.

Lemma calm_for {X} (xs : list X) (body : X -> M (BackingIo D) unit) :
  (forall x, x ∈ xs -> calm (body x)) -> calm (mfor xs body).
Proof.
  induction xs as [|x xs IH]; intros Hb; cbn [mfor]; [apply calm_ret|].
  apply calm_bind; [apply Hb; by left|]. intros _. apply IH. intros y Hy. apply Hb. by right.
Qed.

#[local] Hint Resolve calm_ret calm_Ok calm_assert : calm.

Lemma submit_calm entry u x : (exists o, Io.classify_operation entry x = Ok o) -> calm (Io.submit_exact (D := D) entry u x).
Proof.
  intros Hc io. split.
  - pose proof (Io.submit_exact_cases entry u x io) as Hs. destruct (Io.submit_exact entry u x io) as [r io'].
    by destruct Hs as [[_ ?] _].
  - intros e. by apply Io.submit_exact_error.
Qed.

Lemma write_blocks_calm b blocks : calm (Io.write_blocks (D := D) b blocks).
Proof.
  unfold Io.write_blocks. apply calm_bind_at; [auto with calm|]. intros s [] s' [= Hb _].
  apply assert_Ok, andb_true_iff in Hb as [Hb%Z.ltb_lt _]. apply calm_bind; [auto with calm|intros _].
  apply calm_bind; [apply submit_calm|auto with calm]. cbn [Io.classify_operation]. unfold Io.positive_bytes.
  change BLOCK_SIZE with 4096. destruct (Z.leb_spec (lenZ blocks * 4096) 0); [lia|]. by eexists.
Qed.

Lemma sync_calm : calm (Io.sync (D := D)).
Proof. apply calm_bind; [apply submit_calm; by eexists|auto with calm]. Qed.

Lemma tally_calm a b c d e f : calm (Io.tally (D := D) a b c d e f).
Proof. intros io. by destruct (Io.tally_spec a b c d e f io) as (io' & -> & _ & _ & _ & Hu). Qed.

#[local] Hint Resolve write_blocks_calm sync_calm tally_calm : calm.

Lemma clear_stale_tail_calm a b : calm (Io.clear_stale_tail (D := D) a b).
Proof.
  unfold Io.clear_stale_tail. apply calm_bind; [apply calm_for; intros i _|intros _];
    (apply calm_bind; [apply submit_calm; by eexists|auto with calm]).
Qed.

(** ** Snapshots *)

(** A page whose snapshot can be written behind the block [last]. *)
Record recordable (g : Geometry) (last p : Z) (e : MappingEntries) : Prop := {
  rc_page : 0 <= p < g_page_count g;
  rc_typed : Entries.typed e;
  rc_valid : Entries.valid e (MappingCache.page_entries (g_volume_blocks g) p);
  rc_log : forall i, 0 <= i < ENTRIES_PER_PAGE -> (Entries.get e i).1 <> 0 ->
    g_log_start g <= (Entries.get e i).1 <= last;
}.

Lemma recordable_mono g a b p e : recordable g a p e -> a <= b -> recordable g b p e.
Proof. intros [] Hab. constructor; try done. intros i Hi Hne. specialize (rc_log0 i Hi Hne). lia. Qed.

(** The end of a log, with room for [n] more blocks. *)
Record roomy (g : Geometry) (d : CheckpointDescriptor) (n : Z) : Prop := {
  ry_lsn : 0 <= c_checkpoint_lsn d;
  ry_start : g_log_start g - 1 <= c_last_record_boundary d;
  ry_end : c_last_record_boundary d + n < g_backing_blocks g;
}.

Lemma snapshot_encodes g d n i p e :
  Geometry.wf g -> roomy g d n -> 0 <= i < n -> recordable g (c_last_record_boundary d) p e ->
  exists b, PageRecord.encode (Publish.snapshot_record d i p e) g = Ok b.
Proof.
  intros [] [] Hi []. assert (0 < g_index_blocks g) by lia. set (r := Publish.snapshot_record d i p e). unfold PageRecord.encode.
  assert (Hv : PageRecord.validate r g = Ok tt).
  { apply (proj2 (PageRecord.page_validate_Ok r g ltac:(lia))). constructor; cbn; try done; try lia.
    intros j Hj Hne. specialize (rc_log0 j Hj Hne). unfold Entries.get in *. cbn in *. lia. }
  rewrite Hv. cbn [rbind]. unfold encode_header, payload_count. cbn [r Publish.snapshot_record p_header h_kind h_lsn
    h_boundary h_previous_boundary].
  assert (Hc : checked_sub (c_last_record_boundary d + i + 1) (c_last_record_boundary d + i) = Some 1).
  { apply checked_sub_Some. lia. }
  rewrite Hc. cbn [rbind]. destruct (Z.eqb_spec (c_checkpoint_lsn d + i + 1) 0); [lia|]. cbn. by eexists.
Qed.

(** The page that a pointer at the snapshot reads. *)
Lemma snapshot_read g f d i p e k :
  g_log_start g <> 0 -> 0 <= i -> 0 <= c_last_record_boundary d -> is_u64 (c_volume_id d) ->
  is_u64 (c_checkpoint_lsn d + i + 1) -> c_last_record_boundary d + i + 1 < 2 ^ 32 -> is_u32 p -> Entries.typed e ->
  PageRecord.encode (Publish.snapshot_record d i p e) g = Ok (f (c_last_record_boundary d + i + 1)) ->
  k_pages k !! Z.to_nat p = Some (c_last_record_boundary d + i + 1) ->
  c_volume_id (k_descriptor k) = c_volume_id d -> c_checkpoint_lsn d + i + 1 <= c_checkpoint_lsn (k_descriptor k) ->
  PageRead.disk_page f k g p = Some e.
Proof.
  intros Hls Hi Hl Hv Hlsn H32 Hp He Henc Hptr Hid Hmax. unfold PageRead.disk_page. rewrite Hptr.
  destruct (Z.eqb_spec (c_last_record_boundary d + i + 1) 0); [lia|].
  assert (Hty : PageRecord.typed (Publish.snapshot_record d i p e)).
  { unfold PageRecord.typed, header_typed, is_u32 in *; cbn. split_and!; try done; lia. }
  destruct (PageRecord.page_encode_decode _ g _ (c_checkpoint_lsn (k_descriptor k)) Hty Hls Henc) as (_ & _ & Hdec); [done|].
  cbn in Hdec. unfold PageRead.expectation. rewrite Hid. by rewrite Hdec.
Qed.

(** ** Errors *)

Lemma point_at_descriptor ids k k' :
  Publish.point_at ids k = Ok k' ->
  k_descriptor k' = Publish.advance (k_descriptor k) (c_checkpoint_lsn (k_descriptor k) + lenZ ids)
                      (c_last_record_boundary (k_descriptor k) + lenZ ids).
Proof.
  revert k. induction ids as [|p ids IH]; intros k; cbn [Publish.point_at].
  { intros [= <-]. cbn. rewrite !Z.add_0_r. by destruct (k_descriptor k). }
  intros Hp. apply rbind_Ok in Hp as ([] & _ & Hp). apply IH in Hp. rewrite Hp. unfold Publish.advance; cbn. f_equal; lia.
Qed.

Lemma point_at_no_error ids k e : Publish.point_at ids k <> Err e.
Proof.
  revert k. induction ids as [|p ids IH]; intros k; cbn [Publish.point_at]; [done|].
  destruct (assert_ _) as [[]|x|] eqn:E; cbn [rbind]; [apply IH|by destruct (_ <? _)|done].
Qed.

Lemma append_batch_calm k blocks ids : calm (Publish.append_batch (D := D) k blocks ids).
Proof.
  unfold Publish.append_batch. apply calm_bind; [auto with calm|intros _]. apply calm_bind; [auto with calm|intros _].
  apply calm_bind; [auto with calm|intros _]. apply calm_lift, point_at_no_error.
Qed.

Lemma append_batch_descriptor k blocks ids io k' io' :
  Publish.append_batch (D := D) k blocks ids io = (Ok k', io') ->
  k_descriptor k' = Publish.advance (k_descriptor k) (c_checkpoint_lsn (k_descriptor k) + lenZ ids)
                      (c_last_record_boundary (k_descriptor k) + lenZ ids).
Proof.
  unfold Publish.append_batch. intros Hrun. apply mbind_Ok in Hrun as (? & ? & _ & Hrun).
  apply mbind_Ok in Hrun as (? & ? & _ & Hrun). apply mbind_Ok in Hrun as (? & ? & _ & Hrun).
  unfold mlift in Hrun. injection Hrun as Hp _. by apply point_at_descriptor.
Qed.

Lemma append_pages_calm g k pages blocks ids :
  Geometry.wf g -> roomy g (k_descriptor k) (lenZ blocks + lenZ pages) -> lenZ ids = lenZ blocks ->
  Forall (fun pe => recordable g (c_last_record_boundary (k_descriptor k)) pe.1 pe.2) pages ->
  calm (Publish.append_pages (D := D) pages g k blocks ids).
Proof.
  intros Hg. revert k blocks ids. induction pages as [|[p e] pages IH]; intros k blocks ids Hr Hids Hall; cbn [Publish.append_pages].
  { destruct (lenZ blocks =? 0); [apply calm_ret|apply append_batch_calm]. }
  apply Forall_cons in Hall as [Hpe Hall]. cbn [length fst snd] in *.
  destruct (snapshot_encodes g (k_descriptor k) _ (lenZ blocks) p e Hg Hr) as [b Hb]; [lia|done|]. rewrite Hb.
  apply calm_bind_at; [apply calm_Ok|]. intros s b' s' [= <- _]. cbv zeta.
  assert (Hlb : lenZ (blocks ++ [b]) = lenZ blocks + 1) by (rewrite length_app; cbn; lia).
  assert (Hli : lenZ (ids ++ [p]) = lenZ ids + 1) by (rewrite length_app; cbn; lia).
  destruct (lenZ (blocks ++ [b]) =? CHECKPOINT_BATCH_BLOCKS).
  - apply calm_bind_at; [apply append_batch_calm|]. intros io k1 io1 Hrun. apply append_batch_descriptor in Hrun.
    destruct Hr. apply IH; [constructor|done|]; rewrite ?Hrun; cbn; try lia.
    eapply Forall_impl; [exact Hall|]. intros pe Hx. eapply recordable_mono; [exact Hx|cbn; lia].
  - apply IH; [|lia|done]. destruct Hr. constructor; lia.
Qed.

Lemma append_snapshots_calm g k io c e s :
  Geometry.wf g -> Descriptor.geometry (k_descriptor k) = Ok g -> MappingCache.wf c ->
  roomy g (k_descriptor k) (lenZ (MappingCache.dirty_pages c)) ->
  (forall p en, MappingCache.view c p = Some (en, true) -> recordable g (c_last_record_boundary (k_descriptor k)) p en) ->
  Publish.append_snapshots (D := D) k (io, c) = (Err e, s) -> Io.failure io e.
Proof.
  intros Hg Hgeo Hc Hr Hall. unfold Publish.append_snapshots. rewrite Hgeo. step.
  destruct (MappingCache.sorted_dirty_pages_Ok c Hc) as (l & c1 & Hrun & _ & _ & _ & _ & _ & Hel & Hperm).
  erewrite mbind_run; [|unfold zoom, mmap_err; cbn [snd fst]; rewrite Hrun; reflexivity].
  assert (Hcalm : calm (Publish.append_pages (D := D) l g k [] [])).
  { apply append_pages_calm; [done| |done|].
    - cbn. rewrite (Permutation_length Hperm). exact Hr.
    - apply Forall_forall. intros [p en] Hin. apply Hall. by apply Hel. }
  unfold zoom; cbn [fst snd map_err]. pose proof (Hcalm io) as Hio.
  destruct (Publish.append_pages l g k [] [] io) as [r1 io1]. intros [= -> _]. by apply Hio.
Qed.

Lemma valid_checksum d g sum : Descriptor.valid d g -> Descriptor.valid (Publish.with_checksum d sum) g.
Proof. intros []. by constructor. Qed.

Lemma persist_root_calm g k :
  Index.wf k g -> Geometry.wf g -> Descriptor.valid (k_descriptor k) g -> calm (Publish.persist_root (D := D) k).
Proof.
  intros Hk Hg Hv. unfold Publish.persist_root. rewrite (Index.wf_geometry _ _ Hk).
  destruct (Index.checksum_total k g Hk) as (sum & Hsum & _). rewrite Hsum.
  apply calm_bind_at; [apply calm_Ok|]. intros s g' s' [= <- _].
  apply calm_bind_at; [apply calm_Ok|]. intros ? sum' ? [= <- _]. cbv zeta.
  set (k1 := Publish.with_descriptor _ k). pose proof (Publish.wf_reroot k g sum Hk) as Hk1. fold k1 in Hk1.
  apply calm_bind; [|intros _].
  { apply calm_for. intros start Hst. unfold Publish.write_body. cbv zeta.
    unfold Publish.batch_starts in Hst. apply list_elem_of_fmap in Hst as (i & -> & Hi%elem_of_seqZ).
    assert (Hi0 : 0 < g_index_blocks g) by (destruct Hg; lia).
    pose proof (div_ceil_spec (g_index_blocks g) CHECKPOINT_BATCH_BLOCKS ltac:(done)) as Hd.
    change CHECKPOINT_BATCH_BLOCKS with 32 in *. set (n := Z.min _ 32).
    destruct (Index.encode_blocks_total k1 g (i * 32) n Hk1 ltac:(lia) ltac:(lia)) as [blocks ->].
    apply calm_bind; [auto with calm|intros ?]. apply calm_bind; [auto with calm|intros _]. auto with calm. }
  apply calm_bind; [auto with calm|intros _].
  assert (Henc : Descriptor.validate (k_descriptor k1) = Ok tt).
  { apply Descriptor.descriptor_validate_Ok. exists g. by apply valid_checksum. }
  unfold Descriptor.encode. rewrite Henc. cbn [rbind].
  apply calm_bind; [auto with calm|intros ?]. apply calm_bind; [auto with calm|intros _].
  apply calm_bind; [auto with calm|intros _]. auto with calm.
Qed.

End snapshots.
End Snapshots.
