(* ===== verification/Recovery.v ===== *)
(** Recovery of the log tail: [src/rust/src/format_v3/recovery.rs]. *)

From S2P Require Import Prelude Bytes Geometry Format DataRecord Entries MappingPage.
From S2P Require Import Checkpoint Index Clock Sizing MappingCache Config Reservation.
From S2P Require Import Accounting Uring Device BackingIo Tail PageRead Publish.

Record RecoveryStats := {
  newly_mapped_blocks : Z;
  tail_passes : Z;
  records_scanned : Z;
  rs_page_reads : Z;
  snapshot_writes : Z;
  index_bytes : Z;
  rs_lookups : Lookups;
}.

Definition zero_recovery_stats : RecoveryStats :=
  {| newly_mapped_blocks := 0; tail_passes := 0; records_scanned := 0; rs_page_reads := 0;
     snapshot_writes := 0; index_bytes := 0; rs_lookups := {| hits := 0; misses := 0 |} |}.

Record Recovered := { rc_cache : MappingCache; rc_tail : LogPosition; rc_stats : RecoveryStats }.

(** [struct Recovery], with the cache that its methods are given. *)
Record RecoveryState (D : Type) := {
  rv_io : BackingIo D;
  rv_active : Checkpoint;
  rv_candidate : Checkpoint;
  rv_end : LogPosition;
  rv_stats : RecoveryStats;
  rv_cache : MappingCache;
}.
Arguments rv_io {D}.
Arguments rv_active {D}.
Arguments rv_candidate {D}.
Arguments rv_end {D}.
Arguments rv_stats {D}.
Arguments rv_cache {D}.
Arguments Build_RecoveryState {D}.

Module Recovery.
Section recovery.
Context `{Xxh3} `{Platform} {D : Type} `{!Device D}.

Definition recovery_error : CacheError -> io_error := cache_error "mapping cache during recovery: ".

(** Assignments to one field. *)
Definition with_io x (s : RecoveryState D) : RecoveryState D := {| rv_io := x; rv_active := rv_active s;
  rv_candidate := rv_candidate s; rv_end := rv_end s; rv_stats := rv_stats s; rv_cache := rv_cache s |}.
Definition with_active x (s : RecoveryState D) : RecoveryState D := {| rv_io := rv_io s; rv_active := x;
  rv_candidate := rv_candidate s; rv_end := rv_end s; rv_stats := rv_stats s; rv_cache := rv_cache s |}.
Definition with_candidate x (s : RecoveryState D) : RecoveryState D := {| rv_io := rv_io s; rv_active := rv_active s;
  rv_candidate := x; rv_end := rv_end s; rv_stats := rv_stats s; rv_cache := rv_cache s |}.
Definition with_end x (s : RecoveryState D) : RecoveryState D := {| rv_io := rv_io s; rv_active := rv_active s;
  rv_candidate := rv_candidate s; rv_end := x; rv_stats := rv_stats s; rv_cache := rv_cache s |}.
Definition with_cache x (s : RecoveryState D) : RecoveryState D := {| rv_io := rv_io s; rv_active := rv_active s;
  rv_candidate := rv_candidate s; rv_end := rv_end s; rv_stats := rv_stats s; rv_cache := x |}.
Definition with_stats x (s : RecoveryState D) : RecoveryState D := {| rv_io := rv_io s; rv_active := rv_active s;
  rv_candidate := rv_candidate s; rv_end := rv_end s; rv_stats := x; rv_cache := rv_cache s |}.

Definition on_io {A} (m : M (BackingIo D) A) : M (RecoveryState D) A := zoom rv_io with_io m.
Definition on_cache {A} (m : M MappingCache A) : M (RecoveryState D) A := zoom rv_cache with_cache m.

(** The additions to the statistics. *)
Definition add (mapped passes scanned reads writes bytes : Z) : M (RecoveryState D) unit :=
  mmodify (fun s => with_stats {|
    newly_mapped_blocks := newly_mapped_blocks (rv_stats s) + mapped;
    tail_passes := tail_passes (rv_stats s) + passes;
    records_scanned := records_scanned (rv_stats s) + scanned;
    rs_page_reads := rs_page_reads (rv_stats s) + reads;
    snapshot_writes := snapshot_writes (rv_stats s) + writes;
    index_bytes := index_bytes (rv_stats s) + bytes;
    rs_lookups := rs_lookups (rv_stats s) |} s).

Definition count_lookups : M (RecoveryState D) unit :=
  mmodify (fun s =>
    let l := recovery (n_counters (MappingCache.snapshot (rv_cache s))) in
    with_stats {|
      newly_mapped_blocks := newly_mapped_blocks (rv_stats s);
      tail_passes := tail_passes (rv_stats s);
      records_scanned := records_scanned (rv_stats s);
      rs_page_reads := rs_page_reads (rv_stats s);
      snapshot_writes := snapshot_writes (rv_stats s);
      index_bytes := index_bytes (rv_stats s);
      rs_lookups := {| hits := hits (rs_lookups (rv_stats s)) + hits l;
                       misses := misses (rs_lookups (rv_stats s)) + misses l |} |} s).

(** The planning marker: no snapshot pointer is one, as the log starts at block four or later. *)
Definition MARKER : Z := 1.

(** The loop of [scan] over the addresses of one record. *)
Fixpoint mark (lba_ids : list Z) (pages : list Z) (touched : Z) : res (list Z * Z) :=
  match lba_ids with
  | [] => Ok (pages, touched)
  | lba :: lba_ids =>
      let page_id := lba / ENTRIES_PER_PAGE in
      pointer <-? expect (pages !! Z.to_nat page_id) ;;
      if negb (pointer =? MARKER) then mark lba_ids (<[Z.to_nat page_id := MARKER]> pages) (touched + 1)
      else mark lba_ids pages touched
  end.

(** [scan]: the [while let] loop; every record moves [rv_end] up by a block or
    more, so the blocks of the device are enough fuel. *)
Fixpoint scan_loop (fuel : nat) (touched : Z) : M (RecoveryState D) Z :=
  match fuel with
  | O => mlift Panic
  | S fuel =>
      s <- mget ;;
      next <- on_io (Tail.read_next (k_descriptor (rv_active s)) (rv_end s)) ;;
      match next with
      | None => mret touched
      | Some record =>
          mmodify (with_end (Tail.position record)) ;;;
          add 0 0 1 0 0 0 ;;;
          match record with
          | LogMapping _ => scan_loop fuel touched
          | LogData data =>
              count <- mlift (payload_count (d_header data)) ;;
              s <- mget ;;
              marked <- mlift (mark (take (Z.to_nat count) (d_lba_ids data))
                                 (k_pages (rv_candidate s)) touched) ;;
              mmodify (with_candidate {| k_descriptor := k_descriptor (rv_candidate s);
                                         k_pages := fst marked |}) ;;;
              scan_loop fuel (snd marked)
          end
      end
  end.

Definition blocks_left (s : RecoveryState D) (p : LogPosition) : nat :=
  S (Z.to_nat (c_backing_blocks (k_descriptor (rv_active s)) - p_at p)).

Definition scan : M (RecoveryState D) Z :=
  add 0 1 0 0 0 0 ;;;
  s <- mget ;;
  scan_loop (blocks_left s (rv_end s)) 0.

Definition prepare_publication : M (RecoveryState D) unit :=
  s <- mget ;;
  let d := k_descriptor (rv_candidate s) in
  generation <- mlift (Descriptor.next_generation d) ;;
  mmodify (with_candidate
    (Publish.with_descriptor (Publish.successor d generation (rv_end s)) (rv_candidate s))).

(** The ids of the marked pages, from [start] on. *)
Definition marked_pages (k : Checkpoint) (start : Z) : list Z :=
  map fst (filter (fun p => p.2 = MARKER)
             (drop (Z.to_nat start) (zip (seqZ 0 (lenZ (k_pages k))) (k_pages k)))).

(** [None], or the range [first..last + 1] of at most [capacity] marked pages. *)
Definition next_window (k : Checkpoint) (start capacity : Z) : option (Z * Z) :=
  match marked_pages k start with
  | [] => None
  | first :: pages => Some (first, default first (last (take (Z.to_nat (capacity - 1)) pages)) + 1)
  end.

Definition read_page (page_id : Z) : M (RecoveryState D) MappingEntries :=
  s <- mget ;;
  boundary <- mlift (expect (k_pages (rv_active s) !! Z.to_nat page_id)) ;;
  if boundary =? 0 then mret Entries.zeroed
  else
    bytes <- on_io (Io.read_block_exact boundary) ;;
    on_io (Io.tally 1 0 0 0 0 0) ;;;
    add 0 0 0 1 0 0 ;;;
    g <- mlift (Descriptor.geometry (k_descriptor (rv_active s))) ;;
    record <- mlift (PageRecord.decode bytes (PageRead.expectation (rv_active s) g page_id boundary)) ;;
    mret (p_entries record).

(** The body of the loop of [apply], for entry [index] of the record. *)
Definition apply_entry (data : DataRecord) (window : Z * Z) (index : Z) : M (RecoveryState D) unit :=
  lba <- mlift (expect (d_lba_ids data !! Z.to_nat index)) ;;
  let page_id := lba / ENTRIES_PER_PAGE in
  if negb ((window.1 <=? page_id) && (page_id <? window.2)) then mret tt
  else
    acquisition <- on_cache (mmap_err recovery_error (MappingCache.acquire page_id RecoveryAccess)) ;;
    page <- match acquisition with
            | Resident slot valid => mret (slot, valid)
            | Vacant page slot =>
                entries <- read_page page_id ;;
                installed <- on_cache (mmap_err recovery_error (MappingCache.install page slot entries)) ;;
                match installed with
                | Resident slot valid => mret (slot, valid)
                | _ => mlift Panic
                end
            | CheckpointRequired _ => mlift (Err (InvalidData "recovery window exceeds cache capacity"))
            end ;;
    let '(slot, valid) := page in
    let entry := lba mod ENTRIES_PER_PAGE in
    s <- mget ;;
    entries <- mlift (map_err recovery_error (MappingCache.entries slot (rv_cache s))) ;;
    let newly_mapped := arr (physical_addr entries) entry =? 0 in
    checksum <- mlift (expect (d_checksums data !! Z.to_nat index)) ;;
    on_cache (mmap_err recovery_error
      (MappingCache.update slot valid entry (h_previous_boundary (d_header data) + 1 + index) checksum)) ;;;
    add (of_bool newly_mapped) 0 0 0 0 0.

Definition apply (data : DataRecord) (window : Z * Z) : M (RecoveryState D) unit :=
  count <- mlift (payload_count (d_header data)) ;;
  mfor (seqZ 0 count) (apply_entry data window).

(** The [while] loop of [replay_window]. *)
Fixpoint replay_loop (fuel : nat) (position : LogPosition) (window : Z * Z) : M (RecoveryState D) unit :=
  match fuel with
  | O => mlift Panic
  | S fuel =>
      s <- mget ;;
      if bool_decide (position = rv_end s) then mret tt
      else
        next <- on_io (Tail.read_next (k_descriptor (rv_active s)) position) ;;
        record <- mlift (ok_or next (InvalidData "recovery tail changed after scan")) ;;
        let position := Tail.position record in
        mlift (fail_if ((p_at (rv_end s) <? p_at position) || (p_lsn (rv_end s) <? p_lsn position))
                 (InvalidData "recovery passed its fixed replay boundary")) ;;;
        add 0 0 1 0 0 0 ;;;
        match record with
        | LogData data => apply data window
        | LogMapping _ => mret tt
        end ;;;
        replay_loop fuel position window
  end.

Definition replay_window (window : Z * Z) : M (RecoveryState D) unit :=
  add 0 1 0 0 0 0 ;;;
  s <- mget ;;
  let start := Publish.end_of (rv_active s) in
  replay_loop (blocks_left s start) start window.

Definition recovered : M (RecoveryState D) Recovered :=
  s <- mget ;;
  mret {| rc_cache := rv_cache s; rc_tail := rv_end s; rc_stats := rv_stats s |}.

(** The [while let] loop of [publish_windows]; each window takes a marked page or more. *)
Fixpoint window_loop (fuel : nat) (logical_bytes : Z) (budget : option Z) (capacity start : Z) :
    M (RecoveryState D) unit :=
  match fuel with
  | O => mlift Panic
  | S fuel =>
      s <- mget ;;
      match next_window (rv_candidate s) start capacity with
      | None => mret tt
      | Some window =>
          let start := window.2 in
          replay_window window ;;;
          s <- mget ;;
          candidate <- zoom (fun s => (rv_io s, rv_cache s))
                         (fun p s => with_io (fst p) (with_cache (snd p) s))
                         (Publish.append_snapshots (rv_candidate s)) ;;
          mmodify (with_candidate candidate) ;;;
          s <- mget ;;
          add 0 0 0 0 (lenZ (MappingCache.dirty_pages (rv_cache s))) 0 ;;;
          count_lookups ;;;
          match next_window candidate start capacity with
          | Some _ =>
              cache <- mlift (map_err recovery_error (MappingCache.new logical_bytes budget)) ;;
              mmodify (with_cache cache)
          | None => mret tt
          end ;;;
          window_loop fuel logical_bytes budget capacity start
      end
  end.

Definition publish_windows (budget : option Z) : M (RecoveryState D) Recovered :=
  prepare_publication ;;;
  s <- mget ;;
  let capacity := capacity (n_sizing (MappingCache.snapshot (rv_cache s))) in
  let logical_bytes := c_volume_blocks (k_descriptor (rv_active s)) * BLOCK_SIZE in
  window_loop (S (length (k_pages (rv_candidate s)))) logical_bytes budget capacity 0 ;;;
  on_io Io.sync ;;;
  s <- mget ;;
  candidate <- on_io (Publish.persist_root (rv_candidate s)) ;;
  g <- mlift (Descriptor.geometry (k_descriptor candidate)) ;;
  add 0 0 0 0 0 (g_index_blocks g * BLOCK_SIZE) ;;;
  mmodify (fun s => with_active candidate (with_candidate candidate
    (with_cache (MappingCache.checkpoint_published (rv_cache s)) s))) ;;;
  s <- mget ;;
  mret {| rc_cache := rv_cache s; rc_tail := Publish.end_of candidate; rc_stats := rv_stats s |}.

(** The body of [recover], once its struct is built. *)
Definition recover_tail (budget : option Z) : M (RecoveryState D) Recovered :=
  touched <- scan ;;
  s <- mget ;;
  mlift (Reservation.ensure_space (p_at (rv_end s)) (c_backing_blocks (k_descriptor (rv_active s))) touched) ;;;
  let capacity := capacity (n_sizing (MappingCache.snapshot (rv_cache s))) in
  if touched <=? capacity then
    (if negb (touched =? 0) then replay_window (0, lenZ (k_pages (rv_candidate s))) else mret tt) ;;;
    count_lookups ;;;
    recovered
  else publish_windows budget.

Definition recover (budget : option Z) : M (BackingIo D * Checkpoint) Recovered := fun '(io, active) =>
  let logical_bytes := c_volume_blocks (k_descriptor active) * BLOCK_SIZE in
  match map_err recovery_error (MappingCache.new logical_bytes budget) with
  | Err e => (Err e, (io, active))
  | Panic => (Panic, (io, active))
  | Ok cache =>
      let '(r, s) := recover_tail budget
        {| rv_io := io; rv_active := active; rv_candidate := active; rv_end := Publish.end_of active;
           rv_stats := zero_recovery_stats; rv_cache := cache |} in
      (r, (rv_io s, rv_active s))
  end.

End recovery.
End Recovery.
