(* ===== verification/Storage.v ===== *)
(** Formatting a backing file: [format] of [src/rust/src/format_v3/storage.rs]. *)

From S2P Require Import Prelude Bytes Geometry Format Checkpoint Index Accounting Uring Device.
From S2P Require Import BackingIo.

Module Storage.
Section storage.
Context `{Xxh3} {D : Type} `{!Device D}.

Definition with_slot (s : CheckpointSlot) (d : CheckpointDescriptor) : CheckpointDescriptor :=
  {| c_slot := s; c_volume_id := c_volume_id d; c_volume_blocks := c_volume_blocks d;
     c_backing_blocks := c_backing_blocks d; c_checkpoint_lsn := c_checkpoint_lsn d;
     c_last_record_boundary := c_last_record_boundary d; c_index_checksum := c_index_checksum d;
     c_generation := c_generation d |}.

(** An index block of one slot. *)
Definition write_index (g : Geometry) (k : Checkpoint) (slot : CheckpointSlot) (block : Z) :
    M (BackingIo D) unit :=
  bytes <- mlift (Index.encode_block k block) ;;
  Io.write_blocks (body_start slot g + block) [bytes].

(** A descriptor. *)
Definition write_descriptor (k : Checkpoint) (slot : CheckpointSlot) : M (BackingIo D) unit :=
  bytes <- mlift (Descriptor.encode (with_slot slot (k_descriptor k))) ;;
  Io.write_blocks (slot_number slot) [bytes].

(** The body of [format] for a backing file of [backing_bytes] that was opened,
    with the random id of the volume. *)
Definition format (volume_bytes backing_bytes : Z) (volume_id : res Z) : M (BackingIo D) unit :=
  mlift (fail_if ((volume_bytes =? 0) || negb (is_multiple_of volume_bytes BLOCK_SIZE)
                  || (MAX_VOLUME_BLOCKS <? volume_bytes / BLOCK_SIZE))
           (InvalidInput "invalid volume size")) ;;;
  mlift (fail_if (negb (is_multiple_of backing_bytes BLOCK_SIZE))
           (InvalidInput "backing size is not block aligned")) ;;;
  g <- mlift (map_err (fun e => match e with InvalidData m => InvalidInput m | e => e end)
                (Geometry.new (volume_bytes / BLOCK_SIZE) (backing_bytes / BLOCK_SIZE))) ;;
  id <- mlift volume_id ;;
  k <- mlift (Index.empty g id) ;;
  mfor [Green; Blue] (fun slot => mfor (seqZ 0 (g_index_blocks g)) (write_index g k slot)) ;;;
  Io.sync ;;;
  mfor [Green; Blue] (write_descriptor k) ;;;
  Io.sync.

End storage.
End Storage.
