(* ===== verification/Roots.v ===== *)
(** Roots on the file: what [src/rust/src/format_v3/checkpoint_load.rs] finds, and
    what [format] of [src/rust/src/format_v3/storage.rs] leaves for it. *)

From S2P Require Import Prelude.
From S2P Require Import Bytes.
From S2P Require Import Geometry.
From S2P Require Import Format.
From S2P Require Import Entries.
From S2P Require Import MappingPage.
From S2P Require Import Checkpoint.
From S2P Require Import Index.
From S2P Require Import Accounting.
From S2P Require Import Uring.
From S2P Require Import Device.
From S2P Require Import BackingIo.
From S2P Require Import Tail.
From S2P Require Import PageRead.
From S2P Require Import CheckpointLoad.
From S2P Require Import Publish.
From S2P Require Import Storage.

Module Roots.
Section roots.
Context `{Xxh3} {D : Type} `{!Device D} `{!DeviceLaws D}.
Implicit Types io : BackingIo D.

(** A root that can be used: its descriptor, its index and its pages are there. *)
Record readable (f : Z -> list Z) (k : Checkpoint) (g : Geometry) : Prop := {
  ro_geometry : Geometry.wf g;
  ro_index : Index.wf k g;
  ro_typed : Descriptor.typed (k_descriptor k);
  ro_rooted : Publish.rooted f k g;
  ro_pages : forall p, 0 <= p < g_page_count g -> is_Some (PageRead.disk_page f k g p);
}.

(** The blocks that the pages of the root map. *)
Definition live_blocks (f : Z -> list Z) (k : Checkpoint) (g : Geometry) (pages : list (Z * Z)) : Z :=
  fold_right Z.add 0 (map (fun p => if p.2 =? 0 then 0
    else match PageRead.disk_page f k g p.1 with Some e => Load.mapped_entries e | None => 0 end) pages).

(** A computation that only reads: it ends with [Q] of its value, or with an error of an
    operation. *)
Definition reads {A} io (Q : A -> Prop) (r : res A) io' : Prop :=
  Io.untouched io io' /\
  match r with Ok a => Q a | Err e => Io.failure io e | Panic => False end.

Lemma reads_after {A} io io1 (Q : A -> Prop) r io2 : Io.untouched io io1 -> reads io1 Q r io2 -> reads io Q r io2.
Proof.
  intros Hu [Hu2 HQ]. split; [by eapply Io.untouched_trans|].
  destruct r as [a|e|]; [done|by eapply Io.failure_untouched|done].
Qed.

Lemma reads_bind {A B} (m : M (BackingIo D) A) (k : A -> M (BackingIo D) B) io (P : A -> Prop) (Q : B -> Prop) :
  runs m io (reads io P) ->
  (forall a io1, P a -> Io.untouched io io1 -> runs (k a) io1 (reads io1 Q)) ->
  runs (mbind m k) io (reads io Q).
Proof.
  intros Hm Hk. apply runs_bind. eapply runs_mono; [exact Hm|]. cbv beta. intros [a|e|] io1 [Hu HP]; cbn [next];
    [|by split|done]. eapply runs_mono; [by apply Hk|]. cbv beta. intros r io2. by apply reads_after.
Qed.

Lemma reads_lift {A} (r : res A) io (Q : A -> Prop) a : r = Ok a -> Q a -> runs (mlift r) io (reads io Q).
Proof. intros -> HQ. apply runs_lift. split; [apply Io.untouched_refl|done]. Qed.

Lemma reads_block b io : 0 <= b -> runs (Io.read_block_exact b) io (reads io (fun bytes => bytes = Io.file io b)).
Proof.
  intros Hb. apply runs_intro. intros r io' Hrun. pose proof (Io.read_block_error b io) as He. rewrite Hrun in He.
  apply Io.read_block_spec in Hrun as (Hu & _ & Hnp & Hd); [|done]. split; [done|].
  destruct r as [bytes|e|]; [by apply Hd|by apply He|done].
Qed.

Lemma reads_tally a b c d e f io : runs (Io.tally a b c d e f) io (reads io (fun _ => True)).
Proof. apply runs_modify. split; [by apply Io.untouched_same; [|intros E]|done]. Qed.

(** ** The index *)

Lemma read_index_run f k g j n kj hashed io :
  Index.wf k g -> Geometry.wf g -> Publish.rooted f k g -> (forall x, Io.file io x = f x) ->
  0 <= j -> j + Z.of_nat n = g_index_blocks g ->
  k_descriptor kj = k_descriptor k -> lenZ (k_pages kj) = lenZ (k_pages k) ->
  (forall i, 0 <= i < g_page_count g -> i / 1024 < j -> arr (k_pages kj) i = arr (k_pages k) i) ->
  runs (Load.read_index (seqZ j (Z.of_nat n)) g kj hashed) io (reads io (fun '(k', hashed') =>
    k' = k /\ exists blocks, rmapM (Index.encode_block k) (seqZ j (Z.of_nat n)) = Ok blocks /\
      hashed' = hashed ++ concat blocks)).
Proof.
  intros Hk Hg Hroot. pose proof Hroot as (_ & _ & Hbody). revert j kj hashed io.
  induction n as [|n IH]; intros j kj hashed io Hf Hj Hn Hd Hlen Hpre.
  { apply runs_ret. split; [apply Io.untouched_refl|]. split; [|by exists []; rewrite app_nil_r].
    pose proof (Index.wf_length _ _ Hk) as Hl. destruct Hg as [_ _ Hix _ _].
    assert (k_pages kj = k_pages k) as Hpg.
    { apply arr_ext; [done|]. intros i Hi. apply Hpre; [lia|]. apply Z.div_lt_upper_bound; lia. }
    destruct kj, k; cbn in *. congruence. }
  rewrite seqZ_cons by lia. cbn [Load.read_index].
  replace (Z.pred (Z.of_nat (S n))) with (Z.of_nat n) by lia.
  pose proof (Publish.body_bounds (c_slot (k_descriptor k)) g Hg) as Hbb.
  apply (reads_bind _ _ _ (fun bytes => bytes = f (body_start (c_slot (k_descriptor kj)) g + j))).
  { rewrite <- Hf. apply reads_block. rewrite Hd. lia. }
  intros bytes io1 -> Hu1. rewrite Hd.
  destruct (Index.encode_decode_block k kj g j Hk ltac:(lia) Hd Hlen)
    as (bytes & k' & He & Hbo & Hdec & Hd' & Hlen' & Harr).
  assert (Hb : f (body_start (c_slot (k_descriptor k)) g + j) = bytes).
  { pose proof (Hbody j ltac:(lia)). congruence. }
  rewrite Hb. apply (reads_bind _ _ _ (fun a => a = k')); [by eapply reads_lift|].
  intros a io2 -> Hu2. eapply runs_mono; [apply (IH (Z.succ j) k' (hashed ++ bytes) io2); try done; try lia|].
  { intros x. destruct Hu1 as [Hu1 _], Hu2 as [Hu2 _]. by rewrite Hu2, Hu1. }
  { intros i Hi Hij. rewrite Harr by done. destruct (Z.eqb_spec (i / 1024) j); [done|]. apply Hpre; [done|lia]. }
  cbv beta. intros r io3 [Hu3 Hr]. split; [done|]. assert (Hu12 : Io.untouched io io2) by (by eapply Io.untouched_trans).
  destruct r as [[k'' h]|e|]; [|done..]. destruct Hr as (-> & blocks & Hbl & ->). split; [done|]. exists (bytes :: blocks). cbn [rmapM]. rewrite He. cbn [rbind].
  rewrite Hbl. cbn [rbind concat]. split; [done|]. by rewrite <- app_assoc.
Qed.

(** ** The pages *)

Lemma verify_pages_run f k g pages live io :
  (forall x, Io.file io x = f x) -> Geometry.wf g -> Index.wf k g ->
  (forall p b, (p, b) ∈ pages -> 0 <= p < g_page_count g /\ k_pages k !! Z.to_nat p = Some b) ->
  (forall p, 0 <= p < g_page_count g -> is_Some (PageRead.disk_page f k g p)) ->
  runs (Load.verify_pages pages g k live) io (reads io (fun n => n = live + live_blocks f k g pages)).
Proof.
  intros Hf Hg Hk Hin Hp. revert live io Hf. induction pages as [|[p b] pages IH]; intros live io Hf.
  { apply runs_ret. split; [apply Io.untouched_refl|]. unfold live_blocks. cbn. lia. }
  destruct (Hin p b ltac:(by left)) as [Hpr Hb]. cbn [Load.verify_pages].
  assert (Htail : forall q c, (q, c) ∈ pages -> 0 <= q < g_page_count g /\ k_pages k !! Z.to_nat q = Some c)
    by (intros; apply Hin; by right).
  unfold live_blocks. cbn [map fold_right snd fst]. fold (live_blocks f k g pages).
  destruct (Z.eqb_spec b 0) as [->|Hne]; [by apply IH|].
  destruct (Publish.pointer_range g k (Z.to_nat p) b Hk Hb Hne) as [Hrange _].
  assert (0 <= g_log_start g) by (destruct Hg; lia).
  apply (reads_bind _ _ _ (fun bytes => bytes = f b)).
  { rewrite <- Hf. apply reads_block. lia. }
  intros bytes io1 -> Hu1. apply (reads_bind _ _ _ (fun _ => True)); [apply reads_tally|].
  intros _ io2 _ Hu2. destruct (Hp p Hpr) as [e He]. rewrite He.
  assert (exists r, PageRecord.decode (f b) (PageRead.expectation k g p b) = Ok r /\ p_entries r = e) as (r & Hr & <-).
  { unfold PageRead.disk_page in He. rewrite Hb in He. destruct (Z.eqb_spec b 0); [done|].
    destruct (PageRecord.decode _ _) as [r| |]; try done. injection He as <-. by exists r. }
  apply (reads_bind _ _ _ (fun a => a = r)); [by eapply reads_lift|]. intros a io3 -> Hu3.
  eapply runs_mono; [apply (IH Htail)|].
  { intros x. destruct Hu1 as [Hu1 _], Hu2 as [Hu2 _], Hu3 as [Hu3 _]. by rewrite Hu3, Hu2, Hu1. }
  cbv beta. intros [n|e|] io4 [Hu4 Hn]; (split; [done|]); [|done..]. rewrite Hn. lia.
Qed.

(** [load_candidate] on the descriptor of a readable root. *)
Lemma load_candidate_run f k g io :
  (forall x, Io.file io x = f x) -> readable f k g ->
  runs (Load.load_candidate (k_descriptor k)) io (reads io (fun '(k', n) =>
    k' = k /\ n = live_blocks f k g (zip (seqZ 0 (lenZ (k_pages k))) (k_pages k)))).
Proof.
  intros Hf []. pose proof (Index.wf_geometry _ _ ro_index0) as Hgeo.
  unfold Load.load_candidate. apply (reads_bind _ _ _ (fun a => a = g)); [by eapply reads_lift|]. intros a io1 -> Hu1.
  destruct (Geometry.new_wf _ _ g (Index.wf_positive _ _ ro_index0) Hgeo) as (_ & Hgv & Hgb).
  pose proof ro_geometry0 as [Hv Hpc Hix Hst Hbk].
  destruct (Index.empty_Ok (g_volume_blocks g) (g_backing_blocks g) g (c_volume_id (k_descriptor k)))
    as (k0 & Hk0 & Hwf0 & Hp0 & _).
  { unfold is_u32. lia. } { apply ro_typed0. } { by rewrite Hgv, Hgb. } { unfold is_u64. lia. }
  apply (reads_bind _ _ _ (fun a => a = k0)); [by eapply reads_lift|]. intros a io2 -> Hu2.
  assert (Hf2 : forall x, Io.file io2 x = f x).
  { intros x. destruct Hu1 as [Hu1 _], Hu2 as [Hu2 _]. by rewrite Hu2, Hu1. }
  set (ke := Build_Checkpoint _ _).
  assert (Hlen : lenZ (k_pages ke) = lenZ (k_pages k)).
  { cbn. rewrite (Index.wf_length _ _ Hwf0), (Index.wf_length _ _ ro_index0). done. }
  pose proof (read_index_run f k g 0 (Z.to_nat (g_index_blocks g)) ke [] io2 ro_index0 ro_geometry0 ro_rooted0 Hf2) as Hidx.
  rewrite Z2Nat.id in Hidx by lia.
  eapply reads_bind; [apply Hidx; [lia|lia|done|done|]|].
  { intros i Hi Hneg. pose proof (Z.div_pos i 1024 ltac:(lia) ltac:(lia)). lia. }
  intros [k' hashed] io3 (-> & blocks & Hbl & ->) Hu3.
  assert (Hsum : xxh3 0 ([] ++ concat blocks) = c_index_checksum (k_descriptor k)).
  { destruct ro_rooted0 as (_ & Hc & _). unfold Index.checksum in Hc. rewrite Hgeo in Hc. cbn [rbind] in Hc.
    rewrite Hbl in Hc. cbn [rbind] in Hc. by injection Hc. }
  rewrite Hsum, Z.eqb_refl. cbn [negb fail_if].
  apply (reads_bind _ _ _ (fun _ => True)); [by eapply reads_lift|]. intros _ io4 _ Hu4.
  eapply reads_bind; [apply (verify_pages_run f k g)|].
  { intros x. destruct Hu3 as [Hu3 _], Hu4 as [Hu4 _]. by rewrite Hu4, Hu3. }
  { done. } { done. }
  { intros p b (i & Hi)%list_elem_of_lookup. apply lookup_zip_with_Some in Hi as (x & y & [= -> ->] & Hx & Hy).
    apply lookup_seqZ in Hx as [-> Hx]. rewrite <- (Index.wf_length _ _ ro_index0). split; [lia|].
    by replace (Z.to_nat (0 + Z.of_nat i)) with i by lia. }
  { done. }
  intros n io5 -> Hu5. apply runs_ret. split; [apply Io.untouched_refl|]. by rewrite Z.add_0_l.
Qed.

(** ** The choice *)

(** The descriptor that a slot offers. *)
Definition offered (f : Z -> list Z) (slot : CheckpointSlot) (backing : Z) : option CheckpointDescriptor :=
  match Descriptor.decode (f (slot_number slot)) slot backing with Ok d => Some d | _ => None end.

(** What the other slot offers does not stand in the way of [k]. *)
Definition superseded (f : Z -> list Z) (k : Checkpoint) : Prop :=
  match offered f (slot_other (c_slot (k_descriptor k))) (c_backing_blocks (k_descriptor k)) with
  | None => True
  | Some d => Descriptor.validate_pair (k_descriptor k) d = Ok tt /\
      (c_generation d < c_generation (k_descriptor k) \/
       (c_generation d = c_generation (k_descriptor k) /\ c_slot (k_descriptor k) = Green))
  end.

Lemma read_descriptor_run f slot backing io :
  (forall x, Io.file io x = f x) ->
  runs (Load.read_descriptor slot backing) io (reads io (fun d => d = offered f slot backing)).
Proof.
  intros Hf. unfold Load.read_descriptor. apply (reads_bind _ _ _ (fun bytes => bytes = f (slot_number slot))).
  { rewrite <- Hf. apply reads_block. by destruct slot. }
  intros bytes io1 -> Hu. unfold offered.
  pose proof (Descriptor.descriptor_decode_not_Panic (f (slot_number slot)) slot backing) as Hnp.
  pose proof (Descriptor.descriptor_decode_error (f (slot_number slot)) slot backing) as He.
  destruct (Descriptor.decode _ slot backing) as [d|e|]; [|rewrite (He e eq_refl)|done];
    (apply runs_ret; split; [apply Io.untouched_refl|done]).
Qed.

Lemma offered_root f k g :
  readable f k g -> offered f (c_slot (k_descriptor k)) (c_backing_blocks (k_descriptor k)) = Some (k_descriptor k).
Proof.
  intros []. destruct ro_rooted0 as (He & _). unfold offered.
  by destruct (Descriptor.descriptor_encode_decode _ _ ro_typed0 He) as (_ & -> & _).
Qed.

(** The newest candidate comes first. *)
Lemma order_first f k g :
  readable f k g -> superseded f k ->
  let backing := c_backing_blocks (k_descriptor k) in
  exists rest, Load.order (offered f Green backing) (offered f Blue backing) = Ok (k_descriptor k :: rest).
Proof.
  intros Hr Hs backing. pose proof (offered_root f k g Hr) as Hk. unfold superseded in Hs. fold backing in Hk, Hs.
  unfold Load.order. destruct (c_slot (k_descriptor k)) eqn:Es; cbn [slot_other] in Hs; rewrite Hk.
  - destruct (offered f Blue backing) as [d|]; [|by eexists]. destruct Hs as [-> Hg]. cbn [rbind].
    destruct (Z.ltb_spec (c_generation (k_descriptor k)) (c_generation d)); [lia|by eexists].
  - destruct (offered f Green backing) as [d|]; [|by eexists]. destruct Hs as [Hp Hg].
    rewrite (Descriptor.validate_pair_sym _ _ Hp). cbn [rbind].
    destruct (Z.ltb_spec (c_generation d) (c_generation (k_descriptor k))); [by eexists|].
    destruct Hg as [|[_ ?]]; [lia|done].
Qed.

Lemma load_run f k g io :
  (forall x, Io.file io x = f x) -> readable f k g -> superseded f k ->
  runs (Load.load (c_backing_blocks (k_descriptor k))) io (reads io (fun '(k', n) =>
    k' = k /\ n = live_blocks f k g (zip (seqZ 0 (lenZ (k_pages k))) (k_pages k)))).
Proof.
  intros Hf Hr Hs. destruct (order_first f k g Hr Hs) as [rest Horder]. pose proof Hr as [].
  destruct (Geometry.new_wf _ _ g (Index.wf_positive _ _ ro_index0) (Index.wf_geometry _ _ ro_index0)) as (_ & _ & Hgb).
  set (backing := c_backing_blocks (k_descriptor k)) in *. unfold Load.load.
  apply (reads_bind _ _ _ (fun _ => True)).
  { eapply reads_lift; [|done]. destruct ro_geometry0. change MAX_BACKING_BLOCKS with (2 ^ 32).
    destruct (Z.leb_spec 2 backing), (Z.leb_spec backing (2 ^ 32)); (done || lia). }
  intros _ io1 _ Hu1. assert (Hf1 : forall x, Io.file io1 x = f x) by (intros x; destruct Hu1 as [Hu1 _]; by rewrite Hu1).
  eapply reads_bind; [by apply (read_descriptor_run f)|]. intros green io2 -> Hu2.
  assert (Hf2 : forall x, Io.file io2 x = f x) by (intros x; destruct Hu2 as [Hu2 _]; by rewrite Hu2).
  eapply reads_bind; [by apply (read_descriptor_run f)|]. intros blue io3 -> Hu3.
  assert (Hf3 : forall x, Io.file io3 x = f x) by (intros x; destruct Hu3 as [Hu3 _]; by rewrite Hu3).
  apply (reads_bind _ _ _ (fun a => a = k_descriptor k :: rest)); [by eapply reads_lift|]. intros c io4 -> Hu4.
  cbn [Load.try_candidates]. apply runs_bind, runs_try.
  eapply runs_mono; [apply (load_candidate_run f k g)|]; [|done|].
  { intros x. destruct Hu4 as [Hu4 _]. by rewrite Hu4. }
  cbv beta. intros [[k' n]|e|] io5 [Hu5 Hq]; cbn [next]; [| |done].
  - apply runs_ret. by split.
  - rewrite (Io.failure_not_data _ _ Hq). by apply runs_lift.
Qed.

(** ** Formatting *)

Definition encoded_at (f : Z -> list Z) (g : Geometry) (k : Checkpoint) (slot : CheckpointSlot) : Prop :=
  forall b, 0 <= b < g_index_blocks g -> Index.encode_block k b = Ok (f (body_start slot g + b)).

(** One block, written. *)
Lemma device_write_run b block io :
  0 <= b < MAX_BACKING_BLOCKS -> block_ok block ->
  runs (Io.write_blocks b [block]) io (fun (r : res unit) io' => r <> Panic /\
    Io.changed (fun x => x = b) io io' /\ (r = Ok tt -> Io.file io' b = block)).
Proof.
  intros Hb Hok. apply runs_intro. intros r io' Hrun.
  apply Io.write_blocks_spec in Hrun as (Ht & Hf & Hnp); [|lia|by apply Forall_singleton].
  change (lenZ [block]) with 1 in *. split; [apply Hnp; lia|]. split.
  - eapply Io.touched_changed; [exact Ht|]. cbv beta. lia.
  - intros ->. rewrite (Hf eq_refl). replace b with (b + 0) at 2 by lia.
    by apply (overwrite_inside (Io.file io) b [block] 0).
Qed.

Lemma write_index_run g k slot io :
  Geometry.wf g -> Index.wf k g ->
  runs (mfor (seqZ 0 (g_index_blocks g)) (Storage.write_index g k slot)) io (fun (r : res unit) io' => r <> Panic /\
    Io.changed (Publish.body_blocks slot g) io io' /\ (r = Ok tt -> encoded_at (Io.file io') g k slot)).
Proof.
  intros Hg Hk. set (n := g_index_blocks g). pose proof (Publish.body_bounds slot g Hg) as Hbb.
  apply (runs_for (fun xs io1 => exists j, 0 <= j <= Z.max 0 n /\ xs = seqZ j (n - j) /\
    Io.changed (Publish.body_blocks slot g) io io1 /\
    forall b, 0 <= b < j -> Index.encode_block k b = Ok (Io.file io1 (body_start slot g + b)))).
  - intros x xs io1 (j & Hj & Hxs & Hch & Hdone).
    assert (j < n) as Hjn. { destruct (Z.lt_ge_cases j n); [done|]. by rewrite seqZ_nil in Hxs by lia. }
    rewrite seqZ_cons in Hxs by lia. injection Hxs as -> ->. unfold Storage.write_index.
    destruct (Index.encode_block_total k g j Hk ltac:(unfold n in *; lia)) as [bytes Hbytes].
    pose proof (Index.encode_block_ok k g j bytes Hk ltac:(unfold n in *; lia) Hbytes) as Hbo. rewrite Hbytes.
    apply runs_bind, runs_lift. cbn [next].
    eapply runs_mono; [apply device_write_run; [unfold n in *; lia|done]|]. cbv beta. intros r io2 (Hnp & Hch2 & Hf).
    assert (Hch' : Io.changed (Publish.body_blocks slot g) io io2).
    { eapply Io.changed_trans; [exact Hch|]. eapply Io.changed_mono; [|exact Hch2]. unfold Publish.body_blocks, n in *. lia. }
    destruct r as [[]|e|]; [|by split|done]. exists (Z.succ j). split; [lia|]. split; [f_equal; lia|]. split; [done|].
    intros b Hb. destruct (Z.eq_dec b j) as [->|]; [rewrite Hbytes; by rewrite Hf|].
    rewrite (proj1 Hch2) by lia. apply Hdone. lia.
  - intros io1 (j & Hj & Hxs & Hch & Hdone). split; [done|]. split; [done|]. intros _ b Hb. apply Hdone.
    assert (n - j <= 0); [|unfold n in *; lia].
    apply (f_equal (@length Z)) in Hxs. rewrite length_seqZ in Hxs. cbn in Hxs. lia.
  - exists 0. split; [lia|]. split; [by rewrite Z.sub_0_r|]. split; [apply Io.changed_refl|]. lia.
Qed.

Lemma write_descriptor_run k slot io :
  (exists g, Descriptor.valid (Storage.with_slot slot (k_descriptor k)) g) ->
  runs (Storage.write_descriptor k slot) io (fun (r : res unit) io' => r <> Panic /\
    Io.changed (fun x => x = slot_number slot) io io' /\
    (r = Ok tt -> Descriptor.encode (Storage.with_slot slot (k_descriptor k)) = Ok (Io.file io' (slot_number slot)))).
Proof.
  intros Hv. unfold Storage.write_descriptor. apply runs_bind, runs_lift.
  unfold Descriptor.encode. rewrite (proj2 (Descriptor.descriptor_validate_Ok _) Hv). cbn [rbind next].
  eapply runs_mono; [apply device_write_run|].
  - change MAX_BACKING_BLOCKS with (2 ^ 32). destruct slot; cbn; lia.
  - apply seal_ok, Descriptor.descriptor_ok.
  - cbv beta. intros r io' (Hnp & Hch & Hf). split; [done|]. split; [done|]. intros Hr. by rewrite Hf.
Qed.

(** The four steps of [format], once the volume is empty. *)
Definition lay_out (g : Geometry) (k : Checkpoint) : M (BackingIo D) unit :=
  mfor [Green; Blue] (fun slot => mfor (seqZ 0 (g_index_blocks g)) (Storage.write_index g k slot)) ;;;
  Io.sync ;;;
  mfor [Green; Blue] (Storage.write_descriptor k) ;;;
  Io.sync.

Lemma encoded_at_kept f f' g k slot (P : Z -> Prop) :
  encoded_at f g k slot -> (forall x, ~ P x -> f' x = f x) -> (forall x, Publish.body_blocks slot g x -> ~ P x) ->
  encoded_at f' g k slot.
Proof. intros He Hf HP b Hb. rewrite Hf; [by apply He|]. apply HP. unfold Publish.body_blocks. lia. Qed.

Lemma lay_out_run g k io :
  Geometry.wf g -> Index.wf k g -> c_slot (k_descriptor k) = Green ->
  (forall slot, exists g', Descriptor.valid (Storage.with_slot slot (k_descriptor k)) g') ->
  runs (lay_out g k) io (fun (r : res unit) io' => r <> Panic /\ (r = Ok tt -> Io.durable io' /\
    forall slot, encoded_at (Io.file io') g k slot /\
      Descriptor.encode (Storage.with_slot slot (k_descriptor k)) = Ok (Io.file io' (slot_number slot)))).
Proof.
  intros Hg Hk Hs Hv. unfold lay_out. cbn [mfor]. apply runs_bind, runs_bind.
  eapply runs_mono; [by apply write_index_run|]. cbv beta. intros r io1 (Hnp1 & Hch1 & He1).
  destruct r as [[]|e|]; [|by split|done]. cbn [next]. apply runs_bind.
  eapply runs_mono; [by apply write_index_run|]. cbv beta. intros r io2 (Hnp2 & Hch2 & He2).
  destruct r as [[]|e|]; [|by split|done]. cbn [next]. apply runs_ret. cbn [next].
  apply runs_bind, runs_intro. intros r io3 Hrun. apply Io.sync_spec in Hrun as (Hu3 & Hnp3 & _).
  destruct r as [[]|e|]; [|by split|done]. cbn [next]. apply runs_bind, runs_bind.
  eapply runs_mono; [by apply write_descriptor_run|]. cbv beta. intros r io4 (Hnp4 & Hch4 & He4).
  destruct r as [[]|e|]; [|by split|done]. cbn [next]. apply runs_bind.
  eapply runs_mono; [by apply write_descriptor_run|]. cbv beta. intros r io5 (Hnp5 & Hch5 & He5).
  destruct r as [[]|e|]; [|by split|done]. cbn [next]. apply runs_ret. cbn [next].
  apply runs_intro. intros r io6 Hrun. apply Io.sync_spec in Hrun as (Hu6 & Hnp6 & Hd). split; [done|].
  intros ->. split; [by apply Hd|].
  assert (Hbody : forall slot, encoded_at (Io.file io2) g k slot).
  { intros [].
    - eapply encoded_at_kept; [by apply He1|apply Hch2|]. unfold Publish.body_blocks, body_start. destruct Hg; lia.
    - by apply He2. }
  assert (H6 : forall x, slot_number Green <> x -> slot_number Blue <> x -> Io.file io6 x = Io.file io2 x).
  { intros x Hx Hy. rewrite (proj1 Hu6), (proj1 Hch5), (proj1 Hch4), (proj1 Hu3); (done || lia). }
  intros slot. split.
  - intros b Hb. rewrite H6; [by apply Hbody|..]; pose proof (Publish.body_bounds slot g Hg); cbn; lia.
  - rewrite (proj1 Hu6). destruct slot; [|by apply He5]. rewrite (proj1 Hch5) by (cbn; lia). by apply He4.
Qed.

Lemma live_blocks_empty f k g :
  live_blocks f k g (zip (seqZ 0 (lenZ (zeros (g_page_count g)))) (zeros (g_page_count g))) = 0.
Proof.
  unfold live_blocks. assert (Hz : forall p, p ∈ zip (seqZ 0 (lenZ (zeros (g_page_count g)))) (zeros (g_page_count g)) -> p.2 = 0).
  { intros p (i & Hi)%list_elem_of_lookup. apply lookup_zip_with_Some in Hi as (x & y & -> & _ & Hy).
    unfold zeros in Hy. by apply lookup_replicate_1 in Hy as [-> _]. }
  induction (zip _ _) as [|p l IH]; [done|]. cbn [map fold_right]. rewrite (Hz p) by (by left). cbn [Z.eqb].
  rewrite IH; [done|]. intros q Hq. apply Hz. by right.
Qed.

(** What [format] leaves: the empty checkpoint in both slots, durable. *)
Definition formatted (f : Z -> list Z) (blocks backing id : Z) : Prop :=
  exists g k, Geometry.new blocks backing = Ok g /\ Index.empty g id = Ok k /\
    k_pages k = zeros (g_page_count g) /\ c_backing_blocks (k_descriptor k) = backing /\
    readable f k g /\ superseded f k.

Lemma formatted_root f g k blocks backing id :
  is_u32 blocks -> is_u64 id -> is_u64 backing -> Geometry.new blocks backing = Ok g -> Index.empty g id = Ok k ->
  (forall slot, encoded_at f g k slot /\
     Descriptor.encode (Storage.with_slot slot (k_descriptor k)) = Ok (f (slot_number slot))) ->
  formatted f blocks backing id.
Proof.
  intros Hb Hid Hbk Hg Hk Hf. pose proof (Geometry.new_wf _ _ _ ltac:(apply Hb) Hg) as (Hwf & Hgv & Hgb).
  destruct (Index.empty_Ok blocks backing g id Hb Hid Hg Hbk) as (k' & Hk' & Hi & Hp & Hsum & Hty & Hva & _).
  assert (k' = k) as -> by congruence.
  assert (Hslot : c_slot (k_descriptor k) = Green /\ c_backing_blocks (k_descriptor k) = backing).
  { revert Hk. unfold Index.empty. intros Hk. ok_inv. done. }
  destruct Hslot as [Hs Hbb]. exists g, k. split; [done|]. split; [done|]. split; [done|]. split; [done|].
  assert (Hsame : Storage.with_slot Green (k_descriptor k) = k_descriptor k).
  { rewrite <- Hs. by destruct (k_descriptor k). }
  destruct (Hf Green) as [Heg Hdg]. rewrite Hsame in Hdg. split.
  - constructor; try done.
    + unfold Publish.rooted. rewrite Hs. by split.
    + intros p Hpr. unfold PageRead.disk_page. rewrite Hp. unfold zeros. rewrite lookup_replicate_2 by lia. by eexists.
  - unfold superseded, offered. rewrite Hs. cbn [slot_other].
    destruct (Hf Blue) as [_ Hdb].
    destruct (Descriptor.descriptor_encode_decode (Storage.with_slot Blue (k_descriptor k)) _ Hty Hdb) as (_ & Hdec & _).
    cbn [c_slot c_backing_blocks Storage.with_slot] in Hdec. rewrite Hdec. split; [|by right].
    by apply Descriptor.validate_pair_Ok.
Qed.

Lemma format_run volume_bytes backing_bytes volume_id io :
  0 <= volume_bytes -> is_u64 backing_bytes -> volume_id <> Panic -> (forall id, volume_id = Ok id -> is_u64 id) ->
  runs (Storage.format volume_bytes backing_bytes volume_id) io (fun (r : res unit) io' => r <> Panic /\
    (r = Ok tt -> exists id, volume_id = Ok id /\ Io.durable io' /\
       formatted (Io.file io') (volume_bytes / BLOCK_SIZE) (backing_bytes / BLOCK_SIZE) id)).
Proof.
  intros Hv Hbk Hnp Hid. unfold Storage.format. change BLOCK_SIZE with 4096.
  apply runs_bind, runs_lift. destruct (_ || (MAX_VOLUME_BLOCKS <? _)) eqn:Hg1; [by split|]. cbn [fail_if next].
  apply runs_bind, runs_lift. destruct (negb (is_multiple_of backing_bytes 4096)) eqn:Hg2; [by split|]. cbn [fail_if next].
  apply runs_bind, runs_lift. pose proof (Geometry.new_not_Panic (volume_bytes / 4096) (backing_bytes / 4096)).
  destruct (Geometry.new (volume_bytes / 4096) (backing_bytes / 4096)) as [g|e|] eqn:Hgn; [|by split|done]. cbn [map_err next].
  apply runs_bind, runs_lift. destruct volume_id as [id|e|]; [|by split|done]. cbn [next].
  assert (Hb : is_u32 (volume_bytes / 4096)).
  { apply orb_false_iff in Hg1 as [_ Hg1]. apply Z.ltb_ge in Hg1. change MAX_VOLUME_BLOCKS with 2147483648 in Hg1.
    pose proof (Z.div_pos volume_bytes 4096 Hv ltac:(lia)). unfold is_u32. lia. }
  assert (Hbb : is_u64 (backing_bytes / 4096)).
  { unfold is_u64 in *. split; [apply Z.div_pos; lia|]. apply Z.div_lt_upper_bound; lia. }
  destruct (Index.empty_Ok _ _ g id Hb (Hid id eq_refl) Hgn Hbb) as (k & Hk & Hi & _ & _ & _ & Hva & _).
  rewrite Hk. apply runs_bind, runs_lift. cbn [next].
  assert (Hs : c_slot (k_descriptor k) = Green) by (revert Hk; unfold Index.empty; intros Hk; ok_inv; done).
  destruct (Geometry.new_wf _ _ _ ltac:(apply Hb) Hgn) as (Hwf & _).
  fold (lay_out g k). eapply runs_mono; [apply (lay_out_run g k io Hwf Hi Hs)|].
  { intros slot. exists g. destruct Hva. by constructor. }
  cbv beta. intros r io' [Hnp' Hr]. split; [done|]. intros ->. destruct (Hr eq_refl) as [Hd Hf].
  exists id. split; [done|]. split; [done|].
  apply (formatted_root _ g k); [exact Hb|by apply Hid|exact Hbb|exact Hgn|exact Hk|exact Hf].
Qed.

(** C32. Whatever the device holds, [load] returns the root whose descriptor, index and
    pages are on it, with the number of blocks it maps, if what the other slot
    offers is damaged or older; it only reads, and it fails only with an I/O error. *)
Theorem load_finds_the_root k g io r io' :
  readable (Io.file io) k g -> superseded (Io.file io) k ->
  Load.load (c_backing_blocks (k_descriptor k)) io = (r, io') ->
  Io.untouched io io' /\
  match r with
  | Ok (k', n) => k' = k /\ n = live_blocks (Io.file io) k g (zip (seqZ 0 (lenZ (k_pages k))) (k_pages k))
  | Err e => is_invalid_data e = false
  | Panic => False
  end.
Proof.
  intros Hr Hs Hrun. apply (runs_elim _ _ _ _ _ (load_run (Io.file io) k g io ltac:(done) Hr Hs)) in Hrun as [Hu Hq].
  split; [done|]. destruct r as [[k' n]|e|]; [done|by eapply Io.failure_not_data|done].
Qed.

(** C33. A volume that [format] reports as formatted is durable and loads: [load] finds the
    empty checkpoint of the requested geometry and id, which maps no block. *)
Theorem format_then_load volume_bytes backing_bytes id io io1 r io2 :
  0 <= volume_bytes -> is_u64 backing_bytes -> is_u64 id ->
  Storage.format volume_bytes backing_bytes (Ok id) io = (Ok tt, io1) ->
  Load.load (backing_bytes / BLOCK_SIZE) io1 = (r, io2) ->
  Io.durable io1 /\
  match r with
  | Ok (k, n) => n = 0 /\ exists g,
      Geometry.new (volume_bytes / BLOCK_SIZE) (backing_bytes / BLOCK_SIZE) = Ok g /\ Index.empty g id = Ok k
  | Err e => is_invalid_data e = false
  | Panic => False
  end.
Proof.
  intros Hv Hb Hid Hfmt Hload.
  apply (runs_elim _ _ _ _ _ (format_run volume_bytes backing_bytes (Ok id) io Hv Hb ltac:(done) ltac:(by intros ? [= <-])))
    in Hfmt as [_ Hfmt]. destruct (Hfmt eq_refl) as (id' & [= <-] & Hd & g & k & Hg & Hk & Hp & Hbb & Hr & Hs).
  split; [done|]. rewrite <- Hbb in Hload.
  apply (runs_elim _ _ _ _ _ (load_run (Io.file io1) k g io1 ltac:(done) Hr Hs)) in Hload as [_ Hq].
  destruct r as [[k' n]|e|]; [|by eapply Io.failure_not_data|done]. destruct Hq as [-> ->]. split; [rewrite Hp; apply live_blocks_empty|]. by exists g.
Qed.

End roots.

(** ** A formatted device *)

#[local] Existing Instance fold_xxh3.

Definition format_example : res unit * BackingIo MemDevice :=
  Storage.format (4096 * 1000) (4096 * 100) (Ok 77) (Io.new example_device None).

Definition formatted_io : BackingIo MemDevice := format_example.2.

Lemma format_example_Ok : format_example = (Ok tt, formatted_io).
Proof.
  unfold formatted_io. assert (H : is_ok format_example.1 = true) by (vm_compute; reflexivity).
  destruct format_example as [[[]|e|] io]; [reflexivity|discriminate H..].
Qed.

Lemma formatted_example : Io.durable formatted_io /\ formatted (Io.file formatted_io) 1000 100 77.
Proof.
  pose proof (format_run (4096 * 1000) (4096 * 100) (Ok 77) (Io.new example_device None)
    ltac:(lia) ltac:(unfold is_u64; lia) ltac:(discriminate) ltac:(intros id [= <-]; unfold is_u64; lia)) as Hrun.
  pose proof format_example_Ok as He. apply (runs_elim _ _ _ _ _ Hrun) in He as [_ He].
  destruct (He eq_refl) as (id & Hid & Hd & Hf). injection Hid as <-. split; [exact Hd|exact Hf].
Qed.

Lemma load_finds_the_root_witness :
  exists k g, readable (Io.file formatted_io) k g /\ superseded (Io.file formatted_io) k /\
    Io.untouched formatted_io (Load.load (c_backing_blocks (k_descriptor k)) formatted_io).2.
Proof.
  destruct formatted_example as (_ & g & k & _ & _ & _ & _ & Hr & Hs).
  destruct (Load.load (c_backing_blocks (k_descriptor k)) formatted_io) as [r io'] eqn:Hrun.
  exists k, g. split; [exact Hr|]. split; [exact Hs|].
  rewrite Hrun. exact (proj1 (load_finds_the_root k g formatted_io r io' Hr Hs Hrun)).
Defined.

Lemma format_then_load_witness :
  Storage.format (4096 * 1000) (4096 * 100) (Ok 77) (Io.new example_device None) = (Ok tt, formatted_io) /\
  Io.durable formatted_io.
Proof.
  destruct (Load.load (4096 * 100 / BLOCK_SIZE) formatted_io) as [r io'] eqn:Hrun.
  split; [exact format_example_Ok|].
  refine (proj1 (format_then_load (4096 * 1000) (4096 * 100) 77 (Io.new example_device None) formatted_io r io'
    _ _ _ format_example_Ok Hrun)); unfold is_u64; lia.
Defined.

End Roots.
