(* ===== verification/CrashSafety.v ===== *)
(** A crash during the publication of a checkpoint: what [load] of
    [src/rust/src/format_v3/checkpoint_load.rs] finds after a crash at any moment of
    [publish] of [src/rust/src/format_v3/checkpoint_publish.rs]. *)

From S2P Require Import Prelude Bytes Geometry Format Entries MappingPage Checkpoint Index Clock Sizing MappingCache.
From S2P Require Import Accounting Uring Device BackingIo Tail PageRead CheckpointLoad Publish Snapshots Storage Roots.

Module Crash.
Section crash.
Context `{Xxh3} `{Platform} {D : Type} `{!Device D} `{!DeviceLaws D}.
Implicit Types (s : Store D) (io : BackingIo D).

(** The active root of [s] is durable and no crash uncovers another. *)
Definition settled (g : Geometry) s : Prop :=
  Publish.anchored g s /\ forall c, may_hold (dev (st_io s)) c -> Roots.superseded c (st_active s).

(** The root [k] with the checksum of its own index. *)
Definition summed (k : Checkpoint) (sum : Z) : Checkpoint :=
  Publish.with_descriptor (Publish.with_checksum (k_descriptor k) sum) k.

(** [load] on the file [c], in the hands of any device. *)
Definition finds (c : Z -> list Z) (backing : Z) (Q : Checkpoint -> Prop) : Prop :=
  forall io r io', (forall x, Io.file io x = c x) -> Load.load backing io = (r, io') ->
    Io.untouched io io' /\
    match r with Ok (k, _) => Q k | Err e => Io.failure io e | Panic => False end.

Lemma finds_mono c backing (P Q : Checkpoint -> Prop) :
  (forall k, P k -> Q k) -> finds c backing P -> finds c backing Q.
Proof.
  intros HPQ HP io r io' Hf Hrun. destruct (HP io r io' Hf Hrun) as [Hu Hr]. split; [done|].
  destruct r as [[k n]|e|]; [by apply HPQ|done..].
Qed.

Lemma finds_root c k g :
  Roots.readable c k g -> Roots.superseded c k -> finds c (c_backing_blocks (k_descriptor k)) (fun k' => k' = k).
Proof.
  intros Hr Hs io r io' Hf Hrun.
  apply (runs_elim _ _ _ _ _ (Roots.load_run c k g io Hf Hr Hs)) in Hrun as [Hu Hq].
  split; [done|]. destruct r as [[k' n]|e|]; [by apply Hq|done..].
Qed.

(** The descriptor that a crash image offers, as the bytes it came from. *)
Lemma offered_encodes c slot backing d :
  block_ok (c (slot_number slot)) -> Roots.offered c slot backing = Some d ->
  Descriptor.encode d = Ok (c (slot_number slot)) /\ Descriptor.typed d.
Proof.
  intros Hb Ho. unfold Roots.offered in Ho.
  destruct (Descriptor.decode _ slot backing) as [d'| |] eqn:E; try done. injection Ho as <-.
  by apply Descriptor.descriptor_decode_encode in E as (He & Ht & _).
Qed.

(** A root in place whose descriptor is offered is readable. *)
Lemma readable_summed c g k1 sum :
  Geometry.wf g -> Index.wf k1 g -> Index.checksum k1 = Ok sum ->
  (forall b, 0 <= b < g_index_blocks g ->
     Index.encode_block k1 b = Ok (c (body_start (c_slot (k_descriptor k1)) g + b))) ->
  (forall p, 0 <= p < g_page_count g -> is_Some (PageRead.disk_page c k1 g p)) ->
  Descriptor.encode (k_descriptor (summed k1 sum)) = Ok (c (slot_number (c_slot (k_descriptor k1)))) ->
  Descriptor.typed (k_descriptor (summed k1 sum)) ->
  Roots.readable c (summed k1 sum) g.
Proof.
  intros Hg Hk Hsum Hbody Hpages He Ht. constructor; [done|by apply Publish.wf_reroot|done| |done].
  split; [exact He|].
  split; [by rewrite (Index.checksum_ext (summed k1 sum) k1)|].
  intros b Hb. rewrite (Index.encode_block_ext (summed k1 sum) k1) by done. by apply Hbody.
Qed.

(** Where the new root is offered, the old one gives way. *)
Lemma superseded_by_next c k k2 g :
  Roots.readable c k g -> Publish.follows_root (k_descriptor k) (k_descriptor k2) -> Roots.superseded c k2.
Proof.
  intros Hr (Hs & Hi & Hv & Hb & Hg). unfold Roots.superseded. rewrite Hs, Hb.
  replace (slot_other (slot_other (c_slot (k_descriptor k)))) with (c_slot (k_descriptor k))
    by (by destruct (c_slot (k_descriptor k))).
  rewrite (Roots.offered_root c k g Hr). split; [|left; lia].
  apply Descriptor.validate_pair_Ok. rewrite Hi, Hv, Hb, Hg. split_and!; try done. lia.
Qed.

(** The old root after a crash. *)
Lemma old_readable g s tail r s' c :
  Publish.coherent g (Io.file (st_io s)) (st_active s) (st_cache s) tail -> Publish.anchored g s ->
  Publish.publish tail s = (r, s') -> may_hold (dev (st_io s')) c -> Roots.readable c (st_active s) g.
Proof.
  intros Hco Ha Hrun Hc. pose proof Hco as [].
  destruct (Publish.crash_consistent g s tail r s' c Hco Ha Hrun Hc) as (Hroot & Hpages & _).
  constructor; try done. intros p Hp. rewrite Hpages by done. by apply co_disk.
Qed.

(** What the other slot may offer after a crash: nothing, what it may have offered
    before, or the whole descriptor [d] of the next root. *)
Definition plausible s c (d : CheckpointDescriptor) : Prop :=
  let k := k_descriptor (st_active s) in
  let now f := Roots.offered f (slot_other (c_slot k)) (c_backing_blocks k) in
  now c = None \/ (exists c0, may_hold (dev (st_io s)) c0 /\ now c = now c0) \/ now c = Some d.

(** The old root is found on [c], with the pages that it had. *)
Definition unchanged (g : Geometry) s c (k' : Checkpoint) : Prop :=
  k' = st_active s /\ forall p, 0 <= p < g_page_count g ->
     PageRead.disk_page c k' g p = PageRead.disk_page (Io.file (st_io s)) (st_active s) g p.

(** The root found on [c] is the old one, or the new one with the pages that the
    mapping had in memory. *)
Definition old_or_new (g : Geometry) s c (k2 k' : Checkpoint) : Prop :=
  unchanged g s c k' \/
  (k' = k2 /\ forall p, 0 <= p < g_page_count g ->
     PageRead.disk_page c k' g p = Some (Publish.page g (Io.file (st_io s)) (st_active s) (st_cache s) p)).

(** The root that a publication sets out to write. *)
Definition next_root (tail : LogPosition) s : res Checkpoint :=
  k <-? Publish.planned tail s ;;
  sum <-? Index.checksum k ;;
  Ok (summed k sum).

Lemma next_root_Ok tail s k2 :
  next_root tail s = Ok k2 <->
  exists k1 sum, Publish.planned tail s = Ok k1 /\ Index.checksum k1 = Ok sum /\ k2 = summed k1 sum.
Proof. unfold next_root. split; [intros; ok_inv; naive_solver|]. intros (k1 & sum & -> & Hs & ->). cbn [rbind]. by rewrite Hs. Qed.

Lemma next_root_follows g s tail k2 :
  Publish.coherent g (Io.file (st_io s)) (st_active s) (st_cache s) tail -> next_root tail s = Ok k2 ->
  Publish.follows_root (k_descriptor (st_active s)) (k_descriptor k2).
Proof.
  intros Hco (k1 & sum & Hp & _ & ->)%next_root_Ok. unfold Publish.planned in Hp.
  apply rbind_Ok in Hp as (cand & Hc & Hp). apply rbind_Ok in Hp as (pages & _ & Hp).
  apply (proj2 (Publish.prepare_spec _ _ _ _ _ Hco)) in Hc as [-> _]. apply Snapshots.point_at_descriptor in Hp.
  cbn [summed k_descriptor Publish.with_descriptor]. rewrite Hp. by split_and!.
Qed.

(** It is what a successful publication installs. *)
Lemma publish_installs s tail tail' s' :
  Publish.publish tail s = (Ok tail', s') -> next_root tail s = Ok (st_active s').
Proof.
  unfold Publish.publish. intros Hrun. apply mbind_Ok in Hrun as (s0 & s1 & [= <- <-] & Hrun).
  apply mbind_Ok in Hrun as (cand & s2 & Hc & Hrun). unfold mlift in Hc. injection Hc as Hc <-.
  apply mbind_Ok in Hrun as (k1 & s3 & Ha & Hrun). unfold zoom in Ha.
  destruct (Publish.append_snapshots cand _) as [r1 p1] eqn:E1. injection Ha as -> <-.
  apply Publish.append_snapshots_points in E1 as (l & Hl & Hpts).
  apply mbind_Ok in Hrun as (u & s4 & _ & Hrun). apply mbind_Ok in Hrun as (k2 & s5 & Hk2 & Hrun).
  unfold mbind, mmodify, mret in Hrun. injection Hrun as _ <-. cbn [st_active].
  apply next_root_Ok. unfold Publish.on_io, zoom in Hk2. destruct (Publish.persist_root k1 _) as [r2 io2] eqn:E2.
  injection Hk2 as -> _. unfold Publish.persist_root in E2. apply mbind_Ok in E2 as (g & ? & _ & E2).
  apply mbind_Ok in E2 as (sum & ? & Hs & E2). unfold mlift in Hs. injection Hs as Hs _.
  exists k1, sum. split; [unfold Publish.planned; rewrite Hc; cbn [rbind]; by rewrite Hl|]. split; [done|].
  cbv zeta in E2. apply mbind_Ok in E2 as (? & ? & _ & E2). do 4 (apply mbind_Ok in E2 as (? & ? & _ & E2)).
  by injection E2 as <- _.
Qed.

Lemma superseded_offers c c0 k :
  Roots.offered c (slot_other (c_slot (k_descriptor k))) (c_backing_blocks (k_descriptor k)) =
  Roots.offered c0 (slot_other (c_slot (k_descriptor k))) (c_backing_blocks (k_descriptor k)) ->
  Roots.superseded c0 k -> Roots.superseded c k.
Proof. unfold Roots.superseded. by intros ->. Qed.

Lemma superseded_none c k :
  Roots.offered c (slot_other (c_slot (k_descriptor k))) (c_backing_blocks (k_descriptor k)) = None ->
  Roots.superseded c k.
Proof. unfold Roots.superseded. by intros ->. Qed.

(** Nothing that supersedes has the next generation. *)
Lemma superseded_not_next c k d :
  Roots.superseded c k -> Publish.follows_root (k_descriptor k) d ->
  Roots.offered c (slot_other (c_slot (k_descriptor k))) (c_backing_blocks (k_descriptor k)) <> Some d.
Proof. unfold Roots.superseded. intros Hs (_ & _ & _ & _ & Hg) E. rewrite E in Hs. lia. Qed.

(** C4. A checkpoint is published atomically: after a crash at any moment of
    [publish], with any subset of the unsynchronised writes torn or lost, [load] finds
    the old root with its pages as they were, or the root that the publication set out
    to write, with the pages that the cache held, or reports a failure of the device; provided
    that the descriptor block that was being written offers nothing, what it may have
    offered before, or the descriptor of that root.  Success installs that root. *)
Theorem publish_survives_crash g s tail r s' c :
  Publish.coherent g (Io.file (st_io s)) (st_active s) (st_cache s) tail -> settled g s ->
  Publish.publish tail s = (r, s') -> may_hold (dev (st_io s')) c ->
  (forall x, block_ok (c x)) ->
  match next_root tail s with
  | Ok k2 => Publish.follows_root (k_descriptor (st_active s)) (k_descriptor k2) /\
      (is_ok r = true -> st_active s' = k2) /\
      (plausible s c (k_descriptor k2) ->
       finds c (c_backing_blocks (k_descriptor (st_active s))) (old_or_new g s c k2))
  | _ => is_ok r = false /\ finds c (c_backing_blocks (k_descriptor (st_active s))) (unchanged g s c)
  end.
Proof.
  intros Hco [Ha Hsup] Hrun Hc Hok. pose proof Hco as [].
  pose proof (old_readable g s tail r s' c Hco Ha Hrun Hc) as Hold.
  destruct (Publish.crash_consistent g s tail r s' c Hco Ha Hrun Hc) as (_ & Hpages & c0 & Hc0 & _ & Hcase).
  set (k := st_active s) in *. set (other := slot_other (c_slot (k_descriptor k))) in *.
  assert (Hfind : Roots.superseded c k -> finds c (c_backing_blocks (k_descriptor k)) (unchanged g s c)).
  { intros Hs. eapply finds_mono; [|by apply (finds_root c k g)]. by intros k' ->. }
  assert (Hslot : c (slot_number other) = c0 (slot_number other) -> Roots.superseded c k).
  { intros Hslot. apply (superseded_offers c c0); [|by apply Hsup]. unfold Roots.offered. fold other. by rewrite Hslot. }
  destruct (next_root tail s) as [k2|e|] eqn:Enext.
  2,3: split; [destruct r; [|done..]; by rewrite (publish_installs _ _ _ _ Hrun) in Enext|]; apply Hfind;
    destruct Hcase as [?|(k1 & Hp & _ & _ & Hwf1 & _)]; [by apply Hslot|]; exfalso;
    destruct (Index.checksum_total k1 g Hwf1) as (sum & Hsum & _);
    assert (next_root tail s = Ok (summed k1 sum)) by (apply next_root_Ok; eauto); congruence.
  pose proof (next_root_follows g s tail k2 Hco Enext) as Hf. split; [done|]. split.
  { destruct r; [|done..]. intros _. pose proof (publish_installs _ _ _ _ Hrun). congruence. }
  intros Hpl. assert (Hfind2 : Roots.superseded c k -> finds c (c_backing_blocks (k_descriptor k)) (old_or_new g s c k2)).
  { intros Hs. eapply finds_mono; [|by apply Hfind]. by left. }
  destruct Hcase as [?|(k1 & Hp & Hfollow & Hty1 & Hwf1 & Hbody & Hnew)]; [by apply Hfind2, Hslot|].
  destruct Hpl as [Hn|[(c1 & Hc1 & Heq)|Hn]]; [by apply Hfind2, superseded_none| |].
  { apply Hfind2. apply (superseded_offers c c1); [exact Heq|by apply Hsup]. }
  apply next_root_Ok in Enext as (k1' & sum & Hp' & Hsum & ->). assert (k1' = k1) as -> by congruence.
  pose proof (proj1 Hfollow) as Hs1. fold other in Hs1. destruct (offered_encodes c _ _ _ (Hok _) Hn) as [He Ht].
  assert (Hread : Roots.readable c (summed k1 sum) g).
  { apply readable_summed; try done; rewrite ?Hs1; [exact Hbody| |exact He]. intros p Hpr. rewrite Hnew by done. by eexists. }
  assert (Hb : c_backing_blocks (k_descriptor (summed k1 sum)) = c_backing_blocks (k_descriptor k)) by apply Hf.
  rewrite <- Hb. eapply finds_mono; [|apply (finds_root c _ g Hread (superseded_by_next c k _ g Hold Hf))].
  intros k' ->. right. split; [done|]. intros p Hpr. by apply Hnew.
Qed.

Lemma index_sizes k g :
  Index.wf k g -> c_volume_blocks (k_descriptor k) = g_volume_blocks g /\
    c_backing_blocks (k_descriptor k) = g_backing_blocks g.
Proof.
  intros Hk.
  by destruct (Geometry.new_wf _ _ g (Index.wf_positive _ _ Hk) (Index.wf_geometry _ _ Hk)) as (_ & <- & <-).
Qed.

(** Success settles the new root. *)
Lemma publish_settled g s tail tail' s' :
  Publish.coherent g (Io.file (st_io s)) (st_active s) (st_cache s) tail -> settled g s ->
  Publish.publish tail s = (Ok tail', s') ->
  settled g s' /\ Roots.readable (Io.file (st_io s')) (st_active s') g.
Proof.
  intros Hco [Ha Hsup] Hrun. pose proof Hco as [].
  pose proof (old_readable g s tail _ s' _ Hco Ha Hrun (content_may_hold _)) as Hold.
  apply (Publish.publish_run g) in Hrun as [_ []]; [|done]. cbv beta iota in *. destruct out_result. pose proof out_coherent as [].
  assert (Hfollow : Publish.follows_root (k_descriptor (st_active s)) (k_descriptor (st_active s'))).
  { destruct (index_sizes _ _ co_index) as [Hv Hb], (index_sizes _ _ co_index0) as [Hv' Hb'].
    split_and!; try done; congruence. }
  assert (Hs : Roots.superseded (Io.file (st_io s')) (st_active s')) by (by apply (superseded_by_next _ (st_active s) _ g)).
  split; [split; [split; [done|]|]|by constructor].
  - intros c Hc x _. by apply pb_durable.
  - intros c Hc. eapply superseded_offers; [|exact Hs]. unfold Roots.offered. by rewrite pb_durable.
Qed.

Lemma settled_finds g s c :
  Geometry.wf g -> Index.wf (st_active s) g -> Descriptor.typed (k_descriptor (st_active s)) -> settled g s ->
  (forall p, 0 <= p < g_page_count g -> is_Some (PageRead.disk_page (Io.file (st_io s)) (st_active s) g p)) ->
  Io.durable (st_io s) -> may_hold (dev (st_io s)) c ->
  finds c (g_backing_blocks g) (fun k => k = st_active s).
Proof.
  intros Hg Hk Ht [[Hroot Hd] Hsup] Hp Hdur Hc. destruct (index_sizes _ _ Hk) as [_ <-].
  apply (finds_root c _ g); [|by apply Hsup]. constructor; try done.
  - destruct Hroot as (He & Hsum & Hbody). split; [by rewrite Hdur|]. split; [done|].
    intros b Hb. rewrite Hdur by done. by apply Hbody.
  - intros p Hpr. rewrite (PageRead.disk_page_ext (Io.file (st_io s))); [by apply Hp|].
    intros b _ _. by apply Hdur.
Qed.

(** C5. A publication that reports success is durable: after a crash [load] finds the
    new active root, whose pages are those that the cache and the old root held
    before, and the next publication may start. *)
Theorem publish_takes_over g s tail tail' s' c :
  Publish.coherent g (Io.file (st_io s)) (st_active s) (st_cache s) tail -> settled g s ->
  Publish.publish tail s = (Ok tail', s') -> may_hold (dev (st_io s')) c ->
  settled g s' /\
  finds c (g_backing_blocks g) (fun k => k = st_active s' /\ forall p, 0 <= p < g_page_count g ->
    PageRead.disk_page c k g p = Some (Publish.page g (Io.file (st_io s)) (st_active s) (st_cache s) p)).
Proof.
  intros Hco Hs Hrun Hc. destruct (publish_settled g s tail tail' s' Hco Hs Hrun) as [Hs' []]. split; [done|].
  apply (Publish.publish_run g) in Hrun as [_ []]; [|done]. cbv beta iota in *. destruct out_result.
  eapply finds_mono; [|by apply settled_finds]. intros k ->. split; [done|]. intros p Hp.
  rewrite <- out_pages by done. rewrite (PageRead.disk_page_ext (Io.file (st_io s')));
    [|intros b _ _; by apply pb_durable].
  destruct (ro_pages p Hp) as [e He]. rewrite He. f_equal. symmetry. unfold Publish.page. rewrite He.
  rewrite pb_views. destruct (MappingCache.view (st_cache s) p) as [[e' d]|] eqn:E; [|done].
  assert (Hv : MappingCache.view (st_cache s') p = Some (e', false)) by (by rewrite pb_views, E).
  destruct out_coherent. specialize (co_clean p e' Hv). congruence.
Qed.

End crash.

(** ** Publications of a formatted volume *)

#[local] Existing Instance example_platform.
#[local] Existing Instance fold_xxh3.

Definition formatted_geometry : Geometry :=
  the_ok {| g_volume_blocks := 0; g_backing_blocks := 0; g_page_count := 0; g_index_blocks := 0;
            g_log_start := 0 |} (Geometry.new 1000 100).

Definition formatted_checkpoint : Checkpoint := the_ok example_blank (Index.empty formatted_geometry 77).

Definition formatted_store : Store MemDevice :=
  {| st_io := Roots.formatted_io; st_active := formatted_checkpoint; st_cache := example_cache |}.

Lemma formatted_store_settled :
  Publish.coherent formatted_geometry (Io.file (st_io formatted_store)) (st_active formatted_store)
    (st_cache formatted_store) (Publish.end_of formatted_checkpoint) /\
  settled formatted_geometry formatted_store.
Proof.
  destruct Roots.formatted_example as (Hd & g & k & Hg & Hk & _ & _ & Hr & Hs).
  assert (Hg' : Geometry.new 1000 100 = Ok formatted_geometry) by (apply is_ok_the; vm_compute; reflexivity).
  rewrite Hg in Hg'. injection Hg' as ->.
  assert (Hk' : formatted_checkpoint = k) by (unfold formatted_checkpoint; rewrite Hk; reflexivity).
  destruct example_cache_wf as (Hc & Hsz & Hres & Hvol).
  split.
  - destruct (Publish.coherent_new 1000 100 formatted_geometry 77 (Io.file Roots.formatted_io) example_cache)
      as (k' & Hk2 & Hco); [split; reflexivity || discriminate.. | exact Hg | exact Hc | exact Hvol | |].
    + intros p. destruct (MappingCache.view example_cache p) as [[e d]|] eqn:E; [|reflexivity]. exfalso.
      unfold MappingCache.view in E. destruct (lookup example_cache !! p) as [s|] eqn:El; [|discriminate E].
      apply MappingCache.resident_page in El as [Hs1 _]; [|exact Hc]. lia.
    + rewrite Hk2 in Hk. injection Hk as ->. rewrite Hk'. cbn [st_io st_active st_cache formatted_store].
      rewrite Hk'. exact Hco.
  - split; [split|]; cbn [st_io st_active formatted_store]; rewrite Hk'.
    + apply Hr.
    + intros c Hcr x _. apply Hd. exact Hcr.
    + intros c Hcr. eapply superseded_offers; [|exact Hs]. unfold Roots.offered. rewrite (Hd c Hcr). reflexivity.
Qed.

(** The publication succeeds, and its descriptor is what the other slot then offers. *)
Lemma publish_survives_crash_witness :
  let run := Publish.publish (Publish.end_of formatted_checkpoint) formatted_store in
  exists k2, next_root (Publish.end_of formatted_checkpoint) formatted_store = Ok k2 /\ st_active run.2 = k2 /\
    finds (Io.file (st_io run.2)) (c_backing_blocks (k_descriptor formatted_checkpoint))
      (old_or_new formatted_geometry formatted_store (Io.file (st_io run.2)) k2).
Proof.
  intros run. destruct formatted_store_settled as [Hco Hs].
  assert (E : is_ok (next_root (Publish.end_of formatted_checkpoint) formatted_store) = true) by (vm_compute; reflexivity).
  destruct (is_ok_exists _ E) as [k2 Ek].
  pose proof (publish_survives_crash formatted_geometry formatted_store (Publish.end_of formatted_checkpoint) run.1 run.2
    (Io.file (st_io run.2)) Hco Hs (surjective_pairing run) (content_may_hold _) (content_ok _)) as Hx.
  rewrite Ek in Hx. destruct Hx as (_ & Ha & Hf).
  assert (Er : is_ok run.1 = true) by (vm_compute; reflexivity). specialize (Ha Er).
  exists k2. split; [exact Ek|]. split; [exact Ha|]. apply Hf. right; right. rewrite <- Ha. clear.
  vm_compute. reflexivity.
Defined.

Lemma publish_takes_over_witness :
  let run := Publish.publish (Publish.end_of formatted_checkpoint) formatted_store in
  is_ok run.1 = true /\ settled formatted_geometry run.2.
Proof.
  intros run. assert (E : is_ok run.1 = true) by (vm_compute; reflexivity).
  destruct (is_ok_exists run.1 E) as [tail' Et]. pose proof (surjective_pairing run) as Hp. rewrite Et in Hp.
  destruct formatted_store_settled as [Hco Hs]. split; [exact E|].
  exact (proj1 (publish_takes_over formatted_geometry formatted_store (Publish.end_of formatted_checkpoint) tail' run.2
    (Io.file (st_io run.2)) Hco Hs Hp (content_may_hold _))).
Defined.

End Crash.
