(* ===== verification/Log.v ===== *)
(** The log as a chain of records: what [read_next] of
    [src/rust/src/format_v3/tail.rs] finds on a file, record by record. *)

From S2P Require Import Prelude Bytes Geometry Format DataRecord Entries MappingPage.
From S2P Require Import Checkpoint Accounting Uring Device BackingIo Tail.

Module Log.
Section log.
Context `{Xxh3}.
Implicit Types (f : Z -> list Z) (k : CheckpointDescriptor) (g : Geometry) (p : LogPosition).

(** ** [read_next] without the device *)

Fixpoint find_footer f (boundaries : list Z) k g p : res (option DataRecord) :=
  match boundaries with
  | [] => Ok None
  | b :: boundaries =>
      found <-? Tail.data_at (f b) k g p b ;;
      match found with
      | Some record => Ok (Some record)
      | None => find_footer f boundaries k g p
      end
  end.

(** The blocks where the footer of the next record may be. *)
Definition footers g p : list Z :=
  let first := p_at p + 1 in
  seqZ (first + 1) (Z.min (p_at p + MAXIMUM_RECORD_BLOCKS) (g_backing_blocks g - 1) - first).

Definition suspect (bytes : list Z) k : bool :=
  Tail.current_metadata bytes (c_volume_id k)
  && ((getb bytes 5 =? kind_byte MappingPage) || Tail.unsupported bytes).

Definition next_record f k p : res (option LogRecord) :=
  g <-? Descriptor.geometry k ;;
  fail_if (Tail.outside_tail k g p) (InvalidData "replay cursor is outside the checkpoint tail") ;;?
  let first := p_at p + 1 in
  if first =? g_backing_blocks g then Ok None
  else
    mapping <-? Tail.mapping_at (f first) k g p first ;;
    match mapping with
    | Some header => Ok (Some (LogMapping header))
    | None =>
        found <-? find_footer f (footers g p) k g p ;;
        match found with
        | Some record => Ok (Some (LogData record))
        | None =>
            fail_if (suspect (f first) k) (InvalidData "invalid mapping framing in replay tail") ;;?
            Ok None
        end
    end.

Lemma data_at_no_panic bytes k g p b : Tail.data_at bytes k g p b <> Panic.
Proof.
  unfold Tail.data_at. destruct (_ || _); [done|]. apply rbind_not_Panic; [apply fail_if_not_Panic|]. intros _ _.
  pose proof (DataRecord.record_decode_not_Panic bytes g (c_volume_id k)). by destruct (DataRecord.decode _ _ _).
Qed.

Lemma mapping_at_no_panic bytes k g p b : Tail.mapping_at bytes k g p b <> Panic.
Proof.
  unfold Tail.mapping_at. destruct (Tail.current_metadata _ _); [|done].
  pose proof (PageRecord.framing_not_Panic bytes g (c_volume_id k)).
  destruct (PageRecord.decode_framing _ _ _); [by destruct (_ && _)|done..].
Qed.

Lemma find_footer_no_panic f bs k g p : find_footer f bs k g p <> Panic.
Proof.
  induction bs as [|b bs IH]; cbn; [done|]. apply rbind_not_Panic; [apply data_at_no_panic|].
  by intros [r|] _.
Qed.

Lemma next_record_no_panic f k p : Descriptor.geometry k <> Panic -> next_record f k p <> Panic.
Proof.
  intros Hg. unfold next_record. apply rbind_not_Panic; [done|]. intros g _.
  apply rbind_not_Panic; [apply fail_if_not_Panic|]. intros _ _. cbv zeta.
  destruct (_ =? _); [done|]. apply rbind_not_Panic; [apply mapping_at_no_panic|].
  intros [h|] _; [done|]. apply rbind_not_Panic; [apply find_footer_no_panic|].
  intros [r|] _; [done|]. apply rbind_not_Panic; [apply fail_if_not_Panic|done].
Qed.

(** Only the blocks of the file matter. *)
Lemma find_footer_ext f f' bs k g p : (forall x, f' x = f x) -> find_footer f' bs k g p = find_footer f bs k g p.
Proof. intros Hf. induction bs as [|b bs IH]; cbn; [done|]. by rewrite Hf, IH. Qed.

Lemma next_record_ext f f' k p : (forall x, f' x = f x) -> next_record f' k p = next_record f k p.
Proof.
  intros Hf. unfold next_record. destruct (Descriptor.geometry k) as [g|e|]; cbn [rbind]; [|done..].
  destruct (fail_if _ _) as [[]|e|]; cbn [rbind]; [|done..]. cbv zeta. rewrite !Hf. destruct (_ =? _); [done|].
  destruct (Tail.mapping_at _ _ _ _ _) as [[h|]|e|]; cbn [rbind]; [done| |done..]. by rewrite (find_footer_ext f f').
Qed.

Section device.
Context {D : Type} `{!Device D} `{!DeviceLaws D}.
Implicit Types io : BackingIo D.

(** The result of pure reading, unless an operation fails. *)
Definition reads {A} io (pure r : res A) (io' : BackingIo D) : Prop :=
  Io.untouched io io' /\ (r = pure \/ exists e, r = Err e /\ Io.failure io e).

Lemma block_read_run b io (Q : res (list Z) -> BackingIo D -> Prop) :
  0 <= b ->
  (forall io', Io.untouched io io' -> Q (Ok (Io.file io b)) io') ->
  (forall e io', Io.untouched io io' -> Io.failure io e -> Q (Err e) io') ->
  runs (Io.read_block_exact b) io Q.
Proof.
  intros Hb Hok Herr. apply runs_intro. intros r io' Hrun. pose proof (Io.read_block_error b io) as He. rewrite Hrun in He.
  destruct (Io.read_block_spec b io r io' Hb Hrun) as (Hu & _ & Hnp & Hr).
  destruct r as [bytes|e|]; [rewrite (Hr bytes eq_refl); auto|auto|done].
Qed.

Lemma tally_run a b c d e x io (Q : res unit -> BackingIo D -> Prop) :
  (forall io', Io.untouched io io' -> Q (Ok tt) io') -> runs (Io.tally a b c d e x) io Q.
Proof. intros HQ. destruct (Io.tally_spec a b c d e x io) as (io' & E & _ & Hu). unfold runs. rewrite E. by apply HQ. Qed.

Lemma search_footer_run bs k g p io :
  Forall (fun b => 0 <= b) bs ->
  runs (Tail.search_footer bs k g p) io (fun r io' => reads io (find_footer (Io.file io) bs k g p) r io').
Proof.
  revert io. induction bs as [|b bs IH]; intros io Hbs.
  { apply runs_ret. split; [apply Io.untouched_refl|by left]. }
  apply Forall_cons in Hbs as [Hb Hbs]. cbn [Tail.search_footer find_footer].
  apply runs_bind, block_read_run; [done| |]; cbn [next]; [intros io1 Hu1|intros e io1 Hu1 He; split; [done|right; eauto]].
  apply runs_bind, tally_run. intros io2 Hu2. cbn [next]. apply runs_bind, runs_lift.
  pose proof (Io.untouched_trans _ _ _ Hu1 Hu2) as Hu.
  pose proof (data_at_no_panic (Io.file io b) k g p b).
  destruct (Tail.data_at (Io.file io b) k g p b) as [[r|]|e|]; cbn [next rbind]; [|..|done].
  - apply runs_ret. split; [done|by left].
  - eapply runs_mono; [by apply IH|]. cbv beta. intros r io3 [Hu3 Hr]. split; [by eapply Io.untouched_trans|].
    rewrite <- (find_footer_ext _ _ bs k g p (proj1 Hu)). destruct Hr as [->|(e & -> & He)]; [by left|].
    right. exists e. split; [done|by eapply Io.failure_untouched].
  - split; [done|by left].
Qed.

(** [read_next] reads what is on the file, or reports a failure of the device. *)
Lemma read_next_run k p io :
  0 <= p_at p -> Descriptor.geometry k <> Panic ->
  runs (Tail.read_next k p) io (fun r io' => reads io (next_record (Io.file io) k p) r io').
Proof.
  intros Hp Hg. unfold Tail.read_next, next_record. apply runs_bind, runs_lift.
  destruct (Descriptor.geometry k) as [g|e|]; cbn [next rbind]; [|split; [apply Io.untouched_refl|by left]|done].
  apply runs_bind, runs_lift. destruct (Tail.outside_tail k g p); cbn [fail_if next rbind].
  { split; [apply Io.untouched_refl|by left]. }
  cbv zeta. destruct (p_at p + 1 =? g_backing_blocks g).
  { apply runs_ret. split; [apply Io.untouched_refl|by left]. }
  apply runs_bind, block_read_run; [lia| |]; cbn [next]; [intros io1 Hu1|intros e io1 Hu1 He; split; [done|right; eauto]].
  apply runs_bind, tally_run. intros io2 Hu2. cbn [next]. pose proof (Io.untouched_trans _ _ _ Hu1 Hu2) as Hu.
  apply runs_bind, runs_lift. set (first := p_at p + 1).
  pose proof (mapping_at_no_panic (Io.file io first) k g p first).
  destruct (Tail.mapping_at (Io.file io first) k g p first) as [[h|]|e|]; cbn [next rbind]; [| | |done].
  - apply runs_ret. split; [done|by left].
  - change (seqZ (first + 1) _) with (footers g p). apply runs_bind. eapply runs_mono; [apply search_footer_run|].
    { apply Forall_forall. intros x Hx. unfold footers in Hx. apply elem_of_seqZ in Hx. lia. }
    cbv beta. intros r io3 [Hu3 Hr]. pose proof (Io.untouched_trans _ _ _ Hu Hu3) as Hu'.
    rewrite (find_footer_ext _ _ _ k g p (proj1 Hu)) in Hr. pose proof (find_footer_no_panic (Io.file io) (footers g p) k g p).
    destruct Hr as [-> | (e & -> & He%(Io.failure_untouched io))]; cbn [next]; [|split; [done|right; eauto]|done].
    destruct (find_footer _ _ _ _ _) as [[record|]|e|]; cbn [next rbind]; [apply runs_ret; split; [done|by left]| |split; [done|by left]|done].
    apply runs_bind, runs_lift. change (Tail.current_metadata _ _ && _) with (suspect (Io.file io first) k).
    destruct (suspect _ _); cbn [fail_if next rbind]; [split; [done|by left]|]. apply runs_ret. split; [done|by left].
  - split; [done|by left].
Qed.

End device.

(** ** What the next record is *)

(** The positions that [read_next] accepts. *)
Record inside k g p : Prop := {
  in_lsn : c_checkpoint_lsn k <= p_lsn p;
  in_at : c_last_record_boundary k <= p_at p < g_backing_blocks g;
  in_steps : p_lsn p - c_checkpoint_lsn k <= p_at p - c_last_record_boundary k;
  in_start : p_lsn p = c_checkpoint_lsn k <-> p_at p = c_last_record_boundary k;
}.

Lemma outside_tail_spec k g p : Tail.outside_tail k g p = false <-> inside k g p.
Proof.
  unfold Tail.outside_tail. rewrite !orb_false_iff, negb_false_iff, eqb_true_iff, !Z.ltb_ge, Z.leb_gt.
  destruct (Z.eqb_spec (p_lsn p) (c_checkpoint_lsn k)), (Z.eqb_spec (p_at p) (c_last_record_boundary k)); split;
    (intros ((((?&?)&?)&?)&?) || intros []); split_and?; constructor || idtac; try done; try lia.
Qed.

(** [r] is the next record behind [p]. *)
Record follows_at f k g p (r : LogRecord) : Prop := {
  fo_inside : inside k g p;
  fo_lsn : p_lsn (Tail.position r) = p_lsn p + 1;
  fo_lsn_end : p_lsn p + 1 < 2 ^ 64;
  fo_previous : h_previous_boundary (Tail.header r) = p_at p;
  fo_at : p_at p < p_at (Tail.position r) <= p_at p + MAXIMUM_RECORD_BLOCKS;
  fo_end : p_at (Tail.position r) < g_backing_blocks g;
  fo_volume : h_volume_id (Tail.header r) = c_volume_id k;
  fo_data : forall record, r = LogData record ->
    DataRecord.decode (f (p_at (Tail.position r))) g (c_volume_id k) = Ok record;
  fo_mapping : forall header, r = LogMapping header -> p_at (Tail.position r) = p_at p + 1;
}.

Lemma checked_succ x y : Some x = checked_add 64 y 1 -> x = y + 1 /\ y + 1 < 2 ^ 64.
Proof. unfold checked_add. destruct (Z.ltb_spec (y + 1) (2 ^ 64)); [|done]. intros [= ->]. lia. Qed.

Lemma decode_fields_read b h :
  decode_fields b = Ok h ->
  slice 0 4 b = RECORD_MAGIC /\ getb b 4 = VERSION /\ kind_of_byte (getb b 5) = Ok (h_kind h) /\
  read_u64 b 8 = h_volume_id h /\ read_u64 b 16 = h_lsn h /\ read_u32 b 24 = h_previous_boundary h /\
  read_u32 b 28 = h_boundary h.
Proof.
  unfold decode_fields. intros Hd. apply rbind_Ok in Hd as ([] & Hm & Hd). apply fail_if_Ok in Hm.
  apply rbind_Ok in Hd as (kind & Hk & Hd). apply rbind_Ok in Hd as (n & _ & [= <-]). cbn.
  apply orb_false_iff in Hm as [[Hm Hv]%orb_false_iff _]. bool_prop. done.
Qed.

Lemma data_decode_header b g v r : DataRecord.decode b g v = Ok r -> decode_fields b = Ok (d_header r) /\ h_volume_id (d_header r) = v.
Proof.
  unfold DataRecord.decode. intros Hd. apply rbind_Ok in Hd as (h & Hh & Hd). apply rbind_Ok in Hd as ([] & Hv & Hd).
  apply fail_if_Ok in Hv. apply rbind_Ok in Hd as ([] & _ & [= <-]). cbn. unfold decode_header in Hh.
  apply rbind_Ok in Hh as (b' & Hb & Hh). unfold validate_metadata in Hb.
  apply rbind_Ok in Hb as ([] & _ & Hb). apply rbind_Ok in Hb as ([] & _ & Hb). apply rbind_Ok in Hb as ([] & _ & [= <-]).
  bool_prop. done.
Qed.

Lemma data_at_Some bytes k g p b r :
  Tail.data_at bytes k g p b = Ok (Some r) ->
  DataRecord.decode bytes g (c_volume_id k) = Ok r /\
  h_volume_id (d_header r) = c_volume_id k /\ h_lsn (d_header r) = p_lsn p + 1 /\ p_lsn p + 1 < 2 ^ 64 /\
  h_previous_boundary (d_header r) = p_at p /\ h_boundary (d_header r) = b.
Proof.
  unfold Tail.data_at. destruct (_ || _) eqn:E; [done|]. intros Hd. apply rbind_Ok in Hd as ([] & _ & Hd).
  destruct (DataRecord.decode bytes g (c_volume_id k)) as [r'| |] eqn:Er; [|done..]. injection Hd as ->.
  apply orb_false_iff in E as [[[_ E1]%orb_false_iff E2]%orb_false_iff E3]. bool_prop.
  apply checked_succ in E1. pose proof (data_decode_header _ _ _ _ Er) as [Hh Hv].
  apply decode_fields_read in Hh as (_ & _ & _ & _ & Hl & Hp & Hb). split; [done|]. split; [done|]. lia.
Qed.

(** A footer that is found is the first that reads as one. *)
Lemma find_footer_Some f bs k g p r :
  find_footer f bs k g p = Ok (Some r) -> exists b, b ∈ bs /\ Tail.data_at (f b) k g p b = Ok (Some r).
Proof.
  induction bs as [|b bs IH]; cbn; [done|]. destruct (Tail.data_at (f b) k g p b) as [[r'|]|e|] eqn:E; cbn; [..|done|done].
  - intros [= ->]. exists b. split; [by left|done].
  - intros Hr. destruct (IH Hr) as (b' & Hb & Hd). exists b'. split; [by right|done].
Qed.

Lemma next_record_Some f k g p r :
  Descriptor.geometry k = Ok g -> next_record f k p = Ok (Some r) -> follows_at f k g p r.
Proof.
  intros Hg. unfold next_record. rewrite Hg. cbn [rbind]. intros Hn. apply rbind_Ok in Hn as ([] & Ho & Hn).
  apply fail_if_Ok, outside_tail_spec in Ho. pose proof Ho as [].
  destruct (Z.eqb_spec (p_at p + 1) (g_backing_blocks g)) as [E|E]; [done|].
  apply rbind_Ok in Hn as (mapping & Hm & Hn). destruct mapping as [h|].
  - injection Hn as <-. unfold Tail.mapping_at in Hm. destruct (Tail.current_metadata _ _); [|done].
    destruct (PageRecord.decode_framing _ _ _) as [h'| |] eqn:Ef; [|done..].
    destruct (follows h' (p_lsn p) (p_at p) && (h_boundary h' =? p_at p + 1)) eqn:Eh; [|done]. injection Hm as ->.
    apply andb_true_iff in Eh as [Eh Eb]. apply Z.eqb_eq in Eb. unfold follows in Eh. apply andb_true_iff in Eh as [El Ep].
    apply bool_decide_eq_true, checked_succ in El. apply Z.eqb_eq in Ep. change MAXIMUM_RECORD_BLOCKS with 339 in *.
    assert (h_volume_id h = c_volume_id k).
    { unfold PageRecord.decode_framing in Ef. apply rbind_Ok in Ef as ([] & _ & Ef). apply rbind_Ok in Ef as ([] & _ & Ef).
      apply rbind_Ok in Ef as (h' & _ & Ef). apply rbind_Ok in Ef as ([] & _ & Ef). apply rbind_Ok in Ef as ([] & Hl & Ef).
      apply rbind_Ok in Ef as (? & _ & [= ->]). unfold validate_location in Hl. apply rbind_Ok in Hl as ([] & Hl & _).
      apply fail_if_Ok in Hl. apply orb_false_iff in Hl as [[[Hl _]%orb_false_iff _]%orb_false_iff _]. bool_prop. done. }
    constructor; cbn; change MAXIMUM_RECORD_BLOCKS with 339; first [done|lia].
  - apply rbind_Ok in Hn as (found & Hf & Hn). destruct found as [record|]; [|by apply rbind_Ok in Hn as ([] & _ & ?)].
    injection Hn as <-. apply find_footer_Some in Hf as (b & Hb & Hd). unfold footers in Hb. apply elem_of_seqZ in Hb.
    apply data_at_Some in Hd as (Hdec & Hv & Hl & Hlt & Hprev & Hbd). change MAXIMUM_RECORD_BLOCKS with 339 in *.
    constructor; cbn [Tail.position Tail.header p_at p_lsn]; rewrite ?Hl, ?Hprev, ?Hbd;
      change MAXIMUM_RECORD_BLOCKS with 339; first [done|lia|by intros record' [= <-]].
Qed.

(** ** Reading the same record on another file *)

Lemma find_footer_prefix f f' a n k g p r :
  find_footer f (seqZ a n) k g p = Ok (Some r) ->
  (forall x, a <= x <= h_boundary (d_header r) -> f' x = f x) ->
  find_footer f' (seqZ a n) k g p = Ok (Some r).
Proof.
  remember (Z.to_nat n) as m eqn:Em. revert a n Em. induction m as [|m IH]; intros a n Em Hr Hf.
  { rewrite seqZ_nil in * by lia. done. }
  rewrite seqZ_cons in * by lia. cbn [find_footer] in *.
  assert (Ha : a <= h_boundary (d_header r)).
  { destruct (find_footer_Some f (a :: seqZ (Z.succ a) (Z.pred n)) k g p r Hr) as (b & Hb & Hd).
    apply data_at_Some in Hd as (_ & _ & _ & _ & _ & ->). apply elem_of_cons in Hb as [->|Hb]; [lia|].
    apply elem_of_seqZ in Hb. lia. }
  rewrite (Hf a) by lia. destruct (Tail.data_at (f a) k g p a) as [[r'|]|e|]; cbn in *; [done| |done|done].
  apply IH; [lia|done|]. intros x Hx. apply Hf. lia.
Qed.

Lemma next_record_prefix f f' k g p r :
  Descriptor.geometry k = Ok g -> next_record f k p = Ok (Some r) ->
  (forall x, p_at p < x <= p_at (Tail.position r) -> f' x = f x) -> next_record f' k p = Ok (Some r).
Proof.
  intros Hg Hn Hf. pose proof (next_record_Some f k g p r Hg Hn) as []. unfold next_record in *. rewrite Hg in *. cbn [rbind] in *.
  apply rbind_Ok in Hn as ([] & -> & Hn). cbn [rbind]. destruct (p_at p + 1 =? g_backing_blocks g); [done|].
  rewrite (Hf (p_at p + 1)) by lia. apply rbind_Ok in Hn as (mapping & -> & Hn). cbn [rbind].
  destruct mapping as [h|]; [done|]. apply rbind_Ok in Hn as (found & Hfound & Hn).
  destruct found as [record|]; [|by apply rbind_Ok in Hn as ([] & _ & ?)]. injection Hn as <-.
  unfold footers in *. rewrite (find_footer_prefix f f' _ _ k g p record Hfound); [done|].
  intros x Hx. apply Hf. cbn. lia.
Qed.

(** ** A record that was written *)

(** A block that no reader of the log takes for metadata of this volume. *)
Definition plain k (bytes : list Z) : Prop := Tail.current_metadata bytes (c_volume_id k) = false.

Lemma data_at_plain bytes k g p b : plain k bytes -> Tail.data_at bytes k g p b = Ok None.
Proof. intros Hp. unfold Tail.data_at. by rewrite Hp. Qed.

Lemma find_footer_skip f a n k g p b :
  a <= b -> b <= a + n -> (forall x, a <= x < b -> plain k (f x)) ->
  find_footer f (seqZ a n) k g p = find_footer f (seqZ b (n - (b - a))) k g p.
Proof.
  intros Hab Hbn Hpl. remember (Z.to_nat (b - a)) as m eqn:Em. revert a n Hab Hbn Hpl Em.
  induction m as [|m IH]; intros a n Hab Hbn Hpl Em.
  { replace b with a by lia. by rewrite Z.sub_diag, Z.sub_0_r. }
  rewrite seqZ_cons by lia. cbn [find_footer]. rewrite data_at_plain by (apply Hpl; lia). cbn [rbind].
  rewrite IH; [f_equal; f_equal; lia|lia|lia| |lia]. intros x Hx. apply Hpl. lia.
Qed.

Lemma data_at_record f k g p record :
  DataRecord.typed record -> DataRecord.encode record g = Ok (f (h_boundary (d_header record))) ->
  h_volume_id (d_header record) = c_volume_id k -> h_lsn (d_header record) = p_lsn p + 1 ->
  p_lsn p + 1 < 2 ^ 64 -> h_previous_boundary (d_header record) = p_at p ->
  Tail.data_at (f (h_boundary (d_header record))) k g p (h_boundary (d_header record)) = Ok (Some record).
Proof.
  intros Ht He Hv Hl Hlt Hp. destruct (DataRecord.record_encode_decode record g _ Ht He) as [Hb Hd].
  pose proof (data_decode_header _ _ _ _ Hd) as [Hh _].
  apply decode_fields_read in Hh as (Hm & Hver & Hk & Hvol & Hlsn & Hprev & Hbd).
  unfold Tail.data_at, Tail.current_metadata, Tail.unsupported. rewrite Hm, Hver, Hk, Hvol, Hlsn, Hprev, Hbd.
  rewrite Hv, Hl, Hp. rewrite !Z.eqb_refl, !bool_decide_true; [|unfold checked_add; by destruct (Z.ltb_spec (p_lsn p + 1) (2 ^ 64)); [|lia]|done].
  cbn [andb orb negb is_err fail_if rbind]. by rewrite <- Hv, Hd.
Qed.

Lemma record_extent record g b :
  DataRecord.typed record -> g_log_start g <> 0 ->
  DataRecord.encode record g = Ok b -> exists count, DataRecord.valid record g count.
Proof.
  intros (_ & Hl & _ & Hc & _) Hg He. apply DataRecord.record_encode_Ok in He as (Hv & _).
  by apply DataRecord.record_validate_Ok in Hv.
Qed.

(** A record behind plain payloads is the next one. *)
Lemma next_record_data f k g p record :
  Descriptor.geometry k = Ok g -> g_log_start g <> 0 -> inside k g p ->
  DataRecord.typed record -> DataRecord.encode record g = Ok (f (h_boundary (d_header record))) ->
  h_volume_id (d_header record) = c_volume_id k -> h_lsn (d_header record) = p_lsn p + 1 ->
  p_lsn p + 1 < 2 ^ 64 -> h_previous_boundary (d_header record) = p_at p ->
  (forall x, p_at p < x < h_boundary (d_header record) -> plain k (f x)) ->
  next_record f k p = Ok (Some (LogData record)).
Proof.
  intros Hg Hs Hin Ht He Hv Hl Hlt Hp Hpl. destruct (record_extent _ _ _ Ht Hs He) as (count & []).
  unfold next_record. rewrite Hg. cbn [rbind]. rewrite (proj2 (outside_tail_spec k g p) Hin). cbn [fail_if rbind].
  destruct (Z.eqb_spec (p_at p + 1) (g_backing_blocks g)); [lia|].
  unfold Tail.mapping_at. rewrite Hpl by lia. cbn [rbind]. unfold footers. change MAXIMUM_RECORD_BLOCKS with 339.
  rewrite (find_footer_skip _ _ _ _ _ _ (h_boundary (d_header record))); [|lia|lia|intros; apply Hpl; lia].
  rewrite seqZ_cons by lia. cbn [find_footer]. by rewrite data_at_record.
Qed.

(** Behind the last record there is none, if no metadata is. *)
Lemma find_footer_plain f bs k g p : (forall b, b ∈ bs -> plain k (f b)) -> find_footer f bs k g p = Ok None.
Proof.
  induction bs as [|b bs IH]; intros Hpl; [done|]. cbn. rewrite data_at_plain by (apply Hpl; by left). cbn.
  apply IH. intros b' Hb. apply Hpl. by right.
Qed.

Lemma next_record_blank f k g p :
  Descriptor.geometry k = Ok g -> inside k g p -> (forall x, p_at p < x < g_backing_blocks g -> plain k (f x)) ->
  next_record f k p = Ok None.
Proof.
  intros Hg Hin Hpl. pose proof (in_at _ _ _ Hin). unfold next_record. rewrite Hg. cbn [rbind].
  rewrite (proj2 (outside_tail_spec k g p) Hin). cbn [fail_if rbind].
  destruct (Z.eqb_spec (p_at p + 1) (g_backing_blocks g)); [done|].
  unfold Tail.mapping_at, suspect. rewrite Hpl by lia. cbn [rbind andb fail_if].
  rewrite find_footer_plain; [cbn; by rewrite Hpl by lia|]. intros b Hb. unfold footers in Hb. apply elem_of_seqZ in Hb. apply Hpl.
  change MAXIMUM_RECORD_BLOCKS with 339 in *. lia.
Qed.

(** ** Chains of records *)

Inductive chain f k : LogPosition -> list LogRecord -> LogPosition -> Prop :=
  | chain_nil p : chain f k p [] p
  | chain_cons p r rs q :
      next_record f k p = Ok (Some r) -> chain f k (Tail.position r) rs q -> chain f k p (r :: rs) q.

Lemma chain_app f k p rs q rs' q' : chain f k p rs q -> chain f k q rs' q' -> chain f k p (rs ++ rs') q'.
Proof. induction 1; cbn; [done|]. intros. econstructor; eauto. Qed.

Lemma chain_le f k g p rs q :
  Descriptor.geometry k = Ok g -> chain f k p rs q ->
  p_at p + lenZ rs <= p_at q /\ p_lsn q = p_lsn p + lenZ rs /\ (rs <> [] -> p_at q < g_backing_blocks g).
Proof.
  intros Hg Hc. induction Hc as [p|p r rs q Hn Hc IH]; cbn [length].
  { split; [lia|]. split; [lia|done]. }
  apply (next_record_Some f k g) in Hn as []; [|done]. destruct IH as (Ha & Hl & He). split; [lia|]. split; [lia|].
  intros _. destruct rs; [inversion Hc; subst; done|by apply He].
Qed.

Lemma chain_ext f f' k p rs q : (forall x, f' x = f x) -> chain f k p rs q -> chain f' k p rs q.
Proof. intros Hf. induction 1; econstructor; [|done]. rewrite <- H0. by apply next_record_ext. Qed.

Lemma chain_lsn f k g p rs q :
  Descriptor.geometry k = Ok g -> chain f k p rs q -> p_lsn p < 2 ^ 64 -> p_lsn q < 2 ^ 64.
Proof.
  intros Hg Hc. induction Hc as [p|p r rs q Hn Hc IH]; [done|]. intros _. apply IH.
  apply (next_record_Some f k g) in Hn as []; [|done]. by rewrite fo_lsn0.
Qed.

Lemma chain_prefix f f' k g p rs q :
  Descriptor.geometry k = Ok g -> chain f k p rs q ->
  (forall x, p_at p < x <= p_at q -> f' x = f x) -> chain f' k p rs q.
Proof.
  intros Hg Hc. induction Hc as [p|p r rs q Hn Hc IH]; intros Hf; [constructor|].
  pose proof (chain_le _ _ _ _ _ _ Hg Hc) as (Hle & _). pose proof (next_record_Some f k g p r Hg Hn) as [].
  econstructor.
  - eapply next_record_prefix; [done|done|]. intros x Hx. apply Hf. lia.
  - apply IH. intros x Hx. apply Hf. lia.
Qed.

(** Positions on a chain are inside the tail, the next record being there or not. *)
Lemma inside_step f k g p r :
  follows_at f k g p r -> inside k g (Tail.position r).
Proof. intros [[] ? ? ? ? ? ? ? ?]. constructor; lia. Qed.

Lemma chain_inside f k g p rs q :
  Descriptor.geometry k = Ok g -> inside k g p -> chain f k p rs q -> inside k g q.
Proof.
  intros Hg Hp Hc. induction Hc as [p|p r rs q Hn Hc IH]; [done|]. apply IH.
  eapply inside_step, next_record_Some; done.
Qed.

Lemma inside_root k g :
  c_last_record_boundary k < g_backing_blocks g ->
  inside k g {| p_lsn := c_checkpoint_lsn k; p_at := c_last_record_boundary k |}.
Proof. intros. constructor; cbn; lia. Qed.

(** What is on a file determines the chain up to its end. *)
Lemma chain_unique f k p rs q rs' q' :
  chain f k p rs q -> chain f k p rs' q' -> next_record f k q = Ok None -> next_record f k q' = Ok None ->
  rs = rs' /\ q = q'.
Proof.
  intros Hc. revert rs' q'. induction Hc as [p|p r rs q Hn Hc IH]; intros rs' q' Hc' He He'; destruct Hc' as [|p r' rs' q' Hn' Hc'].
  - done.
  - congruence.
  - congruence.
  - rewrite Hn in Hn'. injection Hn' as <-. by destruct (IH rs' q' Hc' He He') as [-> ->].
Qed.

(** ** What a chain says of the mapping *)

(** The payloads of a record. *)
Definition count_of (record : DataRecord) : Z := h_boundary (d_header record) - h_previous_boundary (d_header record) - 1.

Definition addresses (record : DataRecord) : list Z := take (Z.to_nat (count_of record)) (d_lba_ids record).

(** The entries of the addresses of a record replace the older ones. *)
Definition store (record : DataRecord) (m : Z -> Z * Z) : Z -> Z * Z := fun lba =>
  match list_find (eq lba) (addresses record) with
  | Some (i, _) =>
      (h_previous_boundary (d_header record) + 1 + Z.of_nat i, nth i (d_checksums record) 0)
  | None => m lba
  end.

Definition replay_one (m : Z -> Z * Z) (r : LogRecord) : Z -> Z * Z :=
  match r with LogData record => store record m | LogMapping _ => m end.

Definition replay (rs : list LogRecord) (m : Z -> Z * Z) : Z -> Z * Z := foldl replay_one m rs.

(** The pages with an entry on a chain. *)
Definition pages_of (r : LogRecord) : list Z :=
  match r with LogData record => (fun lba => lba / ENTRIES_PER_PAGE) <$> addresses record | LogMapping _ => [] end.

Definition touched (rs : list LogRecord) : gset Z := list_to_set (rs ≫= pages_of).

(** Entries that agree stay so when records are replayed over them. *)
Lemma replay_ext rs m m' lba : m lba = m' lba -> replay rs m lba = replay rs m' lba.
Proof.
  revert m m'. induction rs as [|r rs IH]; intros m m' E; [done|]. cbn. apply IH.
  destruct r as [record|h]; cbn; [|done]. unfold store. by destruct (list_find _ _) as [[]|].
Qed.

Lemma replay_app rs rs' m : replay (rs ++ rs') m = replay rs' (replay rs m).
Proof. apply foldl_app. Qed.

Lemma touched_app rs rs' : touched (rs ++ rs') = touched rs ∪ touched rs'.
Proof. unfold touched. by rewrite bind_app, list_to_set_app_L. Qed.

Lemma elem_of_touched record (q : Z) :
  q ∈ touched [LogData record] <-> exists lba, q = lba / ENTRIES_PER_PAGE /\ lba ∈ addresses record.
Proof. unfold touched. cbn. rewrite app_nil_r, elem_of_list_to_set. apply list_elem_of_fmap. Qed.

Lemma touched_address record lba : lba ∈ addresses record -> lba / ENTRIES_PER_PAGE ∈ touched [LogData record].
Proof. intros Hl. apply elem_of_touched. by exists lba. Qed.

Lemma store_in record m i lba :
  NoDup (addresses record) -> addresses record !! i = Some lba ->
  store record m lba = (h_previous_boundary (d_header record) + 1 + Z.of_nat i, nth i (d_checksums record) 0).
Proof.
  intros Hnd Hi. unfold store. destruct (list_find (eq lba) (addresses record)) as [[j x]|] eqn:E.
  - apply list_find_Some in E as (Hj & -> & _). by rewrite (NoDup_lookup _ _ _ _ Hnd Hj Hi).
  - apply list_find_None in E. apply Forall_lookup_1 with (i := i) (x := lba) in E; [|done]. done.
Qed.

Lemma store_other record m lba : lba ∉ addresses record -> store record m lba = m lba.
Proof.
  intros Hn. unfold store. destruct (list_find (eq lba) (addresses record)) as [[j x]|] eqn:E; [|done].
  apply list_find_Some in E as (Hj & -> & _). by apply list_elem_of_lookup_2 in Hj.
Qed.

(** ** Records that were decoded *)

(** A record of the declared widths that the format accepts. *)
Record sound_record g (r : DataRecord) : Prop := {
  sr_typed : DataRecord.typed r;
  sr_valid : DataRecord.valid r g (count_of r);
}.

Lemma decoded_sound b g v r :
  block_ok b -> g_log_start g <> 0 -> DataRecord.decode b g v = Ok r -> sound_record g r.
Proof.
  intros Hb Hg Hd. apply DataRecord.record_decode_Ok in Hd as (Ht & _ & Hv & _); [|done].
  pose proof Ht as (_ & Hl & _ & Hc & _). apply DataRecord.record_validate_Ok in Hv as [count Hv]; [|done..].
  split; [done|]. replace (count_of r) with count; [done|]. unfold count_of. rewrite (DataRecord.valid_extent _ _ _ Hv). lia.
Qed.

Section sound.
Context (g : Geometry) (r : DataRecord) (Hr : sound_record g r).

Lemma sound_count : payload_count (d_header r) = Ok (count_of r).
Proof. destruct Hr as [_ []]. apply payload_count_Ok. rewrite valid_kind. lia. Qed.

Lemma sound_lookup i lba :
  addresses r !! i = Some lba <-> Z.of_nat i < count_of r /\ lba = arr (d_lba_ids r) (Z.of_nat i).
Proof.
  destruct Hr as [(_ & Hl & _) []]. change MAXIMUM_PAYLOAD_BLOCKS with 338 in Hl. unfold addresses, arr.
  rewrite lookup_take_Some, Nat2Z.id, nth_lookup. split.
  - intros [Hi Hlt]. rewrite Hi. split; [lia|done].
  - intros [Hlt ->]. destruct (lookup_lt_is_Some_2 (d_lba_ids r) i) as [x Hx]; [lia|]. rewrite Hx. split; [done|lia].
Qed.

Lemma sound_NoDup : NoDup (addresses r).
Proof.
  destruct Hr as [_ []]. apply NoDup_alt. intros i j lba [Hi ->]%sound_lookup [Hj E]%sound_lookup.
  destruct (Nat.lt_trichotomy i j) as [Hlt|[Heq|Hlt]]; [|done|].
  - destruct (valid_distinct (Z.of_nat i) (Z.of_nat j)); lia.
  - destruct (valid_distinct (Z.of_nat j) (Z.of_nat i)); lia.
Qed.

Lemma sound_address lba : lba ∈ addresses r -> 0 <= lba < g_volume_blocks g.
Proof.
  destruct Hr as [(_ & Hl & Hu & _) []]. intros [i Hi]%list_elem_of_lookup. apply sound_lookup in Hi as [Hi ->].
  change MAXIMUM_PAYLOAD_BLOCKS with 338 in Hl. split; [|apply valid_range; lia].
  apply (Forall_arr _ _ (Z.of_nat i)) in Hu; [|lia]. unfold is_u32 in Hu. lia.
Qed.

End sound.

(** Every data record of a chain is sound and ends where the chain goes on. *)
Lemma next_sound f k g p record :
  (forall b, block_ok (f b)) -> Descriptor.geometry k = Ok g -> g_log_start g <> 0 ->
  next_record f k p = Ok (Some (LogData record)) -> sound_record g record.
Proof.
  intros Hf Hg Hs Hn. apply (next_record_Some f k g) in Hn as []; [|done].
  eapply decoded_sound; [apply Hf|done|by apply fo_data0].
Qed.

End log.
End Log.
