(* ===== verification/MappingState.v ===== *)
(** The mapping of an open volume: [src/rust/src/format_v3/mapping_state.rs]. *)

From S2P Require Import Prelude Bytes Geometry Format Entries MappingPage Checkpoint Index.
From S2P Require Import Clock Sizing MappingCache Accounting Uring Device BackingIo Tail.
From S2P Require Import PageRead CheckpointLoad Publish Recovery Storage Roots CrashSafety Log.

Record MappingState := {
  ms_checkpoint : Checkpoint;
  ms_cache : MappingCache;
  ms_tail : LogPosition;
  ms_recovery : RecoveryStats;
  ms_pressure_checkpoints : Z;
  ms_checkpoint_failures : Z;
  ms_last_read_page : option Z;
}.

Inductive CheckpointPolicy := Allow | Forbid.

#[global] Instance checkpoint_policy_eq_dec : EqDecision CheckpointPolicy.
Proof. solve_decision. Defined.

Module Mapping.
Section mapping.
Context `{Xxh3} `{Platform} {D : Type} `{!Device D}.

(** The state of the methods: the I/O and the mapping. *)
Definition State : Type := BackingIo D * MappingState.

Definition with_cache (c : MappingCache) (m : MappingState) : MappingState :=
  {| ms_checkpoint := ms_checkpoint m; ms_cache := c; ms_tail := ms_tail m;
     ms_recovery := ms_recovery m; ms_pressure_checkpoints := ms_pressure_checkpoints m;
     ms_checkpoint_failures := ms_checkpoint_failures m; ms_last_read_page := ms_last_read_page m |}.
Definition with_checkpoint (k : Checkpoint) (m : MappingState) : MappingState :=
  {| ms_checkpoint := k; ms_cache := ms_cache m; ms_tail := ms_tail m;
     ms_recovery := ms_recovery m; ms_pressure_checkpoints := ms_pressure_checkpoints m;
     ms_checkpoint_failures := ms_checkpoint_failures m; ms_last_read_page := ms_last_read_page m |}.
Definition with_tail (t : LogPosition) (m : MappingState) : MappingState :=
  {| ms_checkpoint := ms_checkpoint m; ms_cache := ms_cache m; ms_tail := t;
     ms_recovery := ms_recovery m; ms_pressure_checkpoints := ms_pressure_checkpoints m;
     ms_checkpoint_failures := ms_checkpoint_failures m; ms_last_read_page := ms_last_read_page m |}.
Definition with_last_read (p : option Z) (m : MappingState) : MappingState :=
  {| ms_checkpoint := ms_checkpoint m; ms_cache := ms_cache m; ms_tail := ms_tail m;
     ms_recovery := ms_recovery m; ms_pressure_checkpoints := ms_pressure_checkpoints m;
     ms_checkpoint_failures := ms_checkpoint_failures m; ms_last_read_page := p |}.
Definition count_checkpoints (pressure failures : Z) (m : MappingState) : MappingState :=
  {| ms_checkpoint := ms_checkpoint m; ms_cache := ms_cache m; ms_tail := ms_tail m;
     ms_recovery := ms_recovery m;
     ms_pressure_checkpoints := ms_pressure_checkpoints m + pressure;
     ms_checkpoint_failures := ms_checkpoint_failures m + failures;
     ms_last_read_page := ms_last_read_page m |}.

Definition modify (f : MappingState -> MappingState) : M State unit :=
  mmodify (fun s => (fst s, f (snd s))).
Definition on_io {A} (m : M (BackingIo D) A) : M State A := zoom fst (fun io s => (io, snd s)) m.
Definition on_cache {A} (m : M MappingCache A) : M State A :=
  zoom (fun s => ms_cache (snd s)) (fun c s => (fst s, with_cache c (snd s))) m.

(** [checkpoint_publish::publish] on the fields of the mapping. *)
Definition publish_root : M State LogPosition :=
  s <- mget ;;
  zoom (fun s => {| st_io := fst s; st_active := ms_checkpoint (snd s); st_cache := ms_cache (snd s) |})
       (fun t s => (st_io t, with_cache (st_cache t) (with_checkpoint (st_active t) (snd s))))
       (Publish.publish (ms_tail (snd s))).

(** [MappingState::publish]. *)
Definition publish : M State unit :=
  result <- mtry publish_root ;;
  match (result : res LogPosition) with
  | Ok tail => modify (with_tail tail)
  | Err error => modify (count_checkpoints 0 1) ;;; mlift (Err error)
  | Panic => mlift Panic
  end.

Definition state_error : CacheError -> io_error := cache_error "mapping cache: ".

(** [acquire], with the pressure checkpoint and the retry. *)
Definition acquire_page (page_id : Z) (policy : CheckpointPolicy) : M State Acquisition :=
  acquisition <- on_cache (mmap_err state_error (MappingCache.acquire page_id Foreground)) ;;
  match acquisition with
  | CheckpointRequired pending =>
      mlift (assert_ (bool_decide (policy = Allow))) ;;;
      result <- mtry publish_root ;;
      match (result : res LogPosition) with
      | Ok tail => modify (fun m => count_checkpoints 1 0 (with_tail tail m))
      | Err error => modify (count_checkpoints 0 1) ;;; mlift (Err error)
      | Panic => mlift Panic
      end ;;;
      on_cache (mmap_err state_error (MappingCache.retry pending))
  | ready => mret ready
  end.

(** [with_page]; the operation is given the slot of the page and its number of entries. *)
Definition with_page {T} (page_id : Z) (policy : CheckpointPolicy)
    (operation : Z -> Z -> M MappingCache T) : M State T :=
  s <- mget ;;
  let sequential :=
    bool_decide (policy = Allow)
    && bool_decide (match ms_last_read_page (snd s) with
                    | Some previous => checked_add 32 previous 1
                    | None => None
                    end = Some page_id) in
  modify (with_last_read (if bool_decide (policy = Allow) then Some page_id else None)) ;;;
  acquisition <- acquire_page page_id policy ;;
  match acquisition with
  | Resident slot valid => on_cache (operation slot valid)
  | Vacant page slot =>
      s <- mget ;;
      let cache := ms_cache (snd s) in
      limit <- mlift (if sequential : bool
                      then map_err state_error (MappingCache.prefetch_limit cache page slot READ_AHEAD_PAGES)
                      else Ok 1) ;;
      found <- on_io (PageRead.read (ms_checkpoint (snd s)) page_id limit PageRead.new) ;;
      let '(entries, read) := found in
      installed <- on_cache (mmap_err state_error (MappingCache.install page slot entries)) ;;
      match installed with
      | Resident slot valid =>
          result <- on_cache (operation slot valid) ;;
          s <- mget ;;
          zoom (fun s => (fst s, ms_cache (snd s))) (fun p s => (fst p, with_cache (snd p) (snd s)))
            (PageRead.install_prefetched read (ms_checkpoint (snd s)) page_id) ;;;
          mret result
      | _ => mlift Panic
      end
  | CheckpointRequired _ =>
      mlift (Err (InvalidData "published checkpoint did not release cache capacity"))
  end.

End mapping.
(** ** What the methods keep *)

Section laws.
Context `{Xxh3} `{Platform} {D : Type} `{!Device D} `{!DeviceLaws D}.
Implicit Types s : State (D := D).

Definition files s : Z -> list Z := Io.file (fst s).
Definition cache s : MappingCache := ms_cache (snd s).
Definition root s : CheckpointDescriptor := k_descriptor (ms_checkpoint (snd s)).

(** The mapping agrees with the file, for a log that ends at [t]; [t] is
    [ms_tail] but for the moment between an append and the update of the tail. *)
Definition ok_at (g : Geometry) (t : LogPosition) s : Prop :=
  Publish.coherent g (files s) (ms_checkpoint (snd s)) (cache s) t.

(** The entries of a page of the volume. *)
Definition page (g : Geometry) s (p : Z) : MappingEntries :=
  Publish.page g (files s) (ms_checkpoint (snd s)) (cache s) p.

Definition dirty_count s : Z := lenZ (MappingCache.dirty_pages (cache s)).

(** From [s] with end of log [t] to [s'] with [t'], only behind the scenes:
    evictions, read-ahead and checkpoints. *)
Record kept (g : Geometry) (t : LogPosition) s (t' : LogPosition) s' : Prop := {
  kp_ok : ok_at g t' s';
  kp_pages : forall p, 0 <= p < g_page_count g -> page g s' p = page g s p;
  kp_changed : Io.changed (fun x => x < g_log_start g \/ p_at t < x) (fst s) (fst s');
  kp_tail : (t' = t /\ ms_tail (snd s') = ms_tail (snd s)) \/ (t = ms_tail (snd s) /\ t' = ms_tail (snd s'));
  kp_le : p_at t <= p_at t';
  kp_space : p_at t' + dirty_count s' = p_at t + dirty_count s;
  kp_dirty : forall p, p ∈ MappingCache.dirty_ids (cache s') -> p ∈ MappingCache.dirty_ids (cache s);
  kp_shape : MappingCache.same_shape (cache s) (cache s');
  kp_volume : c_volume_id (root s') = c_volume_id (root s);
}.

Lemma kept_refl g t s : ok_at g t s -> kept g t s t s.
Proof.
  intros Hok. constructor; [done | done | apply Io.changed_refl | by left | done | done | done
    | by unfold MappingCache.same_shape | done].
Qed.

Lemma kept_trans g t1 s1 t2 s2 t3 s3 : kept g t1 s1 t2 s2 -> kept g t2 s2 t3 s3 -> kept g t1 s1 t3 s3.
Proof.
  intros [A1 A2 A3 A4 A5 A6 A7 A8 A9] [B1 B2 B3 B4 B5 B6 B7 B8 B9]. constructor; try done; try lia.
  - intros p Hp. by rewrite B2, A2.
  - eapply Io.changed_trans; [exact A3|]. eapply Io.changed_mono; [|exact B3]. cbv beta. lia.
  - destruct A4 as [[-> A4]|[-> ->]], B4 as [[-> B4]|[B4 ->]]; try (right; split; congruence).
    left. split; congruence.
  - auto.
  - destruct A8 as (? & ? & ?), B8 as (? & ? & ?). unfold MappingCache.same_shape. split_and!; congruence.
Qed.

(** Neither the root, nor the file, nor what is dirty has changed. *)
Record quiet s s' : Prop := {
  qt_root : ms_checkpoint (snd s') = ms_checkpoint (snd s);
  qt_io : Io.untouched (fst s) (fst s');
  qt_dirty : forall p, p ∈ MappingCache.dirty_ids (cache s') <-> p ∈ MappingCache.dirty_ids (cache s);
}.

Lemma quiet_trans s1 s2 s3 : quiet s1 s2 -> quiet s2 s3 -> quiet s1 s3.
Proof.
  intros [A1 A2 A3] [B1 B2 B3]. constructor; [congruence|by eapply Io.untouched_trans|].
  intros p. by rewrite B3, A3.
Qed.

(** Only the cache was refreshed. *)
Record still (g : Geometry) (t : LogPosition) s s' : Prop := {
  sl_kept : kept g t s t s';
  sl_quiet : quiet s s';
}.

(** The mapped entries of a coherent state. *)
Lemma page_valid g t s p :
  ok_at g t s -> 0 <= p < g_page_count g ->
  Entries.typed (page g s p) /\ Entries.valid (page g s p) (MappingCache.page_entries (g_volume_blocks g) p) /\
  forall i, 0 <= i < ENTRIES_PER_PAGE -> (Entries.get (page g s p) i).1 <> 0 ->
    g_log_start g <= (Entries.get (page g s p) i).1 <= p_at t.
Proof.
  intros [] Hp. unfold page, Publish.page. destruct (MappingCache.view _ p) as [[e d]|] eqn:E.
  - destruct (co_entries p e d E) as [Ht Hl]. split; [done|]. split; [|done].
    apply MappingCache.view_Some in E as (sl & slot & Hs & Hsl & Hid & <- & _ & _); [|done].
    destruct (MappingCache.wf_slot _ co_cache _ _ Hs Hsl) as [_ _ Hv]. by rewrite <- co_volume, <- Hid.
  - destruct (co_disk p Hp) as [e He]. rewrite He. cbn [default from_option id].
    destruct (PageRead.disk_page_valid (files s) (ms_checkpoint (snd s)) g p e) as (H1 & H2 & H3); try done; [intros; apply content_ok|lia|].
    split; [done|]. split; [done|]. intros i Hi Hne. specialize (H3 i Hi Hne). lia.
Qed.

(** A change of the cache that only refreshes it. *)
Lemma refreshed_still g t s c' m' io' :
  ok_at g t s -> MappingCache.wf c' -> MappingCache.same_shape (cache s) c' ->
  PageRead.refreshed (files s) (ms_checkpoint (snd s)) g (cache s) c' ->
  ms_checkpoint m' = ms_checkpoint (snd s) -> ms_cache m' = c' -> ms_tail m' = ms_tail (snd s) ->
  Io.untouched (fst s) io' -> still g t s (io', m').
Proof.
  intros Hok Hc' Hsh Hr Hk Hm Ht Hu. pose proof Hok as [].
  destruct (Publish.coherent_refreshed g (files s) _ _ c' t ltac:(intros; apply content_ok) Hok Hc' Hsh Hr)
    as (Hco & Hpg & Hd).
  destruct (Publish.coherent_frame g (files s) (Io.file io') _ c' c' t Hco Hc') as [Hco' Hpg'];
    [by unfold MappingCache.same_shape | done | intros; apply Hu |].
  assert (Hdirty : dirty_count (io', m') = dirty_count s).
  { unfold dirty_count, cache; cbn. rewrite Hm. by apply MappingCache.dirty_count_eq. }
  assert (Hids : forall p, p ∈ MappingCache.dirty_ids c' <-> p ∈ MappingCache.dirty_ids (cache s)).
  { intros p. rewrite !MappingCache.dirty_ids_elem by done. split; intros [e He]; exists e; by apply Hd. }
  split; [|constructor; cbn [fst snd]; [done|done|unfold cache at 1; cbn; by rewrite Hm]].
  constructor; unfold ok_at, page, files, cache, root; cbn [fst snd]; rewrite ?Hk, ?Hm; try done; try lia.
  - intros p _. by rewrite Hpg', Hpg.
  - by apply Io.untouched_changed.
  - by left.
  - intros p. by rewrite Hids.
Qed.

(** ** Blocks *)

Definition in_volume (g : Geometry) (lba : Z) : Prop := 0 <= lba < g_volume_blocks g.

(** The physical address and the checksum that a logical block maps to. *)
Definition entry (g : Geometry) s (lba : Z) : Z * Z :=
  Entries.get (page g s (lba / ENTRIES_PER_PAGE)) (lba mod ENTRIES_PER_PAGE).

(** What the log holds for a logical block. *)
Definition mapped (g : Geometry) s (lba : Z) : list Z :=
  if (entry g s lba).1 =? 0 then zero_block else files s (entry g s lba).1.

(** Every mapped block carries the checksum of its payload. *)
Definition sums_ok (g : Geometry) s : Prop :=
  forall lba, in_volume g lba -> (entry g s lba).1 <> 0 ->
    (entry g s lba).2 = payload_checksum (c_volume_id (root s)) lba (entry g s lba).1 (mapped g s lba).

Lemma in_volume_page g lba :
  Geometry.wf g -> in_volume g lba ->
  0 <= lba / ENTRIES_PER_PAGE < g_page_count g /\
  0 <= lba mod ENTRIES_PER_PAGE < MappingCache.page_entries (g_volume_blocks g) (lba / ENTRIES_PER_PAGE) /\
  0 <= lba mod ENTRIES_PER_PAGE < ENTRIES_PER_PAGE.
Proof.
  intros [Hv Hp _ _ _] [Hl0 Hl1]. unfold MappingCache.page_entries. change ENTRIES_PER_PAGE with 336.
  pose proof (Z.div_mod lba 336 ltac:(lia)). pose proof (Z.mod_pos_bound lba 336 ltac:(lia)). lia.
Qed.

Lemma lba_inj a b :
  a / ENTRIES_PER_PAGE = b / ENTRIES_PER_PAGE -> a mod ENTRIES_PER_PAGE = b mod ENTRIES_PER_PAGE -> a = b.
Proof.
  change ENTRIES_PER_PAGE with 336. intros Hd Hm.
  pose proof (Z.div_mod a 336 ltac:(lia)). pose proof (Z.div_mod b 336 ltac:(lia)). lia.
Qed.

Lemma entry_range g t s lba :
  ok_at g t s -> in_volume g lba -> (entry g s lba).1 <> 0 -> g_log_start g <= (entry g s lba).1 <= p_at t.
Proof.
  intros Hok Hl Hne. destruct (in_volume_page g lba (Publish.co_geometry _ _ _ _ _ Hok) Hl) as (Hp & _ & He).
  destruct (page_valid g t s _ Hok Hp) as (_ & _ & Hr). by apply Hr.
Qed.

Section kept.
Context (g : Geometry) (t t' : LogPosition) (s s' : State (D := D)) (Hk : kept g t s t' s') (Hok : ok_at g t s).

Lemma kept_entry lba : in_volume g lba -> entry g s' lba = entry g s lba.
Proof.
  intros Hl. unfold entry. rewrite (kp_pages _ _ _ _ _ Hk); [done|].
  by apply (in_volume_page g lba (Publish.co_geometry _ _ _ _ _ Hok)).
Qed.

Lemma kept_block x : g_log_start g <= x <= p_at t -> files s' x = files s x.
Proof. intros Hx. apply (kp_changed _ _ _ _ _ Hk). lia. Qed.

Lemma kept_mapped lba : in_volume g lba -> mapped g s' lba = mapped g s lba.
Proof.
  intros Hl. unfold mapped. rewrite kept_entry by done.
  destruct (Z.eqb_spec (entry g s lba).1 0); [done|]. apply kept_block. by apply entry_range.
Qed.

Lemma kept_sums : sums_ok g s -> sums_ok g s'.
Proof.
  intros Hs lba Hl. rewrite kept_entry, kept_mapped by done. rewrite (kp_volume _ _ _ _ _ Hk). by apply Hs.
Qed.

End kept.

(** ** The log *)

(** The state of a publication. *)
Definition store s : Store D := {| st_io := fst s; st_active := ms_checkpoint (snd s); st_cache := cache s |}.

(** The entries that the pages of the root have. *)
Definition root_entry (f : Z -> list Z) (k : Checkpoint) (g : Geometry) (lba : Z) : Z * Z :=
  Entries.get (default Entries.zeroed (PageRead.disk_page f k g (lba / ENTRIES_PER_PAGE))) (lba mod ENTRIES_PER_PAGE).

(** The root is settled, and the log behind it, up to [t], has all that was mapped since:
    a page with an entry on the log is dirty. *)
Definition logged (g : Geometry) (t : LogPosition) s (rs : list LogRecord) : Prop :=
  Log.chain (files s) (root s) (Publish.end_of (ms_checkpoint (snd s))) rs t /\
  (forall lba, in_volume g lba ->
     entry g s lba = Log.replay rs (root_entry (files s) (ms_checkpoint (snd s)) g) lba) /\
  (forall p, p ∈ Log.touched rs -> p ∈ MappingCache.dirty_ids (cache s)).

(** No metadata is behind the end of the log. *)
Definition blank (g : Geometry) (t : LogPosition) s : Prop :=
  forall x, p_at t < x < g_backing_blocks g -> Log.plain (root s) (files s x).

Record traced (g : Geometry) (t : LogPosition) s : Prop := {
  tr_settled : Crash.settled g (store s);
  tr_log : exists rs, logged g t s rs;
  tr_blank : blank g t s;
}.

(** [ms_tail] is not part of it. *)
Lemma traced_tail g t t' s : traced g t s -> traced g t (fst s, with_tail t' (snd s)).
Proof. by intros []. Qed.

(** The root entries depend on the blocks of the root only. *)
Lemma root_entry_ext f f' g t s lba :
  ok_at g t s -> in_volume g lba -> (forall x, g_log_start g <= x <= c_last_record_boundary (root s) -> f' x = f x) ->
  root_entry f' (ms_checkpoint (snd s)) g lba = root_entry f (ms_checkpoint (snd s)) g lba.
Proof.
  intros Hok Hl Hf. unfold root_entry. do 2 f_equal. apply PageRead.disk_page_ext. intros b Hb Hne.
  destruct (in_volume_page g lba (Publish.co_geometry _ _ _ _ _ Hok) Hl) as (Hp & _).
  pose proof (proj1 (Forall_forall _ _) (Index.wf_pointers _ _ (Publish.co_index _ _ _ _ _ Hok)) _ Hb) as [_ [->|Hp']]; [done|].
  apply Hf. apply Hp'.
Qed.

(** Writes behind the root do not unsettle it. *)
Lemma settled_changed g s s' (P : Z -> Prop) :
  Geometry.wf g -> Io.changed P (fst s) (fst s') -> ms_checkpoint (snd s') = ms_checkpoint (snd s) ->
  (forall x, P x -> g_log_start g <= x /\ c_last_record_boundary (root s) < x) ->
  Crash.settled g (store s) -> Crash.settled g (store s').
Proof.
  intros Hg (Hf & Hc & _) Hk HP [[Hroot Hd] Hs]. unfold root in HP.
  set (slot := c_slot (k_descriptor (ms_checkpoint (snd s)))) in *. destruct (Publish.body_bounds slot g Hg) as (Hb1 & Hb2 & _).
  assert (Hslots : forall sl, ~ P (slot_number sl)) by (intros sl Hx%HP; destruct Hg, sl; cbn in Hx; lia).
  unfold Crash.settled, Publish.anchored, store in *. cbn [st_io st_active] in *. rewrite Hk. split; [split|].
  - destruct Hroot as (He & Hsum & Hbody). split; [by rewrite Hf|]. split; [done|].
    intros b Hb. rewrite Hf; [by apply Hbody|]. intros Hx%HP. fold slot in Hx. lia.
  - intros c Hc' x Hx. destruct (Hc c Hc') as (c0 & Hc0 & Heq).
    assert (~ P x).
    { intros Hp. specialize (HP x Hp). destruct Hx as [->|[Hx|Hx]]; [by apply (Hslots slot)| |lia].
      unfold Publish.body_blocks in Hx. fold slot in Hx. lia. }
    rewrite Heq, Hf by done. by apply Hd.
  - intros c Hc'. destruct (Hc c Hc') as (c0 & Hc0 & Heq). apply (Crash.superseded_offers c c0); [|by apply Hs].
    unfold Roots.offered. by rewrite Heq.
Qed.

Lemma quiet_traced g t s s' : kept g t s t s' -> quiet s s' -> ok_at g t s -> traced g t s -> traced g t s'.
Proof.
  intros Hk [Hr [Hu Hm] Hd] Hok [Hs (rs & Hc & He & Ht) Hb]. split.
  - apply (settled_changed g s s' (fun _ => False)); try done; [apply Hok|]. by apply Io.untouched_changed.
  - exists rs. unfold logged, root. rewrite Hr. split; [by apply (Log.chain_ext (files s))|]. split; [|intros p Hp; by apply Hd, Ht].
    intros lba Hl. rewrite (kept_entry g t t s s' Hk Hok lba Hl), He by done. apply Log.replay_ext. symmetry.
    apply (root_entry_ext (files s) (files s') g t); [done|done|]. intros x _. apply Hu.
  - intros x Hx. unfold files, root. rewrite Hu, Hr. by apply Hb.
Qed.

(** Without dirty pages the entries are those of the root. *)
Lemma clean_entries g t s lba :
  ok_at g t s -> dirty_count s = 0 -> entry g s lba = root_entry (files s) (ms_checkpoint (snd s)) g lba.
Proof.
  intros [] Hd. unfold entry, root_entry, page, Publish.page. do 2 f_equal.
  destruct (MappingCache.view (cache s) (lba / ENTRIES_PER_PAGE)) as [[e d]|] eqn:E; [|done].
  destruct d; [|by rewrite (co_clean _ _ E)]. exfalso. apply MappingCache.dirty_pages_elem in E; [|done].
  unfold dirty_count in Hd. destruct (MappingCache.dirty_pages (cache s)); [by apply not_elem_of_nil in E|]. cbn [length] in Hd. lia.
Qed.

(** A root at the end of the log is all there is. *)
Lemma published_traced g t s :
  ok_at g t s -> dirty_count s = 0 -> Crash.settled g (store s) -> t = Publish.end_of (ms_checkpoint (snd s)) ->
  blank g t s -> traced g t s.
Proof.
  intros Hok Hd Hs -> Hb. split; [done| |done]. exists []. split; [constructor|]. split; [|set_solver].
  intros lba _. by eapply clean_entries.
Qed.

Lemma still_traced g t s s' : still g t s s' -> ok_at g t s -> traced g t s -> traced g t s'.
Proof. intros [] Hok. by apply quiet_traced. Qed.

Lemma still_refl g t s : ok_at g t s -> still g t s s.
Proof. intros Hok. split; [by apply kept_refl|]. constructor; [done|apply Io.untouched_refl|done]. Qed.

Lemma still_trans g t s1 s2 s3 : still g t s1 s2 -> still g t s2 s3 -> still g t s1 s3.
Proof. intros [] []. split; [by eapply kept_trans|by eapply quiet_trans]. Qed.

(** [kept], and what was traced still is. *)
Record followed (g : Geometry) (t : LogPosition) s (t' : LogPosition) s' : Prop := {
  fw_kept : kept g t s t' s';
  fw_traced : traced g t s -> traced g t' s';
}.

Lemma still_followed g t s s' : ok_at g t s -> still g t s s' -> followed g t s t s'.
Proof. intros Hok Hs. split; [apply Hs|by apply still_traced]. Qed.

Lemma followed_trans g t1 s1 t2 s2 t3 s3 : followed g t1 s1 t2 s2 -> followed g t2 s2 t3 s3 -> followed g t1 s1 t3 s3.
Proof. intros [] []. split; [by eapply kept_trans|auto]. Qed.

Lemma followed_still g t1 s1 t2 s2 s3 : followed g t1 s1 t2 s2 -> still g t2 s2 s3 -> followed g t1 s1 t2 s3.
Proof. intros Hf Hs. eapply followed_trans; [exact Hf|]. apply still_followed; [apply Hf|done]. Qed.

(** [publish_root] leaves the new end of the log to the caller. *)
Lemma publish_root_run g s :
  ok_at g (ms_tail (snd s)) s ->
  runs publish_root s (fun r s' => r <> Panic /\
    match r with
    | Ok t => kept g (ms_tail (snd s)) s t (fst s', with_tail t (snd s')) /\
        dirty_count s' = 0 /\ Io.durable (fst s') /\ t = Publish.end_of (ms_checkpoint (snd s')) /\
        (traced g (ms_tail (snd s)) s -> traced g t (fst s', with_tail t (snd s')))
    | _ => kept g (ms_tail (snd s)) s (ms_tail (snd s)) s'
    end).
Proof.
  intros Hok. apply runs_intro. intros r s' Hrun. unfold publish_root in Hrun.
  unfold mbind at 1, mget, zoom in Hrun; cbn [fst snd] in Hrun.
  destruct (Publish.publish _ _) as [r1 st] eqn:E. injection Hrun as <- <-. pose proof E as Epub.
  apply (Publish.publish_run g) in E as [Hnp []]; [|exact Hok]; cbn [st_io st_active st_cache] in *.
  split; [done|]. pose proof Hok as [].
  assert (Hch : Io.changed (fun x => x < g_log_start g \/ p_at (ms_tail (snd s)) < x) (fst s) (st_io st)).
  { eapply Io.changed_mono; [|exact out_region]. intros x Hx.
    destruct (Z.lt_ge_cases x (g_log_start g)); [by left|right].
    apply Publish.region_log in Hx; [unfold Publish.log_region in Hx; lia|done|lia|done]. }
  destruct r1 as [t|e|]; [|destruct out_result|done]; cycle 1.
  - assert (Hd : lenZ (MappingCache.dirty_pages (st_cache st)) = dirty_count s).
    { apply MappingCache.dirty_count_eq; [apply out_coherent|done|]. intros q d. by rewrite up_views. }
    constructor; unfold dirty_count, ok_at, page, files, cache, root; cbn [fst snd with_cache with_checkpoint
      ms_cache ms_checkpoint ms_tail].
    + done.
    + done.
    + done.
    + by left.
    + done.
    + rewrite Hd. done.
    + intros p. rewrite !MappingCache.dirty_ids_elem by (done || apply out_coherent). by setoid_rewrite up_views.
    + done.
    + by rewrite up_active.
  - destruct out_result. cbn [st_io st_active st_cache] in *. unfold dirty_count, cache.
    cbn [fst snd with_cache with_checkpoint ms_cache ms_checkpoint].
    split; [|split; [by rewrite pb_clean|split; [done|split; [done|]]]].
    2: { intros [Hset _ Hbl]. apply (Crash.publish_settled g) in Epub as [Hset' _]; [|done..].
         apply published_traced; [done|unfold dirty_count, cache; cbn; by rewrite pb_clean|done|done|].
         intros x Hx. rewrite pb_at in Hx. unfold blank, files, root, Log.plain in *. cbn in *. rewrite pb_volume.
         destruct out_region as [Hf _]. rewrite Hf; [apply Hbl; lia|].
         intros Hr%Publish.region_log; [unfold Publish.log_region in Hr; lia|done|lia|lia]. }
    constructor; unfold dirty_count, ok_at, page, files, cache, root;
      cbn [fst snd with_cache with_checkpoint with_tail ms_cache ms_checkpoint ms_tail].
    + done.
    + done.
    + done.
    + by right.
    + rewrite pb_at. lia.
    + rewrite pb_at, pb_clean. unfold cache. cbn [length]. lia.
    + intros p. unfold MappingCache.dirty_ids. rewrite pb_clean. set_solver.
    + done.
    + done.
Qed.

(** Replacing the cache by one with the same contents. *)
Lemma same_views_still g t s c' :
  ok_at g t s -> MappingCache.wf c' -> MappingCache.same_shape (cache s) c' ->
  (forall q, MappingCache.view c' q = MappingCache.view (cache s) q) ->
  still g t s (fst s, with_cache c' (snd s)).
Proof.
  intros Hok Hc' Hsh Hv. apply (refreshed_still g t s c'); [done..| |done|done|done|apply Io.untouched_refl].
  intros q. by left.
Qed.

(** A change of the counters or of the last page read. *)
Lemma same_parts_still g t s m' :
  ok_at g t s -> ms_checkpoint m' = ms_checkpoint (snd s) -> ms_cache m' = cache s ->
  ms_tail m' = ms_tail (snd s) -> still g t s (fst s, m').
Proof.
  intros Hok Hk Hc Ht. apply (refreshed_still g t s (cache s));
    [done | apply Hok | by unfold MappingCache.same_shape | apply PageRead.refreshed_refl | done..|].
  apply Io.untouched_refl.
Qed.

(** A read of the file, or a [fsync]. *)
Lemma untouched_still g t s io' :
  ok_at g t s -> Io.untouched (fst s) io' -> still g t s (io', snd s).
Proof.
  intros Hok Hu. apply (refreshed_still g t s (cache s));
    [done | apply Hok | by unfold MappingCache.same_shape | apply PageRead.refreshed_refl | done..].
Qed.

Lemma page_count_ok g t s : ok_at g t s -> page_count (sizing (cache s)) = g_page_count g.
Proof. intros []. by apply Publish.page_count_eq. Qed.

(** [MappingState::publish]; after a checkpoint no page is dirty. *)
Lemma publish_mapping_run g s :
  ok_at g (ms_tail (snd s)) s ->
  runs publish s (fun (r : res unit) s' => r <> Panic /\
    kept g (ms_tail (snd s)) s (ms_tail (snd s')) s' /\
    (is_ok r = true -> dirty_count s' = 0 /\ Io.durable (fst s') /\
       ms_tail (snd s') = Publish.end_of (ms_checkpoint (snd s')) /\
       (traced g (ms_tail (snd s)) s -> traced g (ms_tail (snd s')) s'))).
Proof.
  intros Hok. unfold publish. apply runs_bind, runs_try.
  eapply runs_mono; [by apply (publish_root_run g)|]. cbv beta. intros r s1 [Hnp Hs1].
  destruct r as [t|e|]; [| |done]; cbn [next].
  - destruct Hs1 as (Hk & Hd & Hdur & Ht & Htr). by apply runs_modify.
  - apply runs_bind, runs_modify. cbn [next]. apply runs_lift. split; [done|]. split; [|done].
    assert (Ht : ms_tail (snd s1) = ms_tail (snd s)) by (by destruct (kp_tail _ _ _ _ _ Hs1) as [[_ ?]|[_ ?]]).
    change (ms_tail (snd (fst s1, count_checkpoints 0 1 (snd s1)))) with (ms_tail (snd s1)). rewrite Ht.
    eapply kept_trans; [exact Hs1|]. apply same_parts_still; [apply Hs1|done..].
Qed.

(** A page can be brought in without a checkpoint. *)
Definition room s (p : Z) : Prop :=
  dirty_count s < capacity (sizing (cache s)) \/ p ∈ MappingCache.dirty_ids (cache s).

Lemma acquire_page_run g t s p (policy : CheckpointPolicy) :
  ok_at g t s -> 0 <= p < g_page_count g ->
  (if policy then t = ms_tail (snd s) else room s p) ->
  runs (acquire_page p policy) s (fun (r : res Acquisition) s' => r <> Panic /\
    match r with
    | Ok a => exists t', followed g t s t' s' /\ MappingCache.acquired (cache s') p a /\
        (forall q, a <> CheckpointRequired q) /\
        (policy = Forbid -> t' = t /\ ms_tail (snd s') = ms_tail (snd s) /\ quiet s s')
    | _ => kept g t s t s'
    end).
Proof.
  intros Hok Hp Hpol. pose proof Hok as []. pose proof (page_count_ok g t s Hok) as Hpc.
  destruct (MappingCache.acquire_Ok (cache s) p Foreground co_cache) as (a & c1 & Hrun & Ha & Hc1 & Hsh1 & _ & Hv1);
    [lia|].
  pose proof (same_views_still g t s c1 Hok Hc1 Hsh1 Hv1) as Hs1. set (s1 := (fst s, with_cache c1 (snd s))) in *.
  pose proof (sl_kept _ _ _ _ Hs1) as Hk1.
  unfold acquire_page. apply runs_bind. unfold on_cache at 1. apply runs_zoom, runs_map_err.
  unfold runs at 1. fold (cache s). rewrite Hrun. cbn [fst snd map_err next]. fold s1.
  destruct a as [slot valid|p' slot|p'].
  1,2: apply runs_ret; split; [done|]; exists t; split; [by apply still_followed|]; split; [exact Ha|];
    split; [done|]; intros _; split; [done|]; split; [done|]; apply Hs1.
  destruct (MappingCache.required_count c1 p p' Hc1 Ha) as [Hfull Hnot].
  destruct policy; cbn [bool_decide]; [|exfalso].
  2: { pose proof (kp_shape _ _ _ _ _ Hk1) as (Hsz & _). pose proof (kp_space _ _ _ _ _ Hk1) as Hd.
       unfold dirty_count, cache, s1, with_cache in Hd, Hsz; cbn [fst snd ms_cache] in Hd, Hsz.
       destruct Hpol as [Hr|Hr].
       - unfold dirty_count, cache in Hr. rewrite Hsz in Hfull. lia.
       - apply MappingCache.dirty_ids_elem in Hr as [e He]; [|done]. apply Hnot.
         apply MappingCache.dirty_ids_elem; [done|]. exists e. by rewrite Hv1. }
  subst t. apply runs_bind, runs_lift. cbn [next]. apply runs_bind, runs_try.
  eapply runs_mono; [apply (publish_root_run g s1); apply Hk1|]. cbv beta.
  intros r s2 [Hnp Hs2]. destruct r as [t2|e|]; [| |done]; cbn [next].
  2: { apply runs_bind, runs_bind, runs_modify. cbn [next]. apply runs_lift. cbn [next]. split; [done|].
       eapply kept_trans; [exact Hk1|]. eapply kept_trans; [exact Hs2|].
       by apply same_parts_still; [apply Hs2|..]. }
  destruct Hs2 as (Hk2 & Hclean & _ & _ & Htr2).
  apply runs_bind, runs_modify. cbn [next].
  set (s3 := (fst s2, count_checkpoints 1 0 (with_tail t2 (snd s2)))).
  assert (Hf3 : followed g (ms_tail (snd s)) s t2 s3).
  { eapply followed_trans; [by apply (still_followed g _ s s1)|]. set (s2' := (fst s2, with_tail t2 (snd s2))) in *.
    eapply followed_still; [constructor; [exact Hk2|exact Htr2]|]. by apply (same_parts_still g t2 s2'); [apply Hk2|..]. }
  pose proof (fw_kept _ _ _ _ _ Hf3) as Hk3. pose proof (kp_ok _ _ _ _ _ Hk3) as Hok3. pose proof (page_count_ok g t2 s3 Hok3) as Hpc3.
  destruct (MappingCache.retry_Ok (cache s3) p') as (a & c4 & Hrun4 & Ha4 & Hc4 & Hsh4 & Hv4);
    [apply Hok3 | destruct Ha; subst; lia |].
  pose proof (same_views_still g t2 s3 c4 Hok3 Hc4 Hsh4 Hv4) as Hs4. pose proof (sl_kept _ _ _ _ Hs4) as Hk4.
  unfold on_cache. apply runs_zoom, runs_map_err. unfold runs. fold (cache s3). rewrite Hrun4.
  cbn [fst snd map_err]. assert (p' = p) as -> by (by destruct Ha). split; [done|]. exists t2.
  split; [by eapply followed_still|]. split; [exact Ha4|]. split; [|done].
  intros q ->. destruct (MappingCache.required_count c4 p q Hc4 Ha4) as [Hfull4 _].
  pose proof (kp_space _ _ _ _ _ Hk4) as Hd4. unfold dirty_count, cache at 1 in Hd4. cbn [fst snd with_cache ms_cache] in Hd4.
  change (MappingCache.dirty_pages (cache s3)) with (MappingCache.dirty_pages (cache s2)) in Hd4.
  fold (dirty_count s2) in Hd4. pose proof (Clock.wf_capacity _ (MappingCache.wf_clock _ Hc4)).
  rewrite (MappingCache.wf_clock_capacity _ Hc4), (MappingCache.wf_slots _ Hc4) in *. lia.
Qed.

(** What a read left in the buffer for the read-ahead. *)
Definition ahead (g : Geometry) s (p : Z) (rd : PageRead) : Prop :=
  forall off, 1 <= off < pr_count rd -> p + off < g_page_count g /\
    PageRead.decode rd (ms_checkpoint (snd s)) p off <> Panic /\
    forall e', PageRead.decode rd (ms_checkpoint (snd s)) p off = Ok e' ->
      PageRead.disk_page (files s) (ms_checkpoint (snd s)) g (p + off) = Some e'.

(** Bringing a vacant page in: the read and the install. *)
Lemma load_page_rule {B} g t s p slot sequential (K : Acquisition -> PageRead -> M State B) Q :
  ok_at g t s -> 0 <= p < g_page_count g -> MappingCache.offered (cache s) p slot ->
  (forall e s1, kept g t s t s1 -> Q (Err e) s1) ->
  (forall s1 rd, still g t s s1 -> ms_tail (snd s1) = ms_tail (snd s) -> ahead g s1 p rd ->
     lookup (cache s1) !! p = Some slot ->
     runs (K (Resident slot (MappingCache.page_entries (g_volume_blocks g) p)) rd) s1 Q) ->
  runs (limit <- mlift (if sequential : bool
                        then map_err state_error (MappingCache.prefetch_limit (cache s) p slot READ_AHEAD_PAGES)
                        else Ok 1) ;;
        found <- on_io (PageRead.read (ms_checkpoint (snd s)) p limit PageRead.new) ;;
        let '(entries, read) := found in
        installed <- on_cache (mmap_err state_error (MappingCache.install p slot entries)) ;;
        K installed read) s Q.
Proof.
  intros Hok Hp Ho HE HK. pose proof Hok as []. pose proof (page_count_ok g t s Hok) as Hpc.
  assert (exists limit, (if sequential then map_err state_error
      (MappingCache.prefetch_limit (cache s) p slot READ_AHEAD_PAGES) else Ok 1) = Ok limit /\
      1 <= limit <= READ_AHEAD_PAGES) as (limit & -> & Hl).
  { destruct sequential; [|by exists 1].
    destruct (MappingCache.prefetch_limit_Ok (cache s) p slot READ_AHEAD_PAGES co_cache) as (n & -> & Hn & _);
      [lia|done|]. by exists n. }
  apply runs_bind, runs_lift. cbn [next]. apply runs_bind. unfold on_io. apply runs_zoom, runs_intro.
  intros r io1 Hread. apply (PageRead.read_spec _ g) in Hread as (Hu & Hnp & Hr); [|done..].
  assert (Hk1 : still g t s (io1, snd s)).
  { apply (refreshed_still g t s (cache s)); [done|done| |apply PageRead.refreshed_refl|done..].
    by unfold MappingCache.same_shape. }
  destruct r as [[e rd]|err|]; cbn [next]; [|by apply HE, Hk1|done].
  destruct (Hr e rd eq_refl) as [Hpage Hahead].
  destruct (PageRead.disk_page_valid (files s) (ms_checkpoint (snd s)) g p e) as ([Hsh _] & Hva & _);
    [intros; apply content_ok | done | lia | done |].
  destruct (MappingCache.install_run (cache s) p slot e co_cache Ho Hsh) as (c2 & Hrun & Hc2 & Hs2 & Hl2 & Hv2 & Hkept2 & _);
    [by rewrite co_volume|].
  apply runs_bind. unfold on_cache. apply runs_zoom, runs_map_err. unfold runs at 1.
  change (ms_cache (snd (io1, snd s))) with (cache s). rewrite Hrun. cbn [fst snd map_err next].
  rewrite co_volume. apply HK; [|done| |done].
  - apply (refreshed_still g t s c2); [done|done|done| |done|done|done|done].
    apply (PageRead.brought_refreshed _ _ _ _ _ p e); [|done..].
    intros d Hd. destruct Ho as (_ & Hn & _). apply (MappingCache.view_None _ p co_cache) in Hn. congruence.
  - intros off Hoff. destruct (Hahead off Hoff) as (H1 & H2 & H3). split; [done|]. split; [done|].
    intros e' He'. rewrite <- (H3 e' He'). apply PageRead.disk_page_ext. intros b _ _. apply Hu.
Qed.

(** [with_page]: the operation runs on the page, resident in the cache; before
    and after it only background work happens. *)
Lemma with_page_run {T} g t s p (policy : CheckpointPolicy) (op : Z -> Z -> M MappingCache T)
    (Q : res T -> State -> Prop) :
  ok_at g t s -> 0 <= p < g_page_count g ->
  (if policy then t = ms_tail (snd s) else room s p) ->
  (forall t1 s1 slot, followed g t s t1 s1 -> (policy = Allow -> t1 = ms_tail (snd s1)) ->
     (policy = Forbid -> t1 = t /\ ms_tail (snd s1) = ms_tail (snd s) /\ quiet s s1) ->
     lookup (cache s1) !! p = Some slot ->
     runs (op slot (MappingCache.page_entries (g_volume_blocks g) p)) (cache s1) (fun r c2 =>
       let s2 := (fst s1, with_cache c2 (snd s1)) in r <> Panic /\ (exists t2, ok_at g t2 s2) /\ Q r s2)) ->
  (forall r s2 s3, Q r s2 -> (forall t2, ok_at g t2 s2 -> still g t2 s2 s3) ->
     ms_tail (snd s3) = ms_tail (snd s2) -> Q r s3) ->
  (forall e t1 s1, kept g t s t1 s1 -> (policy = Allow -> t1 = ms_tail (snd s1)) -> Q (Err e) s1) ->
  runs (with_page p policy op) s (fun r s' => r <> Panic /\ Q r s').
Proof.
  intros Hok Hp Hpol Hop Hclosed Herr.
  assert (Hallow : forall t1 s1, kept g t s t1 s1 -> policy = Allow -> t1 = ms_tail (snd s1)).
  { intros t1 s1 Hk ->. cbn in Hpol. destruct (kp_tail _ _ _ _ _ Hk) as [[-> ->]|[_ ->]]; done. }
  unfold with_page. apply runs_bind, runs_get. cbn [next].
  set (sequential := _ && _). apply runs_bind, runs_modify. cbn [next].
  set (s0 := (fst s, with_last_read _ (snd s))).
  assert (Hs0 : still g t s s0) by (by apply same_parts_still). pose proof (sl_kept _ _ _ _ Hs0) as Hk0.
  apply runs_bind. eapply runs_mono; [apply (acquire_page_run g t s0 p policy); [apply Hk0 | done | by destruct policy]|].
  cbv beta. intros r s1 [Hnp Hs1].
  destruct r as [a|e|]; [|cbn; split; [done|]; apply (Herr e t); [by eapply kept_trans|apply Hallow; by eapply kept_trans]|done].
  destruct Hs1 as (t1 & Hf01 & Ha & Hnr & Hforbid). cbn [next].
  assert (Hf1 : followed g t s t1 s1) by (eapply followed_trans; [by apply still_followed|exact Hf01]).
  pose proof (fw_kept _ _ _ _ _ Hf1) as Hk1.
  assert (Hfb1 : policy = Forbid -> t1 = t /\ ms_tail (snd s1) = ms_tail (snd s) /\ quiet s s1).
  { intros Hpf. destruct (Hforbid Hpf) as (-> & Ht & Hq). split; [done|]. split; [done|].
    eapply quiet_trans; [apply Hs0|exact Hq]. }
  pose proof (kp_ok _ _ _ _ _ Hk1) as Hok1. pose proof Hok1 as [].
  destruct a as [slot valid|p' slot|q]; [| |by destruct (Hnr q)].
  { destruct Ha as [Hl ->]. unfold on_cache. apply runs_zoom. rewrite co_volume.
    eapply runs_mono; [apply (Hop t1 s1 slot); auto|]. cbv beta. intros r c2 (Hr & _ & HQ). by split. }
  destruct Ha as [-> Ho]. apply runs_bind, runs_get. cbn [next]. fold (cache s1).
  apply (load_page_rule g t1 s1 p slot sequential (fun installed read =>
    match installed with
    | Resident slot valid =>
        result <- on_cache (op slot valid) ;;
        s <- mget ;;
        zoom (fun s => (fst s, ms_cache (snd s))) (fun p s => (fst p, with_cache (snd p) (snd s)))
          (PageRead.install_prefetched read (ms_checkpoint (snd s)) p) ;;;
        mret result
    | _ => mlift Panic
    end)); [done..| |].
  { intros e s2 Hk2. split; [done|]. apply (Herr e t1); [by eapply kept_trans|]. intros Hp'. apply Hallow; [|done].
    by eapply kept_trans. }
  intros s2 rd Hs12 Ht2 Hahead Hl2. assert (Hf2 : followed g t s t1 s2) by (by eapply followed_still).
  pose proof (fw_kept _ _ _ _ _ Hf2) as Hk2.
  apply runs_bind. unfold on_cache. apply runs_zoom. eapply runs_mono; [apply (Hop t1 s2 slot Hf2); [auto| |done]|].
  { intros Hf. destruct (Hfb1 Hf) as (-> & Ht & Hq). split; [done|]. split; [by rewrite Ht2, Ht|].
    eapply quiet_trans; [exact Hq|apply Hs12]. }
  cbv beta. intros r c3 (Hr & (t3 & Hok3) & HQ). destruct r as [v|e|]; [|by split|done]. cbn [next].
  set (s3 := (fst s2, with_cache c3 (snd s2))) in *.
  apply runs_bind, runs_get. cbn [next]. apply runs_bind. apply runs_zoom.
  pose proof Hok3 as []. pose proof (page_count_ok g t3 s3 Hok3) as Hpc3.
  destruct (PageRead.install_prefetched_spec (ms_checkpoint (snd s3)) g p rd (files s3) (fst s3) (cache s3))
    as (io4 & c4 & Hrun & Hd4 & Hc4 & Hs4 & Hr4); try done; [intros; apply content_ok|lia|].
  unfold runs at 1. fold (cache s3). rewrite Hrun. cbn [fst snd next]. apply runs_ret. split; [done|].
  apply (Hclosed (Ok v) s3); [done| |done]. intros t5 Hok5.
  apply (refreshed_still g t5 s3 c4); [done..|]. done.
Qed.

(** The log got longer: what was appended is not mapped yet. *)
Lemma ok_extend g t t' s io' :
  ok_at g t s -> p_at t <= p_at t' < g_backing_blocks g -> p_lsn t <= p_lsn t' < 2 ^ 64 ->
  (forall x, x <= p_at t -> Io.file io' x = files s x) ->
  ok_at g t' (io', snd s) /\ (forall p, page g (io', snd s) p = page g s p).
Proof.
  intros Hok Ht Hl Hf. pose proof Hok as [].
  destruct (Publish.coherent_frame g (files s) (Io.file io') (ms_checkpoint (snd s)) (cache s) (cache s) t Hok co_cache)
    as [Hco Hpg]; [by unfold MappingCache.same_shape | done | intros x Hx; apply Hf; lia |].
  split; [|exact Hpg]. destruct Hco. constructor; cbn [fst snd]; try done; [lia|lia|].
  intros p e d He. destruct (co_entries0 p e d He) as [Hty Hr]. split; [done|].
  intros i Hi Hne. specialize (Hr i Hi Hne). lia.
Qed.

(** One page was changed in the cache. *)
Lemma ok_update g t s c' p e :
  ok_at g t s -> MappingCache.wf c' -> MappingCache.same_shape (cache s) c' -> 0 <= p < g_page_count g ->
  (forall q, MappingCache.view c' q = if decide (q = p) then Some (e, true) else MappingCache.view (cache s) q) ->
  Entries.typed e ->
  (forall i, 0 <= i < ENTRIES_PER_PAGE -> (Entries.get e i).1 <> 0 ->
     g_log_start g <= (Entries.get e i).1 <= p_at t) ->
  let s' := (fst s, with_cache c' (snd s)) in
  ok_at g t s' /\ forall q, page g s' q = if decide (q = p) then e else page g s q.
Proof.
  intros [] Hc' (Hsz & Hvol & _) Hp Hv He Hr s'. split.
  - constructor; try done; cbn; try congruence.
    + intros q d. unfold cache; cbn. rewrite Hv. case_decide; [done|]. apply co_clean.
    + intros q d b. unfold cache; cbn. rewrite Hv. case_decide; [by intros [= <- <-]|]. apply co_entries.
  - intros q. unfold page, Publish.page. change (cache s') with c'. rewrite Hv. by case_decide.
Qed.

End laws.
End Mapping.
