(* ===== verification/Volume.v ===== *)
(** An open volume: [src/rust/src/format_v3/volume.rs] and
    [src/rust/src/format_v3/volume/write.rs].  Scratch memory (the read and
    footer blocks, the iovecs) is not state. *)

From S2P Require Import Prelude Bytes Geometry Format DataRecord Entries MappingPage.
From S2P Require Import Checkpoint Index Clock Sizing MappingCache Config Reservation.
From S2P Require Import WriteBuffer Accounting Uring Device BackingIo Tail PageRead.
From S2P Require Import CheckpointLoad Publish Recovery MappingState.

Record Volume (D : Type) := {
  v_io : BackingIo D;
  v_mapping : MappingState;
  v_buffer : WriteBackBuffer;
  v_buffered_pages : Z;
  v_stats : ReleaseStats;
  v_checkpoint_after : Z;
  v_live_blocks : Z;
  v_failed : bool;
}.
Arguments v_io {D}.
Arguments v_mapping {D}.
Arguments v_buffer {D}.
Arguments v_buffered_pages {D}.
Arguments v_stats {D}.
Arguments v_checkpoint_after {D}.
Arguments v_live_blocks {D}.
Arguments v_failed {D}.
Arguments Build_Volume {D}.

Module Volume.
Section volume.
Context `{Xxh3} `{Platform} {D : Type} `{!Device D}.

(** ** Opening *)

(** [validate_buffer_mapping_capacity]: the effective cache budget. *)
Definition validate_buffer_mapping_capacity (options : VolumeOpenOptions) (budget : option Z)
    (k : Checkpoint) (buffer_blocks : Z) : res Z :=
  let sizing_error e := match cache_error "mapping cache: " e with
                        | OtherError m => InvalidInput m | e => e end in
  let logical_bytes := c_volume_blocks (k_descriptor k) * BLOCK_SIZE in
  g <-? Descriptor.geometry (k_descriptor k) ;;
  let required := Z.min buffer_blocks (g_page_count g) in
  minimum <-? map_err sizing_error (Sizing.for_capacity required) ;;
  let budget := match budget with
                | Some b => b
                | None => Z.max (logical_bytes / 10000) (total_bytes minimum)
                end in
  sizing <-? map_err sizing_error (Sizing.new logical_bytes (Some budget)) ;;
  fail_if (capacity sizing <? required)
    (InvalidInput "mapping cache has too few slots for the write buffer") ;;?
  let payloads := Z.min buffer_blocks (c_volume_blocks (k_descriptor k)) in
  let records := div_ceil payloads MAXIMUM_PAYLOAD_BLOCKS in
  fail_if (checkpoint_after_bytes options <? (payloads + records) * BLOCK_SIZE)
    (InvalidInput "checkpoint_after_bytes must hold one packed write buffer") ;;?
  Ok budget.

(** [open], for a backing file of [bytes] bytes that was opened. *)
Definition open (options : VolumeOpenOptions) (cache_budget : option Z) (bytes : Z) :
    M (BackingIo D) (Volume D) :=
  mlift (Options.validate options) ;;;
  mlift (fail_if (negb (is_multiple_of bytes BLOCK_SIZE))
           (InvalidInput "backing size is not block aligned")) ;;;
  loaded <- Load.load (bytes / BLOCK_SIZE) ;;
  let '(checkpoint, live_blocks) := loaded in
  g <- mlift (Descriptor.geometry (k_descriptor checkpoint)) ;;
  let buffer_blocks := Options.clamp_write_buffer_blocks (write_buffer_bytes options)
                         (c_backing_blocks (k_descriptor checkpoint)) (g_log_start g) in
  budget <- mlift (validate_buffer_mapping_capacity options cache_budget checkpoint buffer_blocks) ;;
  result <- (fun io => let '(r, (io, active)) := Recovery.recover (Some budget) (io, checkpoint) in
                       (match r with Ok x => Ok (x, active) | Err e => Err e | Panic => Panic end, io)) ;;
  let '(recovered, checkpoint) := result in
  Io.clear_stale_tail (p_at (rc_tail recovered) + 1) (c_backing_blocks (k_descriptor checkpoint)) ;;;
  buffer <- mlift (Buffer.with_capacity buffer_blocks) ;;
  io <- mget ;;
  mret {| v_io := io;
          v_mapping := {| ms_checkpoint := checkpoint; ms_cache := rc_cache recovered;
                          ms_tail := rc_tail recovered; ms_recovery := rc_stats recovered;
                          ms_pressure_checkpoints := 0; ms_checkpoint_failures := 0;
                          ms_last_read_page := None |};
          v_buffer := buffer; v_buffered_pages := 0; v_stats := Stats.zero;
          v_checkpoint_after := checkpoint_after_bytes options;
          v_live_blocks := live_blocks + newly_mapped_blocks (rc_stats recovered);
          v_failed := false |}.

(** ** State access *)

Definition with_io_mapping (p : BackingIo D * MappingState) (v : Volume D) : Volume D :=
  {| v_io := fst p; v_mapping := snd p; v_buffer := v_buffer v; v_buffered_pages := v_buffered_pages v;
     v_stats := v_stats v; v_checkpoint_after := v_checkpoint_after v;
     v_live_blocks := v_live_blocks v; v_failed := v_failed v |}.
Definition with_buffer (b : WriteBackBuffer) (v : Volume D) : Volume D :=
  {| v_io := v_io v; v_mapping := v_mapping v; v_buffer := b; v_buffered_pages := v_buffered_pages v;
     v_stats := v_stats v; v_checkpoint_after := v_checkpoint_after v;
     v_live_blocks := v_live_blocks v; v_failed := v_failed v |}.
Definition with_buffered_pages (n : Z) (v : Volume D) : Volume D :=
  {| v_io := v_io v; v_mapping := v_mapping v; v_buffer := v_buffer v; v_buffered_pages := n;
     v_stats := v_stats v; v_checkpoint_after := v_checkpoint_after v;
     v_live_blocks := v_live_blocks v; v_failed := v_failed v |}.
Definition with_stats (s : ReleaseStats) (v : Volume D) : Volume D :=
  {| v_io := v_io v; v_mapping := v_mapping v; v_buffer := v_buffer v; v_buffered_pages := v_buffered_pages v;
     v_stats := s; v_checkpoint_after := v_checkpoint_after v;
     v_live_blocks := v_live_blocks v; v_failed := v_failed v |}.
Definition with_live_blocks (n : Z) (v : Volume D) : Volume D :=
  {| v_io := v_io v; v_mapping := v_mapping v; v_buffer := v_buffer v; v_buffered_pages := v_buffered_pages v;
     v_stats := v_stats v; v_checkpoint_after := v_checkpoint_after v;
     v_live_blocks := n; v_failed := v_failed v |}.
Definition with_failed (b : bool) (v : Volume D) : Volume D :=
  {| v_io := v_io v; v_mapping := v_mapping v; v_buffer := v_buffer v; v_buffered_pages := v_buffered_pages v;
     v_stats := v_stats v; v_checkpoint_after := v_checkpoint_after v;
     v_live_blocks := v_live_blocks v; v_failed := b |}.

Definition on_mapping {A} (m : M (BackingIo D * MappingState) A) : M (Volume D) A :=
  zoom (fun v => (v_io v, v_mapping v)) with_io_mapping m.
Definition on_io {A} (m : M (BackingIo D) A) : M (Volume D) A := on_mapping (Mapping.on_io m).
Definition on_buffer {A} (m : M WriteBackBuffer A) : M (Volume D) A := zoom v_buffer with_buffer m.

(** ** The operations *)

Definition descriptor (v : Volume D) : CheckpointDescriptor := k_descriptor (ms_checkpoint (v_mapping v)).
Definition volume_blocks (v : Volume D) : Z := c_volume_blocks (descriptor v).

Definition check_operational : M (Volume D) unit :=
  v <- mget ;; mlift (fail_if (v_failed v) (OtherError "volume failed")).

(** [self.latch(result)] of the result of [m]: an error marks the volume as failed. *)
Definition latch {A} (m : M (Volume D) A) : M (Volume D) A :=
  result <- mtry m ;;
  match (result : res A) with
  | Ok a => mret a
  | Err e => mmodify (with_failed true) ;;; mlift (Err e)
  | Panic => mlift Panic
  end.

(** The lookup that [read_block] does in the cached page. *)
Definition lookup_entry (entry slot valid : Z) : M MappingCache (Z * Z) :=
  c <- mget ;;
  entries <- mlift (map_err Mapping.state_error (MappingCache.entries slot c)) ;;
  mret (arr (physical_addr entries) entry, arr (payload_checksums entries) entry).

Definition read_block (lba : Z) : M (Volume D) (list Z) :=
  check_operational ;;;
  v <- mget ;;
  mlift (fail_if (volume_blocks v <=? lba) (InvalidInput "invalid logical block")) ;;;
  buffered <- mlift (Buffer.get (v_buffer v) lba) ;;
  match (buffered : option (list Z)) with
  | Some data => mret data
  | None =>
      let page_id := lba / ENTRIES_PER_PAGE in
      let entry := lba mod ENTRIES_PER_PAGE in
      found <- latch (on_mapping (Mapping.with_page page_id Allow (lookup_entry entry))) ;;
      let '(physical, checksum) := found in
      if physical =? 0 then mret zero_block
      else
        data <- latch (on_io (Io.read_block_exact physical)) ;;
        v <- mget ;;
        mlift (fail_if (negb (payload_checksum (c_volume_id (descriptor v)) lba physical data =? checksum))
                 (InvalidData "payload checksum mismatch")) ;;;
        mret data
  end.

(** ** Release *)

(** [self.write_buffer.lbas.binary_search_by(..).is_err()] on the sorted addresses. *)
Definition unrelated (lbas : list Z) (page_id : Z) : bool :=
  negb (existsb (fun lba => lba / ENTRIES_PER_PAGE =? page_id) lbas).

Definition prepare_release : M (Volume D) unit :=
  v <- mget ;;
  let payloads := Buffer.len (v_buffer v) in
  let record_bytes := (payloads + div_ceil payloads MAXIMUM_PAYLOAD_BLOCKS) * BLOCK_SIZE in
  let since_checkpoint :=
    (p_at (ms_tail (v_mapping v)) - c_last_record_boundary (descriptor v)) * BLOCK_SIZE in
  let cache := ms_cache (v_mapping v) in
  let unrelated_dirty :=
    lenZ (filter (fun p => unrelated (lbas (v_buffer v)) p.1 = true) (MappingCache.dirty_pages cache)) in
  let pressure := capacity (n_sizing (MappingCache.snapshot cache)) <? unrelated_dirty + v_buffered_pages v in
  if pressure || (v_checkpoint_after v <? since_checkpoint + record_bytes) then
    on_mapping Mapping.publish ;;;
    if pressure : bool then on_mapping (Mapping.modify (Mapping.count_checkpoints 1 0)) else mret tt
  else mret tt.

(** [data_record]: the footer of the payloads of [lbas]. *)
Fixpoint checksums_of (b : WriteBackBuffer) (volume_id previous : Z) (lbas : list Z) : res (list Z) :=
  match lbas with
  | [] => Ok []
  | lba :: lbas =>
      found <-? Buffer.get b lba ;;
      payload <-? expect found ;;
      sums <-? checksums_of b volume_id (previous + 1) lbas ;;
      Ok (payload_checksum volume_id lba (previous + 1) payload :: sums)
  end.

Definition pad (l : list Z) : list Z := l ++ zeros (MAXIMUM_PAYLOAD_BLOCKS - lenZ l).

Definition data_record (b : WriteBackBuffer) (lbas : list Z) (header : RecordHeader) : res DataRecord :=
  sums <-? checksums_of b (h_volume_id header) (h_previous_boundary header) lbas ;;
  Ok {| d_header := header; d_lba_ids := pad lbas; d_checksums := pad sums |}.

(** [RecordWriter::append]. *)
Definition append (b : WriteBackBuffer) (lbas : list Z) (g : Geometry) (volume_id : Z)
    (tail : LogPosition) : M (BackingIo D) DataRecord :=
  let count := lenZ lbas in
  boundary <- mlift (ok_or (checked_add 32 (p_at tail) (count + 1)) (OtherError "log address exhausted")) ;;
  mlift (assert_ (boundary <? g_backing_blocks g)) ;;;
  lsn <- mlift (ok_or (checked_add 64 (p_lsn tail) 1) (OtherError "record LSN exhausted")) ;;
  let header := {| h_kind := Data; h_volume_id := volume_id; h_lsn := lsn;
                   h_previous_boundary := p_at tail; h_boundary := boundary |} in
  record <- mlift (data_record b lbas header) ;;
  footer <- mlift (DataRecord.encode record g) ;;
  payloads <- mlift (rmapM (fun lba => found <-? Buffer.get b lba ;; expect found) lbas) ;;
  Io.submit_exact (SqeWritev ((p_at tail + 1) * BLOCK_SIZE) (payloads ++ [footer])) lsn
    ((count + 1) * BLOCK_SIZE) ;;;
  mret record.

(** The body of the loop over the entries of one page. *)
Fixpoint update_entries (record : DataRecord) (slot valid : Z) (indices : list Z) (newly_mapped : Z) :
    M MappingCache Z :=
  match indices with
  | [] => mret newly_mapped
  | index :: indices =>
      lba <- mlift (expect (d_lba_ids record !! Z.to_nat index)) ;;
      let entry := lba mod ENTRIES_PER_PAGE in
      c <- mget ;;
      entries <- mlift (map_err Mapping.state_error (MappingCache.entries slot c)) ;;
      checksum <- mlift (expect (d_checksums record !! Z.to_nat index)) ;;
      mmap_err (cache_error "mapping update: ")
        (MappingCache.update slot valid entry (h_previous_boundary (d_header record) + 1 + index) checksum) ;;;
      update_entries record slot valid indices
        (newly_mapped + of_bool (arr (physical_addr entries) entry =? 0))
  end.

(** [partition_point] of the run of addresses that share a page. *)
Definition page_run (lba_ids : list Z) (page_id : Z) : Z :=
  lenZ (MappingCache.take_while (fun lba => lba / ENTRIES_PER_PAGE =? page_id) lba_ids).

(** The [while start < count] loop of [write_record]; each turn takes one page. *)
Fixpoint map_record (fuel : nat) (record : DataRecord) (start count : Z) : M (Volume D) unit :=
  if start <? count then
    match fuel with
    | O => mlift Panic
    | S fuel =>
        lba <- mlift (expect (d_lba_ids record !! Z.to_nat start)) ;;
        let page_id := lba / ENTRIES_PER_PAGE in
        let stop := start + page_run (take (Z.to_nat (count - start)) (drop (Z.to_nat start) (d_lba_ids record)))
                              page_id in
        newly_mapped <- on_mapping (Mapping.with_page page_id Forbid (fun slot valid =>
                          update_entries record slot valid (seqZ start (stop - start)) 0)) ;;
        mmodify (fun v => with_live_blocks (v_live_blocks v + newly_mapped) v) ;;;
        map_record fuel record stop count
    end
  else mret tt.

Definition write_record (start stop : Z) : M (Volume D) unit :=
  v <- mget ;;
  let count := stop - start in
  g <- mlift (Descriptor.geometry (descriptor v)) ;;
  let range := take (Z.to_nat count) (drop (Z.to_nat start) (lbas (v_buffer v))) in
  record <- on_io (append (v_buffer v) range g (c_volume_id (descriptor v)) (ms_tail (v_mapping v))) ;;
  map_record (Z.to_nat count) record 0 count ;;;
  on_mapping (Mapping.modify (Mapping.with_tail
    {| p_lsn := h_lsn (d_header record); p_at := h_boundary (d_header record) |})) ;;;
  mmodify (fun v => with_stats (Stats.record count (v_stats v)) v).

(** [(0..len).step_by(338)]. *)
Definition record_starts (len : Z) : list Z :=
  map (fun i => i * MAXIMUM_PAYLOAD_BLOCKS) (seqZ 0 (div_ceil len MAXIMUM_PAYLOAD_BLOCKS)).

Definition release_records (trigger : ReleaseTrigger) : M (Volume D) unit :=
  v <- mget ;;
  if Buffer.len (v_buffer v) =? 0 then mret tt
  else
    mmodify (fun v => with_stats (Stats.trigger trigger (v_stats v)) v) ;;;
    mmodify (fun v => with_buffer (Buffer.sort_by_lba (v_buffer v)) v) ;;;
    latch prepare_release ;;;
    v <- mget ;;
    let len := Buffer.len (v_buffer v) in
    mfor (record_starts len) (fun start =>
      latch (write_record start (Z.min (start + MAXIMUM_PAYLOAD_BLOCKS) len))) ;;;
    mmodify (fun v => with_buffered_pages 0 (with_buffer (Buffer.clear (v_buffer v)) v)).

Definition write_block (lba : Z) (data : list Z) : M (Volume D) unit :=
  check_operational ;;;
  v <- mget ;;
  mlift (fail_if (volume_blocks v <=? lba) (InvalidInput "invalid logical block")) ;;;
  buffered <- mlift (Buffer.get (v_buffer v) lba) ;;
  match (buffered : option (list Z)) with
  | Some _ => on_buffer (Buffer.store lba data) ;;; mret tt
  | None =>
      reservation <- mlift (Reservation.admit_ (lbas (v_buffer v)) (v_buffered_pages v)
                              (lenZ (MappingCache.dirty_pages (ms_cache (v_mapping v)))) lba) ;;
      mlift (Reservation.ensure_space (p_at (ms_tail (v_mapping v)))
               (c_backing_blocks (descriptor v)) (total_blocks reservation)) ;;;
      fresh <- on_buffer (Buffer.store lba data) ;;
      mlift (assert_ fresh) ;;;
      mmodify (with_buffered_pages (pending_pages reservation)) ;;;
      v <- mget ;;
      if Buffer.len (v_buffer v) =? Buffer.capacity (v_buffer v) then release_records Full else mret tt
  end.

Definition flush : M (Volume D) unit :=
  check_operational ;;;
  release_records Flush ;;;
  latch (on_io Io.sync).

Definition close : M (Volume D) unit :=
  check_operational ;;;
  release_records Flush ;;;
  v <- mget ;;
  if p_lsn (ms_tail (v_mapping v)) =? c_checkpoint_lsn (descriptor v) then flush
  else latch (on_mapping Mapping.publish).

(** ** Reports *)

Definition release_stats (v : Volume D) : ReleaseStats := v_stats v.

(** [cache_snapshot]: the recovery lookups are those of the recovery. *)
Definition cache_snapshot (v : Volume D) : Snapshot :=
  let s := MappingCache.snapshot (ms_cache (v_mapping v)) in
  let k := n_counters s in
  {| n_counters := {| foreground := foreground k; recovery := rs_lookups (ms_recovery (v_mapping v));
                      clean_evictions := clean_evictions k;
                      victim_slots_examined := victim_slots_examined k;
                      checkpoint_required := checkpoint_required k;
                      prefetched_pages := prefetched_pages k; prefetch_hits := prefetch_hits k;
                      prefetch_unused_evictions := prefetch_unused_evictions k |};
     resident_slots := resident_slots s; dirty_slots := dirty_slots s; n_sizing := n_sizing s |}.

(** [MappingStats]. *)
Record MappingStats := {
  mst_cache : Snapshot;
  mst_io : MappingIo;
  mst_index_bytes : Z;
  mst_pressure_checkpoints : Z;
  mst_checkpoint_failures : Z;
  mst_recovery_passes : Z;
}.

Definition mapping_stats (v : Volume D) : MappingStats :=
  {| mst_cache := cache_snapshot v; mst_io := mapping_io (v_io v);
     mst_index_bytes := Index.allocated_bytes (ms_checkpoint (v_mapping v));
     mst_pressure_checkpoints := ms_pressure_checkpoints (v_mapping v);
     mst_checkpoint_failures := ms_checkpoint_failures (v_mapping v);
     mst_recovery_passes := tail_passes (ms_recovery (v_mapping v)) |}.

(** [space_usage]; [length] and [sectors] are those of the file's metadata. *)
Definition space_usage (length sectors : Z) (v : Volume D) : res SpaceUsage :=
  g <-? Descriptor.geometry (descriptor v) ;;
  let metadata_blocks := g_log_start g in
  Ok {| u_volume_bytes := g_volume_blocks g * BLOCK_SIZE;
        u_live_bytes := v_live_blocks v * BLOCK_SIZE;
        u_backing_bytes := length;
        u_allocated_bytes := sectors * 512;
        u_metadata_bytes := metadata_blocks * BLOCK_SIZE;
        u_log_capacity_bytes := (g_backing_blocks g - metadata_blocks) * BLOCK_SIZE;
        u_log_used_bytes := (p_at (ms_tail (v_mapping v)) + 1 - metadata_blocks) * BLOCK_SIZE |}.

End volume.
End Volume.
