(* ===== verification/VolumeWrite.v ===== *)
(** The parts of a release, one record at a time: what the helpers of
    [src/rust/src/format_v3/volume/write.rs] do to the log and to the mapping. *)

From S2P Require Import Prelude.
From S2P Require Import Bytes.
From S2P Require Import Geometry.
From S2P Require Import Format.
From S2P Require Import DataRecord.
From S2P Require Import Entries.
From S2P Require Import MappingPage.
From S2P Require Import Checkpoint.
From S2P Require Import Index.
From S2P Require Import Clock.
From S2P Require Import Sizing.
From S2P Require Import MappingCache.
From S2P Require Import Config.
From S2P Require Import Reservation.
From S2P Require Import WriteBuffer.
From S2P Require Import Accounting.
From S2P Require Import Uring.
From S2P Require Import Device.
From S2P Require Import BackingIo.
From S2P Require Import Tail.
From S2P Require Import PageRead.
From S2P Require Import Publish.
From S2P Require Import Recovery.
From S2P Require Import CrashSafety.
From S2P Require Import Log.
From S2P Require Import MappingState.
From S2P Require Import Volume.

Module Write.
Section write.
Context `{Xxh3} `{Platform} {D : Type} `{!Device D} `{!DeviceLaws D}.
Implicit Types s : Mapping.State (D := D).

(** ** Reading an entry *)

Lemma lookup_run g s lba :
  Mapping.ok_at g (ms_tail (snd s)) s -> Mapping.in_volume g lba ->
  runs (Mapping.with_page (lba / ENTRIES_PER_PAGE) Allow (Volume.lookup_entry (lba mod ENTRIES_PER_PAGE))) s
    (fun (r : res (Z * Z)) s' => r <> Panic /\
       Mapping.kept g (ms_tail (snd s)) s (ms_tail (snd s')) s' /\
       forall x, r = Ok x -> x = Mapping.entry g s lba /\
         (Mapping.traced g (ms_tail (snd s)) s -> Mapping.traced g (ms_tail (snd s')) s')).
Proof.
  intros Hok Hl. destruct (Mapping.in_volume_page g lba (Publish.co_geometry _ _ _ _ _ Hok) Hl) as (Hp & _ & _).
  apply (Mapping.with_page_run g (ms_tail (snd s))); try done.
  - intros t1 s1 slot [Hk Htr] Ht _ Hsl. apply runs_intro. intros r c2 Hrun.
    pose proof (Mapping.kp_ok _ _ _ _ _ Hk) as Hok1. pose proof (Publish.co_cache _ _ _ _ _ Hok1) as Hc.
    destruct (MappingCache.resident_page _ _ _ Hc Hsl) as (Hr & sl & Hat & Hid).
    unfold Volume.lookup_entry, MappingCache.entries, MappingCache.slot_at in Hrun. revert Hrun.
    step. rewrite Hat. cbn [expect rbind map_err]. step. intros [= <- <-].
    assert (E : (fst s1, Mapping.with_cache (Mapping.cache s1) (snd s1)) = s1).
    { destruct s1 as [io m]. by destruct m. }
    rewrite E. split; [done|]. split; [by exists t1|]. rewrite <- Ht by done. split; [exact Hk|].
    intros x [= <-]. split; [|exact Htr]. rewrite <- (Mapping.kept_entry g _ t1 s s1 Hk Hok lba Hl).
    unfold Mapping.entry, Mapping.page, Publish.page, MappingCache.view. by rewrite Hsl, Hat.
  - intros r s2 s3 [Hk Hx] Hbg Ht. pose proof (Mapping.kp_ok _ _ _ _ _ Hk) as Hok2. specialize (Hbg _ Hok2). rewrite Ht.
    split; [eapply Mapping.kept_trans; [exact Hk|]; apply Hbg|].
    intros x Hr. destruct (Hx x Hr) as [-> Htr]. split; [done|]. intros Hs. by apply (Mapping.still_traced g _ s2), Htr.
  - intros e t1 s1 Hk Ht. rewrite <- Ht by done. by split.
Qed.

(** ** Appending a record *)

(** Every address has a payload. *)
Definition buffered (b : WriteBackBuffer) (lbas : list Z) : Prop :=
  forall lba, lba ∈ lbas -> exists d, Buffer.content b lba = Some d /\ block_ok d.

Lemma checksums_of_Ok b volume_id previous lbas :
  Buffer.wf b -> buffered b lbas -> exists sums,
    Volume.checksums_of b volume_id previous lbas = Ok sums /\ length sums = length lbas /\
    forall i lba, lbas !! i = Some lba -> exists d, Buffer.content b lba = Some d /\
      sums !! i = Some (payload_checksum volume_id lba (previous + 1 + Z.of_nat i) d).
Proof.
  intros Hb. revert previous. induction lbas as [|lba lbas IH]; intros previous Hin; [by exists []|].
  destruct (Hin lba ltac:(by left)) as (d & Hd & _). cbn [Volume.checksums_of].
  rewrite (Buffer.get_Ok b lba Hb), Hd. cbn [rbind expect].
  destruct (IH (previous + 1)) as (sums & -> & Hl & Hs); [intros l Hl; apply Hin; by right|]. cbn [rbind].
  eexists. split; [reflexivity|]. split; [cbn; congruence|]. intros [|i] l Hi.
  - injection Hi as <-. exists d. split; [done|]. cbn. do 2 f_equal. lia.
  - destruct (Hs i l Hi) as (d' & Hd' & Hsum). exists d'. split; [done|].
    change (sums !! i = Some (payload_checksum volume_id l (previous + 1 + Z.of_nat (S i)) d')). rewrite Hsum. do 2 f_equal. lia.
Qed.

Lemma payloads_Ok b lbas :
  Buffer.wf b -> buffered b lbas -> exists payloads,
    rmapM (fun lba => found <-? Buffer.get b lba ;; expect found) lbas = Ok payloads /\
    Forall2 (fun lba d => Buffer.content b lba = Some d) lbas payloads /\ Forall block_ok payloads.
Proof.
  intros Hb. induction lbas as [|lba lbas IH]; intros Hin; [by exists []|].
  destruct (Hin lba ltac:(by left)) as (d & Hd & Hok). cbn [rmapM]. rewrite (Buffer.get_Ok b lba Hb), Hd.
  destruct IH as (payloads & Hp & H2 & Hall); [intros l Hl; apply Hin; by right|].
  exists (d :: payloads). cbn [rbind expect]. rewrite Hp. cbn. split; [done|]. split; by constructor.
Qed.

(** The record of [lbas] is on the file, right behind [tail]. *)
Record on_log (g : Geometry) (f : Z -> list Z) (b : WriteBackBuffer) (lbas : list Z) (volume_id : Z)
    (tail : LogPosition) (record : DataRecord) : Prop := {
  ol_header : d_header record = {| h_kind := Data; h_volume_id := volume_id; h_lsn := p_lsn tail + 1;
    h_previous_boundary := p_at tail; h_boundary := p_at tail + lenZ lbas + 1 |};
  ol_lsn : p_lsn tail + 1 < 2 ^ 64;
  ol_lbas : forall i lba, lbas !! i = Some lba -> d_lba_ids record !! i = Some lba;
  ol_payload : forall i lba, lbas !! i = Some lba -> exists d, Buffer.content b lba = Some d /\
    d_checksums record !! i = Some (payload_checksum volume_id lba (p_at tail + 1 + Z.of_nat i) d) /\
    f (p_at tail + 1 + Z.of_nat i) = d;
  ol_footer : DataRecord.encode record g = Ok (f (p_at tail + lenZ lbas + 1));
  ol_ids : d_lba_ids record = Volume.pad lbas;
  ol_sums : exists sums, d_checksums record = Volume.pad sums /\ length sums = length lbas /\ Forall is_u64 sums;
}.

Lemma append_run g b lbas volume_id tail (io : BackingIo D) :
  Buffer.wf b -> buffered b lbas -> 0 <= p_at tail -> 0 < lenZ lbas ->
  p_at tail + lenZ lbas + 1 < g_backing_blocks g -> g_backing_blocks g <= 2 ^ 32 ->
  runs (Volume.append b lbas g volume_id tail) io (fun (r : res DataRecord) io' => r <> Panic /\
    Io.changed (fun x => p_at tail < x <= p_at tail + lenZ lbas + 1) io io' /\
    forall record, r = Ok record -> on_log g (Io.file io') b lbas volume_id tail record).
Proof.
  intros Hb Hin Ht Hn Hroom Hg. unfold Volume.append.
  set (P := fun x => p_at tail < x <= _). pose proof (Io.changed_refl P io) as Hrefl.
  rewrite (proj2 (checked_add_Some 32 (p_at tail) (lenZ lbas + 1) (p_at tail + (lenZ lbas + 1)))) by lia.
  apply runs_bind, runs_lift. cbn [ok_or next].
  destruct (Z.ltb_spec (p_at tail + (lenZ lbas + 1)) (g_backing_blocks g)); [|lia].
  apply runs_bind, runs_lift. cbn [assert_ next]. apply runs_bind, runs_lift.
  destruct (checked_add 64 (p_lsn tail) 1) as [lsn|] eqn:El; [|cbn; split; [done|]; by split].
  apply checked_add_Some in El as [-> Hlsn]. cbn [ok_or next].
  destruct (checksums_of_Ok b volume_id (p_at tail) lbas Hb Hin) as (sums & Hsums & Hsl & Hsum).
  unfold Volume.data_record. cbn [h_volume_id h_previous_boundary]. rewrite Hsums. cbn [rbind].
  apply runs_bind, runs_lift. cbn [next]. set (record := Build_DataRecord _ _ _).
  apply runs_bind, runs_lift.
  pose proof (DataRecord.record_encode_not_Panic record g) as Hnp.
  destruct (DataRecord.encode record g) as [footer|e|] eqn:Ef; [|cbn; split; [done|]; by split|done]. cbn [next].
  destruct (payloads_Ok b lbas Hb Hin) as (payloads & Hp & Hp2 & Hpok). rewrite Hp.
  apply runs_bind, runs_lift. cbn [next]. pose proof (Forall2_length _ _ _ Hp2) as Hpl.
  assert (Hfo : block_ok footer).
  { apply DataRecord.record_encode_Ok in Ef as (_ & _ & ->). apply seal_ok, DataRecord.footer_ok. }
  assert (Hlen : lenZ (payloads ++ [footer]) = lenZ lbas + 1) by (rewrite length_app; cbn; lia).
  apply runs_bind, runs_intro. intros r io' Hrun. rewrite <- Hlen in Hrun.
  match type of Hrun with Io.submit_exact ?e ?u ?x io = _ =>
    pose proof (Io.submit_exact_no_panic e u x io) as Hnp2; rewrite Hrun in Hnp2; cbn in Hnp2 end.
  apply (Io.submit_exact_write _ (p_at tail + 1)) in Hrun as (Htch & _ & Hfile).
  2: { split; [by right|]. split; [lia|]. apply Forall_app. split; [done|]. by apply Forall_singleton. }
  assert (Hch : Io.changed P io io').
  { eapply Io.touched_changed; [exact Htch|]. unfold P. lia. }
  destruct r as [bytes|e|]; [|cbn; split; [done|]; by split|done]. cbn [next]. apply runs_ret.
  split; [done|]. split; [exact Hch|]. intros record' [= <-]. specialize (Hfile bytes eq_refl).
  assert (Hat : forall i d, (payloads ++ [footer]) !! i = Some d -> Io.file io' (p_at tail + 1 + Z.of_nat i) = d).
  { intros i d Hi. rewrite Hfile. apply overwrite_inside; [lia|]. by rewrite Nat2Z.id. }
  assert (Hpad : forall l i (x : Z), l !! i = Some x -> Volume.pad l !! i = Some x).
  { intros l i x Hx. unfold Volume.pad. by rewrite lookup_app_l by (by eapply lookup_lt_Some). }
  constructor.
  - unfold record; cbn [d_header]. f_equal. lia.
  - done.
  - intros i lba Hi. by apply Hpad.
  - intros i lba Hi. destruct (Hsum i lba Hi) as (d & Hd & Hs). exists d. split; [done|]. split; [by apply Hpad|].
    destruct (Forall2_lookup_l _ _ _ i lba Hp2 Hi) as (d' & Hd' & Hc). apply Hat.
    rewrite lookup_app_l by (by eapply lookup_lt_Some). congruence.
  - rewrite Ef. f_equal. symmetry.
    replace (p_at tail + lenZ lbas + 1) with (p_at tail + 1 + Z.of_nat (length payloads)) by lia.
    apply Hat. by rewrite list_lookup_middle.
  - done.
  - exists sums. split; [done|]. split; [done|]. apply Forall_lookup. intros i x Hx.
    destruct (lookup_lt_is_Some_2 lbas i) as [lba Hlba]; [apply lookup_lt_Some in Hx; lia|].
    destruct (Hsum i lba Hlba) as (d & _ & Hs). rewrite Hx in Hs. injection Hs as ->. apply xxh3_range.
Qed.

(** ** Mapping a record *)

(** The record maps its [i]th address, [lba], to the block of the payload. *)
Definition assigns (record : DataRecord) (i lba physical sum : Z) : Prop :=
  d_lba_ids record !! Z.to_nat i = Some lba /\ d_checksums record !! Z.to_nat i = Some sum /\
  physical = h_previous_boundary (d_header record) + 1 + i.

(** The assignments of the first [count] addresses are good ones. *)
Record targets (g : Geometry) (t : LogPosition) (record : DataRecord) (count : Z) : Prop := {
  tg_at : forall i, 0 <= i < count -> exists lba physical sum, assigns record i lba physical sum /\
    Mapping.in_volume g lba /\ is_u64 sum /\ 0 < g_log_start g <= physical /\ physical <= p_at t < 2 ^ 32;
  tg_inj : forall i j lba, 0 <= i < count -> 0 <= j < count ->
    d_lba_ids record !! Z.to_nat i = Some lba -> d_lba_ids record !! Z.to_nat j = Some lba -> i = j;
}.

Lemma update_entries_run record p slot valid indices n c :
  MappingCache.wf c -> lookup c !! p = Some slot -> valid = MappingCache.page_entries (volume_blocks c) p ->
  NoDup indices ->
  (forall i, i ∈ indices -> exists lba physical sum, assigns record i lba physical sum /\
     0 <= lba mod ENTRIES_PER_PAGE < valid /\ 0 < physical < 2 ^ 32 /\ is_u64 sum) ->
  (forall i j a b, i ∈ indices -> j ∈ indices -> d_lba_ids record !! Z.to_nat i = Some a ->
     d_lba_ids record !! Z.to_nat j = Some b -> a mod ENTRIES_PER_PAGE = b mod ENTRIES_PER_PAGE -> i = j) ->
  exists e d e' n' c', MappingCache.view c p = Some (e, d) /\
    Volume.update_entries record slot valid indices n c = (Ok n', c') /\
    MappingCache.wf c' /\ MappingCache.same_shape c c' /\
    (forall q, MappingCache.view c' q =
       if decide (q = p) then Some (e', d || bool_decide (indices <> [])) else MappingCache.view c q) /\
    (Entries.typed e -> Entries.typed e') /\
    (forall i lba physical sum, i ∈ indices -> assigns record i lba physical sum ->
       Entries.get e' (lba mod ENTRIES_PER_PAGE) = (physical, sum)) /\
    (forall j, 0 <= j < ENTRIES_PER_PAGE ->
       (forall i lba, i ∈ indices -> d_lba_ids record !! Z.to_nat i = Some lba -> lba mod ENTRIES_PER_PAGE <> j) ->
       Entries.get e' j = Entries.get e j).
Proof.
  intros Hc Hl -> Hnd Hin Hinj. revert n c Hc Hl Hin. induction indices as [|i indices IH]; intros n c Hc Hl Hin.
  { destruct (MappingCache.resident_page c p slot Hc Hl) as (Hr & sl & Hs & Hid).
    assert (Hv : MappingCache.view c p = Some (s_entries sl, s_dirty sl)).
    { unfold MappingCache.view. by rewrite Hl, Hs. }
    exists (s_entries sl), (s_dirty sl), (s_entries sl), n, c. split; [done|]. split; [done|]. split; [done|].
    split; [by unfold MappingCache.same_shape|]. split; [|split; [done|]; split; [set_solver|done]].
    intros q. rewrite orb_false_r. case_decide; [by subst|done]. }
  destruct (Hin i ltac:(by left)) as (lba & physical & sum & (Hlba & Hsum & Hph) & Hlt & Hpr & Hu).
  apply NoDup_cons in Hnd as [Hni Hnd].
  destruct (MappingCache.update_Ok c p slot (lba mod ENTRIES_PER_PAGE) physical sum Hc Hl Hlt ltac:(lia))
    as (e & d & c1 & Hv & Hrun & Hc1 & Hsh & Hlk & Hv1).
  assert (Hvol : volume_blocks c1 = volume_blocks c) by apply Hsh.
  destruct (IH Hnd (fun a b x y Ha Hb => Hinj a b x y ltac:(by right) ltac:(by right))
      (n + of_bool (arr (physical_addr e) (lba mod ENTRIES_PER_PAGE) =? 0)) c1 Hc1)
    as (e1 & d1 & e' & n' & c' & Hve & Hrun' & Hc' & Hsh' & Hv' & Hty & Hset & Hold).
  { by rewrite Hlk. }
  { intros j Hj. rewrite Hvol. apply Hin. by right. }
  rewrite Hv1, decide_True in Hve by done. injection Hve as <- <-.
  pose proof (MappingCache.resident_page c p slot Hc Hl) as (Hr & sl & Hs & Hid).
  assert (He : e = s_entries sl).
  { unfold MappingCache.view in Hv. rewrite Hl, Hs in Hv. congruence. }
  destruct (MappingCache.wf_slot _ Hc _ _ Hr Hs) as [_ Hshaped _]. rewrite <- He in Hshaped.
  pose proof (Z.mod_pos_bound lba ENTRIES_PER_PAGE ltac:(done)) as Hmod.
  exists e, d, e', n', c'. split; [done|]. split; [|split; [done|]; split; [|split; [|split; [|split]]]].
  - cbn [Volume.update_entries]. rewrite Hlba, Hsum. step. step.
    erewrite mbind_run; [|unfold MappingCache.entries, MappingCache.slot_at; rewrite Hs; reflexivity]. step.
    rewrite <- Hph. erewrite mbind_run; [|unfold mmap_err; rewrite Hrun; reflexivity].
    rewrite <- He. by rewrite Hvol in Hrun'.
  - destruct Hsh as (? & ? & ?), Hsh' as (? & ? & ?). unfold MappingCache.same_shape. split_and!; congruence.
  - intros q. rewrite Hv', Hv1. case_decide; [|done]. by rewrite orb_true_r.
  - intros Ht. apply Hty, Entries.set_typed; [done| |done]. unfold is_u32. lia.
  - intros j l ph sm [->|Hj]%elem_of_cons Ha; [|by apply (Hset j)].
    destruct Ha as (Hl' & Hs' & Hp'). rewrite Hlba in Hl'. injection Hl' as <-.
    rewrite Hold; [|done|].
    2: { intros k l Hk Hkl Heq. apply Hni. by rewrite (Hinj i k lba l) by (done || by (left + right)). }
    rewrite Entries.get_set, Z.eqb_refl by (done || lia). congruence.
  - intros j Hj Hno. rewrite Hold; [|done|intros k l Hk; apply Hno; by right].
    rewrite Entries.get_set by (done || lia). destruct (Z.eqb_spec (lba mod ENTRIES_PER_PAGE) j) as [Heq|]; [|done].
    exfalso. apply (Hno i lba); [by left|done|done].
Qed.

(** From [s] to [s'], the addresses of the record from index [a] to [b] were mapped. *)
Record rewritten (g : Geometry) (t : LogPosition) (record : DataRecord) (a b : Z) s s' : Prop := {
  rw_ok : Mapping.ok_at g t s';
  rw_tail : ms_tail (snd s') = ms_tail (snd s);
  rw_changed : Io.changed (fun x => x < g_log_start g \/ p_at t < x) (fst s) (fst s');
  rw_dirty : forall q, q ∈ MappingCache.dirty_ids (Mapping.cache s') ->
    q ∈ MappingCache.dirty_ids (Mapping.cache s) \/
    exists i lba, a <= i < b /\ d_lba_ids record !! Z.to_nat i = Some lba /\ q = lba / ENTRIES_PER_PAGE;
  rw_shape : MappingCache.same_shape (Mapping.cache s) (Mapping.cache s');
  rw_volume : c_volume_id (Mapping.root s') = c_volume_id (Mapping.root s);
  rw_entry : forall i lba physical sum, a <= i < b -> assigns record i lba physical sum ->
    Mapping.entry g s' lba = (physical, sum);
  rw_other : forall lba, Mapping.in_volume g lba ->
    (forall i, a <= i < b -> d_lba_ids record !! Z.to_nat i <> Some lba) ->
    Mapping.entry g s' lba = Mapping.entry g s lba;
  rw_root : ms_checkpoint (snd s') = ms_checkpoint (snd s);
  rw_io : Io.untouched (fst s) (fst s');
  rw_keeps : forall q, q ∈ MappingCache.dirty_ids (Mapping.cache s) -> q ∈ MappingCache.dirty_ids (Mapping.cache s');
  rw_marks : forall i lba, a <= i < b -> d_lba_ids record !! Z.to_nat i = Some lba ->
    lba / ENTRIES_PER_PAGE ∈ MappingCache.dirty_ids (Mapping.cache s');
}.

Lemma rewritten_still g t record a b s s' :
  b <= a -> Mapping.ok_at g t s -> Mapping.still g t s s' -> ms_tail (snd s') = ms_tail (snd s) ->
  rewritten g t record a b s s'.
Proof.
  intros Hab Hok [Hk [Hr Hu Hd]] Ht. constructor; try (by apply Hk); try done.
  - intros q Hq. left. by apply (Mapping.kp_dirty _ _ _ _ _ Hk).
  - lia.
  - intros lba Hl _. by apply (Mapping.kept_entry g t t s s').
  - intros q. by rewrite Hd.
  - lia.
Qed.

Lemma rewritten_trans g t record count a b c s1 s2 s3 :
  targets g t record count -> 0 <= a <= b -> b <= c <= count ->
  rewritten g t record a b s1 s2 -> rewritten g t record b c s2 s3 -> rewritten g t record a c s1 s3.
Proof.
  intros Htg Hab Hbc [A1 A2 A3 A4 A5 A6 A7 A8 A9 A10 A11 A12] [B1 B2 B3 B4 B5 B6 B7 B8 B9 B10 B11 B12].
  constructor; try congruence.
  - by eapply Io.changed_trans.
  - intros q [Hq|(i & lba & Hi & Hr)]%B4; [|right; exists i, lba; split; [lia|done]].
    apply A4 in Hq as [Hq|(i & lba & Hi & Hr)]; [by left|]. right. exists i, lba. split; [lia|done].
  - destruct A5 as (? & ? & ?), B5 as (? & ? & ?). unfold MappingCache.same_shape. split_and!; congruence.
  - intros i lba physical sum Hi Ha. destruct (Z.lt_ge_cases i b); [|apply (B7 i); [lia|done]].
    rewrite B8; [apply (A7 i); [lia|done]|..].
    + destruct (tg_at _ _ _ _ Htg i ltac:(lia)) as (l & ph & sm & (Hl & _) & Hv & _).
      destruct Ha as (Hl' & _). congruence.
    + intros j Hj Hl. enough (i = j) by lia. apply (tg_inj _ _ _ _ Htg i j lba); [lia|lia|apply Ha|done].
  - intros lba Hl Hno. rewrite B8, A8; [done|done| |done|]; intros i Hi; apply Hno; lia.
  - by eapply Io.untouched_trans.
  - auto.
  - intros i lba Hi Hl. destruct (Z.lt_ge_cases i b); [by apply B11, (A12 i); [lia|]|by apply (B12 i); [lia|]].
Qed.

(** One page: the addresses of the record that fall into it. *)
Lemma page_run_step g t s p record count a b :
  Mapping.ok_at g t s -> targets g t record count -> 0 <= a < b -> b <= count -> Mapping.room s p ->
  (forall i lba, a <= i < b -> d_lba_ids record !! Z.to_nat i = Some lba -> lba / ENTRIES_PER_PAGE = p) ->
  runs (Mapping.with_page p Forbid (fun slot valid => Volume.update_entries record slot valid (seqZ a (b - a)) 0)) s
    (fun (r : res Z) s' => r <> Panic /\ forall n, r = Ok n -> rewritten g t record a b s s').
Proof.
  intros Hok Htg Hab Hbc Hroom Hpage. pose proof (Publish.co_geometry _ _ _ _ _ Hok) as Hg.
  assert (Hp : 0 <= p < g_page_count g).
  { destruct (tg_at _ _ _ _ Htg a ltac:(lia)) as (lba & ph & sm & (Hl & _) & Hv & _).
    rewrite <- (Hpage a lba) by (done || lia). by apply Mapping.in_volume_page. }
  apply (Mapping.with_page_run g t); [done|done|done| | |done].
  - intros t1 s1 slot [Hk _] _ Hfb Hsl. destruct (Hfb eq_refl) as (-> & Ht1 & Hq1).
    pose proof (Mapping.kp_ok _ _ _ _ _ Hk) as Hok1. pose proof Hok1 as [].
    destruct (update_entries_run record p slot (MappingCache.page_entries (g_volume_blocks g) p) (seqZ a (b - a)) 0
      (Mapping.cache s1)) as (e & d & e' & n & c' & Hv & Hrun & Hc' & Hsh & Hv' & Hty & Hset & Hold);
      [done|done|by rewrite co_volume|apply NoDup_seqZ|..].
    { intros i Hi%elem_of_seqZ. destruct (tg_at _ _ _ _ Htg i ltac:(lia)) as (lba & ph & sm & Ha & Hin & Hu & Hph).
      exists lba, ph, sm. split; [done|]. rewrite <- (Hpage i lba); [|lia|apply Ha]. split; [|split; [lia|done]].
      by apply Mapping.in_volume_page. }
    { intros i j x y Hi%elem_of_seqZ Hj%elem_of_seqZ Hx Hy Hm. assert (x = y) as ->.
      { apply Mapping.lba_inj; [|done]. by rewrite (Hpage i x ltac:(lia) Hx), (Hpage j y ltac:(lia) Hy). }
      apply (tg_inj _ _ _ _ Htg i j y); [lia|lia|done|done]. }
    apply runs_intro. intros r c2 Hr. rewrite Hrun in Hr. injection Hr as <- <-. split; [done|].
    rewrite bool_decide_true in Hv'.
    2: { intros E. apply (f_equal (@length Z)) in E. rewrite length_seqZ in E. cbn [length] in E. lia. }
    rewrite orb_true_r in Hv'. destruct (co_entries p e d Hv) as [Hte Hre].
    assert (Hrange : forall i, 0 <= i < ENTRIES_PER_PAGE -> (Entries.get e' i).1 <> 0 ->
      g_log_start g <= (Entries.get e' i).1 <= p_at t).
    { intros j Hj Hne. destruct (existsb (fun i => match d_lba_ids record !! Z.to_nat i with
          Some lba => lba mod ENTRIES_PER_PAGE =? j | None => false end) (seqZ a (b - a))) eqn:Hex.
      { apply existsb_exists in Hex as (i & Hi%list_elem_of_In & Hm). pose proof Hi as Hi'. apply elem_of_seqZ in Hi'.
        destruct (tg_at _ _ _ _ Htg i ltac:(lia)) as (lba & ph & sm & Ha & _ & _ & Hph).
        rewrite (proj1 Ha) in Hm. apply Z.eqb_eq in Hm as <-. rewrite (Hset i lba ph sm) by done. cbn [fst]. lia. }
      assert (Hno : forall i lba, i ∈ seqZ a (b - a) -> d_lba_ids record !! Z.to_nat i = Some lba ->
        lba mod ENTRIES_PER_PAGE <> j).
      { intros i lba Hi Hl Hm. apply not_true_iff_false in Hex. apply Hex, existsb_exists. exists i.
        rewrite <- list_elem_of_In. split; [done|]. rewrite Hl. by apply Z.eqb_eq. }
      rewrite (Hold j Hj Hno) in Hne |- *. by apply Hre. }
    destruct (Mapping.ok_update g t s1 c' p e' Hok1 Hc' Hsh Hp Hv' (Hty Hte) Hrange) as [Hok2 Hpages].
    split; [by exists t|]. intros n' _.
    assert (Hk0 : rewritten g t record a a s s1) by (apply rewritten_still; [lia|done|by constructor|done]).
    apply (rewritten_trans g t record count a a b s s1 _ Htg ltac:(lia) ltac:(lia) Hk0).
    assert (Hcache : Mapping.cache (fst s1, Mapping.with_cache c' (snd s1)) = c') by done.
    assert (He : Mapping.page g s1 p = e).
    { unfold Mapping.page, Publish.page. by rewrite Hv. }
    assert (Hdirty : p ∈ MappingCache.dirty_ids c') by (apply MappingCache.dirty_ids_elem; [done|]; exists e'; by rewrite Hv', decide_True).
    constructor; rewrite ?Hcache; try done.
    + apply Io.changed_refl.
    + intros q [x Hx]%MappingCache.dirty_ids_elem; [|done]. rewrite Hv' in Hx. case_decide as Hq.
      * right. destruct (tg_at _ _ _ _ Htg a ltac:(lia)) as (lba & ph & sm & (Hl & _) & _).
        exists a, lba. split; [lia|]. split; [done|]. rewrite (Hpage a lba) by (done || lia). done.
      * left. apply MappingCache.dirty_ids_elem; [done|]. by exists x.
    + intros i lba ph sm Hi Ha. unfold Mapping.entry. rewrite Hpages.
      rewrite (Hpage i lba), decide_True; [|done|lia|apply Ha]. apply (Hset i); [apply elem_of_seqZ; lia|done].
    + intros lba Hl Hno. unfold Mapping.entry. rewrite Hpages. case_decide as Hq; [|done]. rewrite Hq, He.
      apply Hold; [apply Z.mod_pos_bound; done|]. intros i l Hi%elem_of_seqZ Hil Hm.
      apply (Hno i ltac:(lia)). rewrite Hil. f_equal. apply Mapping.lba_inj; [|done].
      by rewrite (Hpage i l ltac:(lia) Hil).
    + intros q [x Hx]%MappingCache.dirty_ids_elem; [|done]. destruct (decide (q = p)) as [->|Hne]; [done|].
      apply MappingCache.dirty_ids_elem; [done|]. exists x. by rewrite Hv', decide_False.
    + intros i lba Hi Hil. by rewrite (Hpage i lba Hi Hil).
  - intros r s2 s3 HQ Hbg Ht n Hr. specialize (HQ n Hr).
    apply (rewritten_trans g t record count a b b s s2); [done|lia|lia|done|].
    apply rewritten_still; [lia|apply HQ| |done]. apply (Hbg t), HQ.
Qed.

(** A set of pages that has the dirty ones bounds their number. *)
Lemma dirty_count_set s (U : gset Z) :
  MappingCache.wf (Mapping.cache s) -> (forall q, q ∈ MappingCache.dirty_ids (Mapping.cache s) -> q ∈ U) ->
  Mapping.dirty_count s <= Z.of_nat (size U).
Proof.
  intros Hc HU. pose proof (size_list_to_set (C := gset Z) _ (MappingCache.NoDup_dirty_ids _ Hc)) as Hs.
  unfold MappingCache.dirty_ids in Hs at 2. rewrite length_fmap in Hs. unfold Mapping.dirty_count. rewrite <- Hs.
  apply inj_le, subseteq_size. intros q Hq%elem_of_list_to_set. auto.
Qed.

Lemma room_set s (U : gset Z) p :
  MappingCache.wf (Mapping.cache s) -> (forall q, q ∈ MappingCache.dirty_ids (Mapping.cache s) -> q ∈ U) ->
  p ∈ U -> Z.of_nat (size U) <= capacity (sizing (Mapping.cache s)) -> Mapping.room s p.
Proof.
  intros Hc HU Hp Hcap. destruct (decide (p ∈ MappingCache.dirty_ids (Mapping.cache s))) as [|Hn]; [by right|left].
  pose proof (dirty_count_set s (U ∖ {[p]}) Hc) as Hle.
  rewrite size_difference, size_singleton in Hle by set_solver.
  assert (Hpos : (size U <> 0)%nat). { intros E. apply size_empty_inv in E. set_solver. }
  assert (Mapping.dirty_count s <= Z.of_nat (size U - 1)) as Hle' by (apply Hle; intros q Hq; rewrite elem_of_difference, elem_of_singleton; split; [by apply HU|by intros ->]). lia.
Qed.

Lemma page_run_spec ids start count lba :
  0 <= start < count -> count <= lenZ ids -> ids !! Z.to_nat start = Some lba ->
  let stop := start + Volume.page_run (take (Z.to_nat (count - start)) (drop (Z.to_nat start) ids))
                        (lba / ENTRIES_PER_PAGE) in
  start < stop <= count /\
  forall i x, start <= i < stop -> ids !! Z.to_nat i = Some x -> x / ENTRIES_PER_PAGE = lba / ENTRIES_PER_PAGE.
Proof.
  intros Hs Hc Hl stop. unfold stop, Volume.page_run. set (f := fun x => x / ENTRIES_PER_PAGE =? _).
  set (l := take _ _). destruct (MappingCache.take_while_prefix f l) as [l' Hl'].
  assert (Hlen : lenZ l = count - start) by (unfold l; rewrite length_take, length_drop; lia).
  assert (Hpos : 0 < lenZ (MappingCache.take_while f l)).
  { unfold l. erewrite drop_S by exact Hl. replace (Z.to_nat (count - start)) with (S (Z.to_nat (count - start - 1))) by lia.
    cbn [take MappingCache.take_while]. unfold f. rewrite Z.eqb_refl. cbn [length]. lia. }
  assert (Hle : lenZ (MappingCache.take_while f l) <= lenZ l).
  { rewrite Hl' at 2. rewrite length_app. lia. }
  split; [lia|]. intros i x Hi Hx.
  assert (Hx' : MappingCache.take_while f l !! Z.to_nat (i - start) = Some x).
  { destruct (lookup_lt_is_Some_2 (MappingCache.take_while f l) (Z.to_nat (i - start))) as [y Hy]; [lia|].
    rewrite Hy. f_equal. assert (l !! Z.to_nat (i - start) = Some y) as Hy'.
    { rewrite Hl', lookup_app_l; [done|lia]. }
    unfold l in Hy'. rewrite lookup_take, lookup_drop, decide_True in Hy' by lia.
    replace (Z.to_nat start + Z.to_nat (i - start))%nat with (Z.to_nat i) in Hy' by lia. congruence. }
  apply list_elem_of_lookup_2, MappingCache.take_while_Forall in Hx' as [Hf _]. by apply Z.eqb_eq.
Qed.

(** The parts of a volume that the mapping lives in. *)
Definition parts (v : Volume D) : Mapping.State := (v_io v, v_mapping v).

Lemma map_record_run g t record count (U : gset Z) fuel start (v : Volume D) :
  Mapping.ok_at g t (parts v) -> targets g t record count -> 0 <= start <= count -> count <= lenZ (d_lba_ids record) ->
  count - start <= Z.of_nat fuel ->
  (forall q, q ∈ MappingCache.dirty_ids (Mapping.cache (parts v)) -> q ∈ U) ->
  (forall i lba, 0 <= i < count -> d_lba_ids record !! Z.to_nat i = Some lba -> lba / ENTRIES_PER_PAGE ∈ U) ->
  Z.of_nat (size U) <= capacity (sizing (Mapping.cache (parts v))) ->
  runs (Volume.map_record fuel record start count) v (fun (r : res unit) v' => r <> Panic /\
    (is_ok r = true -> rewritten g t record start count (parts v) (parts v') /\
       exists n, v' = Volume.with_live_blocks n (Volume.with_io_mapping (parts v') v))).
Proof.
  intros Hok Htg Hstart Hcount. revert start v Hok Hstart. induction fuel as [|fuel IH];
    intros start v Hok Hstart Hfuel HU Hpages Hcap; cbn [Volume.map_record]; destruct (Z.ltb_spec start count); try lia.
  1,3: apply runs_ret; split; [done|]; intros _;
    (split; [by apply rewritten_still; [lia|done|apply Mapping.still_refl|]|by exists (v_live_blocks v); destruct v]).
  destruct (tg_at _ _ _ _ Htg start ltac:(lia)) as (lba & ph & sm & (Hl & _) & Hv & _). rewrite Hl.
  apply runs_bind, runs_lift. cbn [expect next].
  destruct (page_run_spec (d_lba_ids record) start count lba ltac:(lia) Hcount Hl) as [Hstop Hsame].
  set (stop := start + _) in *. pose proof (Publish.co_cache _ _ _ _ _ Hok) as Hc.
  apply runs_bind. unfold Volume.on_mapping. apply runs_zoom. fold (parts v).
  eapply runs_mono; [apply (page_run_step g t (parts v) (lba / ENTRIES_PER_PAGE) record count start stop);
    [done|done|lia|lia| |done]|].
  { eapply room_set; [done|exact HU|by apply (Hpages start); [lia|]|done]. }
  cbv beta. intros r s1 [Hnp Hs1]. destruct r as [n|e|]; [|by split|done]. cbn [next]. specialize (Hs1 n eq_refl).
  apply runs_bind, runs_modify. cbn [next]. set (v1 := Volume.with_live_blocks _ _).
  assert (Hp1 : parts v1 = s1) by (unfold parts, v1; cbn; by destruct s1).
  rewrite <- Hp1 in Hs1. pose proof (rw_shape _ _ _ _ _ _ _ Hs1) as (Hsz & _).
  eapply runs_mono; [apply (IH stop v1); [apply Hs1|lia|lia| |done|by rewrite Hsz]|].
  { intros q [Hq|(i & l & Hi & Hil & ->)]%(rw_dirty _ _ _ _ _ _ _ Hs1); [auto|]. apply (Hpages i); [lia|done]. }
  cbv beta. intros r v' [Hnp' Hv']. split; [done|]. intros Hr. destruct (Hv' Hr) as [Hrw [m Hm]].
  split; [apply (rewritten_trans g t record count start stop count _ _ _ Htg ltac:(lia) ltac:(lia) Hs1 Hrw)|]. exists m. rewrite Hm. by destruct v, v'.
Qed.

(** ** One record of a release *)

(** The end of the log behind the record. *)
Definition end_of (record : DataRecord) : LogPosition :=
  {| p_lsn := h_lsn (d_header record); p_at := h_boundary (d_header record) |}.

Section record.
Context (g : Geometry) (b : WriteBackBuffer) (lbas : list Z) (record : DataRecord) (s s1 s2 : Mapping.State (D := D)).
Let t := ms_tail (snd s).
Context (Hok : Mapping.ok_at g t s) (Hnd : NoDup lbas) (Hin : forall lba, lba ∈ lbas -> Mapping.in_volume g lba).
Context (Hroom : p_at t + lenZ lbas + 1 < g_backing_blocks g).
Context (Hlog : on_log g (Mapping.files s1) b lbas (c_volume_id (Mapping.root s)) t record).
Context (Hs1 : snd s1 = snd s) (Happ : Io.changed (fun x => p_at t < x <= p_at t + lenZ lbas + 1) (fst s) (fst s1)).

Lemma record_end : p_at (end_of record) = p_at t + lenZ lbas + 1 /\ p_lsn (end_of record) = p_lsn t + 1.
Proof. unfold end_of. rewrite (ol_header _ _ _ _ _ _ _ Hlog). done. Qed.

Lemma record_extends : Mapping.ok_at g (end_of record) s1 /\ forall p, Mapping.page g s1 p = Mapping.page g s p.
Proof.
  destruct record_end as [He Hl]. pose proof (ol_lsn _ _ _ _ _ _ _ Hlog).
  destruct (Mapping.ok_extend g t (end_of record) s (fst s1) Hok) as [Hx1 Hx2]; [lia|lia| |].
  { intros x Hx. apply Happ. lia. }
  rewrite <- Hs1, <- surjective_pairing in Hx1, Hx2. done.
Qed.

Lemma record_assigns i lba : lbas !! i = Some lba -> exists d, Buffer.content b lba = Some d /\
  assigns record (Z.of_nat i) lba (p_at t + 1 + Z.of_nat i)
    (payload_checksum (c_volume_id (Mapping.root s)) lba (p_at t + 1 + Z.of_nat i) d) /\
  Mapping.files s1 (p_at t + 1 + Z.of_nat i) = d.
Proof.
  intros Hi. destruct (ol_payload _ _ _ _ _ _ _ Hlog i lba Hi) as (d & Hd & Hsum & Hf). exists d. split; [done|].
  split; [|done]. unfold assigns. rewrite Nat2Z.id, (ol_header _ _ _ _ _ _ _ Hlog).
  split; [by apply (ol_lbas _ _ _ _ _ _ _ Hlog)|]. by split.
Qed.

Lemma record_targets : targets g (end_of record) record (lenZ lbas).
Proof.
  destruct record_end as [He _]. pose proof Hok as []. pose proof co_geometry as [Hvo Hpc Hix Hst Hb].
  constructor.
  - intros i Hi. destruct (lookup_lt_is_Some_2 lbas (Z.to_nat i)) as [lba Hlba]; [lia|].
    destruct (record_assigns _ _ Hlba) as (d & _ & Ha & _). rewrite Z2Nat.id in Ha by lia.
    exists lba. do 2 eexists. split; [exact Ha|].
    split; [by eapply Hin, list_elem_of_lookup_2|]. split; [apply xxh3_range|]. rewrite He.
    pose proof (Index.wf_length _ _ co_index). lia.
  - intros i j lba Hi Hj Hli Hlj.
    destruct (lookup_lt_is_Some_2 lbas (Z.to_nat i)) as [x Hx]; [lia|].
    destruct (lookup_lt_is_Some_2 lbas (Z.to_nat j)) as [y Hy]; [lia|].
    rewrite (ol_lbas _ _ _ _ _ _ _ Hlog _ _ Hx) in Hli. rewrite (ol_lbas _ _ _ _ _ _ _ Hlog _ _ Hy) in Hlj.
    injection Hli as ->. injection Hlj as ->. pose proof (NoDup_lookup _ _ _ _ Hnd Hx Hy). lia.
Qed.

Context (Hrw : rewritten g (end_of record) record 0 (lenZ lbas) s1 s2).

Lemma record_block x : g_log_start g <= x <= p_at (end_of record) -> Mapping.files s2 x = Mapping.files s1 x.
Proof. intros Hx. apply (rw_changed _ _ _ _ _ _ _ Hrw). lia. Qed.

Lemma record_entry i lba d : lbas !! i = Some lba -> Buffer.content b lba = Some d ->
  Mapping.entry g s2 lba = (p_at t + 1 + Z.of_nat i,
    payload_checksum (c_volume_id (Mapping.root s)) lba (p_at t + 1 + Z.of_nat i) d) /\
  Mapping.mapped g s2 lba = d.
Proof.
  intros Hi Hd. destruct (record_assigns i lba Hi) as (d' & Hd' & Ha & Hf). assert (d' = d) as -> by congruence.
  pose proof Hok as []. pose proof co_geometry as [Hvo Hpc Hix Hst Hb]. destruct record_end as [He _].
  pose proof (Index.wf_length _ _ co_index). apply lookup_lt_Some in Hi.
  pose proof (rw_entry _ _ _ _ _ _ _ Hrw (Z.of_nat i) lba _ _ ltac:(lia) Ha) as Hen. split; [exact Hen|].
  unfold Mapping.mapped. rewrite Hen. cbn [fst]. destruct (Z.eqb_spec (p_at t + 1 + Z.of_nat i) 0); [lia|].
  rewrite record_block; [done|lia].
Qed.

Lemma record_others lba : Mapping.in_volume g lba -> lba ∉ lbas ->
  Mapping.entry g s2 lba = Mapping.entry g s lba /\ Mapping.mapped g s2 lba = Mapping.mapped g s lba.
Proof.
  intros Hl Hno. destruct record_extends as [_ Hpg]. destruct record_end as [He _].
  assert (Hen : Mapping.entry g s2 lba = Mapping.entry g s lba).
  { rewrite (rw_other _ _ _ _ _ _ _ Hrw lba Hl); [unfold Mapping.entry; by rewrite Hpg|].
    intros i Hi Hlba. destruct (lookup_lt_is_Some_2 lbas (Z.to_nat i)) as [x Hx]; [lia|].
    rewrite (ol_lbas _ _ _ _ _ _ _ Hlog _ _ Hx) in Hlba. apply Hno. injection Hlba as <-.
    by eapply list_elem_of_lookup_2. }
  split; [done|]. unfold Mapping.mapped. rewrite Hen.
  destruct (Z.eqb_spec (Mapping.entry g s lba).1 0) as [|Hne]; [done|].
  pose proof (Mapping.entry_range g t s lba Hok Hl Hne). rewrite record_block by lia. apply Happ. lia.
Qed.

Lemma record_sums : Mapping.sums_ok g s ->
  (forall lba, lba ∈ lbas -> is_Some (Buffer.content b lba)) -> Mapping.sums_ok g s2.
Proof.
  intros Hs Hb lba Hl Hne. rewrite (rw_volume _ _ _ _ _ _ _ Hrw).
  replace (Mapping.root s1) with (Mapping.root s) by (unfold Mapping.root; by rewrite Hs1).
  destruct (decide (lba ∈ lbas)) as [Hm|Hno].
  - destruct (Hb lba Hm) as [d Hd]. apply list_elem_of_lookup in Hm as [i Hi].
    destruct (record_entry i lba d Hi Hd) as [Hen Hmp]. by rewrite Hen, Hmp.
  - destruct (record_others lba Hl Hno) as [Hen Hmp]. rewrite Hen, Hmp in *. by apply Hs.
Qed.

(** The log goes on with the record. *)
Context (Hmax : lenZ lbas <= MAXIMUM_PAYLOAD_BLOCKS).
Context (Hplain : forall lba d, lba ∈ lbas -> Buffer.content b lba = Some d -> Log.plain (Mapping.root s) d).

Lemma pad_length l : lenZ l <= MAXIMUM_PAYLOAD_BLOCKS -> lenZ (Volume.pad l) = MAXIMUM_PAYLOAD_BLOCKS.
Proof. intros Hl. unfold Volume.pad, zeros. rewrite length_app, length_replicate. lia. Qed.

Lemma pad_Forall (P : Z -> Prop) l : P 0 -> Forall P l -> Forall P (Volume.pad l).
Proof. intros H0' Hl. apply Forall_app. split; [done|]. unfold zeros. by apply Forall_replicate. Qed.

Lemma record_typed : DataRecord.typed record.
Proof.
  pose proof Hok as []. pose proof co_geometry as [Hvo Hpc Hix Hst Hb]. destruct co_typed as (Hid & _ & _ & Hcl & _).
  destruct (ol_sums _ _ _ _ _ _ _ Hlog) as (sums & Hsums & Hlen & Hall). pose proof (ol_lsn _ _ _ _ _ _ _ Hlog).
  unfold DataRecord.typed. rewrite Hsums, (ol_ids _ _ _ _ _ _ _ Hlog). split; [|split; [|split; [|split]]].
  - rewrite (ol_header _ _ _ _ _ _ _ Hlog). unfold header_typed. cbn [h_volume_id h_lsn h_previous_boundary h_boundary].
    unfold is_u64, is_u32, t in *. split; [exact Hid|]. lia.
  - by apply pad_length.
  - apply pad_Forall; [done|]. apply Forall_forall. intros lba Hl. apply Hin in Hl. unfold Mapping.in_volume, is_u32 in *. lia.
  - apply pad_length. lia.
  - by apply pad_Forall.
Qed.

Lemma record_addresses : Log.count_of record = lenZ lbas /\ Log.addresses record = lbas.
Proof.
  assert (Hc : Log.count_of record = lenZ lbas).
  { unfold Log.count_of. rewrite (ol_header _ _ _ _ _ _ _ Hlog). cbn. lia. }
  split; [done|]. unfold Log.addresses. rewrite Hc, Nat2Z.id, (ol_ids _ _ _ _ _ _ _ Hlog). unfold Volume.pad.
  by rewrite take_app_length.
Qed.

(** What [s] has on the log, [s2] still has. *)
Lemma record_file x : x <= p_at t -> Mapping.files s2 x = Mapping.files s x.
Proof.
  intros Hx. destruct (rw_io _ _ _ _ _ _ _ Hrw) as [Hu _]. unfold Mapping.files. rewrite Hu. apply Happ. lia.
Qed.

Lemma record_next :
  Log.inside (Mapping.root s) g t -> Log.next_record (Mapping.files s2) (Mapping.root s) t = Ok (Some (LogData record)).
Proof.
  intros Hins. pose proof Hok as []. pose proof co_geometry as [Hvo Hpc Hix Hst Hb].
  assert (Hf : forall x, Mapping.files s2 x = Mapping.files s1 x) by apply (rw_io _ _ _ _ _ _ _ Hrw).
  pose proof (ol_header _ _ _ _ _ _ _ Hlog) as Hh. pose proof (ol_lsn _ _ _ _ _ _ _ Hlog) as Hlsn.
  apply (Log.next_record_data _ _ g); rewrite ?Hh; cbn [h_volume_id h_lsn h_previous_boundary h_boundary]; try done.
  - apply co_index.
  - lia.
  - apply record_typed.
  - rewrite Hf. apply (ol_footer _ _ _ _ _ _ _ Hlog).
  - intros x Hx. destruct (lookup_lt_is_Some_2 lbas (Z.to_nat (x - p_at t - 1))) as [lba Hlba]; [lia|].
    destruct (record_assigns _ _ Hlba) as (d & Hd & _ & Hfd). rewrite Hf.
    replace (p_at t + 1 + Z.of_nat (Z.to_nat (x - p_at t - 1))) with x in Hfd by lia. rewrite Hfd.
    by apply (Hplain lba); [eapply list_elem_of_lookup_2|].
Qed.

Lemma record_settled : Crash.settled g (Mapping.store s) -> Crash.settled g (Mapping.store s2).
Proof.
  intros Hs. pose proof Hok as [].
  assert (Hk1 : ms_checkpoint (snd s1) = ms_checkpoint (snd s)) by (by rewrite Hs1).
  apply (Mapping.settled_changed g s1 s2 (fun _ => False)); [done|apply Io.untouched_changed, Hrw|apply Hrw|done|].
  apply (Mapping.settled_changed g s s1 _ co_geometry Happ Hk1); [|done].
  intros x Hx. unfold Mapping.root, t in *. lia.
Qed.

Lemma record_traced : Mapping.traced g t s -> Mapping.traced g (end_of record) s2.
Proof.
  intros [Hset (rs & Hc & He & Htd) Hbl]. split; [by apply record_settled| |].
  2: { intros x Hx. destruct record_end as [Hend _]. destruct (rw_io _ _ _ _ _ _ _ Hrw) as [Hu _].
       unfold Mapping.files, Mapping.root. rewrite Hu, (rw_root _ _ _ _ _ _ _ Hrw), Hs1.
       destruct Happ as [Hf _]. rewrite Hf by lia. apply Hbl. lia. }
  exists (rs ++ [LogData record]).
  pose proof Hok as []. pose proof (Index.wf_geometry _ _ co_index) as Hg. destruct record_addresses as [Hcount Hadr].
  assert (Hr : ms_checkpoint (snd s2) = ms_checkpoint (snd s)) by (rewrite <- Hs1; apply Hrw).
  assert (Hins : Log.inside (Mapping.root s) g t).
  { eapply Log.chain_inside; [exact Hg| |exact Hc]. apply Log.inside_root. unfold Mapping.root. lia. }
  unfold Mapping.logged, Mapping.root. rewrite Hr. split; [|split].
  - eapply Log.chain_app.
    + apply (Log.chain_prefix (Mapping.files s) _ _ g _ _ _ Hg Hc). intros x Hx. apply record_file. lia.
    + apply (Log.chain_cons _ _ t (LogData record)); [by apply record_next|constructor].
  - intros lba Hl. rewrite Log.replay_app. cbn [Log.replay foldl Log.replay_one].
    assert (Hm : Log.replay rs (Mapping.root_entry (Mapping.files s2) (ms_checkpoint (snd s)) g) lba = Mapping.entry g s lba).
    { rewrite He by done. apply Log.replay_ext. apply (Mapping.root_entry_ext _ _ g t); [done|done|].
      intros x Hx. apply record_file. unfold Mapping.root in Hx. lia. }
    destruct (decide (lba ∈ lbas)) as [Hin'|Hno].
    + apply list_elem_of_lookup in Hin' as [i Hi]. destruct (record_assigns i lba Hi) as (d & Hd & (_ & Hsum & _) & _).
      rewrite (Log.store_in record _ i) by (by rewrite Hadr). destruct (record_entry i lba d Hi Hd) as [-> _].
      rewrite (ol_header _ _ _ _ _ _ _ Hlog). cbn [h_previous_boundary]. f_equal.
      rewrite Nat2Z.id in Hsum. by rewrite nth_lookup, Hsum.
    + rewrite Log.store_other by (by rewrite Hadr). rewrite Hm. by apply record_others.
  - intros p. rewrite Log.touched_app, elem_of_union. intros [Hp|Hp].
    + apply (rw_keeps _ _ _ _ _ _ _ Hrw). unfold Mapping.cache. rewrite Hs1. by apply Htd.
    + unfold Log.touched in Hp. cbn in Hp. rewrite app_nil_r, Hadr in Hp.
      apply elem_of_list_to_set, list_elem_of_fmap in Hp as (lba & -> & Hl). apply list_elem_of_lookup in Hl as [i Hi].
      apply (rw_marks _ _ _ _ _ _ _ Hrw (Z.of_nat i) lba); [apply lookup_lt_Some in Hi; lia|].
      rewrite Nat2Z.id. by apply (ol_lbas _ _ _ _ _ _ _ Hlog).
Qed.

End record.

End write.
End Write.
