(* ===== verification/VolumeSpec.v ===== *)
(** What an open volume promises: every operation of
    [src/rust/src/format_v3/volume.rs] refines a map from block addresses to
    blocks, or marks the volume as failed. *)

From S2P Require Import Prelude.
From S2P Require Import Bytes.
From S2P Require Import Geometry.
From S2P Require Import Format.
From S2P Require Import DataRecord.
From S2P Require Import Entries.
From S2P Require Import MappingPage.
From S2P Require Import Checkpoint.
From S2P Require Import Index.
From S2P Require Import Clock.
From S2P Require Import Sizing.
From S2P Require Import MappingCache.
From S2P Require Import Config.
From S2P Require Import Reservation.
From S2P Require Import WriteBuffer.
From S2P Require Import Accounting.
From S2P Require Import Uring.
From S2P Require Import Device.
From S2P Require Import BackingIo.
From S2P Require Import Tail.
From S2P Require Import PageRead.
From S2P Require Import Publish.
From S2P Require Import Recovery.
From S2P Require Import Log.
From S2P Require Import MappingState.
From S2P Require Import Volume.
From S2P Require Import VolumeWrite.

Module Spec.
Section spec.
Context `{Xxh3} `{Platform} {D : Type} `{!Device D} `{!DeviceLaws D}.
Implicit Types v : Volume D.

Abbreviation parts := Write.parts.

Definition tail v : LogPosition := ms_tail (v_mapping v).

(** The block that a read of the address sees. *)
Definition contents (g : Geometry) v (lba : Z) : list Z :=
  default (Mapping.mapped g (parts v) lba) (Buffer.content (v_buffer v) lba).

(** The blocks that the release of the buffer still takes. *)
Definition owed v : Z :=
  Buffer.len (v_buffer v) + div_ceil (Buffer.len (v_buffer v)) MAXIMUM_PAYLOAD_BLOCKS.

(** The invariant of a volume that has not failed. *)
Record inv (g : Geometry) v : Prop := {
  iv_ok : Mapping.ok_at g (tail v) (parts v);
  iv_buffer : Buffer.wf (v_buffer v);
  iv_limit : Buffer.capacity (v_buffer v) <= Reservation.buffer_limit;
  iv_lbas : forall lba, lba ∈ lbas (v_buffer v) -> Mapping.in_volume g lba;
  iv_data : forall lba d, Buffer.content (v_buffer v) lba = Some d -> block_ok d;
  iv_pages : v_buffered_pages v = Reservation.distinct_pages (lbas (v_buffer v));
  iv_cache : Z.min (Buffer.capacity (v_buffer v)) (g_page_count g) <= capacity (sizing (Mapping.cache (parts v)));
  iv_sums : Mapping.sums_ok g (parts v);
  iv_space : p_at (tail v) + owed v + Mapping.dirty_count (parts v) + v_buffered_pages v < g_backing_blocks g;
  iv_live : v_failed v = false;
}.

Lemma inv_geometry g v : Mapping.ok_at g (tail v) (parts v) -> Descriptor.geometry (Volume.descriptor v) = Ok g.
Proof. intros []. apply co_index. Qed.

Lemma inv_blocks g v : Mapping.ok_at g (tail v) (parts v) ->
  c_volume_blocks (Volume.descriptor v) = g_volume_blocks g /\ c_backing_blocks (Volume.descriptor v) = g_backing_blocks g.
Proof.
  intros [].
  destruct (Geometry.new_wf _ _ g (Index.wf_positive _ _ co_index) (Index.wf_geometry _ _ co_index)) as (_ & -> & ->).
  done.
Qed.

Lemma inv_buffered g v : inv g v -> Write.buffered (v_buffer v) (lbas (v_buffer v)).
Proof.
  intros [] lba Hl. destruct (Buffer.content (v_buffer v) lba) as [d|] eqn:E; [eauto|].
  by apply Buffer.content_None in E.
Qed.

(** The log has everything since the root, and no buffered payload looks like metadata. *)
Record traced (g : Geometry) v : Prop := {
  td_log : Mapping.traced g (tail v) (parts v);
  td_plain : forall lba d, Buffer.content (v_buffer v) lba = Some d -> Log.plain (Volume.descriptor v) d;
}.

(** The volume is the same one, and its log goes on. *)
Definition tracks (g : Geometry) v v' : Prop :=
  c_volume_id (Volume.descriptor v') = c_volume_id (Volume.descriptor v) /\ (traced g v -> traced g v').

Lemma tracks_refl g v : tracks g v v.
Proof. by split. Qed.

Lemma tracks_trans g a b c : tracks g a b -> tracks g b c -> tracks g a c.
Proof. intros [] []. split; [congruence|auto]. Qed.

(** Of the volume, [plain] reads the identity only. *)
Lemma plain_same k k' d : c_volume_id k' = c_volume_id k -> Log.plain k d -> Log.plain k' d.
Proof. unfold Log.plain. by intros ->. Qed.

Lemma tracks_mapping g v v' :
  c_volume_id (Volume.descriptor v') = c_volume_id (Volume.descriptor v) ->
  (Mapping.traced g (tail v) (parts v) -> Mapping.traced g (tail v') (parts v')) ->
  (forall lba d, Buffer.content (v_buffer v') lba = Some d -> Buffer.content (v_buffer v) lba = Some d) -> tracks g v v'.
Proof.
  intros Hid Hm Hb. split; [done|]. intros [Hl Hp]. split; [by apply Hm|].
  intros lba d Hd. apply (plain_same (Volume.descriptor v)); [done|]. by apply (Hp lba), Hb.
Qed.

(** ** One record *)

(** In the middle of a release: the first [k] addresses of the buffer of [v0]
    are on the log; [U] has all the pages that are or become dirty. *)
Record releasing (g : Geometry) (U : gset Z) v0 (k : Z) v : Prop := {
  rl_ok : Mapping.ok_at g (tail v) (parts v);
  rl_buffer : v_buffer v = v_buffer v0;
  rl_live : v_failed v = false;
  rl_dirty : forall q, q ∈ MappingCache.dirty_ids (Mapping.cache (parts v)) -> q ∈ U;
  rl_capacity : sizing (Mapping.cache (parts v)) = sizing (Mapping.cache (parts v0));
  rl_sums : Mapping.sums_ok g (parts v);
  rl_space : p_at (tail v) + (Buffer.len (v_buffer v0) - k)
    + div_ceil (Buffer.len (v_buffer v0) - k) MAXIMUM_PAYLOAD_BLOCKS + Z.of_nat (size U) < g_backing_blocks g;
  rl_done : forall i lba, Z.of_nat i < k -> lbas (v_buffer v0) !! i = Some lba ->
    Buffer.content (v_buffer v0) lba = Some (Mapping.mapped g (parts v) lba);
  rl_rest : forall lba, Mapping.in_volume g lba ->
    (forall i, Z.of_nat i < k -> lbas (v_buffer v0) !! i <> Some lba) ->
    Mapping.mapped g (parts v) lba = Mapping.mapped g (parts v0) lba;
  rl_volume : c_volume_id (Volume.descriptor v) = c_volume_id (Volume.descriptor v0);
  rl_traced : traced g v0 -> Mapping.traced g (tail v) (parts v);
}.

Lemma div_ceil_step a b : 0 < b -> b < a -> div_ceil (a - b) b = div_ceil a b - 1.
Proof. intros Hb Ha. unfold div_ceil. replace (a + b - 1) with ((a - b + b - 1) + 1 * b) by lia.
  rewrite Z.div_add by lia. lia. Qed.

Section release.
Context (g : Geometry) (U : gset Z) (v0 : Volume D).
Let b := v_buffer v0.
Context (Hb : Buffer.wf b) (Hbuf : Write.buffered b (lbas b)).
Context (Hin : forall lba, lba ∈ lbas b -> Mapping.in_volume g lba).
Context (HU : forall lba, lba ∈ lbas b -> Reservation.page_of lba ∈ U).
Context (Hcap : Z.of_nat (size U) <= capacity (sizing (Mapping.cache (parts v0)))).

(** The addresses of the record from index [k] on. *)
Lemma range_at k n i lba :
  take n (drop k (lbas b)) !! i = Some lba <-> (i < n)%nat /\ lbas b !! (k + i)%nat = Some lba.
Proof. rewrite lookup_take_Some, lookup_drop. tauto. Qed.

Lemma range_sub k n lba : lba ∈ take n (drop k (lbas b)) -> lba ∈ lbas b.
Proof. intros (i & [_ Hi]%range_at)%list_elem_of_lookup. by eapply list_elem_of_lookup_2. Qed.

Lemma range_NoDup k n : NoDup (take n (drop k (lbas b))).
Proof.
  apply NoDup_alt. intros i j lba [_ Hi]%range_at [_ Hj]%range_at.
  pose proof (NoDup_lookup _ _ _ _ (Buffer.wf_nodup b Hb) Hi Hj). lia.
Qed.

(** What the pieces of a record amount to. *)
Lemma written_record k stop v v3 io1 s2 record :
  releasing g U v0 k v -> 0 <= k < stop -> stop <= Buffer.len b -> stop - k <= MAXIMUM_PAYLOAD_BLOCKS ->
  let range := take (Z.to_nat (stop - k)) (drop (Z.to_nat k) (lbas b)) in
  p_at (tail v) + (stop - k) + 1 + (Buffer.len b - stop) + div_ceil (Buffer.len b - stop) MAXIMUM_PAYLOAD_BLOCKS
    + Z.of_nat (size U) < g_backing_blocks g ->
  p_at (tail v) + lenZ range + 1 < g_backing_blocks g ->
  Write.on_log g (Io.file io1) b range (c_volume_id (Mapping.root (parts v))) (tail v) record ->
  Io.changed (fun x => p_at (tail v) < x <= p_at (tail v) + lenZ range + 1) (v_io v) io1 ->
  Write.rewritten g (Write.end_of record) record 0 (lenZ range) (io1, v_mapping v) s2 ->
  parts v3 = (fst s2, Mapping.with_tail (Write.end_of record) (snd s2)) ->
  v_buffer v3 = v_buffer v -> v_failed v3 = v_failed v -> releasing g U v0 stop v3.
Proof.
  intros [] Hk Hstop Hmax range Hnext Hroom Hlog Happ Hrw Hp3 Hb3 Hf3. unfold Buffer.len in Hstop.
  assert (Hlen : lenZ range = stop - k) by (unfold range; rewrite length_take, length_drop; lia).
  assert (Hmap3 : forall lba, Mapping.mapped g (parts v3) lba = Mapping.mapped g s2 lba) by (intros; by rewrite Hp3).
  assert (Htail3 : tail v3 = Write.end_of record) by (change (tail v3) with (ms_tail (snd (parts v3))); by rewrite Hp3).
  destruct (Write.record_end g b range record (parts v) (io1, v_mapping v) Hlog) as [Hend _]. change (ms_tail _) with (tail v) in Hend.
  assert (Hold : forall i lba, Z.of_nat i < k -> lbas b !! i = Some lba -> lba ∉ range).
  { intros i lba Hi Hl (j & [_ Hj]%range_at)%list_elem_of_lookup.
    pose proof (NoDup_lookup _ _ _ _ (Buffer.wf_nodup b Hb) Hl Hj). lia. }
  assert (Hothers : forall lba, Mapping.in_volume g lba -> lba ∉ range ->
    Mapping.mapped g s2 lba = Mapping.mapped g (parts v) lba).
  { intros lba. by apply (Write.record_others g b range record (parts v) (io1, v_mapping v)). }
  constructor; rewrite ?Htail3; try congruence.
  - rewrite Hp3. exact (Write.rw_ok _ _ _ _ _ _ _ Hrw).
  - intros q. rewrite Hp3. intros Hq. change (Mapping.cache _) with (Mapping.cache s2) in Hq.
    apply (Write.rw_dirty _ _ _ _ _ _ _ Hrw) in Hq as [Hq|(i & lba & Hi & Hl & ->)]; [by apply rl_dirty0|].
    destruct (lookup_lt_is_Some_2 range (Z.to_nat i)) as [x Hx]; [lia|].
    rewrite (Write.ol_lbas _ _ _ _ _ _ _ Hlog _ _ Hx) in Hl. injection Hl as <-.
    eapply HU, range_sub, list_elem_of_lookup_2, Hx.
  - rewrite Hp3. pose proof (Write.rw_shape _ _ _ _ _ _ _ Hrw) as (Hsz & _). etransitivity; [exact Hsz|exact rl_capacity0].
  - assert (Mapping.sums_ok g s2) as Hs2; [|by rewrite Hp3].
    apply (Write.record_sums g b range record (parts v) (io1, v_mapping v)); try done.
    intros lba Hl%range_sub. destruct (Hbuf lba Hl) as (d & Hd & _). by exists d.
  - fold b. rewrite Hend. lia.
  - intros i lba Hi Hl. fold b. rewrite Hmap3. destruct (Z.lt_ge_cases (Z.of_nat i) k) as [Hik|Hik].
    + rewrite Hothers; [by apply (rl_done0 i)|by eapply Hin, list_elem_of_lookup_2|by apply (Hold i)].
    + destruct (Hbuf lba ltac:(by eapply list_elem_of_lookup_2)) as (d & Hd & _). rewrite Hd. f_equal. symmetry.
      eapply (Write.record_entry g b range record (parts v) (io1, v_mapping v) s2 rl_ok0 Hlog Hrw (i - Z.to_nat k)%nat);
        [|exact Hd]. apply range_at. split; [lia|]. by replace (Z.to_nat k + (i - Z.to_nat k))%nat with i by lia.
  - intros lba Hl Hno. rewrite Hmap3, Hothers, rl_rest0; [done|done| |done|].
    + intros i Hi. apply Hno. lia.
    + intros (j & [Hj1 Hj2]%range_at)%list_elem_of_lookup. eapply Hno; [|exact Hj2]. lia.
  - rewrite <- rl_volume0. change (Volume.descriptor v3) with (Mapping.root (parts v3)). rewrite Hp3.
    apply (Write.rw_volume _ _ _ _ _ _ _ Hrw).
  - intros Ht0. rewrite Hp3. apply Mapping.traced_tail.
    apply (Write.record_traced g b range record (parts v) (io1, v_mapping v)); try done; [apply range_NoDup|intros lba Hl; by eapply Hin, range_sub|by rewrite Hlen| |by apply rl_traced0].
    intros lba d _ Hd. apply (plain_same (Volume.descriptor v0)); [done|]. by apply (td_plain _ _ Ht0 lba).
Qed.

Lemma write_record_run k v :
  0 <= k < Buffer.len b -> releasing g U v0 k v ->
  let stop := Z.min (k + MAXIMUM_PAYLOAD_BLOCKS) (Buffer.len b) in
  runs (Volume.write_record k stop) v (fun (r : res unit) v' => r <> Panic /\
    (is_ok r = true -> releasing g U v0 stop v')).
Proof.
  intros Hk Hrl stop. pose proof Hrl as []. pose proof rl_ok0 as []. pose proof co_geometry as [Hvo Hpc Hix Hst Hbk].
  unfold Volume.write_record. apply runs_bind, runs_get. cbn [next].
  apply runs_bind, runs_lift. rewrite (inv_geometry g v rl_ok0). cbn [next]. rewrite rl_buffer0. fold b.
  set (count := stop - k). set (range := take _ _). change MAXIMUM_PAYLOAD_BLOCKS with 338 in *.
  assert (Hcount : 0 < count <= 338) by lia.
  assert (Hstop : k < stop <= Buffer.len b) by lia. unfold Buffer.len in Hk, Hstop.
  assert (Hlen : lenZ range = count) by (unfold range; rewrite length_take, length_drop; lia).
  assert (Hsub : forall lba, lba ∈ range -> lba ∈ lbas b) by apply range_sub.
  assert (Hnext : p_at (tail v) + count + 1 + (Buffer.len b - stop) + div_ceil (Buffer.len b - stop) 338
    + Z.of_nat (size U) < g_backing_blocks g).
  { fold b in rl_space0. destruct (Z.le_gt_cases (Buffer.len b - k) 338).
    - replace (Buffer.len b - stop) with 0 by (unfold stop; lia). change (div_ceil 0 338) with 0.
      pose proof (div_ceil_spec (Buffer.len b - k) 338 ltac:(done)). unfold count, stop, Buffer.len in *. lia.
    - replace stop with (k + 338) by (unfold stop; lia).
      pose proof (div_ceil_step (Buffer.len b - k) 338 ltac:(done) ltac:(lia)).
      replace (Buffer.len b - (k + 338)) with (Buffer.len b - k - 338) by lia. unfold count, stop. lia. }
  apply runs_bind. unfold Volume.on_io, Volume.on_mapping, Mapping.on_io. apply runs_zoom, runs_zoom.
  pose proof (div_ceil_nonneg (Buffer.len b - stop) 338 ltac:(done) ltac:(unfold Buffer.len; lia)) as Hnn.
  pose proof (Index.wf_length _ _ co_index) as Hpl.
  assert (Hroom : p_at (tail v) + lenZ range + 1 < g_backing_blocks g) by (unfold Buffer.len in *; lia).
  eapply runs_mono; [apply (Write.append_run g b range (c_volume_id (Volume.descriptor v)) (tail v) (v_io v));
    [exact Hb|intros lba Hl; by apply Hbuf, Hsub|lia|lia|exact Hroom|lia]|].
  cbv beta. intros r io1 (Hnp & Happ & Hlog). destruct r as [record|e|]; [|by split|done]. cbn [next fst snd].
  specialize (Hlog record eq_refl). set (v1 := Volume.with_io_mapping _ v).
  assert (Hp1 : parts v1 = (io1, v_mapping v)) by done.
  assert (Hs1 : snd (parts v1) = snd (parts v)) by done.
  assert (Hfile : Write.on_log g (Mapping.files (parts v1)) b range (c_volume_id (Mapping.root (parts v)))
    (ms_tail (snd (parts v))) record) by exact Hlog.
  destruct (Write.record_end _ _ _ _ _ _ Hfile) as [Hend _].
  destruct (Write.record_extends _ _ _ _ _ _ rl_ok0 Hroom Hfile Hs1 Happ) as [Hok1 _].
  pose proof (Write.record_targets g b range record (parts v) (parts v1) rl_ok0 (range_NoDup _ _) (fun l Hl => Hin l (Hsub l Hl)) Hroom Hfile) as Htg.
  rewrite Hlen in Htg, Hend.
  assert (Hids : forall i lba, 0 <= i < count -> d_lba_ids record !! Z.to_nat i = Some lba -> lba ∈ range).
  { intros i lba Hi Hl. destruct (lookup_lt_is_Some_2 range (Z.to_nat i)) as [x Hx]; [lia|].
    rewrite (Write.ol_lbas _ _ _ _ _ _ _ Hfile _ _ Hx) in Hl. injection Hl as <-. by eapply list_elem_of_lookup_2. }
  apply runs_bind. eapply runs_mono; [apply (Write.map_record_run g (Write.end_of record) record count U _ 0 v1);
    [exact Hok1|exact Htg|lia| |lia|exact rl_dirty0| |]|].
  { destruct (Z.le_gt_cases count (lenZ (d_lba_ids record))); [done|exfalso].
    destruct (Write.tg_at _ _ _ _ Htg (count - 1) ltac:(lia)) as (x & ? & ? & (Hx & _) & _).
    apply lookup_lt_Some in Hx. lia. }
  { intros i lba Hi Hl. by eapply HU, Hsub, Hids. }
  { by rewrite <- rl_capacity0 in Hcap. }
  cbv beta. intros r v2 [Hnp2 Hr2]. destruct r as [u|e|]; [|by split|done]. cbn [next].
  destruct (Hr2 eq_refl) as [Hrw [n Hv2]].
  apply runs_bind, runs_zoom. unfold Mapping.modify. apply runs_modify. cbn [next]. apply runs_modify.
  split; [done|]. intros _.
  apply (written_record k stop v _ io1 (parts v2) record Hrl); try done; [lia|lia|change MAXIMUM_PAYLOAD_BLOCKS with 338; lia| |by rewrite Hv2..].
  change (Write.rewritten g (Write.end_of record) record 0 (lenZ range) (parts v1) (parts v2)). by rewrite Hlen.
Qed.

End release.
(** ** Background work *)

(** Evictions, read-ahead and checkpoints do not show. *)
Lemma inv_kept g v v' :
  inv g v -> Mapping.kept g (tail v) (parts v) (tail v') (parts v') ->
  v_buffer v' = v_buffer v -> v_buffered_pages v' = v_buffered_pages v -> v_failed v' = v_failed v ->
  inv g v' /\ forall lba, Mapping.in_volume g lba ->
    Mapping.mapped g (parts v') lba = Mapping.mapped g (parts v) lba /\ contents g v' lba = contents g v lba.
Proof.
  intros [] Hk Hb Hp Hf. split.
  - constructor; rewrite ?Hb, ?Hp, ?Hf; try done.
    + apply (Mapping.kp_ok _ _ _ _ _ Hk).
    + pose proof (Mapping.kp_shape _ _ _ _ _ Hk) as (Hsz & _). by rewrite Hsz.
    + by apply (Mapping.kept_sums g _ _ _ _ Hk iv_ok0).
    + pose proof (Mapping.kp_space _ _ _ _ _ Hk). unfold owed in *. rewrite Hb. lia.
  - intros lba Hl. pose proof (Mapping.kept_mapped g _ _ _ _ Hk iv_ok0 lba Hl) as Hm.
    split; [done|]. unfold contents. by rewrite Hb, Hm.
Qed.

Lemma runs_latch {A} (m : M (Volume D) A) v (Q : res A -> Volume D -> Prop) :
  runs m v (fun r v' => match r with
                        | Ok a => Q (Ok a) v'
                        | Err e => Q (Err e) (Volume.with_failed true v')
                        | Panic => Q Panic v'
                        end) ->
  runs (Volume.latch m) v Q.
Proof.
  intros Hm. unfold Volume.latch. apply runs_bind, runs_try. eapply runs_mono; [exact Hm|]. cbv beta.
  by intros [a|e|] v'.
Qed.

(** ** Before a release *)

(** The pages that are dirty once the buffer is released. *)
Definition touched_pages v : gset Z :=
  list_to_set (MappingCache.dirty_ids (Mapping.cache (parts v))) ∪ Reservation.pages_of (lbas (v_buffer v)).

Lemma distinct_pages_bound g lbas :
  Geometry.wf g -> (forall lba, lba ∈ lbas -> Mapping.in_volume g lba) ->
  Reservation.distinct_pages lbas <= g_page_count g.
Proof.
  intros Hg Hin. unfold Reservation.distinct_pages.
  pose proof (Geometry.wf_pages _ Hg). pose proof (Geometry.wf_volume _ Hg).
  assert (Hsub : Reservation.pages_of lbas ⊆ list_to_set (seqZ 0 (g_page_count g))).
  { intros p. unfold Reservation.pages_of. rewrite !elem_of_list_to_set, list_elem_of_fmap, elem_of_seqZ.
    intros (lba & -> & Hl). unfold Reservation.page_of. destruct (Mapping.in_volume_page g lba Hg (Hin lba Hl)). lia. }
  apply subseteq_size in Hsub. rewrite size_list_to_set, length_seqZ in Hsub by apply NoDup_seqZ. lia.
Qed.

Lemma touched_bound v :
  MappingCache.wf (Mapping.cache (parts v)) ->
  Z.of_nat (size (touched_pages v)) <=
  lenZ (filter (fun p => Volume.unrelated (lbas (v_buffer v)) p.1 = true) (MappingCache.dirty_pages (Mapping.cache (parts v))))
    + Reservation.distinct_pages (lbas (v_buffer v)).
Proof.
  intros Hc. set (l := filter _ _). unfold Reservation.distinct_pages.
  assert (Hsub : touched_pages v ⊆ list_to_set (l.*1) ∪ Reservation.pages_of (lbas (v_buffer v))).
  { intros p. unfold touched_pages. rewrite !elem_of_union, !elem_of_list_to_set. intros [Hp|Hp]; [|by right].
    destruct (Volume.unrelated (lbas (v_buffer v)) p) eqn:E.
    - left. unfold MappingCache.dirty_ids in Hp. apply list_elem_of_fmap in Hp as (x & -> & Hx).
      apply list_elem_of_fmap. exists x. split; [done|]. unfold l. by apply list_elem_of_filter.
    - right. unfold Volume.unrelated in E. apply negb_false_iff in E. by apply Reservation.existsb_page. }
  apply subseteq_size in Hsub. rewrite size_union_alt in Hsub.
  pose proof (subseteq_size (Reservation.pages_of (lbas (v_buffer v)) ∖ list_to_set l.*1)
    (Reservation.pages_of (lbas (v_buffer v))) ltac:(set_solver)).
  assert (size (list_to_set l.*1 : gset Z) = length l) as Hl; [|lia].
  rewrite size_list_to_set; [by rewrite length_fmap|].
  apply (sublist_NoDup _ (MappingCache.dirty_ids (Mapping.cache (parts v)))); [by apply MappingCache.NoDup_dirty_ids|].
  apply fmap_sublist, sublist_filter.
Qed.

Lemma touched_clean v :
  Mapping.dirty_count (parts v) = 0 -> touched_pages v = Reservation.pages_of (lbas (v_buffer v)).
Proof.
  unfold Mapping.dirty_count, touched_pages, MappingCache.dirty_ids. intros Hd.
  assert (MappingCache.dirty_pages (Mapping.cache (parts v)) = []) as ->; [|set_solver].
  destruct (MappingCache.dirty_pages _); [done|]. cbn [length] in Hd. lia.
Qed.

(** What a release can start from. *)
Definition prepared (g : Geometry) v v' : Prop :=
  inv g v' /\ v_buffer v' = v_buffer v /\
  (forall lba, Mapping.in_volume g lba -> Mapping.mapped g (parts v') lba = Mapping.mapped g (parts v) lba) /\
  Z.of_nat (size (touched_pages v')) <= capacity (sizing (Mapping.cache (parts v'))) /\ tracks g v v'.

Lemma prepared_clean g v v' :
  inv g v -> Mapping.followed g (tail v) (parts v) (tail v') (parts v') -> Mapping.dirty_count (parts v') = 0 ->
  v_buffer v' = v_buffer v -> v_buffered_pages v' = v_buffered_pages v -> v_failed v' = v_failed v -> prepared g v v'.
Proof.
  intros Hi [Hk Htr] Hd Hb Hp Hf. destruct (inv_kept g v v' Hi Hk Hb Hp Hf) as [Hi' Hm]. destruct Hi.
  split; [done|]. split; [done|]. split; [intros; by apply Hm|].
  split; [|by apply tracks_mapping; [apply Hk|done|intros lba d; by rewrite Hb]]. rewrite (touched_clean _ Hd), Hb.
  pose proof (Mapping.kp_shape _ _ _ _ _ Hk) as (-> & _).
  pose proof (distinct_pages_bound g (lbas (v_buffer v)) (Publish.co_geometry _ _ _ _ _ iv_ok0) iv_lbas0).
  pose proof (Reservation.distinct_pages_le (lbas (v_buffer v))).
  pose proof (Buffer.wf_fits _ iv_buffer0). unfold Reservation.distinct_pages, Buffer.len in *. lia.
Qed.

Lemma prepare_release_run g v :
  inv g v -> runs Volume.prepare_release v (fun (r : res unit) v' => r <> Panic /\ (is_ok r = true -> prepared g v v')).
Proof.
  intros Hi. pose proof Hi as []. pose proof iv_ok0 as []. unfold Volume.prepare_release.
  apply runs_bind, runs_get. cbn [next]. set (unrelated_dirty := lenZ (filter _ _)).
  pose proof (touched_bound v co_cache) as Hu.
  match type of Hu with _ <= ?x + _ => change x with unrelated_dirty in Hu end. rewrite <- iv_pages0 in Hu.
  change (n_sizing (MappingCache.snapshot (ms_cache (v_mapping v)))) with (sizing (Mapping.cache (parts v))).
  set (pressure := _ <? _ + _).
  destruct (pressure || _) eqn:Hpub.
  2: { apply runs_ret. split; [done|]. intros _. apply orb_false_iff in Hpub as [Hp _]. apply Z.ltb_ge in Hp.
       split; [done|]. split; [done|]. split; [done|]. split; [lia|apply tracks_refl]. }
  apply runs_bind. unfold Volume.on_mapping at 1. apply runs_zoom.
  eapply runs_mono; [by apply (Mapping.publish_mapping_run g)|]. cbv beta. intros r s1 (Hnp & Hk & Hclean).
  destruct r as [u|e|]; [|by split|done]. cbn [next]. destruct (Hclean eq_refl) as (Hd & _ & _ & Htr).
  assert (Hfw : Mapping.followed g (tail v) (parts v) (ms_tail (snd s1)) s1) by (by constructor).
  destruct pressure.
  - unfold Volume.on_mapping, Mapping.modify. apply runs_zoom, runs_modify. split; [done|]. intros _.
    apply prepared_clean; [done| |done..]. eapply Mapping.followed_still; [exact Hfw|].
    apply (Mapping.same_parts_still g _ s1); [apply Hk|done..].
  - apply runs_ret. split; [done|]. intros _. apply prepared_clean; [done| |done..].
    unfold parts. cbn. by rewrite <- surjective_pairing.
Qed.

(** ** The release *)

(** Sorting the buffer does not show. *)
Lemma inv_sorted g v st :
  inv g v -> let v1 := Volume.with_buffer (Buffer.sort_by_lba (v_buffer v)) (Volume.with_stats st v) in
  inv g v1 /\ (forall lba, contents g v1 lba = contents g v lba) /\ tracks g v v1.
Proof.
  intros [] v1. destruct (Buffer.sort_wf _ iv_buffer0) as (Hb & _ & Hperm & Hc & Hcap).
  split; [|split; [intros lba; unfold contents, v1; cbn; by rewrite Hc|]].
  2: { apply tracks_mapping; [done|done|]. intros lba d. unfold v1. cbn. by rewrite Hc. }
  assert (Hlen : Buffer.len (v_buffer v1) = Buffer.len (v_buffer v)).
  { unfold Buffer.len. f_equal. by apply Permutation_length. }
  constructor; try done.
  - intros lba Hl. apply iv_lbas0. unfold v1 in Hl. cbn in Hl. by rewrite Hperm in Hl.
  - change (v_buffered_pages v1) with (v_buffered_pages v). rewrite iv_pages0.
    unfold Reservation.distinct_pages, Reservation.pages_of, v1. cbn. by rewrite Hperm.
  - change (v_buffered_pages v1) with (v_buffered_pages v). unfold owed. rewrite Hlen. exact iv_space0.
Qed.

(** The loop starts with nothing done, and everything touched accounted for. *)
Lemma releasing_start g v : inv g v -> releasing g (touched_pages v) v 0 v.
Proof.
  intros []. pose proof (Publish.co_cache _ _ _ _ _ iv_ok0) as Hc. constructor; try done.
  - intros q Hq. unfold touched_pages. rewrite elem_of_union, elem_of_list_to_set. by left.
  - rewrite Z.sub_0_r. unfold owed in iv_space0.
    pose proof (touched_bound v Hc) as Hu. set (n := lenZ (filter _ _)) in Hu.
    assert (n <= Mapping.dirty_count (parts v)) as Hn.
    { unfold n, Mapping.dirty_count. apply inj_le, length_filter. }
    rewrite <- iv_pages0 in Hu. lia.
  - intros i lba Hi. lia.
  - by intros [].
Qed.

(** When everything is on the log, the buffer is not needed any more. *)
Lemma releasing_end g v0 v :
  inv g v0 -> releasing g (touched_pages v0) v0 (Buffer.len (v_buffer v0)) v ->
  let v' := Volume.with_buffered_pages 0 (Volume.with_buffer (Buffer.clear (v_buffer v)) v) in
  inv g v' /\ Buffer.len (v_buffer v') = 0 /\ Buffer.capacity (v_buffer v') = Buffer.capacity (v_buffer v0) /\
  (forall lba, Mapping.in_volume g lba -> contents g v' lba = contents g v0 lba) /\ tracks g v0 v'.
Proof.
  intros [] [] v'. destruct (Buffer.clear_wf _ iv_buffer0) as (Hb & Hcap & Hlen & Hc). rewrite <- rl_buffer0 in *.
  split; [|split; [done|split; [done|split]]].
  - constructor; try done.
    + intros lba Hl. by apply not_elem_of_nil in Hl.
    + change (Mapping.cache (parts v')) with (Mapping.cache (parts v)). rewrite rl_capacity0.
      change (Buffer.capacity (v_buffer v')) with (Buffer.capacity (v_buffer v)). exact iv_cache0.
    + change (tail v') with (tail v). change (Mapping.dirty_count (parts v')) with (Mapping.dirty_count (parts v)).
      pose proof (Write.dirty_count_set (parts v) _ (Publish.co_cache _ _ _ _ _ rl_ok0) rl_dirty0).
      rewrite Z.sub_diag in rl_space0. change (owed v') with (div_ceil 0 MAXIMUM_PAYLOAD_BLOCKS). cbn [v_buffered_pages v' Volume.with_buffered_pages].
      lia.
  - intros lba Hl. unfold contents. change (Mapping.mapped g (parts v') lba) with (Mapping.mapped g (parts v) lba).
    change (Buffer.content (v_buffer v') lba) with (Buffer.content (Buffer.clear (v_buffer v)) lba). rewrite Hc.
    rewrite <- rl_buffer0. cbn [default from_option]. destruct (decide (lba ∈ lbas (v_buffer v))) as [Hin|Hno].
    + apply list_elem_of_lookup in Hin as [i Hi]. rewrite (rl_done0 i lba); [done| |done].
      apply lookup_lt_Some in Hi. unfold Buffer.len. lia.
    + rewrite (proj2 (Buffer.content_None _ lba iv_buffer0) Hno). cbn [from_option]. apply rl_rest0; [done|].
      intros i _ Hi. apply Hno. by eapply list_elem_of_lookup_2.
  - split; [exact rl_volume0|]. intros Ht. split; [by apply rl_traced0|]. intros lba d.
    change (v_buffer v') with (Buffer.clear (v_buffer v)). by rewrite Hc.
Qed.

(** [release_records], whichever way it ends. *)
Definition released (g : Geometry) v (r : res unit) v' : Prop :=
  r <> Panic /\
  match r with
  | Ok _ => inv g v' /\ Buffer.len (v_buffer v') = 0 /\
      Buffer.capacity (v_buffer v') = Buffer.capacity (v_buffer v) /\
      (forall lba, Mapping.in_volume g lba -> contents g v' lba = contents g v lba) /\ tracks g v v'
  | _ => v_failed v' = true
  end.

Lemma release_loop g v0 :
  inv g v0 -> Z.of_nat (size (touched_pages v0)) <= capacity (sizing (Mapping.cache (parts v0))) ->
  let len := Buffer.len (v_buffer v0) in
  runs (mfor (Volume.record_starts len) (fun start =>
    Volume.latch (Volume.write_record start (Z.min (start + MAXIMUM_PAYLOAD_BLOCKS) len)))) v0
    (fun (r : res unit) v => r <> Panic /\
       match r with Ok _ => releasing g (touched_pages v0) v0 len v | _ => v_failed v = true end).
Proof.
  intros Hi Hcap len. pose proof (div_ceil_spec len MAXIMUM_PAYLOAD_BLOCKS ltac:(done)) as Hn.
  set (n := div_ceil len MAXIMUM_PAYLOAD_BLOCKS) in *. change MAXIMUM_PAYLOAD_BLOCKS with 338 in *.
  assert (Hlen : 0 <= len) by (unfold len, Buffer.len; lia).
  apply (runs_for (fun xs v => exists j, 0 <= j <= n /\ xs = map (fun i => i * 338) (seqZ j (n - j)) /\
    releasing g (touched_pages v0) v0 (Z.min (j * 338) len) v)).
  - intros x xs v (j & Hj & Hxs & Hr). destruct (decide (j = n)) as [->|Hne].
    { rewrite Z.sub_diag in Hxs. discriminate Hxs. }
    rewrite seqZ_cons in Hxs by lia. injection Hxs as -> ->. rewrite Z.min_l in Hr by lia.
    apply runs_latch. eapply runs_mono; [apply (write_record_run g (touched_pages v0) v0);
      [apply Hi|by apply (inv_buffered g)|apply Hi| |exact Hcap|fold len; lia|exact Hr]|].
    { intros lba Hl. unfold touched_pages, Reservation.pages_of. rewrite elem_of_union, !elem_of_list_to_set. right.
      by apply list_elem_of_fmap_2. }
    cbv beta. intros [u|e|] v' [Hnp Hr']; [|by split|done]. exists (Z.succ j). split; [lia|].
    split; [do 2 f_equal; lia|]. change MAXIMUM_PAYLOAD_BLOCKS with 338 in Hr'. fold len in Hr'.
    replace (Z.succ j * 338) with (j * 338 + 338) by lia. by apply Hr'.
  - intros v (j & Hj & Hxs & Hr). split; [done|].
    assert (n - j = 0) as Hz.
    { apply (f_equal (@length Z)) in Hxs. rewrite length_map, length_seqZ in Hxs. cbn in Hxs. lia. }
    replace (Z.min (j * 338) len) with len in Hr by lia. exact Hr.
  - exists 0. split; [lia|]. split; [by rewrite Z.sub_0_r|]. rewrite Z.min_l by lia. by apply releasing_start.
Qed.

Lemma release_records_run g v trigger : inv g v -> runs (Volume.release_records trigger) v (released g v).
Proof.
  intros Hi. unfold Volume.release_records. apply runs_bind, runs_get. cbn [next].
  destruct (Z.eqb_spec (Buffer.len (v_buffer v)) 0); [apply runs_ret; split; [done|]; split; [done|]; split; [done|]; split; [done|]; split; [done|apply tracks_refl]|].
  do 2 (apply runs_bind, runs_modify; cbn [next]). set (v1 := Volume.with_buffer _ _).
  destruct (inv_sorted g v (Stats.trigger trigger (v_stats v)) Hi) as (Hi1 & Hc1 & Ht1). fold v1 in Hi1, Hc1, Ht1.
  apply runs_bind, runs_latch. eapply runs_mono; [by apply (prepare_release_run g)|]. cbv beta.
  intros r v2 [Hnp Hr]. destruct r as [u|e|]; [|by split|done]. cbn [next].
  destruct (Hr eq_refl) as (Hi2 & Hb2 & Hm2 & Hcap & Ht2). apply runs_bind, runs_get. cbn [next].
  apply runs_bind. eapply runs_mono; [by apply (release_loop g v2)|]. cbv beta.
  intros r v3 [Hnp3 Hr3]. destruct r as [u3|e|]; [|by split|done]. cbn [next]. apply runs_modify.
  destruct (releasing_end g v2 v3 Hi2 Hr3) as (Hi' & Hl' & Hcp & Hc' & Ht'). split; [done|]. split; [done|]. split; [done|].
  split; [by rewrite Hcp, Hb2|]. split; [|by eapply tracks_trans; [|eapply tracks_trans]].
  intros lba Hl. rewrite Hc', <- Hc1 by done. unfold contents. by rewrite Hb2, Hm2.
Qed.

End spec.
End Spec.
