(* ===== verification/VolumeRefine.v ===== *)
(** The operations of an open volume against a map from addresses to blocks. *)

From S2P Require Import Prelude.
From S2P Require Import Bytes.
From S2P Require Import Geometry.
From S2P Require Import Format.
From S2P Require Import Entries.
From S2P Require Import Checkpoint.
From S2P Require Import Index.
From S2P Require Import Sizing.
From S2P Require Import MappingCache.
From S2P Require Import Config.
From S2P Require Import Reservation.
From S2P Require Import WriteBuffer.
From S2P Require Import Device.
From S2P Require Import BackingIo.
From S2P Require Import Tail.
From S2P Require Import Publish.
From S2P Require Import Recovery.
From S2P Require Import Log.
From S2P Require Import MappingState.
From S2P Require Import Volume.
From S2P Require Import VolumeWrite.
From S2P Require Import VolumeSpec.

Module Refine.
Section refine.
Context `{Xxh3} `{Platform} {D : Type} `{!Device D} `{!DeviceLaws D}.
Implicit Types v : Volume D.

(** Between operations the buffer has room for one more block. *)
Record ready (g : Geometry) v : Prop := {
  rd_inv : Spec.inv g v;
  rd_room : Buffer.len (v_buffer v) < Buffer.capacity (v_buffer v);
}.

(** [v'] holds what [v] holds, but for the addresses that [m] says. *)
Definition stores (g : Geometry) v v' (m : Z -> list Z) : Prop :=
  ready g v' /\ Buffer.capacity (v_buffer v') = Buffer.capacity (v_buffer v) /\
  forall lba, Mapping.in_volume g lba -> Spec.contents g v' lba = m lba.

Definition out_of_range {A} : res A := Err (InvalidInput "invalid logical block").

Lemma volume_blocks_eq g v : Spec.inv g v -> Volume.volume_blocks v = g_volume_blocks g.
Proof. intros []. by apply Spec.inv_blocks. Qed.

Lemma operational v (Q : res unit -> Volume D -> Prop) :
  v_failed v = false -> Q (Ok tt) v -> runs Volume.check_operational v Q.
Proof. intros Hf HQ. unfold Volume.check_operational. apply runs_bind, runs_get, runs_lift. by rewrite Hf. Qed.

Lemma failed_stops {A} v (m : M (Volume D) A) :
  v_failed v = true -> (Volume.check_operational ;;; m) v = (Err (OtherError "volume failed"), v).
Proof. intros Hf. unfold Volume.check_operational, mbind, mget, mlift. by rewrite Hf. Qed.

Lemma stores_kept g v v' :
  ready g v -> Mapping.kept g (Spec.tail v) (Write.parts v) (Spec.tail v') (Write.parts v') ->
  v_buffer v' = v_buffer v -> v_buffered_pages v' = v_buffered_pages v -> v_failed v' = v_failed v ->
  stores g v v' (Spec.contents g v).
Proof.
  intros [Hi Hr] Hk Hb Hp Hf. destruct (Spec.inv_kept g v v' Hi Hk Hb Hp Hf) as [Hi' Hc].
  split; [split; [done|by rewrite Hb]|]. split; [by rewrite Hb|]. intros lba Hl. by apply Hc.
Qed.

(** So does the log. *)
Lemma still_tracks g v v' :
  Mapping.ok_at g (Spec.tail v) (Write.parts v) -> Mapping.still g (Spec.tail v) (Write.parts v) (Write.parts v') -> Spec.tail v' = Spec.tail v ->
  v_buffer v' = v_buffer v -> Spec.tracks g v v'.
Proof.
  intros Hi Hs Ht Hb. apply Spec.tracks_mapping; [apply (Mapping.kp_volume _ _ _ _ _ (Mapping.sl_kept _ _ _ _ Hs))| |].
  - rewrite Ht. by apply Mapping.still_traced.
  - intros lba d. by rewrite Hb.
Qed.

(** ** Reads *)

(** A volume that has not failed, whatever its blocks hold. *)
Record intact (g : Geometry) v : Prop := {
  it_ok : Mapping.ok_at g (Spec.tail v) (Write.parts v);
  it_buffer : Buffer.wf (v_buffer v);
  it_live : v_failed v = false;
}.

(** The block has the checksum of its mapping entry, unless it is in the buffer or unmapped. *)
Definition verified (g : Geometry) v (lba : Z) : Prop :=
  let e := Mapping.entry g (Write.parts v) lba in
  Buffer.content (v_buffer v) lba = None -> e.1 <> 0 ->
  e.2 = payload_checksum (c_volume_id (Volume.descriptor v)) lba e.1 (Io.file (v_io v) e.1).

(** Only the cache and the log behind the mapping may have moved. *)
Record aside (g : Geometry) v v' : Prop := {
  ad_kept : Mapping.kept g (Spec.tail v) (Write.parts v) (Spec.tail v') (Write.parts v');
  ad_buffer : v_buffer v' = v_buffer v;
  ad_pages : v_buffered_pages v' = v_buffered_pages v;
  ad_failed : v_failed v' = v_failed v;
  ad_tracks : Spec.tracks g v v';
}.

Lemma ready_intact g v : ready g v -> intact g v.
Proof. intros [[] _]. by constructor. Qed.

Lemma ready_verified g v lba : ready g v -> Mapping.in_volume g lba -> verified g v lba.
Proof.
  intros [[] _] Hl _ Hne. pose proof (iv_sums lba Hl Hne) as Hs. unfold Mapping.mapped in Hs. by destruct (Z.eqb_spec (Mapping.entry g (Write.parts v) lba).1 0).
Qed.

Lemma aside_refl g v : intact g v -> aside g v v.
Proof. intros []. constructor; [by apply Mapping.kept_refl|done..|apply Spec.tracks_refl]. Qed.

Lemma aside_intact g v v' :
  intact g v -> aside g v v' ->
  intact g v' /\ forall lba, Mapping.in_volume g lba -> Spec.contents g v' lba = Spec.contents g v lba.
Proof.
  intros [] []. split; [constructor; [apply ad_kept0|by rewrite ad_buffer0|congruence]|].
  intros lba Hl. unfold Spec.contents. rewrite ad_buffer0. destruct (Buffer.content _ _); [done|].
  by apply (Mapping.kept_mapped g _ _ _ _ ad_kept0).
Qed.

Lemma aside_stores g v v' : ready g v -> aside g v v' -> stores g v v' (Spec.contents g v).
Proof. intros Hr []. by apply stores_kept. Qed.

Definition mismatch : io_error := InvalidData "payload checksum mismatch".

(** A read of a block of the volume: its contents, if they have their checksum. *)
Lemma read_intact_run g v lba :
  intact g v -> Mapping.in_volume g lba -> runs (Volume.read_block lba) v (fun (r : res (list Z)) v' => r <> Panic /\
    match r with
    | Ok d => d = Spec.contents g v lba /\ verified g v lba /\ aside g v v'
    | Err e => v_failed v' = true \/ (e = mismatch /\ ~ verified g v lba /\ aside g v v')
    | Panic => False
    end).
Proof.
  intros Hin Hlv. pose proof Hin as []. unfold Volume.read_block.
  destruct (Spec.inv_blocks g v it_ok0) as [Hvb _]. pose proof Hlv as [Hl0 Hl].
  apply runs_bind, operational; [done|]. cbn [next]. apply runs_bind, runs_get. cbn [next].
  unfold Volume.volume_blocks. rewrite Hvb. apply runs_bind, runs_lift.
  destruct (Z.leb_spec (g_volume_blocks g) lba); [lia|]. cbn [fail_if next].
  apply runs_bind, runs_lift. rewrite (Buffer.get_Ok _ _ it_buffer0). cbn [next].
  destruct (Buffer.content (v_buffer v) lba) as [d|] eqn:Ec.
  { apply runs_ret. split; [done|]. split; [unfold Spec.contents; by rewrite Ec|].
    split; [intros Hn; by rewrite Hn in Ec|by apply aside_refl]. }
  assert (Hc : Spec.contents g v lba = Mapping.mapped g (Write.parts v) lba) by (unfold Spec.contents; by rewrite Ec).
  apply runs_bind, Spec.runs_latch. unfold Volume.on_mapping at 1. apply runs_zoom.
  eapply runs_mono; [by apply (Write.lookup_run g (Write.parts v) lba)|]. cbv beta.
  intros r s1 (Hnp & Hk & Hx). destruct r as [[physical checksum]|e|]; [|by split; [|left]|done]. cbn [next].
  destruct (Hx _ eq_refl) as [Hxe Htr]. clear Hx. rename Hxe into Hx. set (v1 := Volume.with_io_mapping s1 v).
  assert (Hp1 : Write.parts v1 = s1) by (unfold Write.parts; cbn; by rewrite <- surjective_pairing).
  assert (Ha1 : aside g v v1).
  { constructor; try done; [by rewrite Hp1|].
    apply Spec.tracks_mapping; [apply (Mapping.kp_volume _ _ _ _ _ Hk)|by rewrite Hp1|done]. }
  unfold Mapping.mapped in Hc. rewrite <- Hx in Hc. cbn [fst] in Hc.
  destruct (Z.eqb_spec physical 0) as [->|Hne].
  { apply runs_ret. split; [done|]. split; [done|]. split; [intros _; by rewrite <- Hx|done]. }
  assert (Hrange : g_log_start g <= physical <= p_at (Spec.tail v)).
  { pose proof (Mapping.entry_range g _ _ lba it_ok0 Hlv) as Hrg. rewrite <- Hx in Hrg. by apply Hrg. }
  pose proof (Publish.co_geometry _ _ _ _ _ it_ok0) as [Hv Hp Hix Hst Hb].
  apply runs_bind, Spec.runs_latch. unfold Volume.on_io, Volume.on_mapping, Mapping.on_io. apply runs_zoom, runs_zoom, runs_intro.
  intros r io2 Hrun. apply Io.read_block_spec in Hrun as (Hu & _ & Hnp2 & Hdata); [|lia].
  destruct r as [d|e|]; [|by split; [|left]|done]. cbn [next fst snd]. specialize (Hdata d eq_refl).
  assert (Hd : d = Io.file (v_io v) physical) by (rewrite Hdata; by apply (Mapping.kept_block g _ _ _ _ Hk)).
  apply runs_bind, runs_get. cbn [next]. apply runs_bind, runs_lift.
  set (v2 := Volume.with_io_mapping _ v1).
  assert (Hvid : c_volume_id (Volume.descriptor v2) = c_volume_id (Volume.descriptor v))
    by apply (Mapping.kp_volume _ _ _ _ _ Hk).
  assert (Hver : verified g v lba <-> checksum = payload_checksum (c_volume_id (Volume.descriptor v)) lba physical d).
  { unfold verified. rewrite <- Hx, Hd. cbn [fst snd]. split; [intros E; by apply E|by intros -> _ _]. }
  assert (Hstill : Mapping.still g (Spec.tail v1) (Write.parts v1) (Write.parts v2)).
  { apply (Mapping.untouched_still g _ (Write.parts v1)); [apply (Mapping.kp_ok _ _ _ _ _ (ad_kept _ _ _ Ha1))|exact Hu]. }
  assert (Ha2 : aside g v v2).
  { constructor; try done.
    - eapply Mapping.kept_trans; [apply (ad_kept _ _ _ Ha1)|apply Hstill].
    - eapply Spec.tracks_trans; [apply (ad_tracks _ _ _ Ha1)|].
      apply still_tracks; [apply (Mapping.kp_ok _ _ _ _ _ (ad_kept _ _ _ Ha1))|done..]. }
  rewrite Hvid, Z.eqb_sym. destruct (Z.eqb_spec checksum (payload_checksum (c_volume_id (Volume.descriptor v)) lba physical d));
    cbn [negb fail_if next].
  - apply runs_ret. split; [done|]. split; [by rewrite Hc, Hd|]. split; [by apply Hver|done].
  - split; [done|]. right. split; [done|]. split; [by rewrite Hver|done].
Qed.

Definition read_post (g : Geometry) v lba (r : res (list Z)) v' : Prop :=
  r <> Panic /\
  if lba <? g_volume_blocks g
  then match r with
       | Ok d => d = Spec.contents g v lba /\ stores g v v' (Spec.contents g v) /\ Spec.tracks g v v'
       | _ => v_failed v' = true
       end
  else r = out_of_range /\ v' = v.

Lemma read_block_run g v lba : ready g v -> 0 <= lba -> runs (Volume.read_block lba) v (read_post g v lba).
Proof.
  intros Hr Hl. pose proof Hr as [Hi _]. unfold read_post. destruct (Z.ltb_spec lba (g_volume_blocks g)) as [Hlt|Hge].
  - eapply runs_mono; [apply (read_intact_run g v lba); [by apply ready_intact|by split]|]. cbv beta. intros r v' [Hnp Hp].
    split; [done|]. destruct r as [d|e|]; [|destruct Hp as [?|(_ & Hn & _)]; [done|]|done].
    + destruct Hp as (-> & _ & Ha). split; [done|]. split; [by apply aside_stores|apply Ha].
    + destruct Hn. apply ready_verified; [done|by split].
  - unfold Volume.read_block. apply runs_bind, operational; [apply Hi|]. cbn [next]. apply runs_bind, runs_get. cbn [next].
    rewrite (volume_blocks_eq g v Hi). apply runs_bind, runs_lift.
    destruct (Z.leb_spec (g_volume_blocks g) lba); [by split|lia].
Qed.

(** ** Writes *)

(** [m], but with [data] at [lba]. *)
Definition update (m : Z -> list Z) (lba : Z) (data : list Z) : Z -> list Z :=
  fun l => if decide (l = lba) then data else m l.

(** The blocks that a release needs when the buffer holds [lbas]. *)
Definition demand v (lbas : list Z) : Z :=
  lenZ lbas + div_ceil (lenZ lbas) MAXIMUM_PAYLOAD_BLOCKS
  + (Mapping.dirty_count (Write.parts v) + Reservation.distinct_pages lbas).

(** The log goes on, if the payload does not look like metadata. *)
Definition write_tracks (g : Geometry) v data v' : Prop :=
  c_volume_id (Volume.descriptor v') = c_volume_id (Volume.descriptor v) /\
  (Log.plain (Volume.descriptor v) data -> Spec.traced g v -> Spec.traced g v').

Lemma inv_store g v v' lba data b' :
  Spec.inv g v -> Mapping.in_volume g lba -> block_ok data ->
  Buffer.wf b' -> Buffer.capacity b' = Buffer.capacity (v_buffer v) ->
  (forall l, l ∈ lbas b' -> l ∈ lbas (v_buffer v) \/ l = lba) ->
  (forall l, Buffer.content b' l = if decide (l = lba) then Some data else Buffer.content (v_buffer v) l) ->
  Write.parts v' = Write.parts v -> v_buffer v' = b' -> v_failed v' = v_failed v ->
  v_buffered_pages v' = Reservation.distinct_pages (lbas b') ->
  p_at (Spec.tail v) + demand v (lbas b') < g_backing_blocks g ->
  Spec.inv g v' /\ (forall l, Spec.contents g v' l = update (Spec.contents g v) lba data l) /\ write_tracks g v data v'.
Proof.
  intros [] Hl Hd Hb Hcap Hin Hc Hp Hb' Hf Hpg Hsp.
  assert (Ht : Spec.tail v' = Spec.tail v).
  { change (ms_tail (snd (Write.parts v')) = ms_tail (snd (Write.parts v))). by rewrite Hp. }
  assert (Hdesc : Volume.descriptor v' = Volume.descriptor v).
  { change (Mapping.root (Write.parts v') = Mapping.root (Write.parts v)). by rewrite Hp. }
  split; [|split].
  - constructor; rewrite ?Hp, ?Hb', ?Ht, ?Hpg, ?Hf, ?Hcap; try done.
    + intros l Hl'. destruct (Hin l Hl') as [Hx| ->]; [by apply iv_lbas|done].
    + intros l d. rewrite Hc. destruct (decide (l = lba)); [congruence|apply iv_data].
    + unfold Spec.owed. rewrite Hb'. unfold demand, Buffer.len in *. lia.
  - intros l. unfold Spec.contents, update. rewrite Hb', Hc, Hp. by case_decide.
  - split; [by rewrite Hdesc|]. intros Hpl [Htl Htp]. split; [by rewrite Ht, Hp|]. rewrite Hdesc, Hb'.
    intros l d. rewrite Hc. case_decide; [by intros [= <-]|apply Htp].
Qed.

Definition write_post (g : Geometry) v lba data (r : res unit) v' : Prop :=
  if lba <? g_volume_blocks g
  then match r with
       | Ok _ => stores g v v' (update (Spec.contents g v) lba data) /\ write_tracks g v data v'
       | Err e => v_failed v' = true \/
           (v' = v /\ e = RawOs ENOSPC /\ Buffer.content (v_buffer v) lba = None /\
            g_backing_blocks g <= p_at (Spec.tail v) + demand v (lbas (v_buffer v) ++ [lba]))
       | Panic => False
       end
  else r = out_of_range /\ v' = v.

Lemma dirty_limit_ok g v : Spec.inv g v -> 0 <= Mapping.dirty_count (Write.parts v) <= Reservation.dirty_limit.
Proof.
  intros []. pose proof iv_ok as []. pose proof co_geometry as [Hv Hp _ _ _]. split; [unfold Mapping.dirty_count; lia|].
  change Reservation.dirty_limit with 6391321. unfold Mapping.dirty_count.
  pose proof (MappingCache.dirty_count_le (Mapping.cache (Write.parts v)) (seqZ 0 (g_page_count g)) co_cache) as Hle.
  rewrite length_seqZ in Hle. enough (lenZ (MappingCache.dirty_pages (Mapping.cache (Write.parts v))) <= g_page_count g) by lia.
  etransitivity; [apply Hle|lia]. intros q e Hq. apply elem_of_seqZ.
  unfold MappingCache.view in Hq. destruct (lookup (Mapping.cache (Write.parts v)) !! q) as [sl|] eqn:Hs; [|done].
  apply MappingCache.wf_lookup_page in Hs; [|done]. rewrite (Mapping.page_count_ok g _ _ iv_ok) in Hs. lia.
Qed.

Lemma write_block_run g v lba data :
  ready g v -> 0 <= lba -> block_ok data -> runs (Volume.write_block lba data) v (write_post g v lba data).
Proof.
  intros Hr Hl Hd. pose proof Hr as [Hi Hroom]. pose proof Hi as []. unfold Volume.write_block, write_post.
  destruct (Spec.inv_blocks g v iv_ok) as [Hvb Hbb].
  apply runs_bind, operational; [done|]. cbn [next]. apply runs_bind, runs_get. cbn [next].
  rewrite (volume_blocks_eq g v Hi). apply runs_bind, runs_lift.
  destruct (Z.ltb_spec lba (g_volume_blocks g)), (Z.leb_spec (g_volume_blocks g) lba); try lia; cbn [fail_if next].
  2: by split.
  assert (Hlv : Mapping.in_volume g lba) by done.
  apply runs_bind, runs_lift. rewrite (Buffer.get_Ok _ _ iv_buffer). cbn [next].
  destruct (Buffer.store_Ok (v_buffer v) lba data iv_buffer ltac:(done)) as (b' & Hrun & Hb' & Hcap & Hls & Hc).
  destruct (Buffer.content (v_buffer v) lba) as [old|] eqn:Ec.
  - rewrite decide_False in Hls by done. rewrite bool_decide_false in Hrun by done.
    apply runs_bind. unfold Volume.on_buffer. apply runs_zoom. unfold runs at 1. rewrite Hrun. cbn [fst snd next].
    apply runs_ret. set (v' := Volume.with_buffer b' v).
    destruct (inv_store g v v' lba data b') as (Hi' & Hc' & Ht'); try done.
    + intros l Hl'. left. by rewrite <- Hls.
    + rewrite Hls. exact iv_pages.
    + rewrite Hls. unfold demand. unfold Spec.owed, Buffer.len in iv_space. rewrite iv_pages in iv_space. lia.
    + split; [|done]. split; [|split; [exact Hcap|]]; [|intros; apply Hc']. split; [done|].
      change (Buffer.len (v_buffer v')) with (lenZ (lbas b')). rewrite Hls. cbn [v_buffer v' Volume.with_buffer]. by rewrite Hcap.
  - rewrite decide_True in Hls by done. rewrite bool_decide_true in Hrun by done.
    pose proof (proj1 (Buffer.content_None _ _ iv_buffer) Ec) as Hnew.
    pose proof (dirty_limit_ok g v Hi) as Hdl. change Reservation.buffer_limit with 4096 in iv_limit.
    change (lenZ (MappingCache.dirty_pages (ms_cache (v_mapping v)))) with (Mapping.dirty_count (Write.parts v)).
    rewrite iv_pages, (Reservation.admit_Ok (lbas (v_buffer v)) _ lba Hnew Hdl) by (unfold Buffer.len in *; lia).
    apply runs_bind, runs_lift. cbn [next total_blocks pending_pages]. apply runs_bind, runs_lift.
    pose proof (Publish.co_geometry _ _ _ _ _ iv_ok) as [_ _ _ _ Hbk]. pose proof (Publish.co_tail _ _ _ _ _ iv_ok) as Htl.
    change (ms_tail (v_mapping v)) with (Spec.tail v). rewrite Hbb.
    rewrite Reservation.ensure_space_ENOSPC; [|change MAX_BACKING_BLOCKS with (2 ^ 32); lia|lia].
    assert (Hdem : demand v (lbas (v_buffer v) ++ [lba]) = lenZ (lbas (v_buffer v)) + 1
      + div_ceil (lenZ (lbas (v_buffer v)) + 1) MAXIMUM_PAYLOAD_BLOCKS
      + (Mapping.dirty_count (Write.parts v) + Reservation.distinct_pages (lbas (v_buffer v) ++ [lba]))).
    { unfold demand. rewrite length_app, Nat2Z.inj_add. done. }
    rewrite <- Hdem. destruct (Z.ltb_spec (p_at (Spec.tail v) + demand v (lbas (v_buffer v) ++ [lba])) (g_backing_blocks g));
      cbn [next]; [|by right].
    apply runs_bind. unfold Volume.on_buffer. apply runs_zoom. unfold runs at 1. rewrite Hrun. cbn [fst snd next].
    apply runs_bind, runs_lift. cbn [assert_ next]. apply runs_bind, runs_modify. cbn [next].
    apply runs_bind, runs_get. cbn [next]. set (v' := Volume.with_buffered_pages _ _).
    destruct (inv_store g v v' lba data b') as (Hi' & Hc' & Ht'); try done.
    { intros l. rewrite Hls. set_solver. }
    { by rewrite Hls. }
    { by rewrite Hls. }
    change (v_buffer v') with b'.
    destruct (Z.eqb_spec (Buffer.len b') (Buffer.capacity b')) as [Hfull|Hnf].
    + eapply runs_mono; [by apply (Spec.release_records_run g)|]. cbv beta. intros r v2 [Hnp Hr2].
      destruct r as [u|e|]; [|by left|done]. destruct Hr2 as (Hi2 & Hz & Hcap2 & Hc2 & Hid2 & Ht2).
      pose proof (Buffer.wf_capacity _ (Spec.iv_buffer _ _ Hi2)).
      split; [|destruct Ht' as [Hid Ht']; split; [congruence|auto]]. split; [split; [done|lia]|]. split; [by rewrite Hcap2|]. intros l Hl'. by rewrite Hc2, Hc'.
    + apply runs_ret. pose proof (Buffer.wf_fits _ Hb'). split; [|done].
      split; [split; [done|]|split; [exact Hcap|by intros; apply Hc']].
      change (v_buffer v') with b'. lia.
Qed.

(** ** Flush and close *)

Definition flush_post (g : Geometry) v (r : res unit) v' : Prop :=
  r <> Panic /\
  match r with
  | Ok _ => stores g v v' (Spec.contents g v) /\ Buffer.len (v_buffer v') = 0 /\ Io.durable (v_io v') /\
      Spec.tracks g v v'
  | _ => v_failed v' = true
  end.

Lemma released_ready g v r v' : Spec.released g v (Ok r) v' -> stores g v v' (Spec.contents g v).
Proof.
  intros (_ & Hi & Hz & Hcap & Hc & _). split; [|by split]. split; [done|].
  pose proof (Buffer.wf_capacity _ (Spec.iv_buffer _ _ Hi)). lia.
Qed.

(** [latch(self.io.sync())]. *)
Lemma sync_run g v :
  ready g v -> Buffer.len (v_buffer v) = 0 ->
  runs (Volume.latch (Volume.on_io Io.sync)) v (fun (r : res unit) v' =>
    flush_post g v r v' /\ (is_ok r = true -> v_mapping v' = v_mapping v)).
Proof.
  intros Hr Hz. pose proof Hr as [[] _]. apply Spec.runs_latch.
  unfold Volume.on_io, Volume.on_mapping, Mapping.on_io. apply runs_zoom, runs_zoom, runs_intro.
  intros r io Hrun. apply Io.sync_spec in Hrun as (Hu & Hnp & Hd). cbn [fst snd].
  destruct r as [[]|e|]; [|by split|done]. split; [|done]. split; [done|].
  set (v' := Volume.with_io_mapping _ v).
  assert (Hst : Mapping.still g (Spec.tail v) (Write.parts v) (Write.parts v')).
  { apply (Mapping.untouched_still g _ (Write.parts v)); [done|exact Hu]. }
  split; [by apply stores_kept; [done|apply Hst|..]|]. split; [done|]. split; [by apply Hd|].
  apply still_tracks; [apply Hr|done..].
Qed.

Lemma flush_run g v : ready g v -> runs Volume.flush v (flush_post g v).
Proof.
  intros Hr. pose proof Hr as [Hi _]. unfold Volume.flush.
  apply runs_bind, operational; [apply Hi|]. cbn [next].
  apply runs_bind. eapply runs_mono; [by apply (Spec.release_records_run g)|]. cbv beta.
  intros r v1 Hv1. destruct r as [u|e|]; [|by destruct Hv1; split|by destruct Hv1]. cbn [next].
  destruct (released_ready g v u v1 Hv1) as (Hr1 & Hcap1 & Hc1). destruct Hv1 as (_ & _ & Hz & _ & _ & Ht1).
  eapply runs_mono; [by apply (sync_run g)|]. cbv beta. intros r v2 [[Hnp Hp] _]. split; [done|].
  destruct r as [u2|e|]; [|done..]. destruct Hp as ((Hr2 & Hcap2 & Hc2) & Hz2 & Hd & Ht2).
  split; [|split; [done|split; [done|by eapply Spec.tracks_trans]]]. split; [done|]. split; [by rewrite Hcap2|]. intros l Hl. by rewrite Hc2, Hc1.
Qed.

(** A closed volume: everything is in a checkpoint. *)
Definition close_post (g : Geometry) v (r : res unit) v' : Prop :=
  r <> Panic /\
  match r with
  | Ok _ => stores g v v' (Spec.contents g v) /\ Buffer.len (v_buffer v') = 0 /\ Io.durable (v_io v') /\
      p_lsn (Spec.tail v') = c_checkpoint_lsn (Volume.descriptor v') /\ Spec.tracks g v v'
  | _ => v_failed v' = true
  end.

Lemma close_run g v : ready g v -> runs Volume.close v (close_post g v).
Proof.
  intros Hr. pose proof Hr as [Hi _]. unfold Volume.close.
  apply runs_bind, operational; [apply Hi|]. cbn [next].
  apply runs_bind. eapply runs_mono; [by apply (Spec.release_records_run g)|]. cbv beta.
  intros r v1 Hv1. destruct r as [u|e|]; [|by destruct Hv1; split|by destruct Hv1]. cbn [next].
  destruct (released_ready g v u v1 Hv1) as (Hr1 & Hcap1 & Hc1). destruct Hv1 as (_ & Hi1 & Hz & _ & _ & Ht1).
  apply runs_bind, runs_get. cbn [next]. destruct (Z.eqb_spec (p_lsn (ms_tail (v_mapping v1))) (c_checkpoint_lsn (Volume.descriptor v1))) as [He|_].
  - unfold Volume.flush. apply runs_bind, operational; [apply Hi1|]. cbn [next].
    unfold Volume.release_records. apply runs_bind, runs_bind, runs_get. cbn [next]. rewrite Hz. cbn [Z.eqb]. apply runs_ret. cbn [next].
    eapply runs_mono; [by apply (sync_run g)|]. cbv beta. intros r v2 [[Hnp Hp] Hm]. split; [done|].
    destruct r as [u2|e|]; [|done..]. destruct Hp as ((Hr2 & Hcap2 & Hc2) & Hz2 & Hd & Ht2). specialize (Hm eq_refl).
    split; [|split; [done|split; [done|split; [|by eapply Spec.tracks_trans]]]].
    + split; [done|]. split; [by rewrite Hcap2|]. intros l Hl. by rewrite Hc2, Hc1.
    + unfold Spec.tail, Volume.descriptor. rewrite Hm. exact He.
  - apply Spec.runs_latch. unfold Volume.on_mapping. apply runs_zoom.
    eapply runs_mono; [apply (Mapping.publish_mapping_run g), Hi1|]. cbv beta. intros r s2 (Hnp & Hk & Hok).
    destruct r as [u2|e|]; [|by split|done]. destruct (Hok eq_refl) as (_ & Hd & Ht & Htr).
    destruct (stores_kept g v1 (Volume.with_io_mapping s2 v1)) as (Hr2 & Hcap2 & Hc2); [done| |done..|].
    { unfold Write.parts; cbn. by rewrite <- surjective_pairing. }
    split; [done|]. split; [|split; [done|split; [done|split]]].
    + split; [done|]. split; [by rewrite Hcap2|]. intros l Hl. by rewrite Hc2, Hc1.
    + unfold Spec.tail. cbn. rewrite Ht. done.
    + eapply Spec.tracks_trans; [exact Ht1|]. apply Spec.tracks_mapping; [apply (Mapping.kp_volume _ _ _ _ _ Hk)| |done].
      unfold Write.parts; cbn. rewrite <- surjective_pairing. exact Htr.
Qed.

(** ** Sequences of operations *)

Inductive operation :=
  | Read (lba : Z)
  | Write (lba : Z) (data : list Z)
  | Sync.

(** The arguments have their types: [u32] addresses and whole blocks. *)
Definition typed (o : operation) : Prop :=
  match o with
  | Read lba => is_u32 lba
  | Write lba data => is_u32 lba /\ block_ok data
  | Sync => True
  end.

Definition perform (o : operation) : M (Volume D) (list Z) :=
  match o with
  | Read lba => Volume.read_block lba
  | Write lba data => Volume.write_block lba data ;;; mret []
  | Sync => Volume.flush ;;; mret []
  end.

(** The results of the operations, one after the other. *)
Fixpoint perform_all (os : list operation) v : list (res (list Z)) * Volume D :=
  match os with
  | [] => ([], v)
  | o :: os => let '(r, v) := perform o v in let '(rs, v) := perform_all os v in (r :: rs, v)
  end.

(** What a device of [n] blocks that holds [m] may answer. *)
Inductive answers (n : Z) : (Z -> list Z) -> list operation -> list (res (list Z)) -> Prop :=
  | answer_done m : answers n m [] []
  | answer_read m lba os rs :
      0 <= lba < n -> answers n m os rs -> answers n m (Read lba :: os) (Ok (m lba) :: rs)
  | answer_write m lba data os rs :
      0 <= lba < n -> answers n (update m lba data) os rs -> answers n m (Write lba data :: os) (Ok [] :: rs)
  | answer_sync m os rs : answers n m os rs -> answers n m (Sync :: os) (Ok [] :: rs)
  | answer_outside m lba o os rs :
      n <= lba -> (o = Read lba \/ exists data, o = Write lba data) ->
      answers n m os rs -> answers n m (o :: os) (out_of_range :: rs)
  | answer_full m lba data os rs :
      0 <= lba < n -> answers n m os rs -> answers n m (Write lba data :: os) (Err (RawOs ENOSPC) :: rs)
  | answer_failure m o os e :
      answers n m (o :: os) (Err e :: replicate (length os) (Err (OtherError "volume failed"))).

Lemma perform_failed o v : v_failed v = true -> perform o v = (Err (OtherError "volume failed"), v).
Proof.
  intros Hf. assert (Hb : forall A B (m : M (Volume D) A) (k : A -> M (Volume D) B) e,
    m v = (Err e, v) -> (x <- m ;; k x) v = (Err e, v)) by (intros A B m k e E; unfold mbind; by rewrite E).
  destruct o; cbn [perform]; [|apply Hb..]; by apply failed_stops.
Qed.

Lemma perform_all_failed os v :
  v_failed v = true -> perform_all os v = (replicate (length os) (Err (OtherError "volume failed")), v).
Proof.
  intros Hf. induction os as [|o os IH]; [done|]. cbn [perform_all length replicate].
  by rewrite (perform_failed o v Hf), IH.
Qed.

Lemma answers_failure g m o os v1 e :
  v_failed v1 = true ->
  answers g m (o :: os) (let '(rs, v) := perform_all os v1 in (Err e :: rs, v)).1.
Proof. intros Hf. rewrite (perform_all_failed os v1 Hf). constructor. Qed.

(** The result of one operation, told apart by the operation. *)
Lemma perform_run g v o : ready g v -> typed o ->
  runs (perform o) v (fun r v' => match o with
    | Read lba => read_post g v lba r v'
    | Write lba data => exists u : res unit, write_post g v lba data u v' /\ r = rmap (fun _ => []) u
    | Sync => exists u : res unit, flush_post g v u v' /\ r = rmap (fun _ => []) u
    end).
Proof.
  intros Hr Ht. destruct o as [lba|lba data|]; cbn [perform].
  - apply read_block_run; [done|apply Ht].
  - destruct Ht as [[Hl _] Hd]. apply runs_bind. eapply runs_mono; [by apply (write_block_run g)|]. cbv beta.
    intros [u|e|] v' Hp; cbn [next]; [apply runs_ret; by exists (Ok u)|by exists (Err e)|by exists Panic].
  - apply runs_bind. eapply runs_mono; [by apply (flush_run g)|]. cbv beta.
    intros [u|e|] v' Hp; cbn [next]; [apply runs_ret; by exists (Ok u)|by exists (Err e)|by exists Panic].
Qed.

Lemma perform_all_answers g os v m :
  ready g v -> Forall typed os -> (forall lba, Mapping.in_volume g lba -> Spec.contents g v lba = m lba) ->
  answers (g_volume_blocks g) m os (perform_all os v).1.
Proof.
  revert v m. induction os as [|o os IH]; intros v m Hr Hty Hm; [constructor|].
  inversion Hty as [|x l Ht Htys]; subst. cbn [perform_all].
  pose proof (perform_run g v o Hr Ht) as Hrun. unfold runs in Hrun. destruct (perform o v) as [r v1]. cbn [fst snd] in Hrun.
  assert (Hnext : forall m1, stores g v v1 m1 -> (forall lba, Mapping.in_volume g lba -> m1 lba = m lba) ->
    answers (g_volume_blocks g) m os (perform_all os v1).1).
  { intros m1 (Hr1 & _ & Hc1) Hm1. apply IH; [done|done|]. intros l Hl. by rewrite Hc1, Hm1. }
  assert (Hcons : forall a, answers (g_volume_blocks g) m (o :: os) (a :: (perform_all os v1).1) ->
    answers (g_volume_blocks g) m (o :: os) (let '(rs, v) := perform_all os v1 in (a :: rs, v)).1).
  { intros a. by destruct (perform_all os v1). }
  assert (Hsame : v1 = v -> answers (g_volume_blocks g) m os (perform_all os v1).1) by (intros ->; by apply IH).
  destruct o as [lba|lba data|].
  - destruct Hrun as [Hnp Hrun]. cbn in Ht. destruct (Z.ltb_spec lba (g_volume_blocks g)).
    + destruct r as [d|e|]; [|by apply answers_failure|done]. destruct Hrun as (-> & Hs & _). apply Hcons.
      rewrite (Hm lba) by (split; [apply Ht|done]). constructor; [split; [apply Ht|done]|]. by apply (Hnext _ Hs).
    + destruct Hrun as [-> Hv]. apply Hcons. apply (answer_outside _ _ lba); [lia|by left|by apply Hsame].
  - destruct Hrun as (u & Hrun & ->). destruct Ht as [Hl Hd]. unfold write_post in Hrun.
    destruct (Z.ltb_spec lba (g_volume_blocks g)).
    + destruct u as [[]|e|]; [| |done]; cbn [rmap rbind].
      * apply Hcons. constructor; [split; [apply Hl|done]|]. destruct Hrun as [(Hr1 & _ & Hc1) _].
        apply IH; [done|done|]. intros l Hl'. rewrite Hc1 by done. unfold update. case_decide; [done|by apply Hm].
      * destruct Hrun as [Hf|(Hv & -> & _)]; [by apply answers_failure|]. apply Hcons.
        apply answer_full; [split; [apply Hl|done]|by apply Hsame].
    + destruct Hrun as [-> Hv]. apply Hcons. apply (answer_outside _ _ lba); [lia|right; by exists data|by apply Hsame].
  - destruct Hrun as (u & [Hnp Hrun] & ->). destruct u as [[]|e|]; [|by apply answers_failure|done].
    cbn [rmap rbind]. apply Hcons. constructor. by apply (Hnext _ (proj1 Hrun)).
Qed.

(** A volume with a new root, whatever the device holds. *)
Lemma ready_new blocks backing g vid c b io m n st after live :
  is_u32 blocks -> is_u64 vid -> is_u64 backing -> Geometry.new blocks backing = Ok g ->
  MappingCache.wf c -> volume_blocks c = blocks -> (forall p, MappingCache.view c p = None) ->
  Buffer.with_capacity n = Ok b -> 2 <= n <= Reservation.buffer_limit -> n <= capacity (sizing c) ->
  Index.empty g vid = Ok (ms_checkpoint m) -> ms_cache m = c -> ms_tail m = Publish.end_of (ms_checkpoint m) ->
  ready g {| v_io := io; v_mapping := m; v_buffer := b; v_buffered_pages := 0; v_stats := st;
             v_checkpoint_after := after; v_live_blocks := live; v_failed := false |}.
Proof.
  intros Hv Hid Hbk Hg Hc Hvol Hview Hb Hn Hcap Hk Hmc Hmt.
  destruct (Publish.coherent_new blocks backing g vid (Io.file io) c Hv Hid Hbk Hg Hc Hvol Hview) as (k & Hk' & Hco).
  rewrite Hk in Hk'. injection Hk' as <-.
  destruct (Buffer.with_capacity_wf n ltac:(lia)) as (b' & Hb' & Hbw & Hbc & Hbl & Hbn).
  rewrite Hb in Hb'. injection Hb' as <-. set (v := Build_Volume _ _ _ _ _ _ _ _).
  assert (Hok : Mapping.ok_at g (Spec.tail v) (Write.parts v)).
  { unfold Mapping.ok_at, Mapping.cache, Spec.tail; cbn. by rewrite Hmc, Hmt. }
  assert (Hlen : Buffer.len b = 0) by (unfold Buffer.len; by rewrite Hbl).
  assert (Hempty : forall p, Mapping.page g (Write.parts v) p = default Entries.zeroed
    (PageRead.PageRead.disk_page (Io.file io) (ms_checkpoint m) g p)).
  { intros p. unfold Mapping.page, Publish.page, Mapping.cache; cbn. by rewrite Hmc, Hview. }
  split; [|change (v_buffer v) with b; lia]. constructor; try done; cbn [v v_buffer v_buffered_pages].
  - rewrite Hbc. lia.
  - intros lba Hl. rewrite Hbl in Hl. by apply not_elem_of_nil in Hl.
  - intros lba d. by rewrite Hbn.
  - rewrite Hbl. done.
  - unfold Mapping.cache; cbn. rewrite Hmc. lia.
  - intros lba Hl. unfold Mapping.entry. rewrite Hempty. unfold PageRead.PageRead.disk_page.
    destruct (Index.empty_Ok blocks backing g vid Hv Hid Hg Hbk) as (k & Hk' & _ & Hp & _). rewrite Hk in Hk'. injection Hk' as <-.
    rewrite Hp. unfold zeros. destruct (replicate _ _ !! _) as [x|] eqn:E; [|by rewrite Entries.get_zeroed].
    apply lookup_replicate_1 in E as [-> _]. cbn [Z.eqb default from_option id]. by rewrite Entries.get_zeroed.
  - pose proof (Publish.co_tail _ _ _ _ _ Hco). unfold Spec.owed, Spec.tail, Mapping.dirty_count, Mapping.cache; cbn.
    rewrite Hlen, Hmc, Hmt.
    assert (MappingCache.dirty_pages c = []) as ->.
    { destruct (MappingCache.dirty_pages c) as [|[p e] l] eqn:E; [done|]. exfalso.
      assert ((p, e) ∈ MappingCache.dirty_pages c) as Hin by (rewrite E; by left).
      apply MappingCache.dirty_pages_elem in Hin; [|done]. by rewrite Hview in Hin. }
    change (div_ceil 0 MAXIMUM_PAYLOAD_BLOCKS) with 0. cbn [length]. lia.
Qed.




(** C13. When [flush] succeeds the buffer is on the log, no block has changed, and
    what a crash leaves of the file is what the file holds. *)
Theorem flush_makes_durable g v r v' :
  ready g v -> Volume.flush v = (r, v') ->
  match r with
  | Ok _ => stores g v v' (Spec.contents g v) /\ Buffer.len (v_buffer v') = 0 /\
      forall c, may_hold (dev (v_io v')) c -> forall x, c x = Io.file (v_io v') x
  | Err _ => v_failed v' = true
  | Panic => False
  end.
Proof.
  intros Hr Hrun. apply (runs_elim _ _ _ _ _ (flush_run g v Hr)) in Hrun as [Hnp Hrun].
  destruct r; [|done..]. by destruct Hrun as (? & ? & ? & _).
Qed.

(** C15. A volume that has failed refuses every operation and does not change. *)
Theorem failed_volume_stays_failed v :
  v_failed v = true ->
  (forall o, perform o v = (Err (OtherError "volume failed"), v)) /\
  Volume.close v = (Err (OtherError "volume failed"), v).
Proof.
  intros Hf. split; [intros o; by apply perform_failed|]. by apply failed_stops.
Qed.

End refine.
End Refine.

(** ** A concrete volume *)

#[local] Existing Instance example_platform.
#[local] Existing Instance fold_xxh3.

Definition fresh_geometry : Geometry :=
  the_ok {| g_volume_blocks := 0; g_backing_blocks := 0; g_page_count := 0; g_index_blocks := 0;
            g_log_start := 0 |} (Geometry.new 1000 100).

Definition fresh_checkpoint : Checkpoint := the_ok example_blank (Index.empty fresh_geometry 77).

Definition fresh_mapping : MappingState :=
  {| ms_checkpoint := fresh_checkpoint; ms_cache := example_cache; ms_tail := Publish.end_of fresh_checkpoint;
     ms_recovery := zero_recovery_stats; ms_pressure_checkpoints := 0; ms_checkpoint_failures := 0;
     ms_last_read_page := None |}.

Definition fresh_buffer : WriteBackBuffer :=
  the_ok {| arena := []; lbas := []; slot_of_lba := ∅ |} (Buffer.with_capacity 2).

(** A volume of 1000 blocks over a log of 94, with two buffer slots. *)
Definition fresh_volume : Volume MemDevice :=
  {| v_io := Io.new example_device None; v_mapping := fresh_mapping; v_buffer := fresh_buffer;
     v_buffered_pages := 0; v_stats := Stats.zero; v_checkpoint_after := DEFAULT_CHECKPOINT_AFTER_BYTES;
     v_live_blocks := 0; v_failed := false |}.

Lemma fresh_volume_ready : Refine.ready fresh_geometry fresh_volume.
Proof.
  assert (Hg : Geometry.new 1000 100 = Ok fresh_geometry) by (apply is_ok_the; vm_compute; reflexivity).
  destruct example_cache_wf as (Hc & Hsz & Hr & Hvol).
  apply (Refine.ready_new 1000 100 fresh_geometry 77 example_cache fresh_buffer _ fresh_mapping 2);
    [split; reflexivity || discriminate | split; reflexivity || discriminate | split; reflexivity || discriminate
    | exact Hg | exact Hc | exact Hvol | | reflexivity | split; discriminate | | | reflexivity | reflexivity].
  - intros p. destruct (MappingCache.view example_cache p) as [[e d]|] eqn:E; [|reflexivity]. exfalso.
    unfold MappingCache.view in E. destruct (lookup example_cache !! p) as [s|] eqn:El; [|discriminate E].
    apply MappingCache.resident_page in El as [Hs _]; [|exact Hc]. lia.
  - rewrite Hsz. vm_compute. discriminate.
  - destruct (Index.empty_Ok 1000 100 fresh_geometry 77) as (k & Hk & _);
      [split; reflexivity || discriminate | split; reflexivity || discriminate | exact Hg | split; reflexivity || discriminate |].
    cbn [ms_checkpoint fresh_mapping]. unfold fresh_checkpoint. rewrite Hk. reflexivity.
Qed.

Definition sample_block : list Z := put 0 [1; 2; 3] zero_block.

Lemma sample_block_ok : block_ok sample_block.
Proof. apply block_okb_spec. vm_compute. reflexivity. Qed.



(** The volume with one block written and released to the log. *)
Definition stored_volume : Volume MemDevice := (Volume.write_block 5 sample_block fresh_volume).2.
Definition released_volume : Volume MemDevice := (Volume.flush stored_volume).2.

Lemma released_volume_ready : Refine.ready fresh_geometry released_volume.
Proof.
  assert (E1 : (Volume.write_block 5 sample_block fresh_volume).1 = Ok tt) by (vm_compute; reflexivity).
  assert (E2 : (Volume.flush stored_volume).1 = Ok tt) by (vm_compute; reflexivity).
  pose proof (Refine.write_block_run fresh_geometry fresh_volume 5 sample_block fresh_volume_ready
    ltac:(discriminate) sample_block_ok) as H1. unfold runs in H1. rewrite E1 in H1.
  assert (Hlt : (5 <? g_volume_blocks fresh_geometry) = true) by (vm_compute; reflexivity).
  unfold Refine.write_post in H1. rewrite Hlt in H1. destruct H1 as [[Hr1 _] _].
  pose proof (Refine.flush_run fresh_geometry stored_volume Hr1) as H2. unfold runs in H2. rewrite E2 in H2.
  exact (proj1 (proj1 (proj2 H2))).
Qed.


Lemma flush_makes_durable_witness :
  let run := Volume.flush fresh_volume in
  is_ok run.1 = true /\ forall c, may_hold (dev (v_io run.2)) c -> forall x, c x = Io.file (v_io run.2) x.
Proof.
  intros run. assert (E : run.1 = Ok tt) by (vm_compute; reflexivity).
  pose proof (surjective_pairing run) as Hp. rewrite E in Hp. split; [rewrite E; reflexivity|].
  exact (proj2 (proj2 (Refine.flush_makes_durable fresh_geometry fresh_volume (Ok tt) run.2 fresh_volume_ready Hp))).
Defined.

Lemma failed_volume_stays_failed_witness :
  let v := Volume.with_failed true fresh_volume in
  Refine.perform (Refine.Write 5 sample_block) v = (Err (OtherError "volume failed"), v).
Proof. exact (proj1 (Refine.failed_volume_stays_failed (Volume.with_failed true fresh_volume) eq_refl) _). Defined.
