(* ===== verification/Replay.v ===== *)
(** What the recovery of the tail leaves in the mapping: the entries of the root, with
    those of the records on the log stored over them; for [scan], [replay_window] and
    [apply] of [src/rust/src/format_v3/recovery.rs], when the pages to change fit the cache. *)

From S2P Require Import Prelude Bytes Geometry Format DataRecord Entries MappingPage.
From S2P Require Import Checkpoint Index Clock Sizing MappingCache Config Reservation.
From S2P Require Import WriteBuffer Accounting Uring Device BackingIo Tail PageRead Publish Recovery.
From S2P Require Import MappingState Volume VolumeWrite Log.

Create HintDb moved.

Module Replay.
Section replay.
Context `{Xxh3} `{Platform} {D : Type} `{!Device D} `{!DeviceLaws D}.
Implicit Types (s : RecoveryState D).

(** The mapping that a recovery has so far. *)
Definition view s : Mapping.State (D := D) :=
  (rv_io s, {| ms_checkpoint := rv_active s; ms_cache := rv_cache s; ms_tail := rv_end s;
     ms_recovery := zero_recovery_stats; ms_pressure_checkpoints := 0; ms_checkpoint_failures := 0;
     ms_last_read_page := None |}).

(** An operation on the backing failed. *)
Definition fails {A} s (r : res A) : Prop := exists e, r = Err e /\ Io.failure (rv_io s) e.

Lemma fails_after {A} s s' (r : res A) : Io.unbooked (rv_io s) (rv_io s') -> fails s' r -> fails s r.
Proof. intros Hu (e & -> & He). exists e. split; [done|by eapply Io.failure_unbooked]. Qed.

Lemma runs_assoc {S A B C} (m : M S A) (f : A -> M S B) (h : B -> M S C) (s : S) (Q : res C -> S -> Prop) :
  runs (mbind (mbind m f) h) s Q -> runs (mbind m (fun a => mbind (f a) h)) s Q.
Proof. unfold runs. by rewrite mbind_assoc. Qed.

(** Only the cache and the statistics may differ. *)
Record moved s s' : Prop := {
  mv_io : Io.untouched (rv_io s) (rv_io s');
  mv_active : rv_active s' = rv_active s;
  mv_candidate : rv_candidate s' = rv_candidate s;
  mv_end : rv_end s' = rv_end s;
}.

Lemma moved_refl s : moved s s.
Proof. by constructor. Qed.

Lemma moved_trans a b c : moved a b -> moved b c -> moved a c.
Proof. intros [] []. constructor; [by eapply Io.untouched_trans|congruence..]. Qed.

Lemma failure_moved s s' e : moved s s' -> Io.failure (rv_io s') e -> Io.failure (rv_io s) e.
Proof. intros []. by apply Io.failure_untouched. Qed.

#[local] Hint Resolve failure_moved moved_trans : moved.

Lemma fails_moved {A} s s' (r : res A) : moved s s' -> fails s' r -> fails s r.
Proof. intros []. by apply fails_after, mv_io0. Qed.

Lemma add_run s a b c d e x (Q : res unit -> RecoveryState D -> Prop) :
  (forall s', moved s s' -> rv_cache s' = rv_cache s -> Q (Ok tt) s') -> runs (Recovery.add a b c d e x) s Q.
Proof. intros HQ. unfold Recovery.add. apply runs_modify, HQ; [by constructor|done]. Qed.

Lemma on_io_read s b (Q : res (list Z) -> RecoveryState D -> Prop) :
  0 <= b ->
  (forall s', moved s s' -> rv_cache s' = rv_cache s -> Q (Ok (Io.file (rv_io s) b)) s') ->
  (forall e s', moved s s' -> rv_cache s' = rv_cache s -> Io.failure (rv_io s) e -> Q (Err e) s') ->
  runs (Recovery.on_io (Io.read_block_exact b)) s Q.
Proof.
  intros Hb Hok Herr. unfold Recovery.on_io. apply runs_zoom, Log.block_read_run; [done| |].
  - intros io' Hu. apply Hok; [by constructor|done].
  - intros e io' Hu He. by apply Herr; [constructor|..].
Qed.

Lemma on_io_tally s a b c d e x (Q : res unit -> RecoveryState D -> Prop) :
  (forall s', moved s s' -> rv_cache s' = rv_cache s -> Q (Ok tt) s') -> runs (Recovery.on_io (Io.tally a b c d e x)) s Q.
Proof. intros HQ. unfold Recovery.on_io. apply runs_zoom, Log.tally_run. intros io' Hu. apply HQ; [by constructor|done]. Qed.

(** ** One entry *)

Lemma read_page_run g s p :
  Index.wf (rv_active s) g -> 0 <= p ->
  is_Some (PageRead.disk_page (Io.file (rv_io s)) (rv_active s) g p) ->
  runs (Recovery.read_page p) s (fun r s' => moved s s' /\ rv_cache s' = rv_cache s /\
    (fails s r \/ exists e, r = Ok e /\ PageRead.disk_page (Io.file (rv_io s)) (rv_active s) g p = Some e)).
Proof.
  intros Hw Hp [e He]. rewrite He. unfold Recovery.read_page. apply runs_bind, runs_get. cbn [next].
  unfold PageRead.disk_page in He. destruct (k_pages (rv_active s) !! Z.to_nat p) as [b|] eqn:Eb; [|done].
  apply runs_bind, runs_lift. cbn [expect next]. destruct (Z.eqb_spec b 0) as [->|Hb].
  { injection He as <-. apply runs_ret. split; [apply moved_refl|]. split; [done|]. right. by eexists. }
  pose proof (Index.wf_pointers _ _ Hw) as Hall. pose proof (proj1 (Forall_lookup _ _) Hall _ _ Eb) as [Hu _].
  apply runs_bind, on_io_read; [unfold is_u32 in Hu; lia|intros s1 Hm1 Hc1; cbn [next]|].
  2: { intros err s1 Hm He' Hcl. cbn [next]. split; [done|]. split; [done|]. left. by exists err. }
  apply runs_bind, on_io_tally. intros s2 Hm2 Hc2. cbn [next].
  apply runs_bind, add_run. intros s3 Hm3 Hc3. cbn [next].
  apply runs_bind, runs_lift. rewrite (Index.wf_geometry _ _ Hw). cbn [next].
  apply runs_bind, runs_lift. destruct (PageRecord.decode _ _) as [r| |]; [|done..]. injection He as <-. cbn [next].
  apply runs_ret. split; [by eapply moved_trans; [eapply moved_trans|]|]. split; [congruence|]. right. by eexists.
Qed.

(** An entry was stored: the next state maps [lba] to [v]. *)
Record stored g (lba : Z) (v : Z * Z) s s' : Prop := {
  so_moved : moved s s';
  so_ok : Mapping.ok_at g (rv_end s) (view s');
  so_shape : MappingCache.same_shape (rv_cache s) (rv_cache s');
  so_dirty : forall q, q ∈ MappingCache.dirty_ids (rv_cache s') ->
    q ∈ MappingCache.dirty_ids (rv_cache s) \/ q = lba / ENTRIES_PER_PAGE;
  so_entry : Mapping.entry g (view s') lba = v;
  so_other : forall lba', Mapping.in_volume g lba' -> lba' <> lba ->
    Mapping.entry g (view s') lba' = Mapping.entry g (view s) lba';
  so_keeps : forall q, q ∈ MappingCache.dirty_ids (rv_cache s) -> q ∈ MappingCache.dirty_ids (rv_cache s');
  so_marked : lba / ENTRIES_PER_PAGE ∈ MappingCache.dirty_ids (rv_cache s');
  so_resident : forall q, is_Some (MappingCache.view (rv_cache s') q) ->
    is_Some (MappingCache.view (rv_cache s) q) \/ q = lba / ENTRIES_PER_PAGE;
}.

(** Cache and file changed behind the scenes. *)
Lemma refreshed_view g s s' :
  Mapping.ok_at g (rv_end s) (view s) -> moved s s' ->
  MappingCache.wf (rv_cache s') -> MappingCache.same_shape (rv_cache s) (rv_cache s') ->
  PageRead.refreshed (Io.file (rv_io s)) (rv_active s) g (rv_cache s) (rv_cache s') ->
  Mapping.still g (rv_end s) (view s) (view s').
Proof.
  intros Hok [] Hc Hsh Hr. apply (Mapping.refreshed_still g (rv_end s) (view s) (rv_cache s')); done.
Qed.

(** The page of an entry, acquired and read. *)
Lemma acquire_run g (U : gset Z) s p :
  Mapping.ok_at g (rv_end s) (view s) -> 0 <= p < g_page_count g ->
  (forall q, q ∈ MappingCache.dirty_ids (rv_cache s) -> q ∈ U) -> p ∈ U ->
  Z.of_nat (size U) <= capacity (sizing (rv_cache s)) ->
  runs (acquisition <- Recovery.on_cache (mmap_err Recovery.recovery_error (MappingCache.acquire p RecoveryAccess)) ;;
        match acquisition with
        | Resident slot valid => mret (slot, valid)
        | Vacant page slot =>
            entries <- Recovery.read_page p ;;
            installed <- Recovery.on_cache (mmap_err Recovery.recovery_error (MappingCache.install page slot entries)) ;;
            match installed with
            | Resident slot valid => mret (slot, valid)
            | _ => mlift Panic
            end
        | CheckpointRequired _ => mlift (Err (InvalidData "recovery window exceeds cache capacity"))
        end) s (fun r s' => fails s r \/ exists slot, moved s s' /\
          r = Ok (slot, MappingCache.page_entries (g_volume_blocks g) p) /\ lookup (rv_cache s') !! p = Some slot /\
          Mapping.still g (rv_end s) (view s) (view s') /\
          forall q, is_Some (MappingCache.view (rv_cache s') q) -> is_Some (MappingCache.view (rv_cache s) q) \/ q = p).
Proof.
  intros Hok Hp HU HpU Hcap. pose proof Hok as []. change (Mapping.cache (view s)) with (rv_cache s) in *.
  change (Mapping.files (view s)) with (Io.file (rv_io s)) in *. change (ms_checkpoint (snd (view s))) with (rv_active s) in *.
  pose proof (Mapping.page_count_ok g _ _ Hok) as Hpc.
  destruct (MappingCache.acquire_Ok (rv_cache s) p RecoveryAccess co_cache) as (a & c1 & Hrun & Ha & Hc1 & Hsh1 & _ & Hv1);
    [cbn in Hpc; by rewrite Hpc|].
  apply runs_bind. unfold Recovery.on_cache at 1. apply runs_zoom, runs_map_err. unfold runs at 1. rewrite Hrun.
  cbn [fst snd map_err next]. set (s1 := Recovery.with_cache c1 s).
  assert (Hm1 : moved s s1) by (constructor; try done; apply Io.untouched_refl).
  assert (Hst1 : Mapping.still g (rv_end s) (view s) (view s1)).
  { apply refreshed_view; [done..|]. intros q. by left. }
  pose proof (Mapping.sl_kept _ _ _ _ Hst1) as Hk1. destruct a as [slot valid|p' slot|p'].
  - destruct Ha as [Hl ->]. apply runs_ret. right. exists slot. split; [done|]. split; [by rewrite (proj1 (proj2 Hsh1)), co_volume|].
    split; [done|]. split; [done|]. intros q. cbn. rewrite Hv1. by left.
  - destruct Ha as [-> Ho]. pose proof (Mapping.kp_ok _ _ _ _ _ Hk1) as Hok1. pose proof Hok1 as [].
    change (ms_checkpoint (snd (view s1))) with (rv_active s) in *. change (Mapping.files (view s1)) with (Io.file (rv_io s)) in *.
    apply runs_bind. eapply runs_mono; [apply (read_page_run g s1 p); [done|lia|by apply co_disk]|].
    cbv beta. intros r s2 (Hm2 & Hc2 & Hr). destruct Hr as [(e & -> & He)|(e & -> & He)]; cbn [next]; [left; exists e; split; [done|eauto 6 with moved]|].
    destruct (PageRead.disk_page_valid (Io.file (rv_io s)) (rv_active s) g p e) as ([Hesh _] & Heva & _);
      [intros; apply content_ok|done|lia|done|].
    change (rv_cache s1) with c1 in Hc2.
    destruct (MappingCache.install_run c1 p slot e Hc1 Ho Hesh) as (c3 & Hrun3 & Hc3 & Hs3 & Hl3 & Hv3 & Hkept3 & _).
    { by rewrite (proj1 (proj2 Hsh1)), co_volume. }
    apply runs_bind. unfold Recovery.on_cache. apply runs_zoom, runs_map_err. unfold runs at 1. rewrite Hc2, Hrun3.
    cbn [fst snd map_err next]. apply runs_ret. right. exists slot. set (s3 := Recovery.with_cache c3 s2).
    assert (Hm3 : moved s1 s3) by (by destruct Hm2; constructor).
    split; [by eapply moved_trans|]. split; [by rewrite (proj1 (proj2 Hsh1)), co_volume|]. split; [done|].
    split.
    2: { intros q. change (rv_cache s3) with c3. destruct (decide (q = p)) as [->|Hne]; [by right|]. rewrite <- Hv1.
         destruct (Hkept3 q Hne) as [->|[-> _]]; [by left|by intros []]. }
    eapply Mapping.still_trans; [exact Hst1|]. change (rv_end s) with (rv_end s1). apply refreshed_view; [done..|].
    apply (PageRead.brought_refreshed _ _ _ _ _ p e); [|done..].
    intros d Hd. destruct Ho as (_ & Hn & _). apply (MappingCache.view_None _ p Hc1) in Hn. cbn in Hd. congruence.
  - exfalso. destruct (MappingCache.required_count c1 p p' Hc1 Ha) as [Hfull Hnot].
    assert (HU1 : forall q, q ∈ MappingCache.dirty_ids (Mapping.cache (view s1)) -> q ∈ U).
    { intros q Hq. apply HU. by apply (Mapping.kp_dirty _ _ _ _ _ Hk1). }
    destruct (Write.room_set (view s1) U p Hc1 HU1 HpU) as [Hr|Hr]; [|unfold Mapping.dirty_count in Hr; cbn in Hr; lia|done].
    change (Mapping.cache (view s1)) with c1. by rewrite (proj1 Hsh1).
Qed.

(** The pages of a window. *)
Definition inside (window : Z * Z) (p : Z) : bool := (window.1 <=? p) && (p <? window.2).

Definition within (window : Z * Z) (X : gset Z) : gset Z := filter (fun p => inside window p = true) X.

(** [m'] on the blocks of the window, [m] on the others. *)
Definition only (window : Z * Z) (m' m : Z -> Z * Z) (lba : Z) : Z * Z :=
  if inside window (lba / ENTRIES_PER_PAGE) then m' lba else m lba.

Lemma elem_of_within window X p : p ∈ within window X <-> inside window p = true /\ p ∈ X.
Proof. unfold within. by rewrite elem_of_filter. Qed.

(** The assignment of the index [i] of a record. *)
Record assigned g s (data : DataRecord) (i lba : Z) (v : Z * Z) : Prop := {
  as_lba : d_lba_ids data !! Z.to_nat i = Some lba;
  as_sum : d_checksums data !! Z.to_nat i = Some v.2;
  as_physical : v.1 = h_previous_boundary (d_header data) + 1 + i;
  as_volume : Mapping.in_volume g lba;
  as_word : is_u64 v.2;
  as_log : g_log_start g <= v.1 <= p_at (rv_end s);
}.

Lemma apply_entry_run g (U : gset Z) s data window i lba v :
  Mapping.ok_at g (rv_end s) (view s) -> 0 < g_log_start g -> p_at (rv_end s) < 2 ^ 32 ->
  assigned g s data i lba v -> inside window (lba / ENTRIES_PER_PAGE) = true ->
  (forall q, q ∈ MappingCache.dirty_ids (rv_cache s) -> q ∈ U) -> lba / ENTRIES_PER_PAGE ∈ U ->
  Z.of_nat (size U) <= capacity (sizing (rv_cache s)) ->
  runs (Recovery.apply_entry data window i) s (fun r s' => fails s r \/ (r = Ok tt /\ stored g lba v s s')).
Proof.
  intros Hok Hls H32 [] Hw HU HpU Hcap.
  destruct (Mapping.in_volume_page g lba (Publish.co_geometry _ _ _ _ _ Hok) as_volume0) as (Hp & He & He').
  unfold Recovery.apply_entry. apply runs_bind, runs_lift. rewrite as_lba0. cbn [expect next].
  set (p := lba / ENTRIES_PER_PAGE) in *. set (entry := lba mod ENTRIES_PER_PAGE) in *.
  unfold inside in Hw. fold p in Hw. rewrite Hw. cbn [negb].
  apply runs_assoc, runs_bind. eapply runs_mono; [by apply (acquire_run g U)|].
  cbv beta. intros r s1 [(e & -> & Herr)|(slot & Hm1 & -> & Hl1 & [Hk1 Hq1] & Hres1)]; cbn [next]; [left; exists e; split; [done|eauto 6 with moved]|].
  pose proof (Mapping.kp_ok _ _ _ _ _ Hk1) as Hok1. pose proof (Publish.co_cache _ _ _ _ _ Hok1) as Hc1.
  change (Mapping.cache (view s1)) with (rv_cache s1) in Hc1.
  pose proof (Publish.co_volume _ _ _ _ _ Hok1) as Hvol. change (Mapping.cache (view s1)) with (rv_cache s1) in Hvol.
  apply runs_bind, runs_get. cbn [next].
  destruct (MappingCache.resident_page _ _ _ Hc1 Hl1) as (Hr & sl & Hat & Hid).
  apply runs_bind, runs_lift. unfold MappingCache.entries, MappingCache.slot_at. rewrite Hat. cbn [expect rbind map_err next].
  apply runs_bind, runs_lift. rewrite as_sum0. cbn [expect next].
  destruct (MappingCache.update_Ok (rv_cache s1) p slot entry v.1 v.2 Hc1 Hl1) as (e & d & c2 & Hv & Hrun & Hc2 & Hsh2 & _ & Hv2);
    [by rewrite Hvol|lia|].
  rewrite Hvol in Hrun. apply runs_bind. unfold Recovery.on_cache. apply runs_zoom, runs_map_err. unfold runs at 1.
  rewrite <- as_physical0, Hrun. cbn [fst snd map_err next]. apply add_run. intros s3 Hm3 Hc3. right. split; [done|].
  set (s2 := Recovery.with_cache c2 s1) in *. change (rv_cache s2) with c2 in Hc3.
  assert (Hm : moved s s3).
  { eapply moved_trans; [exact Hm1|]. eapply moved_trans; [|exact Hm3]. by constructor. }
  assert (He0 : e = Mapping.page g (view s1) p).
  { unfold Mapping.page, Publish.page. change (Mapping.cache (view s1)) with (rv_cache s1). by rewrite Hv. }
  assert (Hty : Entries.typed e) by (eapply Publish.co_entries; [exact Hok1|exact Hv]).
  destruct (Mapping.ok_update g (rv_end s) (view s1) c2 p (Entries.set e entry v.1 v.2)) as [Hok2 Hpg2]; try done.
  { apply Entries.set_typed; [done| |done]. unfold is_u32. lia. }
  { intros j Hj. rewrite Entries.get_set by (done || apply Hty || lia). destruct (entry =? j); [done|].
    rewrite He0. by apply (Mapping.page_valid g _ _ p Hok1). }
  assert (Hio : Io.untouched (rv_io s1) (rv_io s3)) by apply Hm3.
  destruct (Mapping.ok_extend g (rv_end s) (rv_end s) (fst (view s1), Mapping.with_cache c2 (snd (view s1))) (rv_io s3)) as [Hok3 Hpg3];
    [exact Hok2|split; [lia|apply Hok]|split; [lia|apply Hok]|intros x _; apply Hio|].
  assert (Ev : (rv_io s3, snd (fst (view s1), Mapping.with_cache c2 (snd (view s1)))) = view s3).
  { unfold view, Mapping.with_cache. cbn. rewrite (mv_active _ _ Hm3), (mv_end _ _ Hm3), Hc3. done. }
  rewrite Ev in Hok3, Hpg3.
  assert (Hpages : forall q, Mapping.page g (view s3) q = if decide (q = p) then Entries.set e entry v.1 v.2 else Mapping.page g (view s1) q).
  { intros q. by rewrite Hpg3, Hpg2. }
  assert (Hids : forall q, q ∈ MappingCache.dirty_ids (rv_cache s3) <-> q = p \/ q ∈ MappingCache.dirty_ids (rv_cache s)).
  { intros q. rewrite Hc3, MappingCache.dirty_ids_elem by done. rewrite <- (Mapping.qt_dirty _ _ Hq1).
    change (Mapping.cache (view s1)) with (rv_cache s1). rewrite MappingCache.dirty_ids_elem by done. setoid_rewrite Hv2.
    case_decide as E; [split; [by left|intros _; by eexists]|split; [by right|by intros [?|?]]]. }
  constructor; [done|exact Hok3| | | | |intros q Hq; apply Hids; by right|apply Hids; by left|].
  - rewrite Hc3. destruct (Mapping.kp_shape _ _ _ _ _ Hk1) as (? & ? & ?), Hsh2 as (? & ? & ?).
    unfold MappingCache.same_shape. cbn in *. split_and!; congruence.
  - intros q [Hq|Hq]%Hids; [by right|by left].
  - unfold Mapping.entry. fold p entry. rewrite Hpages, decide_True by done.
    rewrite Entries.get_set, Z.eqb_refl by (done || apply Hty || lia). by destruct v.
  - intros lba' Hl' Hne. rewrite <- (Mapping.kept_entry g _ _ _ _ Hk1 Hok lba' Hl'). unfold Mapping.entry.
    rewrite Hpages. case_decide as Ep; [|done]. rewrite Ep. rewrite <- He0.
    destruct (Mapping.in_volume_page g lba' (Publish.co_geometry _ _ _ _ _ Hok) Hl') as (_ & _ & Hm').
    rewrite Entries.get_set by (done || apply Hty || lia).
    destruct (Z.eqb_spec entry (lba' mod ENTRIES_PER_PAGE)) as [Em|]; [|done].
    destruct Hne. by apply Mapping.lba_inj.
  - intros q. rewrite Hc3, Hv2. case_decide as E; [by right|apply Hres1].
Qed.

Lemma apply_entry_skip g s data window i lba v :
  assigned g s data i lba v -> inside window (lba / ENTRIES_PER_PAGE) = false ->
  Recovery.apply_entry data window i s = (Ok tt, s).
Proof.
  intros [] Hw. unfold Recovery.apply_entry. rewrite as_lba0. cbn [expect]. step. unfold inside in Hw. by rewrite Hw.
Qed.

(** ** One record *)

(** The mapping of [s'] is [m]; what is dirty is among [U]. *)
Record replayed g (U : gset Z) (m : Z -> Z * Z) s s' : Prop := {
  rp_moved : moved s s';
  rp_ok : Mapping.ok_at g (rv_end s) (view s');
  rp_shape : MappingCache.same_shape (rv_cache s) (rv_cache s');
  rp_dirty : forall q, q ∈ MappingCache.dirty_ids (rv_cache s') -> q ∈ U;
  rp_keeps : forall q, q ∈ MappingCache.dirty_ids (rv_cache s) -> q ∈ MappingCache.dirty_ids (rv_cache s');
  rp_entry : forall lba, Mapping.in_volume g lba -> Mapping.entry g (view s') lba = m lba;
  rp_resident : forall q, is_Some (MappingCache.view (rv_cache s') q) ->
    is_Some (MappingCache.view (rv_cache s) q) \/ q ∈ MappingCache.dirty_ids (rv_cache s');
}.

#[local] Hint Resolve rp_moved : moved.

(** The pages [X] are dirty. *)
Definition marked (X : gset Z) s : Prop := forall p, p ∈ X -> p ∈ MappingCache.dirty_ids (rv_cache s).

(** The pages to change fit the cache. *)
Record fits g (U : gset Z) s : Prop := {
  ft_ok : Mapping.ok_at g (rv_end s) (view s);
  ft_log : 0 < g_log_start g;
  ft_dirty : forall q, q ∈ MappingCache.dirty_ids (rv_cache s) -> q ∈ U;
  ft_size : Z.of_nat (size U) <= capacity (sizing (rv_cache s));
}.

Lemma fits_end g U s : fits g U s -> p_at (rv_end s) < 2 ^ 32.
Proof.
  intros [[] _ _ _]. destruct co_geometry. lia.
Qed.

Lemma replayed_refl g U s : fits g U s -> replayed g U (Mapping.entry g (view s)) s s.
Proof. intros []. constructor; try done. by left. Qed.

Lemma replayed_fits g U m s s' : fits g U s -> replayed g U m s s' -> fits g U s'.
Proof. intros [] [Hm ? Hz ? ? ? ?]. constructor; [by rewrite (mv_end _ _ Hm)|done|done|by rewrite (proj1 Hz)]. Qed.

Lemma same_shape_trans a b c : MappingCache.same_shape a b -> MappingCache.same_shape b c -> MappingCache.same_shape a c.
Proof. intros (? & ? & ?) (? & ? & ?). unfold MappingCache.same_shape. split_and!; congruence. Qed.

Lemma replayed_trans g U m1 m2 a b c : replayed g U m1 a b -> replayed g U m2 b c -> replayed g U m2 a c.
Proof.
  intros [] []. constructor; [by eapply moved_trans| |by eapply same_shape_trans|done|auto|done|].
  - by rewrite <- (mv_end _ _ rp_moved0).
  - intros q Hq. apply rp_resident1 in Hq as [Hq|?]; [|by right]. apply rp_resident0 in Hq as [?|?]; [by left|right; auto].
Qed.

Lemma apply_run g U s record window :
  fits g U s -> Log.sound_record g record -> h_boundary (d_header record) <= p_at (rv_end s) ->
  within window (Log.touched [LogData record]) ⊆ U ->
  runs (Recovery.apply record window) s (fun r s' =>
    fails s r \/ (r = Ok tt /\
      replayed g U (only window (Log.store record (Mapping.entry g (view s))) (Mapping.entry g (view s))) s s' /\
      marked (within window (Log.touched [LogData record])) s')).
Proof.
  intros Hf Hr Hend HU. pose proof Hf as []. unfold Recovery.apply.
  apply runs_bind, runs_lift. rewrite (Log.sound_count g) by done. cbn [next].
  pose proof (Log.sr_valid _ _ Hr) as []. pose proof (Log.sr_typed _ _ Hr) as (_ & Hl & _ & Hc & Hcu).
  change MAXIMUM_PAYLOAD_BLOCKS with 338 in *. rewrite <- (Z.sub_0_r (Log.count_of record)).
  set (ins lba := inside window (lba / ENTRIES_PER_PAGE)).
  set (m := fun i lba => if decide (lba ∈ take (Z.to_nat i) (Log.addresses record))
                         then only window (Log.store record (Mapping.entry g (view s))) (Mapping.entry g (view s)) lba
                         else Mapping.entry g (view s) lba).
  apply (loop_run (fun i s' => replayed g U (m i) s s' /\
    forall lba, lba ∈ take (Z.to_nat i) (Log.addresses record) -> ins lba = true ->
      lba / ENTRIES_PER_PAGE ∈ MappingCache.dirty_ids (rv_cache s')));
    [lia| | |].
  - intros i s1 Hi [Hs1 Hx1]. pose proof (replayed_fits g U _ s s1 Hf Hs1) as Hf1. pose proof Hf1 as [].
    destruct (lookup_lt_is_Some_2 (d_lba_ids record) (Z.to_nat i)) as [lba Hlba]; [lia|].
    destruct (lookup_lt_is_Some_2 (d_checksums record) (Z.to_nat i)) as [sum Hsum]; [lia|].
    assert (Ha : Log.addresses record !! Z.to_nat i = Some lba).
    { unfold Log.addresses. rewrite lookup_take_Some. split; [done|lia]. }
    pose proof (list_elem_of_lookup_2 _ _ _ Ha) as Hin. pose proof (Log.sound_address g record Hr lba Hin) as Hvol.
    pose proof (mv_end _ _ (rp_moved _ _ _ _ _ Hs1)) as He1.
    set (v := (h_previous_boundary (d_header record) + 1 + i, sum)).
    assert (Has : assigned g s1 record i lba v).
    { constructor; try done; [|cbn; rewrite He1; lia]. cbn. eapply Forall_lookup_1; [exact Hcu|exact Hsum]. }
    assert (Hsnoc : take (Z.to_nat (i + 1)) (Log.addresses record) = take (Z.to_nat i) (Log.addresses record) ++ [lba]).
    { replace (Z.to_nat (i + 1)) with (S (Z.to_nat i)) by lia. apply (take_S_r _ _ _ Ha). }
    assert (Hstep : forall lba', m (i + 1) lba' = if decide (lba' = lba)
      then only window (Log.store record (Mapping.entry g (view s))) (Mapping.entry g (view s)) lba else m i lba').
    { intros lba'. unfold m. rewrite Hsnoc. destruct (decide (lba' = lba)) as [->|Hne].
      - by rewrite decide_True by (apply elem_of_app; right; by left).
      - destruct (decide (lba' ∈ take (Z.to_nat i) _)) as [Hin'|Hin'].
        + by rewrite decide_True by (apply elem_of_app; by left).
        + rewrite decide_False; [done|]. rewrite elem_of_app, list_elem_of_singleton. intros [?|?]; done. }
    destruct (ins lba) eqn:Eins; unfold ins in Eins.
    + assert (Hpu : lba / ENTRIES_PER_PAGE ∈ U).
      { apply HU, elem_of_within. split; [done|]. by apply Log.touched_address. }
      eapply runs_mono; [apply (apply_entry_run g U s1 record window i lba v); try done; by eapply fits_end|].
      cbv beta. intros r s2 [Hfail|[-> []]]; [destruct Hfail as (e & -> & He); left; exists e; split; [done|eauto 6 with moved]|].
      assert (Hv : Log.store record (Mapping.entry g (view s)) lba = v).
      { rewrite (Log.store_in record _ (Z.to_nat i)); [|by eapply Log.sound_NoDup|done]. unfold v. f_equal; [lia|].
        by rewrite nth_lookup, Hsum. }
      split.
      2: { rewrite Hsnoc. intros lba' [Hl'|[= ->]%list_elem_of_singleton]%elem_of_app Hi'; [by apply so_keeps0, Hx1|done]. }
      eapply replayed_trans; [exact Hs1|]. constructor; try done.
      * intros q Hq. apply so_dirty0 in Hq as [Hq| ->]; auto.
      * intros lba' Hl'. rewrite Hstep. case_decide as E; [subst lba'; unfold only; rewrite Eins; congruence|].
        by rewrite so_other0, (rp_entry _ _ _ _ _ Hs1).
      * intros q Hq. apply so_resident0 in Hq as [?| ->]; [by left|by right].
    + unfold runs. rewrite (apply_entry_skip g _ _ _ _ _ _ Has Eins). cbn [fst snd]. split.
      2: { rewrite Hsnoc. intros lba' [Hl'|[= ->]%list_elem_of_singleton]%elem_of_app Hi'; [by apply Hx1|].
           unfold ins in Hi'. congruence. }
      destruct Hs1. constructor; try done. intros lba' Hl'. rewrite Hstep, rp_entry0 by done.
      case_decide as E; [subst lba'|done]. unfold m. case_decide; [done|]. unfold only. by rewrite Eins.
  - intros s1 [[] Hx]. right. split; [done|]. rewrite take_ge in Hx by (unfold Log.addresses; rewrite length_take; lia).
    split.
    2: { intros p [Hi Hp]%elem_of_within. apply Log.elem_of_touched in Hp as (lba & -> & Hin). by apply Hx. }
    constructor; try done. intros lba Hlba. rewrite rp_entry0 by done. unfold m.
    rewrite take_ge by (unfold Log.addresses; rewrite length_take; lia).
    case_decide; [done|]. unfold only. rewrite Log.store_other by done. by destruct (inside _ _).
  - split; [destruct (replayed_refl g U s Hf); constructor; try done|]. intros lba Hl'. by apply not_elem_of_nil in Hl'.
Qed.

(** ** The records of the tail *)

Lemma on_io_next s k p (Q : res (option LogRecord) -> RecoveryState D -> Prop) :
  0 <= p_at p -> Descriptor.geometry k <> Panic ->
  (forall r s', moved s s' -> rv_cache s' = rv_cache s ->
     r = Log.next_record (Io.file (rv_io s)) k p \/ fails s r -> Q r s') ->
  runs (Recovery.on_io (Tail.read_next k p)) s Q.
Proof.
  intros Hp Hk HQ. unfold Recovery.on_io. apply runs_zoom. eapply runs_mono; [by apply Log.read_next_run|].
  cbv beta. intros r io' [Hu Hr]. apply HQ; [by constructor|done..].
Qed.

(** Reading and counting replay nothing. *)
Lemma quiet_replayed g U s s' :
  fits g U s -> moved s s' -> rv_cache s' = rv_cache s -> replayed g U (Mapping.entry g (view s)) s s'.
Proof.
  intros [] Hm Hc. assert (Hk : Mapping.kept g (rv_end s) (view s) (rv_end s) (view s')).
  { eapply Mapping.sl_kept, refreshed_view; [done..|rewrite Hc; apply ft_ok0|by rewrite Hc|]. rewrite Hc. apply PageRead.refreshed_refl. }
  constructor; try done; [apply Hk|rewrite Hc; done|rewrite Hc; done|rewrite Hc; done| |rewrite Hc; by left].
  intros lba Hl. by apply (Mapping.kept_entry g _ _ _ _ Hk ft_ok0).
Qed.

Lemma chain_moved s s' p rs q :
  moved s s' -> Log.chain (Io.file (rv_io s)) (k_descriptor (rv_active s)) p rs q ->
  Log.chain (Io.file (rv_io s')) (k_descriptor (rv_active s')) p rs q.
Proof.
  intros [[Hf _] Ha _ _] Hc. rewrite Ha. induction Hc as [|p r rs q Hn Hc IH]; econstructor; [|done].
  rewrite <- Hn. by apply Log.next_record_ext.
Qed.

(** A chain that ends where the recovery ends. *)
Record ahead g s p (rs : list LogRecord) : Prop := {
  ah_chain : Log.chain (Io.file (rv_io s)) (k_descriptor (rv_active s)) p rs (rv_end s);
  ah_geometry : Descriptor.geometry (k_descriptor (rv_active s)) = Ok g;
  ah_start : 0 <= p_at p;
}.

Lemma ahead_moved g s s' p rs : moved s s' -> ahead g s p rs -> ahead g s' p rs.
Proof.
  intros Hm []. constructor; [|by rewrite (mv_active _ _ Hm)|done]. rewrite (mv_end _ _ Hm). by eapply chain_moved.
Qed.

Lemma ahead_step g s p r rs :
  ahead g s p (r :: rs) ->
  Log.next_record (Io.file (rv_io s)) (k_descriptor (rv_active s)) p = Ok (Some r) /\
  ahead g s (Tail.position r) rs /\ p_at p < p_at (Tail.position r) <= p_at (rv_end s) /\
  p_lsn (Tail.position r) <= p_lsn (rv_end s).
Proof.
  intros [Hc Hg Hp]. inversion Hc as [|? ? ? ? Hn Hc']; subst. pose proof (Log.next_record_Some _ _ g _ _ Hg Hn) as Hfo.
  pose proof (Log.fo_at _ _ _ _ _ Hfo). destruct (Log.chain_le _ _ _ _ _ _ Hg Hc') as (? & ? & _).
  split; [done|]. split; [constructor; [done..|lia]|]. lia.
Qed.

(** A record of the tail is sound. *)
Lemma ahead_sound g s p record rs :
  ahead g s p (LogData record :: rs) -> g_log_start g <> 0 -> Log.sound_record g record.
Proof.
  intros Ha Hg. pose proof (ahead_step _ _ _ _ _ Ha) as [Hn _]. eapply Log.next_sound; [|by apply Ha|done|exact Hn].
  intros; apply content_ok.
Qed.

Lemma apply_record_run g U s r rs p window :
  fits g U s -> ahead g s p (r :: rs) -> within window (Log.touched [r]) ⊆ U ->
  runs (match r with LogData data => Recovery.apply data window | LogMapping _ => mret tt end) s (fun r' s' =>
    fails s r' \/ (r' = Ok tt /\
      replayed g U (only window (Log.replay_one (Mapping.entry g (view s)) r) (Mapping.entry g (view s))) s s' /\
      marked (within window (Log.touched [r])) s')).
Proof.
  intros Hf Ha HU. destruct r as [record|h].
  2: { apply runs_ret. right. split; [done|]. split; [|by intros z [_ Hz]%elem_of_within].
       destruct (replayed_refl g U s Hf). constructor; try done. intros lba Hl. unfold only. by destruct (inside _ _). }
  pose proof (ahead_step _ _ _ _ _ Ha) as (_ & _ & Hp & _). cbn [Tail.position Tail.header p_at] in Hp.
  apply apply_run; try done; [eapply ahead_sound; [done|]; destruct Hf; lia|lia].
Qed.

Lemma within_app window r rs :
  within window (Log.touched (r :: rs)) = within window (Log.touched [r]) ∪ within window (Log.touched rs).
Proof.
  change (r :: rs) with ([r] ++ rs). rewrite Log.touched_app. apply set_eq. intros z.
  rewrite elem_of_union, !elem_of_within, elem_of_union. tauto.
Qed.

Lemma replay_loop_run g U fuel s p rs window :
  fits g U s -> ahead g s p rs -> p_at (rv_end s) - p_at p < Z.of_nat fuel -> within window (Log.touched rs) ⊆ U ->
  runs (Recovery.replay_loop fuel p window) s (fun r s' =>
    fails s r \/ (r = Ok tt /\
      replayed g U (only window (Log.replay rs (Mapping.entry g (view s))) (Mapping.entry g (view s))) s s' /\
      marked (within window (Log.touched rs)) s')).
Proof.
  intros Hf Ha Hfuel HU. revert fuel s p Hf Ha Hfuel. induction rs as [|r rs IH]; intros fuel s p Hf Ha Hfuel.
  { destruct Ha as [Hc _ _]. inversion Hc; subst. destruct fuel as [|fuel]; [lia|]. cbn [Recovery.replay_loop].
    apply runs_bind, runs_get. cbn [next]. rewrite bool_decide_true by done. apply runs_ret. right. split; [done|].
    split; [|by intros q [_ Hq]%elem_of_within].
    destruct (replayed_refl g U s Hf). constructor; try done. intros lba Hl. unfold only. by destruct (inside _ _). }
  rewrite within_app in HU.
  destruct (ahead_step _ _ _ _ _ Ha) as (Hn & Ha' & Hp & Hl). destruct fuel as [|fuel]; [lia|]. cbn [Recovery.replay_loop].
  apply runs_bind, runs_get. cbn [next]. rewrite bool_decide_false by (intros E; rewrite E in Hp; lia).
  pose proof Ha as [_ Hg Hp0]. apply runs_bind, on_io_next; [done|by rewrite Hg|].
  intros r1 s1 Hm1 Hc1 [->|(e & -> & He)]; cbn [next]; [|left; exists e; split; [done|eauto 6 with moved]].
  rewrite Hn. apply runs_bind, runs_lift. cbn [ok_or next].
  apply runs_bind, runs_lift.
  destruct (Z.ltb_spec (p_at (rv_end s)) (p_at (Tail.position r))) as [?|_]; [lia|].
  destruct (Z.ltb_spec (p_lsn (rv_end s)) (p_lsn (Tail.position r))) as [?|_]; [lia|]. cbn [orb fail_if next].
  apply runs_bind, add_run. intros s2 Hm2 Hc2. cbn [next].
  pose proof (moved_trans _ _ _ Hm1 Hm2) as Hm. assert (Hcc : rv_cache s2 = rv_cache s) by congruence.
  pose proof (quiet_replayed g U s s2 Hf Hm Hcc) as Hrep. pose proof (replayed_fits g U _ _ _ Hf Hrep) as Hf2.
  apply runs_bind. eapply runs_mono; [apply (apply_record_run g U s2 r rs p); [done|by eapply ahead_moved|set_solver]|].
  cbv beta. intros r3 s3 [(e & -> & He)|(-> & Hs3 & Hx3)]; cbn [next]; [left; exists e; split; [done|eauto 6 with moved]|].
  pose proof (replayed_fits g U _ _ _ Hf2 Hs3) as Hf3. pose proof (rp_moved _ _ _ _ _ Hs3) as Hm3.
  pose proof (moved_trans _ _ _ Hm Hm3) as Hm03.
  eapply runs_mono; [apply IH; [set_solver|done|by eapply ahead_moved|rewrite (mv_end _ _ Hm03); lia]|].
  cbv beta. intros r4 s4 [Hx|(-> & Hs4 & Hx4)]; [left; by eapply fails_moved|right]. split; [done|]. split.
  2: { rewrite within_app. intros z [Hp'|Hp']%elem_of_union; [|by apply Hx4]. by apply (rp_keeps _ _ _ _ _ Hs4), Hx3. }
  pose proof (replayed_trans _ _ _ _ _ _ _ Hrep (replayed_trans _ _ _ _ _ _ _ Hs3 Hs4)) as [].
  constructor; try done. intros lba Hlba. rewrite rp_entry0 by done. cbn [Log.replay foldl].
  pose proof (rp_entry _ _ _ _ _ Hs3 lba Hlba) as E3. pose proof (rp_entry _ _ _ _ _ Hrep lba Hlba) as E2.
  unfold only in *. destruct (inside window (lba / ENTRIES_PER_PAGE)); [|congruence].
  apply Log.replay_ext. rewrite E3. change (Log.replay_one ?m r) with (Log.replay [r] m). by apply Log.replay_ext.
Qed.

(** [replay_window], from the root. *)
Lemma replay_window_run g U s rs window :
  fits g U s -> ahead g s (Publish.end_of (rv_active s)) rs -> within window (Log.touched rs) ⊆ U ->
  runs (Recovery.replay_window window) s (fun r s' =>
    fails s r \/ (r = Ok tt /\
      replayed g U (only window (Log.replay rs (Mapping.entry g (view s))) (Mapping.entry g (view s))) s s' /\
      marked (within window (Log.touched rs)) s')).
Proof.
  intros Hf Ha HU. unfold Recovery.replay_window. apply runs_bind, add_run. intros s1 Hm1 Hc1. cbn [next].
  apply runs_bind, runs_get. cbn [next]. cbv zeta. rewrite (mv_active _ _ Hm1).
  pose proof (quiet_replayed g U s s1 Hf Hm1 Hc1) as Hrep.
  eapply runs_mono; [apply (replay_loop_run g U _ s1 _ rs); try done; [by eapply replayed_fits|by eapply ahead_moved|]|].
  { destruct Hf as [[] _ _ _]. change (ms_checkpoint (snd (view s))) with (rv_active s) in *.
    destruct (Geometry.new_wf _ _ _ (Index.wf_positive _ _ co_index) (ah_geometry _ _ _ _ Ha)) as (_ & _ & Hb). rewrite (mv_end _ _ Hm1).
    unfold Recovery.blocks_left. rewrite (mv_active _ _ Hm1). cbn. cbn in *. lia. }
  cbv beta. intros r2 s2 [Hx|(-> & Hs2 & Hx2)]; [left; by eapply fails_moved|right]. split; [done|]. split; [|done].
  pose proof (replayed_trans _ _ _ _ _ _ _ Hrep Hs2) as []. constructor; try done. intros lba Hlba.
  rewrite rp_entry0 by done. pose proof (rp_entry _ _ _ _ _ Hrep lba Hlba) as E. unfold only.
  destruct (inside _ _); [by apply Log.replay_ext|done].
Qed.

(** ** The scan *)

(** The marked pages. *)
Definition marking (pages : list Z) (X : gset Z) : Prop :=
  forall i, i ∈ X <-> 0 <= i /\ pages !! Z.to_nat i = Some Recovery.MARKER.

Lemma mark_run lbas pages (X : gset Z) :
  marking pages X -> Forall (fun lba => 0 <= lba / ENTRIES_PER_PAGE < lenZ pages) lbas ->
  let Y := X ∪ list_to_set ((fun lba => lba / ENTRIES_PER_PAGE) <$> lbas) in
  exists pages', Recovery.mark lbas pages (Z.of_nat (size X)) = Ok (pages', Z.of_nat (size Y)) /\
    marking pages' Y /\ length pages' = length pages /\
    forall i, 0 <= i -> i ∉ Y -> pages' !! Z.to_nat i = pages !! Z.to_nat i.
Proof.
  revert pages X. induction lbas as [|lba lbas IH]; intros pages X Hm Hall; cbn zeta.
  { exists pages. cbn [Recovery.mark fmap list_fmap list_to_set]. by rewrite (right_id_L ∅ (∪)). }
  apply Forall_cons in Hall as [Hlba Hall]. cbn [Recovery.mark]. cbv zeta. set (p := lba / ENTRIES_PER_PAGE) in *.
  destruct (lookup_lt_is_Some_2 pages (Z.to_nat p)) as [pointer Hptr]; [lia|]. rewrite Hptr. cbn [expect rbind].
  assert (E : X ∪ list_to_set ((fun lba => lba / ENTRIES_PER_PAGE) <$> lba :: lbas)
              = ({[p]} ∪ X) ∪ list_to_set ((fun lba => lba / ENTRIES_PER_PAGE) <$> lbas)).
  { cbn [fmap list_fmap list_to_set]. set_solver. }
  rewrite E. clear E. destruct (Z.eqb_spec pointer Recovery.MARKER) as [->|Hne]; cbn [negb].
  - assert (Hp : p ∈ X) by (apply Hm; split; [lia|done]). replace ({[p]} ∪ X) with X by set_solver. by apply IH.
  - assert (Hp : p ∉ X) by (intros [_ Hp]%Hm; congruence).
    replace (Z.of_nat (size X) + 1) with (Z.of_nat (size ({[p]} ∪ X)))
      by (rewrite size_union by set_solver; rewrite size_singleton; lia).
    destruct (IH (<[Z.to_nat p := Recovery.MARKER]> pages) ({[p]} ∪ X)) as (pages' & -> & Hm' & Hl' & Hu').
    + intros i. rewrite elem_of_union, elem_of_singleton, (Hm i). destruct (decide (i = p)) as [->|Hip].
      * split; [intros _|by left]. split; [lia|]. apply list_lookup_insert_eq. lia.
      * split; [intros [?|[? ?]]|intros [Hi Hl]; right; split; [done|]]; [done|split; [done|]|].
        -- by rewrite list_lookup_insert_ne by lia.
        -- by rewrite list_lookup_insert_ne in Hl by lia.
    + by rewrite length_insert.
    + exists pages'. rewrite length_insert in Hl'. split_and!; try done.
      intros i Hi Hn. rewrite Hu' by done. apply list_lookup_insert_ne. set_solver by lia.
Qed.

(** A scan only moves the end of the tail and marks pages. *)
Record scanned g s (X : gset Z) s' : Prop := {
  sn_io : Io.untouched (rv_io s) (rv_io s');
  sn_active : rv_active s' = rv_active s;
  sn_cache : rv_cache s' = rv_cache s;
  sn_marking : marking (k_pages (rv_candidate s')) X;
  sn_length : lenZ (k_pages (rv_candidate s')) = g_page_count g;
  sn_descriptor : k_descriptor (rv_candidate s') = k_descriptor (rv_candidate s);
  sn_unmarked : forall i, 0 <= i -> i ∉ X -> k_pages (rv_candidate s') !! Z.to_nat i = k_pages (rv_candidate s) !! Z.to_nat i;
}.

Lemma scan_loop_run g fuel s s0 q rs (X : gset Z) :
  scanned g s0 X s -> Geometry.wf g -> Descriptor.geometry (k_descriptor (rv_active s0)) = Ok g -> 0 <= p_at (rv_end s) ->
  Log.chain (Io.file (rv_io s0)) (k_descriptor (rv_active s0)) (rv_end s) rs q ->
  Log.next_record (Io.file (rv_io s0)) (k_descriptor (rv_active s0)) q = Ok None ->
  p_at q - p_at (rv_end s) < Z.of_nat fuel ->
  runs (Recovery.scan_loop fuel (Z.of_nat (size X))) s (fun r s' =>
    fails s0 r \/ (r = Ok (Z.of_nat (size (X ∪ Log.touched rs))) /\ rv_end s' = q /\ scanned g s0 (X ∪ Log.touched rs) s')).
Proof.
  intros Hs Hw Hg Hp Hc Hend Hfuel. revert fuel s X Hs Hp Hc Hfuel.
  induction rs as [|r rs IH]; intros fuel s X Hs Hp Hc Hfuel; inversion Hc as [|? ? ? ? Hn Hc']; subst.
  - destruct fuel as [|fuel]; [lia|]. cbn [Recovery.scan_loop]. apply runs_bind, runs_get. cbn [next].
    rewrite (sn_active _ _ _ _ Hs). apply runs_bind, on_io_next; [done|by rewrite Hg|].
    intros r1 s1 Hm1 Hc1 [->|(e & -> & He)]; cbn [next]; [|left; exists e; split; [done|eapply Io.failure_untouched; [apply Hs|exact He]]].
    rewrite (Log.next_record_ext (Io.file (rv_io s0))) by apply Hs. rewrite Hend. cbn [next]. apply runs_ret. right.
    change (Log.touched []) with (∅ : gset Z). rewrite (right_id_L ∅ (∪)). split; [done|].
    destruct Hm1, Hs. split; [done|]. constructor; rewrite ?mv_candidate0; try first [done|congruence]. by eapply Io.untouched_trans.
  - pose proof (Log.next_record_Some _ _ g _ _ Hg Hn) as Hfo. pose proof (Log.fo_at _ _ _ _ _ Hfo).
    destruct (Log.chain_le _ _ _ _ _ _ Hg Hc') as (? & ? & _).
    destruct fuel as [|fuel]; [lia|]. cbn [Recovery.scan_loop]. apply runs_bind, runs_get. cbn [next].
    rewrite (sn_active _ _ _ _ Hs). apply runs_bind, on_io_next; [done|by rewrite Hg|].
    intros r1 s1 Hm1 Hc1 [->|(e & -> & He)]; cbn [next]; [|left; exists e; split; [done|eapply Io.failure_untouched; [apply Hs|exact He]]].
    rewrite (Log.next_record_ext (Io.file (rv_io s0))) by apply Hs. rewrite Hn. cbn [next].
    apply runs_bind, runs_modify. cbn [next]. apply runs_bind, add_run. intros s2 Hm2 Hc2. cbn [next].
    assert (Hs2 : scanned g s0 X s2).
    { destruct Hm1, Hm2, Hs. cbn in *. constructor; rewrite ?mv_candidate1, ?mv_candidate0; try first [done|congruence].
      by eapply Io.untouched_trans; [|eapply Io.untouched_trans]. }
    assert (He2 : rv_end s2 = Tail.position r) by (by destruct Hm2).
    change (Log.touched (r :: rs)) with (Log.touched ([r] ++ rs)). rewrite Log.touched_app, (assoc_L (∪)).
    destruct r as [record|h].
    + assert (Hr : Log.sound_record g record).
      { eapply Log.next_sound; [|exact Hg| |exact Hn]; [intros; apply content_ok|destruct Hw; lia]. }
      apply runs_bind, runs_lift. rewrite (Log.sound_count g) by done. cbn [next]. apply runs_bind, runs_get. cbn [next].
      destruct (mark_run (Log.addresses record) (k_pages (rv_candidate s2)) X) as (pages & Hrun & Hmk & Hlen & Hun); [apply Hs2| |].
      { apply Forall_forall. intros lba Hl. apply (Log.sound_address g) in Hl; [|done]. rewrite (sn_length _ _ _ _ Hs2).
        by apply (Mapping.in_volume_page g lba Hw). }
      apply runs_bind, runs_lift. unfold Log.addresses in Hrun at 1. rewrite Hrun. cbn [next fst snd].
      apply runs_bind, runs_modify. cbn [next].
      assert (E : X ∪ list_to_set ((fun lba => lba / ENTRIES_PER_PAGE) <$> Log.addresses record) = X ∪ Log.touched [LogData record]).
      { unfold Log.touched. cbn. by rewrite app_nil_r. }
      rewrite E in *. apply IH; cbn [Recovery.with_candidate rv_end]; rewrite ?He2; [|lia|done|lia].
      destruct Hs2. constructor; cbn; try done; [by rewrite Hlen|].
      intros i Hi Hni. rewrite Hun by done. apply sn_unmarked0; [done|set_solver].
    + assert (E : Log.touched [LogMapping h] = ∅) by done. rewrite E, (right_id_L ∅ (∪)). apply IH; rewrite ?He2; [done|lia|done|lia].
Qed.

(** ** The recovery *)

(** The file [f] has the root [k], and behind it the records [rs] up to [q]. *)
Record recoverable (f : Z -> list Z) (k : Checkpoint) g (rs : list LogRecord) (q : LogPosition) : Prop := {
  re_geometry : Geometry.wf g;
  re_index : Index.wf k g;
  re_typed : Descriptor.typed (k_descriptor k);
  re_start : g_log_start g - 1 <= c_last_record_boundary (k_descriptor k) < g_backing_blocks g;
  re_pages : forall p, 0 <= p < g_page_count g -> is_Some (PageRead.disk_page f k g p);
  re_chain : Log.chain f (k_descriptor k) (Publish.end_of k) rs q;
}.

(** Blocks that no record of the tail maps keep their entries. *)
Lemma replay_untouched rs m lba : lba / ENTRIES_PER_PAGE ∉ Log.touched rs -> Log.replay rs m lba = m lba.
Proof.
  revert m. induction rs as [|r rs IH]; intros m Hn; [done|]. change (r :: rs) with ([r] ++ rs) in *.
  rewrite Log.touched_app, not_elem_of_union in Hn. destruct Hn as [Hr Hn].
  change (Log.replay (([r] ++ rs)) m lba) with (Log.replay rs (Log.replay_one m r) lba). rewrite IH by done.
  destruct r as [record|h]; [|done]. cbn. apply Log.store_other. intros Hin. apply Hr. unfold Log.touched. cbn.
  rewrite app_nil_r. apply elem_of_list_to_set, list_elem_of_fmap. by exists lba.
Qed.

Lemma recoverable_end f k g rs q :
  recoverable f k g rs q -> p_at (Publish.end_of k) <= p_at q < g_backing_blocks g /\ p_lsn (Publish.end_of k) <= p_lsn q < 2 ^ 64.
Proof.
  intros []. pose proof (Index.wf_geometry _ _ re_index0) as Hg.
  destruct (Log.chain_le _ _ _ _ _ _ Hg re_chain0) as (Ha & Hl & He).
  pose proof (Log.chain_lsn _ _ _ _ _ _ Hg re_chain0) as H64.
  assert (p_at q < g_backing_blocks g).
  { destruct rs; [inversion re_chain0; subst; cbn; lia|by apply He]. }
  split; [lia|]. split; [lia|]. apply H64. cbn. destruct re_typed0 as (? & ? & ? & ? & Hu & _). unfold is_u64 in *. lia.
Qed.

(** Blocks behind the log do not matter. *)
Lemma recoverable_prefix f f' k g rs q :
  recoverable f k g rs q -> (forall x, x <= p_at q -> f' x = f x) ->
  recoverable f' k g rs q /\ forall p, PageRead.disk_page f' k g p = PageRead.disk_page f k g p.
Proof.
  intros Hre Hf. destruct (recoverable_end f k g rs q Hre) as [Hat _]. cbn in Hat. destruct Hre.
  pose proof (Index.wf_geometry _ _ re_index0) as Hg.
  assert (Hd : forall p, PageRead.disk_page f' k g p = PageRead.disk_page f k g p).
  { intros p. apply PageRead.disk_page_ext. intros b Hb Hne. apply Hf. apply list_elem_of_lookup in Hb as [i Hi].
    destruct (Publish.pointer_range g k i b re_index0 Hi Hne) as [Hr _]. lia. }
  split; [|done]. constructor; try done.
  - intros p Hp. rewrite Hd. by apply re_pages0.
  - apply (Log.chain_prefix f _ _ g _ _ _ Hg re_chain0). intros x Hx. apply Hf. lia.
Qed.

(** An empty cache over the root agrees with the file. *)
Lemma recoverable_ok f k g rs q s :
  recoverable f k g rs q -> (forall x, Io.file (rv_io s) x = f x) -> rv_active s = k -> rv_end s = q ->
  MappingCache.wf (rv_cache s) -> volume_blocks (rv_cache s) = g_volume_blocks g ->
  (forall p, MappingCache.view (rv_cache s) p = None) ->
  Mapping.ok_at g q (view s) /\ forall lba, Mapping.entry g (view s) lba = Mapping.root_entry f k g lba.
Proof.
  intros Hre Hf Hk Hq Hc Hv Hn. destruct (recoverable_end f k g rs q Hre) as [Hat Hlsn]. destruct Hre.
  assert (Hd : forall p, PageRead.disk_page (Io.file (rv_io s)) k g p = PageRead.disk_page f k g p).
  { intros p. apply PageRead.disk_page_ext. intros b _ _. by rewrite Hf. }
  split.
  - constructor; unfold Mapping.cache, Mapping.files; cbn [view fst snd ms_checkpoint ms_cache]; rewrite ?Hk; try done; cbn in *; try lia.
    + intros p Hp. rewrite Hd. by apply re_pages0.
    + intros p e. by rewrite Hn.
    + intros p e d. by rewrite Hn.
  - intros lba. unfold Mapping.entry, Mapping.page, Publish.page, Mapping.root_entry, Mapping.cache, Mapping.files.
    cbn [view fst snd ms_checkpoint ms_cache]. by rewrite Hn, Hk, Hd.
Qed.

(** What a recovery of [rs] up to [q] leaves. *)
Record recovers g (f : Z -> list Z) (k : Checkpoint) (rs : list LogRecord) (q : LogPosition) (c0 : MappingCache) s : Prop := {
  rv_files : forall x, Io.file (rv_io s) x = f x;
  rv_root : rv_active s = k;
  rv_tail : rv_end s = q;
  rv_ok : Mapping.ok_at g q (view s);
  rv_shape : MappingCache.same_shape c0 (rv_cache s);
  rv_dirty : forall p, p ∈ MappingCache.dirty_ids (rv_cache s) <-> p ∈ Log.touched rs;
  rv_entry : forall lba, Mapping.in_volume g lba -> Mapping.entry g (view s) lba = Log.replay rs (Mapping.root_entry f k g) lba;
  rv_space : p_at q + Z.of_nat (size (Log.touched rs)) < g_backing_blocks g;
}.

Lemma unmarked k g : Geometry.wf g -> Index.wf k g -> marking (k_pages k) ∅.
Proof.
  intros [] Hk i. split; [set_solver|]. intros [_ Hl].
  pose proof (proj1 (Forall_lookup _ _) (Index.wf_pointers _ _ Hk) _ _ Hl) as [_ [Hp|Hp]]; [discriminate Hp|].
  unfold Recovery.MARKER in Hp. lia.
Qed.

Lemma scan_run g f k rs q s :
  recoverable f k g rs q -> Log.next_record f (k_descriptor k) q = Ok None -> (forall x, Io.file (rv_io s) x = f x) ->
  rv_active s = k -> rv_candidate s = k -> rv_end s = Publish.end_of k ->
  runs Recovery.scan s (fun r s' => fails s r \/ (r = Ok (Z.of_nat (size (Log.touched rs))) /\ rv_end s' = q /\
    scanned g s (Log.touched rs) s')).
Proof.
  intros Hre Hend Hf Hk Hcand Hq. pose proof (recoverable_end f k g rs q Hre) as [Hat _]. pose proof Hre as [].
  pose proof (Index.wf_geometry _ _ re_index0) as Hg.
  destruct (Geometry.new_wf _ _ _ (Index.wf_positive _ _ re_index0) Hg) as (_ & _ & Hb).
  unfold Recovery.scan. apply runs_bind, add_run. intros s1 Hm1 Hc1. cbn [next].
  apply runs_bind, runs_get. cbn [next]. pose proof Hm1 as [].
  assert (Hs1 : scanned g s ∅ s1).
  { constructor; try done; rewrite mv_candidate0, ?Hcand; try done; [by eapply unmarked|apply re_index0]. }
  rewrite <- (left_id_L ∅ (∪) (Log.touched rs)). change 0 with (Z.of_nat (size (∅ : gset Z))).
  assert (Hext : forall p, Log.next_record (Io.file (rv_io s)) (k_descriptor k) p = Log.next_record f (k_descriptor k) p)
    by (intros p; by apply Log.next_record_ext).
  apply scan_loop_run; rewrite ?mv_end0, ?Hq, ?Hk; try done.
  - cbn in *. destruct re_geometry0. lia.
  - by eapply Log.chain_ext.
  - by rewrite Hext.
  - unfold Recovery.blocks_left. rewrite mv_active0, Hk. cbn in *. lia.
Qed.

(** What the scan found: the tail ends at [q], and the candidate is the root with the
    pages of the records marked. *)
Record planned g (f : Z -> list Z) (k : Checkpoint) (rs : list LogRecord) (q : LogPosition) (c0 : MappingCache) s : Prop := {
  pl_files : forall x, Io.file (rv_io s) x = f x;
  pl_active : rv_active s = k;
  pl_end : rv_end s = q;
  pl_cache : rv_cache s = c0;
  pl_marking : marking (k_pages (rv_candidate s)) (Log.touched rs);
  pl_length : lenZ (k_pages (rv_candidate s)) = g_page_count g;
  pl_descriptor : k_descriptor (rv_candidate s) = k_descriptor k;
  pl_unmarked : forall i, 0 <= i -> i ∉ Log.touched rs -> k_pages (rv_candidate s) !! Z.to_nat i = k_pages k !! Z.to_nat i;
  pl_space : p_at q + Z.of_nat (size (Log.touched rs)) < g_backing_blocks g;
}.

(** A cache without pages. *)
Record vacant g (c : MappingCache) : Prop := {
  vc_wf : MappingCache.wf c;
  vc_volume : volume_blocks c = g_volume_blocks g;
  vc_view : forall p, MappingCache.view c p = None;
}.

Lemma vacant_dirty g c p : vacant g c -> p ∉ MappingCache.dirty_ids c.
Proof. intros []. rewrite MappingCache.dirty_ids_elem by done. intros [d Hd]. by rewrite vc_view0 in Hd. Qed.

Lemma planned_ok g f k rs q c0 s :
  recoverable f k g rs q -> planned g f k rs q c0 s -> vacant g c0 ->
  Mapping.ok_at g q (view s) /\ forall lba, Mapping.entry g (view s) lba = Mapping.root_entry f k g lba.
Proof.
  intros Hre [] []. by apply (recoverable_ok f k g rs q s Hre); rewrite ?pl_cache0.
Qed.

Lemma scan_tail_run g f k rs q s :
  recoverable f k g rs q -> Log.next_record f (k_descriptor k) q = Ok None -> (forall x, Io.file (rv_io s) x = f x) ->
  rv_active s = k -> rv_candidate s = k -> rv_end s = Publish.end_of k ->
  runs Recovery.scan s (fun r s' => fails s r \/ (r = Ok (Z.of_nat (size (Log.touched rs))) /\
    Io.untouched (rv_io s) (rv_io s') /\ rv_active s' = k /\ rv_end s' = q /\
    (p_at q + Z.of_nat (size (Log.touched rs)) < g_backing_blocks g -> planned g f k rs q (rv_cache s) s'))).
Proof.
  intros Hre Hend Hf Hk Hcand Hq. eapply runs_mono; [by eapply scan_run|]. cbv beta.
  intros r s1 [?|(-> & Hq1 & [])]; [by left|right]. split; [done|]. split; [done|]. split; [congruence|]. split; [done|].
  intros Hsp. rewrite Hcand in *. constructor; try done; [|congruence].
  intros x. destruct sn_io0 as [Hu _]. by rewrite Hu.
Qed.

(** The records are replayed at once when their pages fit the cache. *)
Lemma replay_tail_run g f k rs q c0 s :
  recoverable f k g rs q -> planned g f k rs q c0 s -> vacant g c0 ->
  Z.of_nat (size (Log.touched rs)) <= capacity (sizing c0) ->
  runs ((if negb (Z.of_nat (size (Log.touched rs)) =? 0)
         then Recovery.replay_window (0, lenZ (k_pages (rv_candidate s))) else mret tt) ;;;
        Recovery.count_lookups ;;; Recovery.recovered) s (fun r s' =>
    fails s r \/ exists rc, r = Ok rc /\ moved s s' /\ rc_cache rc = rv_cache s' /\ rc_tail rc = q /\ recovers g f k rs q c0 s').
Proof.
  intros Hre Hpl Hvac Hfit. pose proof Hre as []. destruct (planned_ok _ _ _ _ _ _ _ Hre Hpl Hvac) as [Hok1 Hen1].
  pose proof Hpl as []. set (U := Log.touched rs) in *.
  assert (Hin : forall lba, Mapping.in_volume g lba -> inside (0, lenZ (k_pages (rv_candidate s))) (lba / ENTRIES_PER_PAGE) = true).
  { intros lba Hl. destruct (Mapping.in_volume_page g lba re_geometry0 Hl) as (Hp & _). unfold inside. cbn [fst snd].
    rewrite pl_length0. destruct (Z.leb_spec 0 (lba / ENTRIES_PER_PAGE)), (Z.ltb_spec (lba / ENTRIES_PER_PAGE) (g_page_count g)); lia. }
  assert (Hfits : fits g U s).
  { constructor; [by rewrite pl_end0|destruct re_geometry0; lia| |by rewrite pl_cache0].
    intros p Hp. rewrite pl_cache0 in Hp. by eapply vacant_dirty in Hp. }
  apply runs_bind. eapply runs_mono with (P := fun r s2 => fails s r \/ (r = Ok tt /\
    replayed g U (Log.replay rs (Mapping.entry g (view s))) s s2 /\ marked U s2)).
  { destruct (Z.eqb_spec (Z.of_nat (size U)) 0) as [Hz|Hz]; cbn [negb].
    - apply runs_ret. right. split; [done|]. assert (size U = 0%nat) as HU by lia. apply size_empty_inv in HU.
      split; [|intros p Hp; set_solver]. pose proof (replayed_refl g U s Hfits) as []. constructor; try done.
      intros lba Hlba. symmetry. apply replay_untouched. fold U. set_solver.
    - eapply runs_mono; [apply (replay_window_run g U s rs); [done| |]|].
      + constructor; rewrite ?pl_active0; [|by apply Index.wf_geometry|destruct re_geometry0; cbn in *; lia].
        rewrite pl_end0. by apply (Log.chain_ext f).
      + intros p [_ Hp]%elem_of_within. done.
      + cbv beta. intros r s2 [?|(-> & [] & Hx2)]; [by left|right]. split; [done|]. split.
        * constructor; try done. intros lba Hl. rewrite rp_entry0 by done. unfold only. by rewrite Hin.
        * intros p Hp. apply Hx2, elem_of_within. split; [|done]. apply pl_marking0 in Hp as [Hp0 Hp].
          apply lookup_lt_Some in Hp. unfold inside. cbn [fst snd].
          destruct (Z.leb_spec 0 p), (Z.ltb_spec p (lenZ (k_pages (rv_candidate s)))); lia. }
  cbv beta. intros r2 s2 [(e & -> & He)|(-> & Hs2 & Hx2)]; cbn [next]; [left; exists e; split; [done|eauto 6 with moved]|].
  apply runs_bind. unfold Recovery.count_lookups. apply runs_modify. cbn [next].
  unfold Recovery.recovered. apply runs_bind, runs_get. cbn [next]. apply runs_ret. right.
  eexists. split; [done|]. destruct Hs2 as [[]]. cbn. split; [by constructor|]. split; [done|]. split; [congruence|].
  constructor; cbn; try congruence; try done.
  - intros x. destruct mv_io0 as [Hu _]. by rewrite Hu.
  - rewrite pl_end0 in rp_ok0. exact rp_ok0.
  - intros p. split; [apply rp_dirty0|apply Hx2].
  - intros lba Hlba. change (Mapping.entry g (view s2) lba = Log.replay rs (Mapping.root_entry f k g) lba).
    rewrite rp_entry0 by done. by apply Log.replay_ext.
Qed.

End replay.
End Replay.
