(* ===== verification/Windows.v ===== *)
(** Recovery when the pages of the log do not fit the cache: [publish_windows] of
    [src/rust/src/format_v3/recovery.rs] replays the log window by window, with a snapshot
    of every page, and publishes the root that has them; and what [recover] ends in,
    whichever way it takes. *)

From S2P Require Import Prelude Bytes Geometry Format DataRecord Entries MappingPage.
From S2P Require Import Checkpoint Index Clock Sizing MappingCache Config Reservation.
From S2P Require Import WriteBuffer Accounting Uring Device BackingIo Tail PageRead CheckpointLoad Publish Recovery.
From S2P Require Import Storage Roots CrashSafety Log Snapshots MappingState Volume VolumeWrite Replay.

Module Windows.

(** ** The windows *)

Section windows.

Lemma take_elem (l : list Z) n p : p ∈ take n l -> p ∈ l.
Proof. intros (i & Hi & _)%elem_of_take. by eapply list_elem_of_lookup_2. Qed.

Lemma size_list_to_set_le (l : list Z) : (size (list_to_set l : gset Z) <= length l)%nat.
Proof.
  induction l as [|x l IH]; [done|]. cbn [list_to_set length]. rewrite size_union_alt, size_singleton.
  pose proof (subseteq_size (C := gset Z) (list_to_set l ∖ {[x]}) (list_to_set l) ltac:(set_solver)). lia.
Qed.

(** Elements of a sorted list up to the last of its first [n]. *)
Lemma sorted_take (l : list Z) n y p :
  StronglySorted Z.lt l -> last (take n l) = Some y -> p ∈ l -> p <= y <-> p ∈ take n l.
Proof.
  revert n. induction l as [|x l IH]; intros n Hs Hy Hp; [by apply not_elem_of_nil in Hp|].
  apply StronglySorted_inv in Hs as [Hs Hx]. rewrite Forall_forall in Hx. destruct n as [|n]; [done|].
  cbn [take] in *. assert (Hxy : x <= y).
  { apply last_Some_elem_of, elem_of_cons in Hy as [->|Hy]; [done|].
    pose proof (Hx y (take_elem _ _ _ Hy)). lia. }
  destruct (decide (p = x)) as [->|Hne]; [split; [by left|done]|].
  apply elem_of_cons in Hp as [?|Hp]; [done|]. rewrite elem_of_cons.
  destruct (take n l) as [|z l'] eqn:E.
  - cbn in Hy. injection Hy as <-. pose proof (Hx p Hp). split; [lia|]. intros [?|?%not_elem_of_nil]; done.
  - rewrite <- E, <- (IH n Hs); [|by rewrite E|done]. tauto.
Qed.

(** The ids that [marked_pages] lists, in order. *)
Lemma elem_of_marked k start p :
  0 <= start -> p ∈ Recovery.marked_pages k start <->
  start <= p /\ k_pages k !! Z.to_nat p = Some Recovery.MARKER.
Proof.
  intros Hs. unfold Recovery.marked_pages. rewrite list_elem_of_fmap. split.
  - intros ([p' b] & -> & [Hb Hin]%list_elem_of_filter). cbn in *. subst b.
    apply list_elem_of_lookup in Hin as [i Hi]. rewrite lookup_drop in Hi. apply lookup_zip_Some in Hi as [Hi1 Hi2].
    cbn in *. apply lookup_seqZ in Hi1 as [-> Hi1]. split; [lia|]. rewrite <- Hi2. f_equal. lia.
  - intros [Hp Hl]. exists (p, Recovery.MARKER). split; [done|]. apply list_elem_of_filter. split; [done|].
    apply list_elem_of_lookup. exists (Z.to_nat p - Z.to_nat start)%nat. rewrite lookup_drop. apply lookup_zip_Some.
    pose proof (lookup_lt_Some _ _ _ Hl). cbn.
    replace (Z.to_nat start + (Z.to_nat p - Z.to_nat start))%nat with (Z.to_nat p) by lia.
    split; [|done]. apply lookup_seqZ. lia.
Qed.

Lemma marked_sorted k start : StronglySorted Z.lt (Recovery.marked_pages k start).
Proof.
  unfold Recovery.marked_pages. set (l := zip (seqZ 0 (lenZ (k_pages k))) (k_pages k)).
  assert (Hl : StronglySorted (fun a b : Z * Z => a.1 < b.1) l).
  { unfold l. generalize (k_pages k). intros pages. generalize (lenZ pages). intros n. generalize 0.
    intros m. revert m n. induction pages as [|b pages IH]; intros m n; [destruct (seqZ m n); constructor|].
    destruct (decide (0 < n)); [|by rewrite seqZ_nil by lia; constructor]. rewrite seqZ_cons by lia. cbn. constructor; [apply IH|].
    apply Forall_forall. intros [i b'] Hi%elem_of_zip_l. apply elem_of_seqZ in Hi. cbn. lia. }
  clearbody l. generalize (Z.to_nat start). intros n.
  assert (Hd : StronglySorted (fun a b : Z * Z => a.1 < b.1) (drop n l)).
  { revert n. induction Hl as [|x l Hl IH Hx]; intros [|n]; try constructor; try done. apply IH. }
  induction Hd as [|x l' Hd IH Hx]; [constructor|]. rewrite filter_cons. case_decide; [|done]. cbn. constructor; [done|].
  apply Forall_fmap, Forall_forall. intros y [_ Hy]%list_elem_of_filter. rewrite Forall_forall in Hx. by apply Hx.
Qed.

(** What a window takes of the marked pages from [start] on. *)
Lemma next_window_spec k (X : gset Z) start capacity :
  0 <= start -> 1 <= capacity -> Replay.marking (k_pages k) X -> (forall p, p ∈ X -> start <= p) ->
  match Recovery.next_window k start capacity with
  | None => X = ∅
  | Some w => start <= w.1 < w.2 /\ w.2 <= lenZ (k_pages k) /\ Z.of_nat (size (Replay.within w X)) <= capacity /\
      forall p, p ∈ X -> p < w.2 -> Replay.inside w p = true
  end.
Proof.
  intros Hs Hc Hm HX. unfold Recovery.next_window.
  assert (Hel : forall p, p ∈ Recovery.marked_pages k start <-> p ∈ X).
  { intros p. rewrite elem_of_marked by done. rewrite (Hm p). split; [intros [? ?]; split; [lia|done]|].
    intros [Hp0 Hp]. split; [|done]. apply HX, Hm. done. }
  pose proof (marked_sorted k start) as Hsort.
  destruct (Recovery.marked_pages k start) as [|first pages] eqn:E.
  { apply set_eq. intros p. rewrite <- Hel. split; [by intros ?%not_elem_of_nil|set_solver]. }
  cbn [fst snd]. set (y := default first (last (take (Z.to_nat (capacity - 1)) pages))).
  assert (Hy : last (take (Z.to_nat capacity) (first :: pages)) = Some y).
  { replace (Z.to_nat capacity) with (S (Z.to_nat (capacity - 1))) by lia. cbn [take]. unfold y.
    destruct (take _ pages) as [|z l] eqn:Et; [done|]. change (first :: z :: l) with ([first] ++ z :: l).
    rewrite last_app. destruct (last (z :: l)) eqn:El; [done|]. by apply last_None in El. }
  assert (Hfirst : first ∈ X) by (apply Hel; by left).
  assert (HyX : y ∈ X) by (eapply Hel, take_elem, last_Some_elem_of, Hy).
  assert (Hle : forall p, p ∈ X -> first <= p).
  { intros p Hp. apply StronglySorted_inv in Hsort as [_ Hx]. apply Hel, elem_of_cons in Hp as [->|Hp]; [done|].
    rewrite Forall_forall in Hx. pose proof (Hx p Hp). lia. }
  pose proof (HX _ Hfirst). pose proof (Hle _ HyX). pose proof (proj1 (Hm y) HyX) as [Hy0 Hyl]. apply lookup_lt_Some in Hyl.
  split; [lia|]. split; [lia|]. split.
  - assert (Hsub : Replay.within (first, y + 1) X ⊆ list_to_set (take (Z.to_nat capacity) (first :: pages))).
    { intros p [Hi Hp]%Replay.elem_of_within. apply elem_of_list_to_set. apply (sorted_take _ _ y); [done|done|by apply Hel|].
      unfold Replay.inside in Hi. cbn [fst snd] in Hi. apply andb_true_iff in Hi as [_ Hi%Z.ltb_lt]. lia. }
    pose proof (subseteq_size _ _ Hsub). pose proof (size_list_to_set_le (take (Z.to_nat capacity) (first :: pages))) as Hz.
    rewrite length_take in Hz. lia.
  - intros p Hp Hlt. pose proof (Hle p Hp). unfold Replay.inside. cbn [fst snd].
    destruct (Z.leb_spec first p), (Z.ltb_spec p (y + 1)); lia.
Qed.

End windows.
(** ** The pages of a window, staged *)

Section staging.
Context `{Xxh3} `{Platform} {D : Type} `{!Device D} `{!DeviceLaws D}.
Implicit Types (s : RecoveryState D) (X : gset Z).

Definition below (a : Z) X : gset Z := filter (fun p => p < a) X.
Definition above (a : Z) X : gset Z := filter (fun p => a <= p) X.
Definition count_below (a : Z) X : Z := Z.of_nat (size (below a X)).

Lemma elem_of_below a X p : p ∈ below a X <-> p < a /\ p ∈ X.
Proof. unfold below. by rewrite elem_of_filter. Qed.

Lemma elem_of_above a X p : p ∈ above a X <-> a <= p /\ p ∈ X.
Proof. unfold above. by rewrite elem_of_filter. Qed.

Lemma count_below_le a X : count_below a X <= Z.of_nat (size X).
Proof. unfold count_below. apply inj_le, subseteq_size. intros p [_ Hp]%elem_of_below. done. Qed.

(** A window that takes what is marked before its end. *)
Definition takes (w : Z * Z) (a : Z) X : Prop :=
  a <= w.1 < w.2 /\ forall p, p ∈ X -> a <= p < w.2 -> Replay.inside w p = true.

Lemma count_below_window w a X :
  takes w a X -> count_below w.2 X = count_below a X + Z.of_nat (size (Replay.within w X)).
Proof.
  intros [Ha Ht]. unfold count_below.
  assert (E : below w.2 X = below a X ∪ Replay.within w X).
  { apply set_eq. intros p. rewrite elem_of_union, !elem_of_below, Replay.elem_of_within. split.
    - intros [Hp Hx]. destruct (decide (p < a)); [by left|right]. split; [|done]. apply Ht; [done|lia].
    - unfold Replay.inside. intros [[? ?]|[Hi ?]]; (split; [|done]); [lia|].
      apply andb_true_iff in Hi as [_ Hi%Z.ltb_lt]. lia. }
  rewrite E, size_union; [lia|]. intros p [Hp _]%elem_of_below [Hi _]%Replay.elem_of_within.
  unfold Replay.inside in Hi. apply andb_true_iff in Hi as [Hi%Z.leb_le _]. lia.
Qed.

(** The entries of page [p] once the log is replayed. *)
Record final g (f : Z -> list Z) (k : Checkpoint) rs (q : LogPosition) (p : Z) (e : MappingEntries) : Prop := {
  fi_recordable : Snapshots.recordable g (p_at q) p e;
  fi_entry : forall lba, Mapping.in_volume g lba -> lba / ENTRIES_PER_PAGE = p ->
    Entries.get e (lba mod ENTRIES_PER_PAGE) = Log.replay rs (Mapping.root_entry f k g) lba;
}.

(** The descriptor of the candidate, with [n] snapshots. *)
Definition planned_root (k : Checkpoint) (q : LogPosition) (n : Z) : CheckpointDescriptor :=
  Publish.advance (Publish.successor (k_descriptor k) (c_generation (k_descriptor k) + 1) q) (p_lsn q + n) (p_at q + n).

(** The pages below [a] have their snapshots behind the log; the others are still marked. *)
Record staged g (f : Z -> list Z) (k : Checkpoint) rs (q : LogPosition) (a : Z) s : Prop := {
  sg_files : forall x, ~ (p_at q < x <= p_at q + count_below a (Log.touched rs)) -> Io.file (rv_io s) x = f x;
  sg_active : rv_active s = k;
  sg_end : rv_end s = q;
  sg_descriptor : k_descriptor (rv_candidate s) = planned_root k q (count_below a (Log.touched rs));
  sg_length : lenZ (k_pages (rv_candidate s)) = g_page_count g;
  sg_marking : Replay.marking (k_pages (rv_candidate s)) (above a (Log.touched rs));
  sg_written : forall p, p ∈ below a (Log.touched rs) -> exists b e,
    k_pages (rv_candidate s) !! Z.to_nat p = Some b /\ p_at q < b <= p_at q + count_below a (Log.touched rs) /\
    PageRead.disk_page (Io.file (rv_io s)) (rv_candidate s) g p = Some e /\ final g f k rs q p e;
  sg_unmarked : forall p, 0 <= p -> p ∉ Log.touched rs ->
    k_pages (rv_candidate s) !! Z.to_nat p = k_pages k !! Z.to_nat p;
}.

(** The cache holds pages below [a], all final. *)
Record loaded g (f : Z -> list Z) (k : Checkpoint) rs (q : LogPosition) (a : Z) (c0 c : MappingCache) : Prop := {
  ld_wf : MappingCache.wf c;
  ld_shape : MappingCache.same_shape c0 c;
  ld_view : forall p e d, MappingCache.view c p = Some (e, d) -> p ∈ below a (Log.touched rs) /\ final g f k rs q p e;
}.

(** The cache holds the pages of a window, all dirty. *)
Record captured g (f : Z -> list Z) (k : Checkpoint) rs (q : LogPosition) (w : Z * Z) (c0 c : MappingCache) : Prop := {
  cp_wf : MappingCache.wf c;
  cp_shape : MappingCache.same_shape c0 c;
  cp_dirty : forall p, p ∈ MappingCache.dirty_ids c <-> p ∈ Replay.within w (Log.touched rs);
  cp_view : forall p e d, MappingCache.view c p = Some (e, d) ->
    d = true /\ p ∈ Replay.within w (Log.touched rs) /\ final g f k rs q p e;
}.

(** The volume that is recovered: a root with a log, and counters that are not exhausted. *)
Record recoverable_by_windows g (f : Z -> list Z) (k : Checkpoint) rs (q : LogPosition) (c0 : MappingCache) : Prop := {
  rw_blocks : forall x, block_ok (f x);
  rw_recoverable : Replay.recoverable f k g rs q;
  rw_vacant : Replay.vacant g c0;
  rw_rooted : Publish.rooted f k g;
  rw_pages : forall p, p ∈ Log.touched rs -> 0 <= p < g_page_count g;
  rw_space : p_at q + Z.of_nat (size (Log.touched rs)) < g_backing_blocks g;
  rw_lsn : p_lsn q + Z.of_nat (size (Log.touched rs)) < 2 ^ 64;
  rw_generation : c_generation (k_descriptor k) + 1 < 2 ^ 64;
}.

Lemma dirty_size c X :
  MappingCache.wf c -> (forall p, p ∈ MappingCache.dirty_ids c <-> p ∈ X) -> lenZ (MappingCache.dirty_pages c) = Z.of_nat (size X).
Proof.
  intros Hc Hd. assert (E : X = list_to_set (MappingCache.dirty_ids c)).
  { apply set_eq. intros p. by rewrite elem_of_list_to_set, Hd. }
  rewrite E, size_list_to_set by (by apply MappingCache.NoDup_dirty_ids). unfold MappingCache.dirty_ids. by rewrite length_fmap.
Qed.

Lemma staged_moved g f k rs q a s s' : Replay.moved s s' -> staged g f k rs q a s -> staged g f k rs q a s'.
Proof.
  intros [[Hu _] ? Hc ?] []. constructor; rewrite ?Hc; try done; try congruence.
  - intros x Hx. rewrite Hu. auto.
  - intros p Hp. destruct (sg_written0 p Hp) as (b & e & ? & ? & Hd & ?). exists b, e. split; [done|]. split; [done|]. split; [|done].
    rewrite <- Hd. apply PageRead.disk_page_ext. intros; apply Hu.
Qed.

(** A replay of a window, over an empty cache. *)
Lemma window_replay g f k rs q c0 a w s :
  recoverable_by_windows g f k rs q c0 -> staged g f k rs q a s -> rv_cache s = c0 ->
  takes w a (Log.touched rs) -> Z.of_nat (size (Replay.within w (Log.touched rs))) <= capacity (sizing c0) ->
  runs (Recovery.replay_window w) s (fun r s' => Replay.fails s r \/
    (r = Ok tt /\ Io.unbooked (rv_io s) (rv_io s') /\ staged g f k rs q a s' /\ captured g f k rs q w c0 (rv_cache s'))).
Proof.
  intros [] Hst Hc0 [Ha Ht] Hfit. pose proof Hst as []. set (U := Log.touched rs) in *.
  assert (Hcn : 0 <= count_below a U) by (unfold count_below; lia).
  destruct (Replay.recoverable_prefix f (Io.file (rv_io s)) k g rs q rw_recoverable0) as [Hre1 Hd1].
  { intros x Hx. apply sg_files0. lia. }
  destruct (Replay.recoverable_ok (Io.file (rv_io s)) k g rs q s Hre1) as [Hok Hen]; try done; rewrite ?Hc0; try apply rw_vacant0.
  pose proof Hre1 as []. pose proof re_geometry as [].
  assert (Hfits : Replay.fits g (Replay.within w U) s).
  { constructor; [by rewrite sg_end0|lia| |by rewrite Hc0]. intros p Hp. rewrite Hc0 in Hp.
    by apply (Replay.vacant_dirty g) in Hp. }
  eapply runs_mono; [apply (Replay.replay_window_run g (Replay.within w U) s rs w); [done| |done]|].
  { constructor; rewrite ?sg_active0, ?sg_end0; [done|by apply Index.wf_geometry|cbn in *; lia]. }
  cbv beta. intros r s' [?|(-> & [] & Hx)]; [by left|right]. split; [done|].
  split; [apply rp_moved|]. split; [by eapply staged_moved|].
  rewrite sg_end0 in rp_ok. pose proof rp_ok as []. change (Mapping.cache (Replay.view s')) with (rv_cache s') in *.
  constructor; [done|by rewrite Hc0 in rp_shape| |].
  { intros p. split; [apply rp_dirty|apply Hx]. }
  intros p e d Hv. assert (Hdp : p ∈ MappingCache.dirty_ids (rv_cache s')).
  { destruct (rp_resident p) as [Hr|Hr]; [by rewrite Hv| |done]. rewrite Hc0, (Replay.vc_view _ _ rw_vacant0) in Hr. by destruct Hr. }
  pose proof (rp_dirty p Hdp) as Hpw. split.
  { apply MappingCache.dirty_ids_elem in Hdp as [e' He']; [|done]. congruence. }
  split; [done|]. apply Replay.elem_of_within in Hpw as [Hin HpU].
  assert (Hpg : Mapping.page g (Replay.view s') p = e).
  { unfold Mapping.page, Publish.page. change (Mapping.cache (Replay.view s')) with (rv_cache s'). by rewrite Hv. }
  destruct (Mapping.page_valid g q _ p rp_ok (rw_pages0 p HpU)) as (Hty & Hva & Hlog). rewrite Hpg in *.
  constructor; [by constructor; auto|]. intros lba Hl Hp.
  assert (Hent : Mapping.entry g (Replay.view s') lba = Entries.get e (lba mod ENTRIES_PER_PAGE)).
  { unfold Mapping.entry. by rewrite Hp, Hpg. }
  rewrite <- Hent, rp_entry by done. unfold Replay.only. rewrite Hp, Hin. apply Log.replay_ext. rewrite Hen.
  unfold Mapping.root_entry. by rewrite Hd1.
Qed.

Lemma planned_roomy g f k rs q c0 a w :
  recoverable_by_windows g f k rs q c0 -> takes w a (Log.touched rs) ->
  Snapshots.roomy g (planned_root k q (count_below a (Log.touched rs))) (Z.of_nat (size (Replay.within w (Log.touched rs)))).
Proof.
  intros [_ Hre _ _ _ Hsp _ _] Ht. pose proof (count_below_window w a _ Ht). pose proof (count_below_le w.2 (Log.touched rs)).
  destruct (Replay.recoverable_end _ _ _ _ _ Hre) as [Hat Hl]. destruct Hre as [_ _ (_ & _ & _ & Hu & _) ? _ _].
  set (cw := count_below w.2 _) in *. set (ca := count_below a _) in *. assert (0 <= ca) by (unfold ca, count_below; lia).
  unfold is_u64 in Hu. cbn [Publish.end_of p_at p_lsn] in *. constructor; cbn [planned_root Publish.advance Publish.successor
    c_checkpoint_lsn c_last_record_boundary]; lia.
Qed.

(** The pages that a window holds are appended to the log, and the candidate points at them. *)
Lemma window_append g f k rs q c0 a w s :
  recoverable_by_windows g f k rs q c0 -> staged g f k rs q a s -> captured g f k rs q w c0 (rv_cache s) ->
  takes w a (Log.touched rs) ->
  runs (zoom (fun s => (rv_io s, rv_cache s)) (fun p s => Recovery.with_io (fst p) (Recovery.with_cache (snd p) s))
          (Publish.append_snapshots (rv_candidate s))) s (fun r s' => Replay.fails s r \/ exists candidate,
    r = Ok candidate /\ Io.unbooked (rv_io s) (rv_io s') /\ staged g f k rs q w.2 (Recovery.with_candidate candidate s') /\
    loaded g f k rs q w.2 c0 (rv_cache s')).
Proof.
  intros Hrw Hst Hcp Ht. pose proof (planned_roomy _ _ _ _ _ _ _ _ Hrw Ht) as Hroom. pose proof Hrw as [].
  pose proof Hst as []. pose proof Hcp as []. set (U := Log.touched rs) in *. set (W := Replay.within w U) in *.
  pose proof rw_recoverable0 as []. pose proof re_geometry as Hwf. pose proof (Index.wf_geometry _ _ re_index) as Hgeo.
  destruct (Replay.recoverable_end _ _ _ _ _ rw_recoverable0) as [Hat Hlq]. pose proof re_typed as (T1 & T2 & T3 & T4 & T5 & T6 & T7).
  pose proof (dirty_size _ _ cp_wf0 cp_dirty0) as Hn. set (n0 := count_below a U) in *. set (n := Z.of_nat (size W)) in *.
  pose proof (count_below_window w a U Ht) as Hcount. fold n0 in Hcount. change (Z.of_nat (size (Replay.within w U))) with n in Hcount.
  pose proof (count_below_le w.2 U) as Hle. assert (Hn0 : 0 <= n0) by (unfold n0, count_below; lia).
  assert (Hg0 : Descriptor.geometry (k_descriptor (rv_candidate s)) = Ok g) by (by rewrite sg_descriptor0).
  assert (Hi : 0 < g_index_blocks g) by (destruct Hwf; lia).
  assert (Hvol : volume_blocks (rv_cache s) = g_volume_blocks g).
  { by rewrite (proj1 (proj2 cp_shape0)), (Replay.vc_volume _ _ rw_vacant0). }
  apply runs_zoom, runs_intro. intros r [io' c'] Hrun. cbn [fst snd].
  assert (Herr : forall e, r = Err e -> Io.failure (rv_io s) e).
  { intros e ->. eapply (Snapshots.append_snapshots_calm g); [done|done|done| | |exact Hrun]; rewrite sg_descriptor0, ?Hn; [done|].
    intros p e' Hv. destruct (cp_view0 p e' true Hv) as (_ & _ & [Hrec _]).
    eapply Snapshots.recordable_mono; [exact Hrec|]. cbn. lia. }
  apply (Publish.append_snapshots_spec g) in Hrun as (Hnp & (Hch & _ & Hbk) & Hwf' & Hsh' & Hv' & Hok); try done; rewrite ?sg_descriptor0, ?Hn.
  2: { rewrite (Publish.page_count_eq g) by done. by rewrite sg_length0. }
  2: { cbn in *. destruct Hwf. lia. }
  2: { destruct Hroom, Hwf. cbn in *. change MAX_BACKING_BLOCKS with (2 ^ 32). lia. }
  destruct r as [cand|e|]; [|left; exists e; split; [done|by apply Herr]|done]. right. exists cand. split; [done|]. split; [exact Hbk|].
  unfold Publish.behind in Hch. rewrite sg_descriptor0, Hn in Hch. cbn [fst snd planned_root Publish.advance c_last_record_boundary] in Hch, Hwf', Hsh', Hv'.
  destruct (Hok cand eq_refl) as []. rewrite sg_descriptor0, Hn in *. cbn [planned_root Publish.advance Publish.successor
    c_slot c_volume_id c_volume_blocks c_backing_blocks c_checkpoint_lsn c_last_record_boundary c_index_checksum c_generation] in *.
  assert (HW : forall p, p ∈ W <-> w.1 <= p < w.2 /\ p ∈ U).
  { intros p. unfold W. rewrite Replay.elem_of_within. unfold Replay.inside. by rewrite andb_true_iff, Z.leb_le, Z.ltb_lt. }
  assert (Hview : forall p, p ∈ W -> exists e, MappingCache.view (rv_cache s) p = Some (e, true)).
  { intros p Hp. by apply MappingCache.dirty_ids_elem, cp_dirty0. }
  assert (Hkeep : forall p, 0 <= p -> p ∉ W -> k_pages cand !! Z.to_nat p = k_pages (rv_candidate s) !! Z.to_nat p).
  { intros p Hp0 Hp. apply sn_clean; [done|]. intros e He. by destruct (cp_view0 p e true He) as (_ & ? & _). }
  assert (Hnew : forall p, p ∈ W -> exists b, k_pages cand !! Z.to_nat p = Some b /\ p_at q + n0 < b <= p_at q + (n0 + n)).
  { intros p Hp. destruct (Hview p Hp) as [e He]. destruct (sn_dirty p e He) as (i & Hi' & Hb & _). eexists. split; [exact Hb|lia]. }
  destruct Ht as [Hw Hin].
  split.
  - constructor; cbn; try done.
    + intros x Hx. fold U in Hx. rewrite Hcount in Hx. rewrite Hch by lia. apply sg_files0. fold U n0. lia.
    + rewrite sn_descriptor. unfold planned_root, Publish.advance, Publish.successor; cbn. fold U. rewrite Hcount. f_equal; lia.
    + lia.
    + intros i. rewrite elem_of_above. destruct (decide (i ∈ W)) as [Hp|Hp].
      * pose proof (proj1 (HW i) Hp) as [? ?]. split; [lia|]. intros [_ Hm]. destruct (Hnew i Hp) as (b & Hb & ?).
        rewrite Hb in Hm. injection Hm as ->. unfold Recovery.MARKER in *. destruct Hwf. cbn in *. lia.
      * split.
        -- intros [Hwi HiU]. pose proof (rw_pages0 i HiU). split; [lia|]. rewrite Hkeep by (done || lia).
           apply sg_marking0, elem_of_above. split; [lia|done].
        -- intros [Hi0 Hm]. rewrite Hkeep in Hm by done. assert (Hia : i ∈ above a U) by (by apply sg_marking0).
           apply elem_of_above in Hia as [? HiU]. split; [|done]. destruct (decide (i < w.2)); [|lia].
           exfalso. apply Hp. unfold W. apply Replay.elem_of_within. split; [|done]. apply Hin; [done|lia].
    + intros p [Hpw HpU]%elem_of_below. fold U. rewrite Hcount. pose proof (rw_pages0 p HpU) as Hpp.
      destruct (decide (p ∈ W)) as [Hp|Hp].
      * destruct (Hview p Hp) as [e He]. destruct (sn_dirty p e He) as (i & Hi' & Hb & Henc).
        destruct (cp_view0 p e true He) as (_ & _ & Hfin). exists (p_at q + n0 + i + 1), e.
        split; [exact Hb|]. split; [lia|]. split; [|done].
        pose proof (Snapshots.rc_typed _ _ _ _ (fi_recordable _ _ _ _ _ _ _ Hfin)) as Hty.
        apply (Snapshots.snapshot_read g _ (planned_root k q n0) i p e cand); cbn; try done.
        -- destruct Hwf. lia.
        -- lia.
        -- cbn in *. destruct Hwf. lia.
        -- unfold is_u64. cbn in Hlq. unfold is_u64 in T4. lia.
        -- destruct Hwf. cbn in *. lia.
        -- unfold is_u32. destruct Hwf. lia.
        -- by rewrite sn_descriptor.
        -- rewrite sn_descriptor. cbn. lia.
      * assert (Hpa : p < a).
        { destruct (decide (p < a)); [done|]. exfalso. apply Hp. unfold W. apply Replay.elem_of_within. split; [|done]. apply Hin; [done|lia]. }
        destruct (sg_written0 p) as (b & e & Hb & Hbq & Hd & Hfin); [by apply elem_of_below|]. fold U n0 in Hbq.
        exists b, e. split; [by rewrite Hkeep by (done || lia)|]. split; [lia|]. split; [|done].
        apply (PageRead.disk_page_later (Io.file (rv_io s)) _ (rv_candidate s)); try done.
        -- apply Hkeep; [lia|done].
        -- intros b' Hb' _. rewrite Hb in Hb'. injection Hb' as <-. apply Hch. lia.
        -- by rewrite sn_descriptor, sg_descriptor0.
        -- rewrite sn_descriptor, sg_descriptor0. cbn. fold U n0. lia.
    + intros p Hp HpU. rewrite Hkeep; [by apply sg_unmarked0|done|]. intros Hp'. by apply HW in Hp' as [_ ?].
  - constructor; cbn; [done| |].
    + destruct cp_shape0 as (? & ? & ?), Hsh' as (? & ? & ?). unfold MappingCache.same_shape. split_and!; congruence.
    + intros p e d Hp. rewrite Hv' in Hp. destruct (cp_view0 p e d Hp) as (_ & HpW & Hfin). split; [|done].
      apply HW in HpW as [? ?]. apply elem_of_below. split; [lia|done].
Qed.

Lemma loaded_vacant g f k rs q a c0 : Replay.vacant g c0 -> loaded g f k rs q a c0 c0.
Proof. intros []. constructor; [done|done|]. intros p e d Hv. by rewrite vc_view in Hv. Qed.

Lemma within_above w a X : a <= w.1 -> Replay.within w (above a X) = Replay.within w X.
Proof.
  intros Ha. apply set_eq. intros p. rewrite !Replay.elem_of_within, elem_of_above. unfold Replay.inside.
  rewrite andb_true_iff, Z.leb_le. split; [tauto|]. intros [[? ?] ?]. split_and!; try done. lia.
Qed.

(** The window that is taken next, while a page is marked. *)
Lemma staged_window g f k rs q a s capacity :
  staged g f k rs q a s -> 0 <= a -> 1 <= capacity ->
  match Recovery.next_window (rv_candidate s) a capacity with
  | None => above a (Log.touched rs) = ∅
  | Some w => takes w a (Log.touched rs) /\ w.2 <= g_page_count g /\
      Z.of_nat (size (Replay.within w (Log.touched rs))) <= capacity
  end.
Proof.
  intros [] Ha Hc. pose proof (next_window_spec _ _ a capacity Ha Hc sg_marking0) as Hw.
  destruct (Recovery.next_window _ _ _) as [w|]; [|apply Hw; by intros p [? _]%elem_of_above].
  destruct Hw as (Hw & Hl & Hs & Hi); [by intros p [? _]%elem_of_above|]. rewrite within_above in Hs by lia.
  split; [|by rewrite sg_length0 in Hl]. split; [done|]. intros p Hp Hap. apply Hi; [apply elem_of_above; split; [lia|done]|lia].
Qed.

Lemma count_lookups_run s (Q : res unit -> RecoveryState D -> Prop) :
  (forall s', Replay.moved s s' -> rv_cache s' = rv_cache s -> Q (Ok tt) s') -> runs Recovery.count_lookups s Q.
Proof. intros HQ. unfold Recovery.count_lookups. apply runs_modify, HQ; [by constructor|done]. Qed.

(** All the windows: every page of the log gets its snapshot. *)
Lemma window_loop_run g f k rs q c0 logical budget fuel a s s0 :
  Io.unbooked (rv_io s0) (rv_io s) ->
  recoverable_by_windows g f k rs q c0 -> MappingCache.new logical budget = Ok c0 -> 1 <= capacity (sizing c0) ->
  staged g f k rs q a s -> loaded g f k rs q a c0 (rv_cache s) -> 0 <= a <= g_page_count g ->
  (above a (Log.touched rs) <> ∅ -> rv_cache s = c0) -> g_page_count g - a < Z.of_nat fuel ->
  runs (Recovery.window_loop fuel logical budget (capacity (sizing c0)) a) s (fun r s' => Replay.fails s0 r \/
    (r = Ok tt /\ Io.unbooked (rv_io s0) (rv_io s') /\ exists b, staged g f k rs q b s' /\ above b (Log.touched rs) = ∅ /\ loaded g f k rs q b c0 (rv_cache s'))).
Proof.
  intros Hu0 Hrw Hnew Hcap. revert a s Hu0. induction fuel as [|fuel IH]; intros a s Hu0 Hst Hld Ha Hc0 Hfuel; [lia|].
  cbn [Recovery.window_loop]. apply runs_bind, runs_get. cbn [next].
  pose proof (staged_window _ _ _ _ _ _ _ _ Hst (proj1 Ha) Hcap) as Hw.
  destruct (Recovery.next_window _ _ _) as [w|] eqn:Ew.
  2: { apply runs_ret. right. split; [done|]. split; [done|]. by exists a. }
  destruct Hw as (Ht & Hw2 & Hfit). cbv zeta.
  assert (Hcs : rv_cache s = c0).
  { apply Hc0. intros E. pose proof (next_window_spec _ _ a _ (proj1 Ha) Hcap (sg_marking _ _ _ _ _ _ _ Hst)) as Hx.
    rewrite Ew in Hx. unfold Recovery.next_window in Ew.
    destruct (Recovery.marked_pages (rv_candidate s) a) as [|p l] eqn:Em; [done|].
    assert (Hp : p ∈ Recovery.marked_pages (rv_candidate s) a) by (rewrite Em; by left).
    apply elem_of_marked in Hp as [Hpa Hp]; [|lia].
    assert (HpX : p ∈ above a (Log.touched rs)) by (apply (sg_marking _ _ _ _ _ _ _ Hst); split; [lia|done]).
    rewrite E in HpX. by apply not_elem_of_empty in HpX. }
  apply runs_bind. eapply runs_mono; [by apply (window_replay g f k rs q c0 a w)|]. cbv beta.
  intros r1 s1 [(e & -> & He)|(-> & Hu1 & Hst1 & Hcp1)]; cbn [next]; [left; exists e; split; [done|by eapply Io.failure_unbooked]|].
  assert (Hu01 : Io.unbooked (rv_io s0) (rv_io s1)) by (intros E; auto).
  apply runs_bind, runs_get. cbn [next]. apply runs_bind.
  eapply runs_mono; [by apply (window_append g f k rs q c0 a w)|]. cbv beta.
  intros r2 s2 [(e & -> & He)|(cand & -> & Hu2 & Hst2 & Hld2)]; cbn [next];
    [left; exists e; split; [done|by eapply Io.failure_unbooked]|].
  assert (Hu02 : Io.unbooked (rv_io s0) (rv_io s2)) by (intros E; auto).
  apply runs_bind, runs_modify. cbn [next]. apply runs_bind, runs_get. cbn [next].
  apply runs_bind, Replay.add_run. intros s3 Hm3 Hc3. cbn [next].
  apply runs_bind, count_lookups_run. intros s4 Hm4 Hc4. cbn [next].
  assert (Hu04 : Io.unbooked (rv_io s0) (rv_io s4)).
  { intros E. apply (Replay.mv_io _ _ Hm4), (Replay.mv_io _ _ Hm3), Hu02, E. }
  pose proof (staged_moved _ _ _ _ _ _ _ _ Hm4 (staged_moved _ _ _ _ _ _ _ _ Hm3 Hst2)) as Hst4.
  assert (Hcand : rv_candidate s4 = cand) by (by rewrite (Replay.mv_candidate _ _ Hm4), (Replay.mv_candidate _ _ Hm3)).
  assert (Hld4 : loaded g f k rs q w.2 c0 (rv_cache s4)) by (by rewrite Hc4, Hc3).
  assert (Ha2 : 0 <= w.2 <= g_page_count g) by (destruct Ht; lia).
  pose proof (staged_window _ _ _ _ _ _ _ _ Hst4 (proj1 Ha2) Hcap) as Hw4. rewrite Hcand in Hw4.
  apply runs_bind. destruct (Recovery.next_window cand w.2 (capacity (sizing c0))) as [w4|].
  - apply runs_bind, runs_lift. rewrite Hnew. cbn [map_err next]. apply runs_modify. cbn [next].
    apply IH; cbn [Recovery.with_cache rv_cache]; try done; [|by apply loaded_vacant, Hrw|destruct Ht; lia].
    eapply staged_moved; [|exact Hst4]. constructor; [apply Io.untouched_refl|done..].
  - apply runs_ret. cbn [next]. apply IH; try done. destruct Ht; lia.
Qed.

(** ** The new root *)

(** The entries of a page are determined. *)
Lemma final_unique g f k rs q p e e' : final g f k rs q p e -> final g f k rs q p e' -> e = e'.
Proof.
  intros [[Hp [Hs _] Hv _] He] [[_ [Hs' _] Hv' _] He']. apply Entries.entries_ext; [done|done|]. intros i Hi.
  change ENTRIES_PER_PAGE with 336 in *. set (lba := p * 336 + i).
  assert (Hdiv : lba / 336 = p /\ lba mod 336 = i).
  { unfold lba. rewrite Z.add_comm, Z.div_add, Z.mod_add by done. rewrite Z.div_small, Z.mod_small by lia. done. }
  destruct Hdiv as [Hd Hm]. destruct (decide (Mapping.in_volume g lba)) as [Hl|Hl].
  - specialize (He lba Hl Hd). specialize (He' lba Hl Hd). rewrite Hm in *. congruence.
  - assert (MappingCache.page_entries (g_volume_blocks g) p <= i).
    { unfold MappingCache.page_entries. change ENTRIES_PER_PAGE with 336. unfold Mapping.in_volume in Hl. lia. }
    destruct (Hv i Hi) as [_ E], (Hv' i Hi) as [_ E']. by rewrite E, E'.
Qed.

(** A page without records is as the root has it. *)
Lemma final_untouched g f k rs q c0 p e :
  recoverable_by_windows g f k rs q c0 -> 0 <= p < g_page_count g -> p ∉ Log.touched rs ->
  PageRead.disk_page f k g p = Some e -> final g f k rs q p e.
Proof.
  intros [] Hp Hn Hd. destruct (Replay.recoverable_end _ _ _ _ _ rw_recoverable0) as [Hat _]. destruct rw_recoverable0.
  destruct (PageRead.disk_page_valid f k g p e rw_blocks0 re_index (proj1 Hp) Hd) as (Ht & Hv & Hl).
  constructor; [constructor; try done|].
  - intros i Hi Hne. specialize (Hl i Hi Hne). cbn in Hat. lia.
  - intros lba Hlba Hlp. rewrite Replay.replay_untouched by (by rewrite Hlp). unfold Mapping.root_entry. by rewrite Hlp, Hd.
Qed.

(** What a staged candidate is, once no page is marked. *)
Lemma staged_root g f k rs q c0 b s :
  recoverable_by_windows g f k rs q c0 -> staged g f k rs q b s -> above b (Log.touched rs) = ∅ ->
  let k1 := rv_candidate s in
  k_descriptor k1 = planned_root k q (Z.of_nat (size (Log.touched rs))) /\ Index.wf k1 g /\
  Descriptor.typed (k_descriptor k1) /\
  forall p, 0 <= p < g_page_count g -> exists e, PageRead.disk_page (Io.file (rv_io s)) k1 g p = Some e /\ final g f k rs q p e.
Proof.
  intros Hrw Hst Hall k1. pose proof Hrw as []. pose proof Hst as []. set (U := Log.touched rs) in *.
  assert (HU : below b U = U).
  { apply set_eq. intros p. rewrite elem_of_below. split; [tauto|]. intros Hp. split; [|done].
    destruct (decide (p < b)); [done|]. assert (Hx : p ∈ above b U) by (apply elem_of_above; split; [lia|done]). set_solver. }
  unfold count_below in *. rewrite HU in *. set (n := Z.of_nat (size U)) in *.
  destruct (Replay.recoverable_end _ _ _ _ _ rw_recoverable0) as [Hat Hlq]. pose proof rw_recoverable0 as [].
  pose proof re_index as [Hgeo Hpos Hlen Hptr]. pose proof re_typed as (T1 & T2 & T3 & T4 & T5 & T6 & T7).
  pose proof re_geometry as []. cbn in Hat, Hlq. fold k1 in sg_descriptor0. split; [done|]. split; [|split].
  - constructor; rewrite ?sg_descriptor0; [done|done|done|]. apply Forall_lookup. intros j x Hj.
    destruct (decide (Z.of_nat j ∈ U)) as [Hp|Hp].
    + destruct (sg_written0 _ Hp) as (x' & e & Hx & Hr & _). rewrite Nat2Z.id in Hx. fold k1 in Hx. rewrite Hj in Hx. injection Hx as <-.
      split; [unfold is_u32; lia|]. right. rewrite sg_descriptor0. cbn. lia.
    + pose proof (sg_unmarked0 (Z.of_nat j) ltac:(lia) Hp) as Hx. rewrite Nat2Z.id in Hx. fold k1 in Hx. rewrite Hj in Hx. symmetry in Hx.
      destruct (proj1 (Forall_lookup _ _) Hptr _ _ Hx) as [Hu [->|Hr]]; (split; [done|]); [by left|].
      right. rewrite sg_descriptor0. cbn. lia.
  - rewrite sg_descriptor0. unfold Descriptor.typed, is_u32, is_u64 in *. cbn. lia.
  - intros p Hp. destruct (decide (p ∈ U)) as [Hin|Hin].
    { destruct (sg_written0 p Hin) as (x & e & _ & _ & Hd & Hf). by exists e. }
    destruct (re_pages p Hp) as [e He]. exists e. split; [|by eapply final_untouched].
    apply (PageRead.disk_page_later f _ k); try done.
    + by apply sg_unmarked0; [lia|].
    + intros x Hx Hne. apply sg_files0. destruct (Publish.pointer_range g k _ x re_index Hx Hne) as [Hr _]. lia.
    + by rewrite sg_descriptor0.
    + rewrite sg_descriptor0. cbn. lia.
Qed.

Lemma planned_valid g f k rs q c0 n :
  recoverable_by_windows g f k rs q c0 -> 0 < n -> p_at q + n < g_backing_blocks g ->
  Descriptor.valid (planned_root k q n) g.
Proof.
  intros [] Hn Hb. destruct (Replay.recoverable_end _ _ _ _ _ rw_recoverable0) as [Hat Hlq]. destruct rw_recoverable0.
  destruct re_typed as (_ & _ & _ & T4 & _ & _ & T7). unfold is_u64 in *. cbn in Hat, Hlq.
  pose proof (Index.wf_geometry _ _ re_index) as Hg. destruct (Log.chain_le _ _ _ _ _ _ Hg re_chain) as (Ha & Hl & _). cbn in Ha, Hl.
  destruct rw_rooted0 as (He & _). unfold Descriptor.encode in He. apply rbind_Ok in He as ([] & He & _).
  apply Descriptor.descriptor_validate_Ok in He as (g' & []).
  assert (g' = g) as -> by (pose proof Hg as Hg'; unfold Descriptor.geometry in *; congruence).
  constructor; [exact Hg|cbn; lia..].
Qed.

(** Entries of the recovered volume lie in the log. *)
Lemma final_range g f k rs q c0 lba :
  recoverable_by_windows g f k rs q c0 -> (forall p, 0 <= p < g_page_count g -> exists e, final g f k rs q p e) ->
  Mapping.in_volume g lba -> (Log.replay rs (Mapping.root_entry f k g) lba).1 <> 0 ->
  g_log_start g <= (Log.replay rs (Mapping.root_entry f k g) lba).1 <= p_at q.
Proof.
  intros [] Hf Hl. destruct (Mapping.in_volume_page g lba (Replay.re_geometry _ _ _ _ _ rw_recoverable0) Hl) as (Hp & _ & Hm).
  destruct (Hf _ Hp) as (e & [Hr He]). rewrite <- (He lba Hl eq_refl). by apply Hr.
Qed.

(** [f'], [k'], [rs'] and [q'] stand for the same volume as [f], [k], [rs] and [q]. *)
Record continues g (f : Z -> list Z) (k : Checkpoint) rs (q : LogPosition)
    (f' : Z -> list Z) (k' : Checkpoint) (rs' : list LogRecord) (q' : LogPosition) : Prop := {
  ct_volume : c_volume_id (k_descriptor k') = c_volume_id (k_descriptor k);
  ct_entries : forall lba, Mapping.in_volume g lba ->
    Log.replay rs' (Mapping.root_entry f' k' g) lba = Log.replay rs (Mapping.root_entry f k g) lba;
  ct_payloads : forall lba, Mapping.in_volume g lba -> (Log.replay rs (Mapping.root_entry f k g) lba).1 <> 0 ->
    f' (Log.replay rs (Mapping.root_entry f k g) lba).1 = f (Log.replay rs (Mapping.root_entry f k g) lba).1;
  ct_recoverable : Replay.recoverable f' k' g rs' q';
  ct_rooted : Publish.rooted f' k' g;
  ct_newest : Roots.superseded f k -> Roots.superseded f' k';
  ct_tail : p_at q <= p_at q';
  ct_behind : forall x, p_at q' < x -> f' x = f x;
}.

Lemma continues_refl g f k rs q :
  Replay.recoverable f k g rs q -> Publish.rooted f k g -> continues g f k rs q f k rs q.
Proof. intros Hre Hro. by constructor. Qed.

(** Nothing is staged yet. *)
Lemma prepare_run g f k rs q c0 s :
  recoverable_by_windows g f k rs q c0 -> Replay.planned g f k rs q c0 s ->
  runs Recovery.prepare_publication s (fun r s' => r = Ok tt /\ rv_io s' = rv_io s /\ staged g f k rs q 0 s' /\ rv_cache s' = c0 /\
    length (k_pages (rv_candidate s')) = length (k_pages (rv_candidate s))).
Proof.
  intros [] []. unfold Recovery.prepare_publication. apply runs_bind, runs_get. cbn [next]. cbv zeta. rewrite pl_descriptor.
  assert (Hgen : Descriptor.next_generation (k_descriptor k) = Ok (c_generation (k_descriptor k) + 1))
    by (by apply Descriptor.next_generation_Ok).
  apply runs_bind, runs_lift. rewrite Hgen. cbn [next]. apply runs_modify. split; [done|]. split; [done|]. split; [|done].
  assert (HB : below 0 (Log.touched rs) = ∅).
  { apply set_eq. intros p. rewrite elem_of_below. split; [intros [? Hp]; pose proof (rw_pages0 p Hp); lia|set_solver]. }
  assert (HU : above 0 (Log.touched rs) = Log.touched rs).
  { apply set_eq. intros p. rewrite elem_of_above. split; [tauto|]. intros Hp. pose proof (rw_pages0 p Hp). split; [lia|done]. }
  assert (Hc : count_below 0 (Log.touched rs) = 0) by (unfold count_below; by rewrite HB).
  constructor; cbn [Recovery.with_candidate Publish.with_descriptor rv_io rv_active rv_end rv_candidate k_descriptor k_pages];
    rewrite ?Hc, ?HB, ?HU; try done.
  unfold planned_root, Publish.advance, Publish.successor; cbn. by rewrite pl_end, !Z.add_0_r.
Qed.

(** The staged root, published: the volume goes on from it. *)
Lemma persisted g f k rs q c0 b s io2 k2 sum :
  recoverable_by_windows g f k rs q c0 -> staged g f k rs q b s -> above b (Log.touched rs) = ∅ ->
  loaded g f k rs q b c0 (rv_cache s) ->
  let slot := slot_other (c_slot (k_descriptor k)) in
  (forall x, ~ (Publish.body_blocks slot g x \/ x = slot_number slot) -> Io.file io2 x = Io.file (rv_io s) x) ->
  Publish.rooted (Io.file io2) k2 g -> is_u64 sum ->
  k2 = Publish.with_descriptor (Publish.with_checksum (k_descriptor (rv_candidate s)) sum) (rv_candidate s) ->
  let c2 := MappingCache.checkpoint_published (rv_cache s) in
  continues g f k rs q (Io.file io2) k2 [] (Publish.end_of k2) /\
  Publish.coherent g (Io.file io2) k2 c2 (Publish.end_of k2) /\
  (forall p, 0 <= p < g_page_count g -> Publish.page g (Io.file io2) k2 c2 p = default Entries.zeroed (PageRead.disk_page (Io.file io2) k2 g p)) /\
  MappingCache.same_shape c0 c2 /\ MappingCache.dirty_pages c2 = [] /\ p_at (Publish.end_of k2) < g_backing_blocks g.
Proof.
  intros Hrw Hst Hall Hld slot Hf2 Hroot Hsum Hk2 c2. pose proof (staged_root _ _ _ _ _ _ _ _ Hrw Hst Hall) as (Hd1 & Hwf1 & Hty1 & Hpages1).
  set (k1 := rv_candidate s) in *. set (n := Z.of_nat (size (Log.touched rs))) in *. pose proof Hrw as []. pose proof Hst as []. pose proof Hld as [].
  fold n in rw_lsn0, rw_space0.
  destruct (Replay.recoverable_end _ _ _ _ _ rw_recoverable0) as [Hat Hlq]. pose proof rw_recoverable0 as []. cbn in Hat, Hlq.
  pose proof (Publish.body_bounds slot g re_geometry) as Hbb. pose proof (Publish.body_bounds (c_slot (k_descriptor k)) g re_geometry) as Hbk.
  assert (Hslots : forall sl, slot_number sl <= 1) by (by intros []).
  assert (Hib : 0 < g_index_blocks g) by (destruct re_geometry; lia).
  assert (Hlog : forall x, g_log_start g <= x -> Io.file io2 x = Io.file (rv_io s) x).
  { intros x Hx. apply Hf2. unfold Publish.body_blocks. pose proof (Hslots slot). lia. }
  assert (Hcn : 0 <= count_below b (Log.touched rs) <= n) by (split; [unfold count_below; lia|apply count_below_le]).
  assert (Hold : forall x, g_log_start g <= x <= p_at q \/ p_at q + n < x -> Io.file io2 x = f x).
  { intros x Hx. rewrite Hlog by lia. apply sg_files0. lia. }
  assert (Hwf2 : Index.wf k2 g) by (rewrite Hk2; by apply Publish.wf_reroot).
  assert (Hd2 : k_descriptor k2 = Publish.with_checksum (planned_root k q n) sum) by (rewrite Hk2, <- Hd1; done).
  assert (Hpages2 : forall p, 0 <= p < g_page_count g -> exists e,
            PageRead.disk_page (Io.file io2) k2 g p = Some e /\ final g f k rs q p e).
  { intros p Hp. destruct (Hpages1 p Hp) as (e & He & Hfin). exists e. split; [|done].
    apply (PageRead.disk_page_later (Io.file (rv_io s)) _ k1); try done; rewrite ?Hk2; try done.
    intros x Hx Hne. apply Hlog. by destruct (Publish.pointer_range g k1 _ x Hwf1 Hx Hne) as [[? _] _]. }
  assert (Hrange := fun lba => final_range g f k rs q c0 lba Hrw (fun p Hp => let '(ex_intro _ e (conj _ Hfin)) := Hpages2 p Hp in ex_intro _ e Hfin)).
  assert (Hend : Publish.end_of k2 = {| p_lsn := p_lsn q + n; p_at := p_at q + n |}) by (unfold Publish.end_of; by rewrite Hd2).
  destruct (MappingCache.published_Ok (rv_cache s) ld_wf0) as (Hc2 & Hsh2 & Hcl2 & Hv2). fold c2 in Hc2, Hsh2, Hcl2, Hv2.
  assert (Hsh : MappingCache.same_shape c0 c2) by (by eapply Replay.same_shape_trans).
  assert (Hty2 : Descriptor.typed (k_descriptor k2)).
  { rewrite Hk2. unfold Descriptor.typed in *. cbn. tauto. }
  assert (Hview : forall p e d, MappingCache.view c2 p = Some (e, d) ->
    d = false /\ 0 <= p < g_page_count g /\ final g f k rs q p e /\ PageRead.disk_page (Io.file io2) k2 g p = Some e).
  { intros p e d Hv. rewrite Hv2 in Hv. destruct (MappingCache.view (rv_cache s) p) as [[e' d']|] eqn:E; [|done].
    injection Hv as <- <-. destruct (ld_view0 p e' d' E) as [[_ HpU]%elem_of_below Hfin]. split; [done|].
    pose proof (rw_pages0 p HpU) as Hp. split; [done|]. split; [done|]. destruct (Hpages2 p Hp) as (e2 & He2 & Hfin2).
    rewrite He2. f_equal. by eapply final_unique. }
  assert (Hstart : g_log_start g - 1 <= c_last_record_boundary (k_descriptor k2) < g_backing_blocks g).
  { rewrite Hd2. cbn. lia. }
  split_and!.
  - assert (Hreadable : Roots.readable (Io.file io2) k g).
    { constructor; try done.
      - destruct rw_rooted0 as (He & Hs & Hb). split; [|split; [done|]].
        + rewrite Hf2; [|unfold Publish.body_blocks; pose proof (Hslots (c_slot (k_descriptor k))); unfold slot;
            destruct (c_slot (k_descriptor k)); cbn in *; lia].
          rewrite sg_files0; [done|]. pose proof (Hslots (c_slot (k_descriptor k))). destruct re_geometry. lia.
        + intros x Hx. rewrite Hf2.
          * rewrite sg_files0 by lia. by apply Hb.
          * unfold Publish.body_blocks, slot, body_start in *. destruct re_geometry, (c_slot (k_descriptor k)); cbn in *; lia.
      - intros p Hp. rewrite (PageRead.disk_page_ext f); [by apply re_pages|]. intros x Hx Hne. apply Hold. left.
        apply list_elem_of_lookup in Hx as [i Hi]. destruct (Publish.pointer_range g k i x re_index Hi Hne) as [? _]. lia. }
    constructor.
    + by rewrite Hd2.
    + intros lba Hl. destruct (Mapping.in_volume_page g lba re_geometry Hl) as (Hp & _).
      destruct (Hpages2 _ Hp) as (e & He & [_ Hfi]). cbn [Log.replay foldl]. unfold Mapping.root_entry at 1. rewrite He. by apply Hfi.
    + intros lba Hl Hne. apply Hold. left. by apply Hrange.
    + constructor; try done; [|constructor]. intros p Hp. destruct (Hpages2 p Hp) as (e & He & _). by exists e.
    + done.
    + intros _. apply (Crash.superseded_by_next _ k _ g Hreadable). by rewrite Hd2.
    + rewrite Hend. cbn. lia.
    + rewrite Hend. cbn. intros x Hx. apply Hold. by right.
  - constructor; try done.
    + lia.
    + by rewrite (proj1 (proj2 Hsh)), (Replay.vc_volume _ _ rw_vacant0).
    + rewrite Hend, Hd2. cbn. lia.
    + rewrite Hend, Hd2. cbn. lia.
    + intros p Hp. destruct (Hpages2 p Hp) as (e & He & _). by exists e.
    + intros p e Hv. by apply Hview in Hv as (_ & _ & _ & ?).
    + intros p e d Hv. destruct (Hview p e d Hv) as (_ & _ & [[]] & _). split; [done|]. intros i Hi Hne.
      specialize (rc_log i Hi Hne). rewrite Hend. cbn [p_at]. lia.
  - intros p Hp. unfold Publish.page. destruct (MappingCache.view c2 p) as [[e d]|] eqn:E; [|done].
    destruct (Hview p e d E) as (_ & _ & _ & ->). done.
  - done.
  - done.
  - rewrite Hend. cbn. lia.
Qed.

(** The state that a recovery returned stands for the volume that it was given. *)
Definition resumes g (f : Z -> list Z) (k : Checkpoint) rs (q : LogPosition) (c0 : MappingCache) (rc : Recovered) s : Prop :=
  rc_cache rc = rv_cache s /\ exists f' rs',
    Replay.recovers g f' (rv_active s) rs' (rc_tail rc) c0 (Recovery.with_end (rc_tail rc) s) /\
    continues g f k rs q f' (rv_active s) rs' (rc_tail rc).

Lemma publish_windows_run g f k rs q c0 budget s :
  recoverable_by_windows g f k rs q c0 -> Replay.planned g f k rs q c0 s ->
  MappingCache.new (c_volume_blocks (k_descriptor k) * BLOCK_SIZE) budget = Ok c0 -> 1 <= capacity (sizing c0) ->
  0 < Z.of_nat (size (Log.touched rs)) ->
  runs (Recovery.publish_windows budget) s (fun r s' => Replay.fails s r \/
    exists rc, r = Ok rc /\ Io.unbooked (rv_io s) (rv_io s') /\ resumes g f k rs q c0 rc s').
Proof.
  intros Hrw Hpl Hnew Hcap Hn. pose proof Hrw as []. unfold Recovery.publish_windows.
  apply runs_bind. eapply runs_mono; [by eapply prepare_run|]. cbv beta. intros r0 s0 (-> & Hio0 & Hst0 & Hc0 & Hl0). cbn [next].
  apply runs_bind, runs_get. cbn [next]. cbv zeta. rewrite (sg_active _ _ _ _ _ _ _ Hst0), Hc0.
  change (n_sizing (MappingCache.snapshot c0)) with (sizing c0).
  assert (Hpc : 0 <= g_page_count g) by (destruct (Replay.re_geometry _ _ _ _ _ rw_recoverable0); lia).
  apply runs_bind. eapply runs_mono; [apply (window_loop_run g f k rs q c0 _ _ _ _ s0 s); try done|].
  { rewrite Hio0. by intros E. }
  { rewrite Hc0. by apply loaded_vacant. }
  { pose proof (sg_length _ _ _ _ _ _ _ Hst0). lia. }
  cbv beta. intros r1 s1 [(e & -> & He)|(-> & Hu1 & b & Hst1 & Hall & Hld1)]; cbn [next]; [left; by exists e|].
  apply runs_bind. unfold Recovery.on_io at 1. apply runs_zoom, runs_intro. intros r2 io2 Hrun2. cbn [fst snd].
  pose proof (Snapshots.sync_calm (rv_io s1)) as Hcalm2. rewrite Hrun2 in Hcalm2.
  apply Io.sync_spec in Hrun2 as (Hu2 & Hnp2 & _).
  destruct r2 as [[]|e|]; cbn [next]; [|left; exists e; split; [done|eapply Io.failure_unbooked; [exact Hu1|by apply Hcalm2]]|done].
  set (s2 := Recovery.with_io io2 s1).
  assert (Hst2 : staged g f k rs q b s2) by (eapply staged_moved; [|exact Hst1]; by constructor).
  apply runs_bind, runs_get. cbn [next].
  destruct (staged_root _ _ _ _ _ _ _ _ Hrw Hst2 Hall) as (Hd1 & Hwf1 & _).
  pose proof (Replay.re_geometry _ _ _ _ _ rw_recoverable0) as Hg.
  apply runs_bind. unfold Recovery.on_io at 1. apply runs_zoom, runs_intro. intros r3 io3 Hrun3. cbn [fst snd].
  assert (Hcalm3 : Snapshots.calm (Publish.persist_root (D := D) (rv_candidate s2))).
  { apply (Snapshots.persist_root_calm g); [done|done|]. rewrite Hd1. eapply planned_valid; [exact Hrw|done|done]. }
  specialize (Hcalm3 (rv_io s2)). rewrite Hrun3 in Hcalm3. apply (Publish.persist_root_spec g) in Hrun3 as (Hnp3 & (Hf3 & _ & Hu3) & _ & Hok3); [|done|done].
  destruct r3 as [k2|e|]; cbn [next]; [|left; exists e; split; [done|]|done].
  2: { eapply Io.failure_unbooked; [exact Hu1|]. eapply Io.failure_unbooked; [apply Hu2|]. by apply Hcalm3. }
  destruct (Hok3 k2 eq_refl) as (_ & Hroot & sum & Hk2 & Hsum).
  destruct (Index.checksum_total (rv_candidate s2) g Hwf1) as (sum' & Hsum' & Hu). assert (sum' = sum) as -> by congruence.
  assert (Hslot : c_slot (k_descriptor (rv_candidate s2)) = slot_other (c_slot (k_descriptor k))) by (by rewrite Hd1).
  rewrite Hslot in Hf3. destruct (persisted g f k rs q c0 b s2 io3 k2 sum) as (Hct & Hco & Hpg & Hsh & Hcl & Hend); try done.
  pose proof Hco as [_ Hwf2 _ _ _ _ _ _ _ _ _].
  apply runs_bind, runs_lift. rewrite (Index.wf_geometry _ _ Hwf2). cbn [next].
  apply runs_bind, Replay.add_run. intros s4 Hm4 Hc4. cbn [next]. apply runs_bind, runs_modify. cbn [next].
  apply runs_bind, runs_get. cbn [next]. apply runs_ret. right. eexists. split; [done|].
  split; [intros E; by apply (Replay.mv_io _ _ Hm4), Hu3, Hu2, Hu1|]. split; [done|].
  exists (Io.file io3), []. pose proof Hm4 as [[Hu4 _] _ _ _].
  cbn [rc_tail Recovery.with_active Recovery.with_candidate Recovery.with_cache rv_active]. split; [|exact Hct].
  change (rv_cache (Recovery.with_io io3 s2)) with (rv_cache s2) in Hc4.
  match goal with |- Replay.recovers _ _ _ _ _ _ ?w => set (sf := w) end.
  assert (Hpage : forall p, PageRead.disk_page (Io.file (rv_io sf)) k2 g p = PageRead.disk_page (Io.file io3) k2 g p).
  { intros p. apply PageRead.disk_page_ext. intros x _ _. apply Hu4. }
  assert (Hcache : rv_cache sf = MappingCache.checkpoint_published (rv_cache s2)) by (cbn; by rewrite Hc4).
  assert (Hok : Mapping.ok_at g (Publish.end_of k2) (Replay.view sf)).
  { unfold Mapping.ok_at, Mapping.files, Mapping.cache. cbn [Replay.view fst snd ms_checkpoint ms_cache]. rewrite Hcache.
    change (rv_active sf) with k2. destruct Hco. constructor; try done; setoid_rewrite Hpage; done. }
  constructor; try done.
  - by rewrite Hcache.
  - intros p. rewrite Hcache. unfold MappingCache.dirty_ids. rewrite Hcl. unfold Log.touched. cbn. split; [by intros ?%not_elem_of_nil|set_solver].
  - intros lba Hl. destruct (Mapping.in_volume_page g lba Hg Hl) as (Hp & _). cbn [Log.replay foldl].
    unfold Mapping.entry, Mapping.root_entry. rewrite <- (Hpg _ Hp). f_equal.
    unfold Mapping.page, Publish.page, Mapping.cache, Mapping.files. cbn [Replay.view fst snd ms_checkpoint ms_cache].
    rewrite Hcache. change (rv_active sf) with k2. by rewrite Hpage.
  - change (Log.touched []) with (∅ : gset Z). rewrite size_empty. lia.
Qed.

(** The counters have room for the snapshots of the log. *)
Definition headroom (k : Checkpoint) (q : LogPosition) (rs : list LogRecord) : Prop :=
  p_lsn q + Z.of_nat (size (Log.touched rs)) < 2 ^ 64 /\ c_generation (k_descriptor k) + 1 < 2 ^ 64.

(** The snapshots of the pages on the log do not fit behind it: refused, and nothing written. *)
Definition crowded {A} g (q : LogPosition) (rs : list LogRecord) (r : res A) (io io' : BackingIo D) : Prop :=
  r = Err (RawOs ENOSPC) /\ g_backing_blocks g <= p_at q + Z.of_nat (size (Log.touched rs)) /\ Io.untouched io io'.

Definition roomy g (q : LogPosition) (rs : list LogRecord) : Prop :=
  p_at q + Z.of_nat (size (Log.touched rs)) < g_backing_blocks g.

(** [recover], whichever way it takes. *)
Lemma recover_tail_run g f k rs q c0 budget s :
  Replay.recoverable f k g rs q -> Log.next_record f (k_descriptor k) q = Ok None -> Publish.rooted f k g ->
  (forall x, Io.file (rv_io s) x = f x) ->
  rv_active s = k -> rv_candidate s = k -> rv_end s = Publish.end_of k -> rv_cache s = c0 -> Replay.vacant g c0 ->
  MappingCache.new (c_volume_blocks (k_descriptor k) * BLOCK_SIZE) budget = Ok c0 -> 1 <= capacity (sizing c0) ->
  (capacity (sizing c0) < Z.of_nat (size (Log.touched rs)) -> headroom k q rs) ->
  runs (Recovery.recover_tail budget) s (fun r s' =>
    Replay.fails s r \/ crowded g q rs r (rv_io s) (rv_io s') \/ exists rc, r = Ok rc /\
      Io.unbooked (rv_io s) (rv_io s') /\ roomy g q rs /\ resumes g f k rs q c0 rc s').
Proof.
  intros Hre Hend Hroot Hf Hk Hcand Hq Hc Hvac Hnew Hcap Hroom. pose proof Hre as [].
  unfold Recovery.recover_tail. apply runs_bind. eapply runs_mono; [by eapply Replay.scan_tail_run|]. cbv beta.
  intros r s1 [(e & -> & He)|(-> & Hu1 & Ha1 & Hq1 & Hpl)]; cbn [next]; [left; by exists e|].
  apply runs_bind, runs_get. cbn [next]. apply runs_bind, runs_lift.
  destruct (Geometry.new_wf _ _ _ (Index.wf_positive _ _ re_index) (Index.wf_geometry _ _ re_index)) as (_ & _ & Hb).
  destruct (Replay.recoverable_end _ _ _ _ _ Hre) as [Hat _]. destruct re_geometry.
  rewrite Hq1, Ha1, Reservation.ensure_space_ENOSPC by (change MAX_BACKING_BLOCKS with (2 ^ 32); lia).
  destruct (Z.ltb_spec (p_at q + Z.of_nat (size (Log.touched rs))) (c_backing_blocks (k_descriptor k))) as [Hsp|Hsp];
    cbn [next]; cycle 1.
  { right; left. split; [done|]. split; [lia|done]. }
  specialize (Hpl ltac:(lia)). rewrite Hc in Hpl.
  cbv zeta. change (n_sizing (MappingCache.snapshot (rv_cache s1))) with (sizing (rv_cache s1)).
  rewrite (Replay.pl_cache _ _ _ _ _ _ _ Hpl).
  destruct (Z.leb_spec (Z.of_nat (size (Log.touched rs))) (capacity (sizing c0))) as [Hfit|Hfit].
  - eapply runs_mono; [by eapply Replay.replay_tail_run|]. cbv beta.
    intros r2 s2 [Hx|(rc & -> & Hm2 & Hcache & Ht & Hrec)]; [left; eapply Replay.fails_after; [apply Hu1|exact Hx]|right; right].
    exists rc. split; [done|]. split; [intros E; apply (Replay.mv_io _ _ Hm2), Hu1, E|].
    split; [exact (Replay.pl_space _ _ _ _ _ _ _ Hpl)|]. split; [done|].
    pose proof (Replay.rv_root _ _ _ _ _ _ _ Hrec) as Hra. exists f, rs. rewrite Ht, Hra.
    split; [|by apply continues_refl]. destruct Hrec. by constructor.
  - destruct (Hroom Hfit) as [Hlsn Hgen]. eapply runs_mono; [apply publish_windows_run; try done; [|lia]|].
    2: { cbv beta. intros r2 s2 [Hx|(rc & -> & Hu2 & Hrec)]; [left; eapply Replay.fails_after; [apply Hu1|exact Hx]|right; right].
         exists rc. split; [done|]. split; [intros E; apply Hu2, Hu1, E|].
         split; [exact (Replay.pl_space _ _ _ _ _ _ _ Hpl)|done]. }
    constructor; try done.
    + intros x. rewrite <- Hf. apply content_ok.
    + intros p Hp. apply (Replay.pl_marking _ _ _ _ _ _ _ Hpl) in Hp as [Hp0 Hp]. apply lookup_lt_Some in Hp.
      pose proof (Replay.pl_length _ _ _ _ _ _ _ Hpl). lia.
    + apply (Replay.pl_space _ _ _ _ _ _ _ Hpl).
Qed.

(** [recover] finds the root with the records of the tail. *)
Lemma recovery_run g f k rs q io budget sz :
  Replay.recoverable f k g rs q -> Log.next_record f (k_descriptor k) q = Ok None -> Publish.rooted f k g ->
  (forall x, Io.file io x = f x) -> Sizing.new (c_volume_blocks (k_descriptor k) * BLOCK_SIZE) budget = Ok sz ->
  (capacity sz < Z.of_nat (size (Log.touched rs)) -> headroom k q rs) ->
  runs (Recovery.recover budget) (io, k) (fun r p =>
    (exists e, r = Err e /\ Io.failure io e) \/ crowded g q rs r io p.1 \/ exists rc s c0, r = Ok rc /\
    Io.unbooked io p.1 /\ roomy g q rs /\ p = (rv_io s, rv_active s) /\ sizing c0 = sz /\ resumes g f k rs q c0 rc s).
Proof.
  intros Hre Hend Hroot Hf Hsz Hroom. pose proof Hre as [].
  destruct (Geometry.new_wf _ _ _ (Index.wf_positive _ _ re_index) (Index.wf_geometry _ _ re_index)) as (Hw & Hgv & _).
  assert (Hpos : 0 < c_volume_blocks (k_descriptor k) * BLOCK_SIZE) by (change BLOCK_SIZE with 4096; destruct Hw; lia).
  destruct (MappingCache.new_Ok_cache _ _ _ Hsz Hpos) as (c & Hc & Hwf & Hcs & _ & Hv & Hn).
  assert (Hcap : 1 <= capacity sz) by (by destruct (Sizing.new_Ok _ _ _ Hsz Hpos) as (_ & _ & _ & ? & _)).
  unfold runs, Recovery.recover. cbv zeta. rewrite Hc. cbn [map_err].
  set (s := Build_RecoveryState _ _ _ _ _ _).
  assert (Hvac : Replay.vacant g c).
  { constructor; [done| |done]. rewrite Hv, Hgv. change BLOCK_SIZE with 4096. by rewrite Z.div_mul. }
  pose proof (recover_tail_run g f k rs q c budget s Hre Hend Hroot Hf eq_refl eq_refl eq_refl eq_refl Hvac Hc) as Hrun.
  rewrite Hcs in Hrun. specialize (Hrun Hcap Hroom). unfold runs in Hrun.
  destruct (Recovery.recover_tail budget s) as [r s'] eqn:E. cbn [fst snd] in *.
  destruct Hrun as [?|[?|(rc & -> & Hu & Hsp & Hrec)]]; [by left|by right; left|right; right]. by exists rc, s', c.
Qed.

End staging.
End Windows.
