(* ===== verification/Reopen.v ===== *)
(** Opening a volume: what [open] of [src/rust/src/format_v3/volume.rs] finds on a file
    that has a root and, behind it, the records of a log. *)

From S2P Require Import Prelude Bytes Geometry Format DataRecord Entries MappingPage.
From S2P Require Import Checkpoint Index Clock Sizing MappingCache Config Reservation.
From S2P Require Import WriteBuffer Accounting Uring Device BackingIo Tail PageRead CheckpointLoad Publish Snapshots Recovery.
From S2P Require Import Storage Roots CrashSafety MappingState Volume VolumeWrite VolumeSpec VolumeRefine Log Replay Windows.

Module Reopen.
Section reopen.
Context `{Xxh3} `{Platform} {D : Type} `{!Device D} `{!DeviceLaws D}.
Implicit Types (v : Volume D) (io : BackingIo D).

(** The block that an entry stands for. *)
Definition block_at (f : Z -> list Z) (e : Z * Z) : list Z := if e.1 =? 0 then zero_block else f e.1.

(** Every mapped block has its checksum. *)
Definition summed (f : Z -> list Z) (k : Checkpoint) (g : Geometry) (rs : list LogRecord) : Prop :=
  forall lba, Mapping.in_volume g lba ->
    let e := Log.replay rs (Mapping.root_entry f k g) lba in
    e.1 <> 0 -> e.2 = payload_checksum (c_volume_id (k_descriptor k)) lba e.1 (f e.1).

(** The file [f] holds a volume: its newest root is [k], the log behind it has the
    records [rs] and ends at [q]. *)
Record image (f : Z -> list Z) (k : Checkpoint) (g : Geometry) (rs : list LogRecord) (q : LogPosition) : Prop := {
  ig_recoverable : Replay.recoverable f k g rs q;
  ig_rooted : Publish.rooted f k g;
  ig_newest : Roots.superseded f k;
  ig_end : Log.next_record f (k_descriptor k) q = Ok None;
  ig_sums : summed f k g rs;
}.

(** The contents that the file stands for. *)
Definition holds (f : Z -> list Z) (k : Checkpoint) (g : Geometry) (rs : list LogRecord) (lba : Z) : list Z :=
  block_at f (Log.replay rs (Mapping.root_entry f k g) lba).

(** The write-back buffer of a volume that is opened. *)
Definition buffer_blocks (options : VolumeOpenOptions) (g : Geometry) : Z :=
  Options.clamp_write_buffer_blocks (write_buffer_bytes options) (g_backing_blocks g) (g_log_start g).

(** The options suit the volume, and unless the pages that the records touch fit the
    cache, the counters are not exhausted. *)
Record suits (options : VolumeOpenOptions) (budget : option Z) (k : Checkpoint) (g : Geometry) (rs : list LogRecord) (q : LogPosition) : Prop := {
  su_options : Options.validate options = Ok tt;
  su_budget : exists b sz,
    Volume.validate_buffer_mapping_capacity options budget k (buffer_blocks options g) = Ok b /\
    Sizing.new (c_volume_blocks (k_descriptor k) * BLOCK_SIZE) (Some b) = Ok sz /\
    (capacity sz < Z.of_nat (size (Log.touched rs)) -> Windows.headroom k q rs);
}.

Lemma image_readable f k g rs q : image f k g rs q -> Roots.readable f k g.
Proof. intros [[] ? _ _ _]. by constructor. Qed.

(** A volume that goes on has the same contents. *)
Lemma continues_sums g f k rs q f' k' rs' q' :
  Windows.continues g f k rs q f' k' rs' q' -> summed f k g rs -> summed f' k' g rs'.
Proof.
  intros [] Hs lba Hl. cbv zeta. rewrite ct_entries by done. intros Hne. rewrite ct_payloads, ct_volume by done. by apply Hs.
Qed.

Lemma continues_holds g f k rs q f' k' rs' q' lba :
  Windows.continues g f k rs q f' k' rs' q' -> Mapping.in_volume g lba -> holds f' k' g rs' lba = holds f k g rs lba.
Proof.
  intros [] Hl. unfold holds. rewrite ct_entries by done. unfold block_at.
  destruct (Z.eqb_spec (Log.replay rs (Mapping.root_entry f k g) lba).1 0); [done|]. by rewrite ct_payloads.
Qed.

Lemma budget_capacity options budget k g n b sz :
  Descriptor.geometry (k_descriptor k) = Ok g ->
  Volume.validate_buffer_mapping_capacity options budget k n = Ok b ->
  Sizing.new (c_volume_blocks (k_descriptor k) * BLOCK_SIZE) (Some b) = Ok sz ->
  Z.min n (g_page_count g) <= capacity sz.
Proof.
  intros Hg. unfold Volume.validate_buffer_mapping_capacity. rewrite Hg. cbn [rbind].
  intros Hb Hs.
  apply rbind_Ok in Hb as (minimum & _ & Hb). cbv zeta in Hb. apply rbind_Ok in Hb as (sz' & Hs' & Hb).
  apply rbind_Ok in Hb as ([] & Hcap & Hb). apply fail_if_Ok, Z.ltb_ge in Hcap.
  apply rbind_Ok in Hb as ([] & _ & [= Hb]). rewrite Hb, Hs in Hs'. by injection Hs' as <-.
Qed.

(** What [recover] left, once the blocks behind the log are cleared. *)
Lemma recovered_ready g f k rs q c0 s io' m b n st after live :
  summed f k g rs -> Replay.recovers g f k rs q c0 s -> Z.min n (g_page_count g) <= capacity (sizing c0) ->
  Buffer.with_capacity n = Ok b -> 1 <= n <= Reservation.buffer_limit ->
  (forall x, x <= p_at q -> Io.file io' x = Io.file (rv_io s) x) ->
  ms_checkpoint m = rv_active s -> ms_cache m = rv_cache s -> ms_tail m = q ->
  let v := {| v_io := io'; v_mapping := m; v_buffer := b; v_buffered_pages := 0; v_stats := st;
              v_checkpoint_after := after; v_live_blocks := live; v_failed := false |} in
  Refine.ready g v /\ forall lba, Mapping.in_volume g lba -> Spec.contents g v lba = holds f k g rs lba.
Proof.
  intros Hig [] Hcap Hb Hn Hf Hmk Hmc Hmt v.
  destruct (Mapping.ok_extend g q q (Replay.view s) io' rv_ok) as [Hok Hpg].
  { pose proof (Publish.co_tail _ _ _ _ _ rv_ok). lia. }
  { pose proof (Publish.co_lsn _ _ _ _ _ rv_ok). lia. }
  { exact Hf. }
  destruct (Buffer.with_capacity_wf n ltac:(lia)) as (b' & Hb' & Hbw & Hbc & Hbl & Hbn).
  rewrite Hb in Hb'. injection Hb' as <-.
  assert (Hparts : forall p, Mapping.page g (Write.parts v) p = Mapping.page g (Replay.view s) p).
  { intros p. rewrite <- Hpg. unfold Mapping.page, Mapping.cache, Mapping.files. cbn. by rewrite Hmk, Hmc. }
  assert (Hok' : Mapping.ok_at g q (Write.parts v)).
  { unfold Mapping.ok_at, Mapping.cache, Mapping.files in *. cbn in *. by rewrite Hmk, Hmc. }
  assert (Hen : forall lba, Mapping.in_volume g lba ->
    Mapping.entry g (Write.parts v) lba = Log.replay rs (Mapping.root_entry f k g) lba).
  { intros lba Hl. rewrite <- rv_entry by done. unfold Mapping.entry. by rewrite Hparts. }
  assert (Hmap : forall lba, Mapping.in_volume g lba -> Mapping.mapped g (Write.parts v) lba = holds f k g rs lba).
  { intros lba Hl. unfold Mapping.mapped, holds, block_at. rewrite <- Hen by done.
    destruct (Z.eqb_spec (Mapping.entry g (Write.parts v) lba).1 0) as [|Hne]; [done|].
    pose proof (Mapping.entry_range g q _ lba Hok' Hl Hne) as Hr. etrans; [apply Hf; lia|apply rv_files]. }
  assert (Hlen : Buffer.len b = 0) by (unfold Buffer.len; by rewrite Hbl).
  assert (Hdirty : Mapping.dirty_count (Write.parts v) <= Z.of_nat (size (Log.touched rs))).
  { apply Write.dirty_count_set; unfold Mapping.cache; cbn; rewrite Hmc; [apply rv_ok|]. intros p. by apply rv_dirty. }
  split.
  - split; [|cbn; rewrite Hlen, Hbc; lia]. constructor; try done; cbn [v v_buffer v_buffered_pages].
    + unfold Spec.tail. cbn. by rewrite Hmt.
    + rewrite Hbc. lia.
    + intros lba Hl. rewrite Hbl in Hl. by apply not_elem_of_nil in Hl.
    + intros lba d. by rewrite Hbn.
    + by rewrite Hbl.
    + unfold Mapping.cache; cbn. rewrite Hmc, Hbc. by rewrite (proj1 rv_shape).
    + intros lba Hl. rewrite Hmap, Hen by done. intros Hne. unfold holds, block_at.
      destruct (Z.eqb_spec (Log.replay rs (Mapping.root_entry f k g) lba).1 0); [done|].
      unfold Mapping.root. cbn. rewrite Hmk, rv_root. by apply Hig.
    + unfold Spec.owed, Spec.tail. cbn [v v_buffer v_mapping v_buffered_pages]. rewrite Hlen, Hmt.
      change (div_ceil 0 MAXIMUM_PAYLOAD_BLOCKS) with 0. lia.
  - intros lba Hl. unfold Spec.contents. cbn [v v_buffer]. rewrite Hbn. by apply Hmap.
Qed.

(** No metadata is on the file behind the log. *)
Definition blank_behind (f : Z -> list Z) (k : Checkpoint) (g : Geometry) (q : LogPosition) : Prop :=
  forall x, p_at q < x < g_backing_blocks g -> Log.plain (k_descriptor k) (f x).

Lemma zero_plain k : Log.plain k zero_block.
Proof. unfold Log.plain, Tail.current_metadata. by rewrite (bool_decide_false (slice 0 4 zero_block = _)) by (vm_compute; discriminate). Qed.

(** The root on a file that is durable is settled. *)
Lemma durable_settled f k g s :
  Publish.rooted f k g -> Roots.superseded f k -> Io.durable (fst s) -> ms_checkpoint (snd s) = k -> Geometry.wf g ->
  (forall x, x < g_log_start g -> Io.file (fst s) x = f x) -> Crash.settled g (Mapping.store s).
Proof.
  intros (He & Hsum & Hbody) Hs Hd <- Hg Hf. pose proof (Publish.body_bounds (c_slot (k_descriptor (ms_checkpoint (snd s)))) g Hg).
  assert (Hslot : forall sl, slot_number sl < g_log_start g) by (destruct Hg; intros []; cbn; lia).
  unfold Crash.settled, Publish.anchored, Mapping.store. cbn [st_io st_active]. split; [split|].
  - split; [by rewrite Hf|]. split; [done|]. intros b Hb. rewrite Hf by lia. by apply Hbody.
  - intros c Hc x _. by apply Hd.
  - intros c Hc. apply (Crash.superseded_offers c f); [|done]. unfold Roots.offered. by rewrite (Hd c Hc), Hf.
Qed.

(** The volume that was recovered knows its log. *)
Lemma recovered_traced g f k rs q c0 s io' m :
  Replay.recoverable f k g rs q -> Publish.rooted f k g -> Roots.superseded f k -> blank_behind f k g q ->
  Replay.recovers g f k rs q c0 s -> Io.durable io' ->
  (forall x, x <= p_at q -> Io.file io' x = f x) ->
  (forall x, p_at q < x -> Io.file io' x = f x \/ Io.file io' x = zero_block) ->
  ms_checkpoint m = rv_active s -> ms_cache m = rv_cache s -> Mapping.traced g q (io', m).
Proof.
  intros Hre Hroot Hnew Hbl [] Hd Hf Hb Hmk Hmc. destruct (Replay.recoverable_end _ _ _ _ _ Hre) as [Hat _].
  pose proof Hre as []. cbn in Hat. pose proof (Index.wf_geometry _ _ re_index) as Hg.
  assert (Hmk' : ms_checkpoint m = k) by congruence. constructor.
  - apply (durable_settled f k g); try done. intros x Hx. apply Hf. lia.
  - exists rs. unfold Mapping.logged, Mapping.root. cbn [fst snd]. rewrite Hmk'. split; [|split].
    + apply (Log.chain_prefix f _ _ g _ _ _ Hg re_chain). intros x Hx. apply Hf. lia.
    + intros lba Hl. assert (He : Mapping.entry g (io', m) lba = Mapping.entry g (Replay.view s) lba).
      { destruct (Mapping.ok_extend g q q (Replay.view s) io' rv_ok) as [_ Hpg].
        - pose proof (Publish.co_tail _ _ _ _ _ rv_ok). lia.
        - pose proof (Publish.co_lsn _ _ _ _ _ rv_ok). lia.
        - intros x Hx. unfold Mapping.files. cbn. by rewrite rv_files, Hf.
        - unfold Mapping.entry. rewrite <- Hpg. unfold Mapping.page, Mapping.cache, Mapping.files. cbn. by rewrite Hmk, Hmc. }
      rewrite He, rv_entry by done. apply Log.replay_ext. symmetry.
      pose proof (Mapping.root_entry_ext f (Io.file io') g q (Replay.view s) lba rv_ok Hl) as Hx.
      unfold Mapping.root in Hx. cbn [Replay.view snd ms_checkpoint] in Hx. rewrite rv_root in Hx. apply Hx.
      intros x Hx'. apply Hf. lia.
    + intros p Hp. unfold Mapping.cache. cbn. rewrite Hmc. by apply rv_dirty.
  - intros x Hx. unfold Mapping.files, Mapping.root. cbn [fst snd]. rewrite Hmk'.
    destruct (Hb x) as [->| ->]; [lia|by apply Hbl|apply zero_plain].
Qed.

(** What an open of the image may end in. *)
Definition opened (f : Z -> list Z) k g rs q (options : VolumeOpenOptions) io (r : res (Volume D)) io' : Prop :=
  match r with
  | Ok v => Refine.ready g v /\ c_volume_id (Volume.descriptor v) = c_volume_id (k_descriptor k) /\
      (blank_behind f k g q -> Spec.traced g v) /\ (forall lba, Mapping.in_volume g lba -> Spec.contents g v lba = holds f k g rs lba) /\
      Buffer.capacity (v_buffer v) = buffer_blocks options g /\ Windows.roomy g q rs
  | Err e => Io.failure io e \/ Windows.crowded g q rs r io io'
  | Panic => False
  end.

Lemma continues_blank g f k rs q f' k' rs' q' :
  Windows.continues g f k rs q f' k' rs' q' -> blank_behind f k g q -> blank_behind f' k' g q'.
Proof.
  intros [] Hb x Hx. rewrite ct_behind by lia. unfold Log.plain. rewrite ct_volume. apply Hb. lia.
Qed.

Lemma open_run f k g rs q options budget io :
  image f k g rs q -> suits options budget k g rs q -> (forall x, Io.file io x = f x) ->
  runs (Volume.open options budget (g_backing_blocks g * BLOCK_SIZE)) io (opened f k g rs q options io).
Proof.
  intros Hig [Hopt (b & sz & Hb & Hsz & Hfit)] Hf. pose proof (ig_recoverable _ _ _ _ _ Hig) as Hre. pose proof Hre as [].
  pose proof (Index.wf_geometry _ _ re_index) as Hg.
  destruct (Geometry.new_wf _ _ _ (Index.wf_positive _ _ re_index) Hg) as (_ & _ & Hbk).
  unfold Volume.open. apply runs_bind, runs_lift. rewrite Hopt. cbn [next]. apply runs_bind, runs_lift.
  unfold is_multiple_of. rewrite Z.mod_mul, Z.div_mul by done. cbn [Z.eqb negb fail_if next]. rewrite Hbk.
  apply runs_bind. eapply runs_mono; [apply (Roots.load_run f k g); [done|by eapply image_readable|apply Hig]|].
  cbv beta. intros r io1 [Hu1 Hr]. destruct r as [[k' live]|e|]; [|by left|done]. destruct Hr as [-> _]. cbn [next].
  assert (Hf1 : forall x, Io.file io1 x = f x) by (intros x; destruct Hu1 as [Hu1 _]; by rewrite Hu1).
  apply runs_bind, runs_lift. rewrite Hg. cbn [next]. cbv zeta. rewrite <- Hbk. fold (buffer_blocks options g).
  apply runs_bind, runs_lift. rewrite Hb. cbn [next]. apply runs_bind, runs_intro. intros r io2 Hrun.
  pose proof (Windows.recovery_run g f k rs q io1 (Some b) sz Hre (ig_end _ _ _ _ _ Hig) (ig_rooted _ _ _ _ _ Hig)
    Hf1 Hsz Hfit) as Hrec. unfold runs in Hrec.
  destruct (Recovery.recover (Some b) (io1, k)) as [r0 [io0 k0]] eqn:E. cbn [fst snd] in Hrec. injection Hrun as <- <-.
  destruct Hrec as [(e & -> & He)|[(-> & Hfull & Hu2)|(rc & s & c0 & -> & Hbk2 & Hsp & [= -> ->] & Hc0 & Hrc & f' & rs' & Hrec & Hct)]]; cbn [next].
  { left. by eapply Io.failure_untouched. }
  { right. split; [done|]. split; [done|]. by eapply Io.untouched_trans. }
  pose proof (Windows.ct_recoverable _ _ _ _ _ _ _ _ _ Hct) as Hre'. pose proof (Replay.re_index _ _ _ _ _ Hre') as Hidx'.
  destruct (Geometry.new_wf _ _ _ (Index.wf_positive _ _ Hidx') (Index.wf_geometry _ _ Hidx')) as (_ & _ & Hbk').
  set (k' := rv_active s) in *. set (q' := rc_tail rc) in *.
  apply runs_bind, runs_intro. intros r io3 Hclear. pose proof (Snapshots.clear_stale_tail_calm (p_at q' + 1)
    (c_backing_blocks (k_descriptor k')) (rv_io s)) as [_ Herr]. rewrite Hclear in Herr.
  apply Io.clear_stale_tail_Ok in Hclear as (Hnp & (Ht & _) & Hdur).
  2: { destruct (Replay.recoverable_end _ _ _ _ _ Hre') as [Hat _]. cbn in Hat. destruct Hre', re_geometry0. lia. }
  destruct r as [[]|e|]; [|left|done].
  2: { eapply Io.failure_untouched; [exact Hu1|]. eapply Io.failure_unbooked; [exact Hbk2|]. by apply Herr. }
  cbn [next]. apply runs_bind, runs_lift.
  destruct (Options.clamp_bounds (write_buffer_bytes options) (g_backing_blocks g) (g_log_start g)) as (Hn1 & Hn2 & _).
  fold (buffer_blocks options g) in Hn1, Hn2.
  destruct (Buffer.with_capacity_wf (buffer_blocks options g) Hn1) as (buf & Hbuf & _ & Hcap & _ & Hempty).
  rewrite Hbuf. cbn [next]. apply runs_bind, runs_get. cbn [next]. apply runs_ret.
  match goal with |- opened _ _ _ _ _ _ _ (Ok ?w) _ => set (v := w) end.
  assert (Hfiles : forall x, Io.file (rv_io s) x = f' x) by apply (Replay.rv_files _ _ _ _ _ _ _ Hrec).
  destruct (recovered_ready g f' k' rs' q' c0 (Recovery.with_end q' s) io3 (v_mapping v) buf (buffer_blocks options g) Stats.zero
    (v_checkpoint_after v) (v_live_blocks v) (continues_sums _ _ _ _ _ _ _ _ _ Hct (ig_sums _ _ _ _ _ Hig)) Hrec) as [Hready Hc]; try done.
  - rewrite Hc0. by eapply budget_capacity.
  - split; [done|]. apply Options.validate_options_Ok in Hopt as [_ (w & Hw & Hw')]. rewrite Hw, Z.div_mul in Hn2 by done.
    change Reservation.buffer_limit with 4096. lia.
  - intros x Hx. apply Ht. left. cbn. lia.
  - split; [done|]. split; [|split; [|split; [|by split]]].
    + apply (Windows.ct_volume _ _ _ _ _ _ _ _ _ Hct).
    + intros Hbl. split; [|intros lba d; cbn; by rewrite Hempty]. destruct (Hdur eq_refl) as [Hd Hz].
      apply (recovered_traced g f' k' rs' q' c0 (Recovery.with_end q' s) io3 (v_mapping v)); try done.
      * apply (Windows.ct_rooted _ _ _ _ _ _ _ _ _ Hct).
      * apply (Windows.ct_newest _ _ _ _ _ _ _ _ _ Hct), Hig.
      * by eapply continues_blank.
      * intros x Hx. rewrite Ht by (left; lia). apply Hfiles.
      * intros x Hx. set (n := Z.min _ _) in *. destruct (Z.lt_ge_cases x (p_at q' + 1 + n)); [right; apply Hz; lia|left].
        rewrite Ht by (right; lia). apply Hfiles.
    + intros lba Hl. etrans; [by apply Hc|]. by eapply continues_holds.
Qed.

(** C6. Recovery of the log.  On a file with a root and a chain of records behind it,
    [open] finds exactly these records and gives a volume whose blocks are those of the
    root with the payloads of the records over them, in their order.  When the pages of
    the records do not fit the cache, it publishes them in a new root first, and goes on
    from there.  It fails when an operation of the device fails (or one of the ledger, if
    there is one), and it refuses, with [ENOSPC] and without a write, exactly when the
    snapshots of the pages of the records do not fit behind the log. *)
Theorem open_recovers f k g rs q options budget io r io' :
  image f k g rs q -> suits options budget k g rs q -> (forall x, Io.file io x = f x) ->
  Volume.open options budget (g_backing_blocks g * BLOCK_SIZE) io = (r, io') ->
  match r with
  | Ok v => Refine.ready g v /\ (forall lba, Mapping.in_volume g lba -> Spec.contents g v lba = holds f k g rs lba) /\
      Buffer.capacity (v_buffer v) = buffer_blocks options g /\
      p_at q + Z.of_nat (size (Log.touched rs)) < g_backing_blocks g
  | Err e => Io.failure io e \/
      (e = RawOs ENOSPC /\ g_backing_blocks g <= p_at q + Z.of_nat (size (Log.touched rs)) /\ Io.untouched io io')
  | Panic => False
  end.
Proof.
  intros Hig Hs Hf Hrun. apply (runs_elim _ _ _ _ _ (open_run f k g rs q options budget io Hig Hs Hf)) in Hrun.
  destruct r as [v|e|]; [|destruct Hrun as [?|([= ->] & ?)]; [by left|by right]|done].
  destruct Hrun as (Hr & _ & _ & Hc & Hcap & Hsp). by split_and!.
Qed.

End reopen.
End Reopen.
