(* ===== verification/Durability.v ===== *)
(** Durability, from the writes that a volume acknowledged to the contents that it has
    after a crash and the next [open]; and what [close] leaves on the file. *)

From S2P Require Import Prelude Bytes Geometry Format DataRecord Entries MappingPage.
From S2P Require Import Checkpoint Index Clock Sizing MappingCache Config Reservation.
From S2P Require Import WriteBuffer Accounting Uring Device BackingIo Tail PageRead CheckpointLoad Publish Recovery.
From S2P Require Import Storage Roots CrashSafety Log MappingState Volume VolumeWrite VolumeSpec VolumeRefine Replay Windows Reopen.

Module Durability.
Section durability.
Context `{Xxh3} `{Platform} {D : Type} `{!Device D} `{!DeviceLaws D}.
Implicit Types (v : Volume D) (io : BackingIo D).

(** ** Histories *)

(** The blocks after the operations [os] with the results [rs]: those of the writes
    that succeeded are stored. *)
Fixpoint stored (m : Z -> list Z) (os : list Refine.operation) (rs : list (res (list Z))) : Z -> list Z :=
  match os, rs with
  | Refine.Write lba data :: os, Ok _ :: rs => stored (Refine.update m lba data) os rs
  | _ :: os, _ :: rs => stored m os rs
  | _, _ => m
  end.

(** No payload looks like metadata of the volume. *)
Definition harmless (k : CheckpointDescriptor) (o : Refine.operation) : Prop :=
  match o with Refine.Write _ data => Log.plain k data | _ => True end.

(** A volume between operations, with its log. *)
Record live (g : Geometry) v : Prop := {
  lv_ready : Refine.ready g v;
  lv_traced : Spec.traced g v;
}.

(** From [v] the volume got to [v'], which holds [m]. *)
Definition reaches (g : Geometry) v v' (m : Z -> list Z) : Prop :=
  live g v' /\ c_volume_id (Volume.descriptor v') = c_volume_id (Volume.descriptor v) /\
  forall lba, Mapping.in_volume g lba -> Spec.contents g v' lba = m lba.

Lemma stored_ext m m' os rs lba : m lba = m' lba -> stored m os rs lba = stored m' os rs lba.
Proof.
  revert m m' rs. induction os as [|o os IH]; intros m m' rs E; [done|].
  destruct rs as [|r rs]; [by destruct o|]. destruct o as [l|l data|], r; cbn; try (by apply IH).
  apply IH. unfold Refine.update. by case_decide.
Qed.

Lemma perform_reaches g v o r v' :
  live g v -> Refine.typed o -> harmless (Volume.descriptor v) o -> Refine.perform o v = (r, v') ->
  v_failed v' = true \/ reaches g v v' (stored (Spec.contents g v) [o] [r]).
Proof.
  intros [Hr Ht] Hty Hh Hrun. apply (runs_elim _ _ _ _ _ (Refine.perform_run g v o Hr Hty)) in Hrun.
  assert (Hself : forall x, reaches g v v (stored (Spec.contents g v) [o] [Err x])).
  { intros x. split; [by constructor|]. split; [done|]. intros lba _. by destruct o. }
  destruct o as [lba|lba data|].
  - destruct Hrun as [Hnp Hrun]. destruct (lba <? g_volume_blocks g).
    + destruct r as [d|e|]; [|by left|done]. right. destruct Hrun as (-> & (Hr' & _ & Hc) & Hid & Htr).
      split; [by constructor; [|apply Htr]|]. by split.
    + destruct Hrun as [-> ->]. right. apply Hself.
  - destruct Hrun as (u & Hrun & ->). unfold Refine.write_post in Hrun. destruct (lba <? g_volume_blocks g).
    + destruct u as [[]|e|]; [| |done].
      * right. destruct Hrun as ((Hr' & _ & Hc) & Hid & Htr). split; [by constructor; [|apply Htr]|]. by split.
      * destruct Hrun as [Hf|(-> & _)]; [by left|right; apply Hself].
    + destruct Hrun as [-> ->]. right. apply Hself.
  - destruct Hrun as (u & [Hnp Hrun] & ->). destruct u as [[]|e|]; [|by left|done].
    right. destruct Hrun as ((Hr' & _ & Hc) & _ & _ & Hid & Htr). split; [by constructor; [|apply Htr]|]. by split.
Qed.

Lemma perform_all_reaches g v os rs v' :
  live g v -> Forall Refine.typed os -> Forall (harmless (Volume.descriptor v)) os -> Refine.perform_all os v = (rs, v') ->
  v_failed v' = true \/ reaches g v v' (stored (Spec.contents g v) os rs).
Proof.
  revert v rs v'. induction os as [|o os IH]; intros v rs v' Hl Hty Hh Hrun.
  { injection Hrun as <- <-. right. by split. }
  apply Forall_cons in Hty as [Ho Hty]. apply Forall_cons in Hh as [Hho Hh]. cbn [Refine.perform_all] in Hrun.
  destruct (Refine.perform o v) as [r v1] eqn:E1. destruct (Refine.perform_all os v1) as [rs1 v2] eqn:E2.
  injection Hrun as <- <-.
  destruct (perform_reaches g v o r v1 Hl Ho Hho E1) as [Hf|(Hl1 & Hid1 & Hc1)].
  { left. rewrite Refine.perform_all_failed in E2 by done. by injection E2 as _ <-. }
  destruct (IH v1 rs1 v2 Hl1 Hty) as [Hf|(Hl2 & Hid2 & Hc2)]; [|done|by left|right].
  { eapply Forall_impl; [exact Hh|]. intros o'. destruct o'; cbn; [done| |done]. by apply Spec.plain_same. }
  split; [done|]. split; [congruence|]. intros lba Hlba. rewrite Hc2 by done.
  erewrite stored_ext by (by apply Hc1). by destruct o as [l|l data|], r.
Qed.

(** ** The file of a flushed volume *)

(** What [f] holds of a volume with the contents [m], the log being blank behind its end. *)
Record kept_on (f : Z -> list Z) (k : Checkpoint) g rs q (m : Z -> list Z) : Prop := {
  ko_image : Reopen.image f k g rs q;
  ko_blank : Reopen.blank_behind f k g q;
  ko_holds : forall lba, Mapping.in_volume g lba -> Reopen.holds f k g rs lba = m lba;
}.

Lemma live_image g v :
  live g v -> Buffer.len (v_buffer v) = 0 -> exists rs,
    kept_on (Io.file (v_io v)) (ms_checkpoint (v_mapping v)) g rs (Spec.tail v) (Spec.contents g v) /\
    Z.of_nat (size (Log.touched rs)) <= Mapping.dirty_count (Write.parts v) /\ Windows.roomy g (Spec.tail v) rs.
Proof.
  intros [[Hi _] [[[Hanchor Hnew] (rs & Hc & He & Ht) Hbl] _]] Hz. pose proof Hi as []. pose proof iv_ok as [].
  pose proof (Index.wf_geometry _ _ co_index) as Hg. exists rs.
  assert (Hre : Replay.recoverable (Io.file (v_io v)) (ms_checkpoint (v_mapping v)) g rs (Spec.tail v)).
  { constructor; try done. unfold Write.parts in *; cbn in *; lia. }
  assert (Hend : Log.next_record (Io.file (v_io v)) (k_descriptor (ms_checkpoint (v_mapping v))) (Spec.tail v) = Ok None).
  { apply (Log.next_record_blank _ _ g); [done| |exact Hbl]. eapply Log.chain_inside; [exact Hg| |exact Hc].
    apply Log.inside_root. unfold Write.parts in *. cbn in *. lia. }
  assert (Hmap : forall lba, Mapping.in_volume g lba ->
    Reopen.holds (Io.file (v_io v)) (ms_checkpoint (v_mapping v)) g rs lba = Mapping.mapped g (Write.parts v) lba).
  { intros lba Hl. unfold Reopen.holds, Reopen.block_at, Mapping.mapped. by rewrite He. }
  split; [constructor; [constructor; [done|apply Hanchor|apply Hnew, content_may_hold|done|]|done|]|].
  - intros lba Hl e Hne. unfold e in *. change (v_io v) with (fst (Write.parts v)) in *.
    change (v_mapping v) with (snd (Write.parts v)) in *. rewrite <- He in * by done.
    rewrite (iv_sums lba Hl Hne). unfold Mapping.mapped. by destruct (Z.eqb_spec (Mapping.entry g (Write.parts v) lba).1 0).
  - intros lba Hl. rewrite Hmap by done. unfold Spec.contents.
    rewrite (proj2 (Buffer.content_None _ lba iv_buffer)); [done|]. unfold Buffer.len in Hz.
    destruct (lbas (v_buffer v)); [apply not_elem_of_nil|done].
  - assert (Hle : Z.of_nat (size (Log.touched rs)) <= Mapping.dirty_count (Write.parts v)).
    2: { split; [done|]. unfold Windows.roomy. unfold Spec.owed in iv_space. rewrite Hz, iv_pages in iv_space.
         change (div_ceil 0 MAXIMUM_PAYLOAD_BLOCKS) with 0 in iv_space.
         assert (0 <= Reservation.distinct_pages (lbas (v_buffer v))) by (unfold Reservation.distinct_pages; lia). lia. }
    transitivity (Z.of_nat (size (list_to_set (C := gset Z) (MappingCache.dirty_ids (Mapping.cache (Write.parts v)))))).
    + apply inj_le, subseteq_size. intros p Hp. apply elem_of_list_to_set. by apply Ht.
    + pose proof (size_list_to_set (C := gset Z) _ (MappingCache.NoDup_dirty_ids _ co_cache)) as ->.
      unfold MappingCache.dirty_ids, Mapping.dirty_count. by rewrite length_fmap.
Qed.

(** The options that a volume is opened with next time suit it. *)
Record admits (options : VolumeOpenOptions) (budget : option Z) g v : Prop := {
  ad_options : Options.validate options = Ok tt;
  ad_budget : exists b sz,
    Volume.validate_buffer_mapping_capacity options budget (ms_checkpoint (v_mapping v)) (Reopen.buffer_blocks options g) = Ok b /\
    Sizing.new (g_volume_blocks g * BLOCK_SIZE) (Some b) = Ok sz /\
    (capacity sz < Mapping.dirty_count (Write.parts v) ->
     p_lsn (Spec.tail v) + Mapping.dirty_count (Write.parts v) < 2 ^ 64 /\ c_generation (Volume.descriptor v) + 1 < 2 ^ 64);
}.

(** An open of the volume whose contents are [m]. *)
Definition reopened (g : Geometry) (m : Z -> list Z) io (r : res (Volume D)) : Prop :=
  match r with
  | Ok v => live g v /\ forall lba, Mapping.in_volume g lba -> Spec.contents g v lba = m lba
  | Err e => Io.failure io e
  | Panic => False
  end.

Lemma kept_reopens f k g rs q m options budget io :
  kept_on f k g rs q m -> Reopen.suits options budget k g rs q -> Windows.roomy g q rs ->
  (forall x, Io.file io x = f x) ->
  runs (Volume.open options budget (g_backing_blocks g * BLOCK_SIZE)) io (fun r _ => reopened g m io r).
Proof.
  intros [Hig Hbl Hm] Hs Hsp Hf. eapply runs_mono; [by apply (Reopen.open_run f k g rs q)|]. cbv beta.
  intros [v|e|] io' Ho; [| |done].
  2: { destruct Ho as [?|(_ & Hfull & _)]; [done|]. unfold Windows.roomy in Hsp. lia. }
  destruct Ho as (Hr & _ & Ht & Hc & _). split; [constructor; [done|by apply Ht]|].
  intros lba Hl. rewrite Hc by done. by apply Hm.
Qed.

(** What a flush leaves: a durable file that keeps the contents, and suits the options. *)
Lemma flush_keeps g v v' options budget :
  live g v -> Volume.flush v = (Ok tt, v') -> admits options budget g v' ->
  live g v' /\ Io.durable (v_io v') /\ exists rs,
    kept_on (Io.file (v_io v')) (ms_checkpoint (v_mapping v')) g rs (Spec.tail v') (Spec.contents g v) /\
    Reopen.suits options budget (ms_checkpoint (v_mapping v')) g rs (Spec.tail v') /\ Windows.roomy g (Spec.tail v') rs.
Proof.
  intros [Hr Ht] Hrun [Hopt (b & sz & Hb & Hsz & Hfit)].
  apply (runs_elim _ _ _ _ _ (Refine.flush_run g v Hr)) in Hrun as [_ Hrun].
  destruct Hrun as ((Hr' & _ & Hcont) & Hz & Hd & Hid & Htr).
  assert (Hl' : live g v') by (by constructor; [|apply Htr]).
  destruct (live_image g v') as (rs & [Hig Hbl Hm] & Hle & Hsp); [done|done|].
  split; [done|]. split; [exact Hd|]. exists rs. split.
  - split; [done|done|]. intros lba Hl. by rewrite Hm, Hcont.
  - split; [|done]. split; [done|]. exists b, sz. split; [done|]. split.
    2: { intros Hlt. destruct Hfit as [Hlsn Hgen]; [lia|]. split; [lia|exact Hgen]. }
    destruct (Spec.inv_blocks g v' (Spec.iv_ok _ _ (Refine.rd_inv _ _ Hr'))) as [Hvb _].
    unfold Volume.descriptor in Hvb. by rewrite Hvb.
Qed.

Lemma flush_reopens g v v' c io options budget :
  live g v -> Volume.flush v = (Ok tt, v') -> may_hold (dev (v_io v')) c -> (forall x, Io.file io x = c x) ->
  admits options budget g v' ->
  runs (Volume.open options budget (g_backing_blocks g * BLOCK_SIZE)) io (fun r _ => reopened g (Spec.contents g v) io r).
Proof.
  intros Hl Hrun Hc Hf Ha. destruct (flush_keeps g v v' options budget Hl Hrun Ha) as (_ & Hd & rs & Hk & Hs & Hsp).
  eapply kept_reopens; [exact Hk|exact Hs|exact Hsp|]. intros x. rewrite Hf. by apply Hd.
Qed.

(** C2. Acknowledged writes survive.  Once a flush reports success after any sequence of
    reads, writes and flushes, an [open] of any file that a crash may then leave gives a
    volume with every block as the acknowledged writes left it, ready for the same again,
    or fails because an operation of the device (or of the ledger, if there is one) fails.
    It is provided that no payload looks like metadata of the volume ([harmless]; recovery
    would take such a block for a record), that the options of the [open] pass its own
    checks, and that the LSN and generation counters are not exhausted when the pages to
    replay do not fit the cache ([admits]). *)
Theorem acknowledged_writes_survive g v os rs v1 v2 c io options budget r io' :
  live g v -> Forall Refine.typed os -> Forall (harmless (Volume.descriptor v)) os ->
  Refine.perform_all os v = (rs, v1) -> Volume.flush v1 = (Ok tt, v2) ->
  may_hold (dev (v_io v2)) c -> (forall x, Io.file io x = c x) -> admits options budget g v2 ->
  Volume.open options budget (g_backing_blocks g * BLOCK_SIZE) io = (r, io') ->
  match r with
  | Ok v3 => live g v3 /\ forall lba, Mapping.in_volume g lba -> Spec.contents g v3 lba = stored (Spec.contents g v) os rs lba
  | Err e => Io.failure io e
  | Panic => False
  end.
Proof.
  intros Hl Hty Hh Hops Hflush Hc Hf Ha Hopen.
  destruct (perform_all_reaches g v os rs v1 Hl Hty Hh Hops) as [Hfail|(Hl1 & _ & Hc1)].
  { unfold Volume.flush in Hflush. by rewrite Refine.failed_stops in Hflush. }
  apply (runs_elim _ _ _ _ _ (flush_reopens g v1 v2 c io options budget Hl1 Hflush Hc Hf Ha)) in Hopen.
  destruct r as [v3|e|]; [|done..]. destruct Hopen as [Hl3 Hc3]. split; [done|]. intros lba Hlba. by rewrite Hc3, Hc1.
Qed.

(** ** A closed volume *)

(** The file of [v], now and after any crash, has the active root as its newest; the root
    alone maps every block, and no record is behind it. *)
Record checkpointed (g : Geometry) v : Prop := {
  cp_durable : Io.durable (v_io v);
  cp_found : forall c, may_hold (dev (v_io v)) c ->
    Crash.finds c (g_backing_blocks g) (fun k => k = ms_checkpoint (v_mapping v));
  cp_end : Publish.end_of (ms_checkpoint (v_mapping v)) = Spec.tail v;
  cp_blank : Log.next_record (Io.file (v_io v)) (Volume.descriptor v) (Spec.tail v) = Ok None;
  cp_holds : forall lba, Mapping.in_volume g lba ->
    Spec.contents g v lba = Reopen.block_at (Io.file (v_io v))
      (Mapping.root_entry (Io.file (v_io v)) (ms_checkpoint (v_mapping v)) g lba);
}.

Lemma closed_checkpointed g v :
  live g v -> Buffer.len (v_buffer v) = 0 -> Io.durable (v_io v) ->
  p_lsn (Spec.tail v) = c_checkpoint_lsn (Volume.descriptor v) -> checkpointed g v.
Proof.
  intros Hl Hz Hd Hlsn. destruct (live_image g v Hl Hz) as (rs & [Hig _ Hm] & _).
  pose proof (Reopen.ig_recoverable _ _ _ _ _ Hig) as []. pose proof (Index.wf_geometry _ _ re_index) as Hg.
  destruct (Log.chain_le _ _ _ _ _ _ Hg re_chain) as (_ & Hlen & _). cbn in Hlen. unfold Volume.descriptor in Hlsn.
  assert (rs = []) as -> by (destruct rs; [done|cbn in Hlen; lia]).
  destruct (Geometry.new_wf _ _ _ (Index.wf_positive _ _ re_index) Hg) as (_ & _ & Hb).
  constructor; [done| | |apply Hig|intros lba Hlba; by rewrite <- Hm].
  - intros c Hc io r io' Hf Hrun. rewrite Hb in Hrun.
    apply (Crash.finds_root (Io.file (v_io v)) (ms_checkpoint (v_mapping v)) g (Reopen.image_readable _ _ _ _ _ Hig)
      (Reopen.ig_newest _ _ _ _ _ Hig) io r io'); [|exact Hrun]. intros x. rewrite Hf. by apply Hd.
  - by inversion re_chain.
Qed.

(** C14. When [close] succeeds no block has changed, and the file is durable and ends in a
    checkpoint: on every file that a crash may leave, [load] finds the active root, behind
    which there is no record to replay, and that root alone maps every block of the volume.
    When it fails the volume is failed. *)
Theorem close_leaves_a_checkpoint g v r v' :
  live g v -> Volume.close v = (r, v') ->
  match r with
  | Ok _ => live g v' /\ checkpointed g v' /\ Buffer.len (v_buffer v') = 0 /\
      forall lba, Mapping.in_volume g lba -> Spec.contents g v' lba = Spec.contents g v lba
  | Err _ => v_failed v' = true
  | Panic => False
  end.
Proof.
  intros [Hr Ht] Hrun. apply (runs_elim _ _ _ _ _ (Refine.close_run g v Hr)) in Hrun as [Hnp Hrun].
  destruct r as [u|e|]; [|done..]. destruct Hrun as ((Hr' & _ & Hc) & Hz & Hd & Hlsn & _ & Htr).
  assert (Hl' : live g v') by (constructor; [done|by apply Htr]).
  split; [done|]. split; [by apply closed_checkpointed|]. by split.
Qed.

(** ** A formatted volume *)

(** What [format] leaves, over a log without metadata of the new volume. *)
Lemma formatted_kept f g k blocks backing id :
  is_u32 blocks -> is_u64 id -> is_u64 backing -> Geometry.new blocks backing = Ok g -> Index.empty g id = Ok k ->
  Roots.readable f k g -> Roots.superseded f k ->
  (forall x, g_log_start g <= x < g_backing_blocks g -> Log.plain (k_descriptor k) (f x)) ->
  kept_on f k g [] (Publish.end_of k) (fun _ => zero_block).
Proof.
  intros Hb Hid Hbk Hgn Hk Hr Hs Hpl. pose proof Hr as [].
  destruct (Index.empty_Ok blocks backing g id Hb Hid Hgn Hbk) as (k' & Hk' & _ & Hp & _). rewrite Hk in Hk'. injection Hk' as <-.
  assert (Hlast : c_last_record_boundary (k_descriptor k) = g_log_start g - 1).
  { revert Hk. unfold Index.empty. intros Hk. ok_inv. done. }
  assert (Hlsn : c_checkpoint_lsn (k_descriptor k) = 0) by (revert Hk; unfold Index.empty; intros Hk; ok_inv; done).
  pose proof (Index.wf_geometry _ _ ro_index) as Hg. pose proof ro_geometry as [].
  assert (Hbl : Reopen.blank_behind f k g (Publish.end_of k)) by (intros x Hx; apply Hpl; cbn in Hx; lia).
  assert (He : forall lba, Mapping.root_entry f k g lba = (0, 0)).
  { intros lba. unfold Mapping.root_entry, PageRead.PageRead.disk_page. rewrite Hp. unfold zeros.
    destruct (replicate _ _ !! _) as [x|] eqn:E; [|apply Entries.get_zeroed].
    apply lookup_replicate_1 in E as [-> _]. apply Entries.get_zeroed. }
  split; [split; [split; try done| | | |]|done|].
  - lia.
  - constructor.
  - done.
  - done.
  - apply (Log.next_record_blank _ _ g); [done|apply Log.inside_root; lia|done].
  - intros lba _. cbn [Log.replay foldl]. by rewrite He.
  - intros lba _. unfold Reopen.holds, Reopen.block_at. cbn [Log.replay foldl]. by rewrite He.
Qed.

End durability.
(** ** A device from [format] to the second [open] *)

#[local] Existing Instance example_platform.
#[local] Existing Instance fold_xxh3.

Definition sample_options : VolumeOpenOptions :=
  {| checkpoint_after_bytes := DEFAULT_CHECKPOINT_AFTER_BYTES; write_buffer_bytes := 2 * BLOCK_SIZE;
     cache_budget_bytes := None |}.

(** A volume of 1000 blocks on a device of 12. *)
Definition new_device : BackingIo MemDevice :=
  (Storage.format (4096 * 1000) (4096 * 12) (Ok 77) (Io.new example_device None)).2.

Definition new_geometry : Geometry := the_ok fresh_geometry (Geometry.new 1000 12).
Definition new_checkpoint : Checkpoint := the_ok fresh_checkpoint (Index.empty new_geometry 77).

Definition first_open : res (Volume MemDevice) * BackingIo MemDevice :=
  Volume.open sample_options None (12 * BLOCK_SIZE) new_device.

Definition opened_volume : Volume MemDevice := the_ok fresh_volume first_open.1.

Lemma new_geometry_Ok : Geometry.new 1000 12 = Ok new_geometry.
Proof. apply is_ok_the. vm_compute. reflexivity. Qed.

Lemma new_checkpoint_Ok : Index.empty new_geometry 77 = Ok new_checkpoint.
Proof. apply is_ok_the. vm_compute. reflexivity. Qed.

Lemma plain_log d f (l : list Z) :
  forallb (fun x => negb (Tail.current_metadata (f x) (c_volume_id d))) l = true -> forall x, x ∈ l -> Log.plain d (f x).
Proof.
  intros Hl x Hx. eapply forallb_forall in Hl; [|by apply list_elem_of_In]. by apply negb_true_iff in Hl.
Qed.

(** A fresh device holds zeros, and suits the options. *)
Lemma new_device_kept :
  kept_on (Io.file new_device) new_checkpoint new_geometry [] (Publish.end_of new_checkpoint) (fun _ => zero_block).
Proof.
  assert (Hrun : is_ok (Storage.format (4096 * 1000) (4096 * 12) (Ok 77) (Io.new example_device None)).1 = true)
    by (vm_compute; reflexivity).
  pose proof (Roots.format_run (4096 * 1000) (4096 * 12) (Ok 77) (Io.new example_device None)
    ltac:(lia) ltac:(unfold is_u64; lia) ltac:(discriminate) ltac:(intros id [= <-]; unfold is_u64; lia)) as Hf.
  destruct (is_ok_exists _ Hrun) as [[] E]. pose proof (surjective_pairing
    (Storage.format (4096 * 1000) (4096 * 12) (Ok 77) (Io.new example_device None))) as Hp. rewrite E in Hp.
  apply (runs_elim _ _ _ _ _ Hf) in Hp as [_ Hp].
  destruct (Hp eq_refl) as (id & Hid & _ & g & k & Hg & Hk & _ & _ & Hr & Hs). injection Hid as <-.
  change (Geometry.new 1000 12 = Ok g) in Hg. rewrite new_geometry_Ok in Hg. injection Hg as <-.
  rewrite new_checkpoint_Ok in Hk. injection Hk as <-.
  apply (formatted_kept _ _ _ 1000 12 77); [unfold is_u32; lia|unfold is_u64; lia|unfold is_u64; lia
    |exact new_geometry_Ok|exact new_checkpoint_Ok|exact Hr|exact Hs|].
  intros x Hx. apply (plain_log _ _ (seqZ 4 8)); [vm_compute; reflexivity|]. apply elem_of_seqZ.
  assert (Hl : g_log_start new_geometry = 4) by (vm_compute; reflexivity).
  assert (Hbk : g_backing_blocks new_geometry = 12) by (vm_compute; reflexivity). lia.
Qed.

Lemma new_device_suits : Reopen.suits sample_options None new_checkpoint new_geometry [] (Publish.end_of new_checkpoint).
Proof.
  split; [vm_compute; reflexivity|].
  exists (the_ok 0 (Volume.validate_buffer_mapping_capacity sample_options None new_checkpoint
    (Reopen.buffer_blocks sample_options new_geometry))).
  eexists (the_ok (sizing example_cache) _). split; [apply is_ok_the; vm_compute; reflexivity|].
  split; [apply is_ok_the; vm_compute; reflexivity|].
  intros Hlt. exfalso. revert Hlt. apply Z.le_ngt, Z.leb_le. vm_compute. reflexivity.
Qed.

Lemma new_device_roomy : Windows.roomy new_geometry (Publish.end_of new_checkpoint) [].
Proof. vm_compute. reflexivity. Qed.

Lemma opened_volume_live :
  live new_geometry opened_volume /\
  forall lba, Mapping.in_volume new_geometry lba -> Spec.contents new_geometry opened_volume lba = zero_block.
Proof.
  assert (Hok : is_ok first_open.1 = true) by (vm_compute; reflexivity).
  pose proof (runs_elim _ _ _ _ _ (kept_reopens _ _ _ _ _ _ sample_options None new_device new_device_kept
    new_device_suits new_device_roomy (fun x => eq_refl)) (surjective_pairing _)) as Ho.
  assert (Hbk : g_backing_blocks new_geometry = 12) by (vm_compute; reflexivity).
  rewrite Hbk in Ho. change (Volume.open sample_options None (12 * BLOCK_SIZE) new_device) with first_open in Ho.
  rewrite (is_ok_the fresh_volume _ Hok) in Ho. exact Ho.
Qed.

(** Three operations, a flush and the second open, on the file as it is then. *)
Definition sample_operations : list Refine.operation :=
  [Refine.Write 5 sample_block; Refine.Read 5; Refine.Write 900 sample_block].

Definition operated : list (res (list Z)) * Volume MemDevice := Refine.perform_all sample_operations opened_volume.
Definition flushed : res unit * Volume MemDevice := Volume.flush operated.2.
Definition second_open : res (Volume MemDevice) * BackingIo MemDevice :=
  Volume.open sample_options None (12 * BLOCK_SIZE) (v_io flushed.2).

Lemma sample_operations_harmless :
  Forall Refine.typed sample_operations /\ Forall (harmless (Volume.descriptor opened_volume)) sample_operations.
Proof.
  assert (Hp : Log.plain (Volume.descriptor opened_volume) sample_block) by (vm_compute; reflexivity).
  pose proof sample_block_ok as Hb.
  split; repeat (apply Forall_cons; split); try exact (Forall_nil_2 _); try exact I; try exact Hp; try (split; [|exact Hb]);
    split; discriminate || reflexivity.
Qed.

Lemma flushed_admits : admits sample_options None new_geometry flushed.2.
Proof.
  split; [vm_compute; reflexivity|].
  exists (the_ok 0 (Volume.validate_buffer_mapping_capacity sample_options None (ms_checkpoint (v_mapping flushed.2))
    (Reopen.buffer_blocks sample_options new_geometry))).
  eexists (the_ok (sizing example_cache) _). split; [apply is_ok_the; vm_compute; reflexivity|].
  split; [apply is_ok_the; vm_compute; reflexivity|].
  intros Hlt. exfalso. revert Hlt. apply Z.le_ngt, Z.leb_le. vm_compute. reflexivity.
Qed.

Lemma acknowledged_writes_survive_witness : exists v,
  second_open.1 = Ok v /\ live new_geometry v /\ Spec.contents new_geometry v 5 = sample_block /\
  Spec.contents new_geometry v 6 = zero_block /\ Spec.contents new_geometry v 900 = sample_block.
Proof.
  assert (Hok : is_ok second_open.1 = true) by (vm_compute; reflexivity).
  assert (Hfl : is_ok flushed.1 = true) by (vm_compute; reflexivity).
  assert (Hbk : g_backing_blocks new_geometry = 12) by (vm_compute; reflexivity).
  destruct (is_ok_exists _ Hok) as [v Hv]. destruct (is_ok_exists _ Hfl) as [[] Hf].
  destruct opened_volume_live as [Hl Hz]. destruct sample_operations_harmless as [Ht Hh].
  assert (Hrun : Volume.flush operated.2 = (Ok tt, flushed.2))
    by (rewrite <- Hf; exact (surjective_pairing flushed)).
  assert (Hopen : Volume.open sample_options None (g_backing_blocks new_geometry * BLOCK_SIZE) (v_io flushed.2) =
    (Ok v, second_open.2)) by (rewrite Hbk, <- Hv; exact (surjective_pairing second_open)).
  destruct (acknowledged_writes_survive new_geometry opened_volume sample_operations operated.1 operated.2 flushed.2
    (Io.file (v_io flushed.2)) (v_io flushed.2) sample_options None (Ok v) second_open.2 Hl Ht Hh
    (surjective_pairing operated) Hrun (content_may_hold _) (fun x => eq_refl) flushed_admits Hopen) as [Hl3 Hc].
  assert (Hin : Forall (Mapping.in_volume new_geometry) [5; 6; 900]).
  { repeat (apply Forall_cons; split); [..|apply Forall_nil; exact I]; (split; [discriminate|vm_compute; reflexivity]). }
  apply Forall_cons in Hin as [H5 Hin]. apply Forall_cons in Hin as [H6 Hin]. apply Forall_cons in Hin as [H900 _].
  set (m := stored (fun _ => zero_block) sample_operations operated.1).
  assert (Hm : m 5 = sample_block /\ m 6 = zero_block /\ m 900 = sample_block)
    by (unfold m; split; [|split]; vm_compute; reflexivity).
  destruct Hm as (E5 & E6 & E900).
  assert (Hs : forall lba, Mapping.in_volume new_geometry lba -> Spec.contents new_geometry v lba = m lba)
    by (intros lba Hin; exact (eq_trans (Hc lba Hin) (stored_ext _ (fun _ => zero_block) _ _ lba (Hz lba Hin)))).
  exists v. split; [exact Hv|]. split; [exact Hl3|]. split; [exact (eq_trans (Hs 5 H5) E5)|].
  split; [exact (eq_trans (Hs 6 H6) E6)|exact (eq_trans (Hs 900 H900) E900)].
Defined.

Definition closed : res unit * Volume MemDevice := Volume.close operated.2.

Lemma operated_live : live new_geometry operated.2.
Proof.
  destruct opened_volume_live as [Hl _]. destruct sample_operations_harmless as [Ht Hh].
  destruct (perform_all_reaches new_geometry opened_volume sample_operations operated.1 operated.2 Hl Ht Hh
    (surjective_pairing operated)) as [Hfail|(Hl1 & _ & _)]; [|exact Hl1].
  assert (Hn : v_failed operated.2 = false) by (vm_compute; reflexivity). rewrite Hn in Hfail. discriminate Hfail.
Qed.

Lemma close_leaves_a_checkpoint_witness :
  is_ok closed.1 = true /\ checkpointed new_geometry closed.2 /\
  (c_generation (Volume.descriptor closed.2) =? c_generation (Volume.descriptor operated.2) + 1) = true.
Proof.
  assert (Hok : is_ok closed.1 = true) by (vm_compute; reflexivity). destruct (is_ok_exists _ Hok) as [[] Hc].
  assert (Hrun : Volume.close operated.2 = (Ok tt, closed.2)) by (rewrite <- Hc; exact (surjective_pairing closed)).
  split; [exact Hok|]. split; [|vm_compute; reflexivity].
  exact (proj1 (proj2 (close_leaves_a_checkpoint new_geometry operated.2 (Ok tt) closed.2 operated_live Hrun))).
Defined.

(** The same file with a buffer of one block: the cache has one slot, the log touches two
    pages, and recovery publishes a window for each. *)
Definition small_options : VolumeOpenOptions :=
  {| checkpoint_after_bytes := DEFAULT_CHECKPOINT_AFTER_BYTES; write_buffer_bytes := BLOCK_SIZE;
     cache_budget_bytes := None |}.

Definition small_open : res (Volume MemDevice) * BackingIo MemDevice :=
  Volume.open small_options None (12 * BLOCK_SIZE) (v_io flushed.2).

Lemma flushed_admits_small : admits small_options None new_geometry flushed.2.
Proof.
  split; [vm_compute; reflexivity|].
  exists (the_ok 0 (Volume.validate_buffer_mapping_capacity small_options None (ms_checkpoint (v_mapping flushed.2))
    (Reopen.buffer_blocks small_options new_geometry))).
  eexists (the_ok (sizing example_cache) _). split; [apply is_ok_the; vm_compute; reflexivity|].
  split; [apply is_ok_the; vm_compute; reflexivity|]. intros _. split; apply Z.ltb_lt; vm_compute; reflexivity.
Qed.

Lemma flushed_kept : exists rs,
  kept_on (Io.file (v_io flushed.2)) (ms_checkpoint (v_mapping flushed.2)) new_geometry rs (Spec.tail flushed.2)
    (Spec.contents new_geometry operated.2) /\
  Reopen.suits small_options None (ms_checkpoint (v_mapping flushed.2)) new_geometry rs (Spec.tail flushed.2).
Proof.
  assert (Hfl : is_ok flushed.1 = true) by (vm_compute; reflexivity). destruct (is_ok_exists _ Hfl) as [[] Hf].
  pose proof operated_live as Hl1.
  assert (Hrun : Volume.flush operated.2 = (Ok tt, flushed.2))
    by (rewrite <- Hf; exact (surjective_pairing flushed)).
  destruct (flush_keeps _ _ _ _ _ Hl1 Hrun flushed_admits_small) as (_ & _ & rs & Hk & Hs & _).
  exists rs. split; [exact Hk|exact Hs].
Qed.

Lemma open_recovers_witness : exists rs q v,
  Reopen.image (Io.file (v_io flushed.2)) (ms_checkpoint (v_mapping flushed.2)) new_geometry rs q /\
  small_open.1 = Ok v /\ Refine.ready new_geometry v /\ Spec.contents new_geometry v 5 = sample_block /\ rs <> [] /\
  c_generation (Volume.descriptor v) = c_generation (Volume.descriptor flushed.2) + 1.
Proof.
  assert (Hok : is_ok small_open.1 = true) by (vm_compute; reflexivity).
  assert (Hbk : g_backing_blocks new_geometry = 12) by (vm_compute; reflexivity).
  destruct (is_ok_exists _ Hok) as [v Hv]. destruct flushed_kept as (rs & [Hi _ Hh] & Hs).
  assert (Hopen : Volume.open small_options None (g_backing_blocks new_geometry * BLOCK_SIZE) (v_io flushed.2) =
    (Ok v, small_open.2)) by (rewrite Hbk, <- Hv; exact (surjective_pairing small_open)).
  destruct (Reopen.open_recovers _ _ _ _ _ _ _ _ _ _ Hi Hs (fun x => eq_refl) Hopen) as (Hr & Hc & _).
  assert (H5 : Mapping.in_volume new_geometry 5) by (split; [discriminate|vm_compute; reflexivity]).
  assert (Hw : Spec.contents new_geometry operated.2 5 = sample_block) by (vm_compute; reflexivity).
  exists rs, (Spec.tail flushed.2), v. split; [exact Hi|]. split; [exact Hv|]. split; [exact Hr|].
  split; [exact (eq_trans (Hc 5 H5) (eq_trans (Hh 5 H5) Hw))|]. split.
  2: { assert (E : v = the_ok fresh_volume small_open.1) by (rewrite Hv; reflexivity).
       rewrite E. clear. vm_compute. reflexivity. }
  intros ->.
  assert (Hn : bool_decide (Reopen.holds (Io.file (v_io flushed.2)) (ms_checkpoint (v_mapping flushed.2)) new_geometry [] 5 =
    sample_block) = false) by (vm_compute; reflexivity).
  apply bool_decide_eq_false in Hn. apply Hn. exact (eq_trans (Hh 5 H5) Hw).
Defined.

End Durability.
