(* ===== verification/Logging.v ===== *)
(** Leveled logging: [src/rust/src/logging.rs].  The level is a global atomic byte,
    here the state of the operations; the records themselves are output. *)

From S2P Require Import Prelude.

Inductive Level := Off | Info | Debug.

#[global] Instance level_eq_dec : EqDecision Level.
Proof. solve_decision. Defined.

(** An [OsString]: text, or bytes that are not UTF-8 with what [to_string_lossy]
    makes of them. *)
Inductive OsString :=
  | Utf8 (text : string)
  | NotUtf8 (lossy : string).

#[global] Instance os_string_eq_dec : EqDecision OsString.
Proof. solve_decision. Defined.

Definition to_str (s : OsString) : option string :=
  match s with Utf8 text => Some text | NotUtf8 _ => None end.

Definition to_string_lossy (s : OsString) : string :=
  match s with Utf8 text => text | NotUtf8 lossy => lossy end.

Module Level.

Definition number (l : Level) : Z := match l with Off => 0 | Info => 1 | Debug => 2 end.

Definition parse (text : string) : option Level :=
  if bool_decide (text = "off") then Some Off
  else if bool_decide (text = "info") then Some Info
  else if bool_decide (text = "debug") then Some Debug
  else None.

Definition name (l : Level) : string :=
  match l with Off => "off" | Info => "info" | Debug => "debug" end.

Definition permits (active wanted : Level) : bool :=
  (number wanted <=? number active) && (number Off <? number wanted).

(** The initial value of [ACTIVE]. *)
Definition ACTIVE : Z := number Info.

Definition set_level (l : Level) : Z := number l.

Definition level (active : Z) : Level :=
  if active =? 0 then Off else if active =? 1 then Info else Debug.

Definition enabled (wanted : Level) (active : Z) : bool := permits (level active) wanted.

(** [env::var_os(LEVEL_VARIABLE)] is [value]. *)
Definition configure_from_env (value : option OsString) : M Z Level := fun active =>
  match value with
  | None => (Ok (level active), active)
  | Some value =>
      match to_str value ≫= parse with
      | None => (Err (InvalidInput ("BLOCK_STORAGE_LOG must be off, info or debug, not " ++ to_string_lossy value)), active)
      | Some selected => (Ok selected, set_level selected)
      end
  end.

Lemma parse_name l : parse (name l) = Some l.
Proof. by destruct l. Qed.

Lemma parse_Some text l : parse text = Some l -> text = name l.
Proof. unfold parse. repeat case_bool_decide; intros [= <-]; done. Qed.

Lemma level_set l : level (set_level l) = l.
Proof. by destruct l. Qed.

(** The levels and the values of [BLOCK_STORAGE_LOG] correspond: an accepted value is
    the name of the level that becomes active, any other value is refused and leaves
    the level alone, and a record is emitted exactly when its level is neither [Off]
    nor above the active one. *)
Theorem configured_level value active :
  let '(r, active') := configure_from_env value active in
  match r with
  | Ok l => level active' = l /\ (value = None /\ active' = active \/ value = Some (Utf8 (name l)))
  | Err _ => active' = active /\ forall l, value <> Some (Utf8 (name l))
  | Panic => False
  end /\
  forall wanted, enabled wanted active' = true <-> 1 <= number wanted <= number (level active').
Proof.
  assert (He : forall a wanted, enabled wanted a = true <-> 1 <= number wanted <= number (level a)).
  { intros a wanted. unfold enabled, permits. destruct (level a), wanted; cbn; split; (done || lia). }
  unfold configure_from_env. destruct value as [value|]; [|split; [split; [done|by left]|done]].
  destruct (to_str value ≫= parse) as [l|] eqn:E; (split; [|done]).
  - split; [apply level_set|]. right. destruct value as [text|]; [|done]. cbn in E. by rewrite (parse_Some _ _ E).
  - split; [done|]. intros l [= ->]. cbn in E. by rewrite parse_name in E.
Qed.

End Level.
