(* ===== verification/Text.v ===== *)
(** Integers as decimal text: what [str::parse] and [Display] of the standard library
    do for the integers of command lines and reports. *)

From S2P Require Import Prelude.
From Stdlib Require Import Ascii.

Module Text.

(** [char::to_digit(10)] of a byte. *)
Definition digit (c : ascii) : option Z :=
  let n := Z.of_nat (nat_of_ascii c) in
  if (48 <=? n) && (n <=? 57) then Some (n - 48) else None.

Definition digit_char (d : Z) : ascii := ascii_of_nat (Z.to_nat (48 + d)).

(** The digits after the sign: [sign] is 1 or -1, and a result outside
    [low, high] is refused where it appears. *)
Fixpoint digits (sign low high acc : Z) (s : string) : option Z :=
  match s with
  | EmptyString => Some acc
  | String c s =>
      match digit c with
      | Some d =>
          let next := acc * 10 + sign * d in
          if (low <=? next) && (next <=? high) then digits sign low high next s else None
      | None => None
      end
  end.

Definition unsigned (high : Z) (s : string) : option Z :=
  match s with
  | EmptyString => None
  | _ => digits 1 0 high 0 s
  end.

(** [parse::<u64>]: one leading [+] is allowed. *)
Definition parse_u64 (s : string) : option Z :=
  match s with
  | String "+" rest => unsigned u64_max rest
  | _ => unsigned u64_max s
  end.

(** [parse::<i32>]. *)
Definition parse_i32 (s : string) : option Z :=
  match s with
  | String "+" rest => unsigned (2 ^ 31 - 1) rest
  | String "-" EmptyString => None
  | String "-" rest => digits (-1) (- 2 ^ 31) 0 0 rest
  | _ => unsigned (2 ^ 31 - 1) s
  end.

(** [Display] of a non-negative integer below [10 ^ fuel]. *)
Fixpoint print_digits (fuel : nat) (n : Z) (rest : string) : string :=
  match fuel with
  | O => rest
  | S fuel =>
      if n <? 10 then String (digit_char n) rest
      else print_digits fuel (n / 10) (String (digit_char (n mod 10)) rest)
  end.

(** 20 digits are enough for [u64]. *)
Definition print (n : Z) : string :=
  if n <? 0 then String "-" (print_digits 20 (- n) "") else print_digits 20 n "".

(** [{:#x}] of a [u32]. *)
Definition hex_char (d : Z) : ascii := if d <? 10 then digit_char d else ascii_of_nat (Z.to_nat (87 + d)).

Fixpoint hex_digits (fuel : nat) (n : Z) (rest : string) : string :=
  match fuel with
  | O => rest
  | S fuel =>
      if n <? 16 then String (hex_char n) rest
      else hex_digits fuel (n / 16) (String (hex_char (n mod 16)) rest)
  end.

Definition print_hex (n : Z) : string := "0x" ++ hex_digits 8 n "".

Lemma digit_digit_char d : 0 <= d < 10 -> digit (digit_char d) = Some d.
Proof.
  intros Hd. unfold digit, digit_char. rewrite nat_ascii_embedding by lia. rewrite Z2Nat.id by lia.
  destruct (Z.leb_spec 48 (48 + d)), (Z.leb_spec (48 + d) 57); try lia. cbn [andb]. f_equal. lia.
Qed.

Lemma digits_print sign low high fuel n rest :
  sign = 1 \/ sign = -1 -> 0 <= n < 10 ^ Z.of_nat fuel -> low <= sign * n <= high -> low <= 0 <= high -> (0 < fuel)%nat ->
  digits sign low high 0 (print_digits fuel n rest) = digits sign low high (sign * n) rest.
Proof.
  intros Hs. revert n rest. induction fuel as [|fuel IH]; intros n rest Hn Hr Hz Hf; [lia|].
  cbn [print_digits]. pose proof (Z.div_mod n 10 ltac:(lia)) as Hdm. pose proof (Z.mod_pos_bound n 10 ltac:(lia)) as Hm.
  destruct (Z.ltb_spec n 10).
  - cbn [digits]. rewrite digit_digit_char by lia. cbv zeta. rewrite Z.mul_0_l, Z.add_0_l.
    by destruct (Z.leb_spec low (sign * n)), (Z.leb_spec (sign * n) high); try lia.
  - assert (Hdiv : 0 <= n / 10 < 10 ^ Z.of_nat fuel).
    { split; [apply Z.div_pos; lia|]. apply Z.div_lt_upper_bound; [lia|].
      replace (Z.of_nat (S fuel)) with (Z.succ (Z.of_nat fuel)) in Hn by lia. rewrite Z.pow_succ_r in Hn; lia. }
    assert (0 < fuel)%nat. { destruct fuel; [|lia]. change (10 ^ Z.of_nat 0) with 1 in Hdiv.
      assert (n / 10 = 0) as E by lia. apply Z.div_small_iff in E; lia. }
    rewrite IH by (done || destruct Hs as [->| ->]; lia). cbn [digits]. rewrite digit_digit_char by lia. cbv zeta.
    replace (sign * (n / 10) * 10 + sign * (n mod 10)) with (sign * n) by (destruct Hs as [->| ->]; lia).
    by destruct (Z.leb_spec low (sign * n)), (Z.leb_spec (sign * n) high); try lia.
Qed.

(** The first character is a digit. *)
Lemma print_digits_head fuel n rest :
  0 <= n < 10 ^ Z.of_nat fuel -> (0 < fuel)%nat ->
  exists d s, print_digits fuel n rest = String (digit_char d) s /\ 0 <= d < 10.
Proof.
  revert n rest. induction fuel as [|fuel IH]; intros n rest Hn Hf; [lia|]. cbn [print_digits].
  destruct (Z.ltb_spec n 10); [eexists n, rest; split; [done|lia]|].
  assert (Hdiv : 0 <= n / 10 < 10 ^ Z.of_nat fuel).
  { split; [apply Z.div_pos; lia|]. apply Z.div_lt_upper_bound; [lia|].
    replace (Z.of_nat (S fuel)) with (Z.succ (Z.of_nat fuel)) in Hn by lia. rewrite Z.pow_succ_r in Hn; lia. }
  apply IH; [done|]. destruct fuel; [|lia]. change (10 ^ Z.of_nat 0) with 1 in Hdiv.
  assert (n / 10 = 0) as E by lia. apply Z.div_small_iff in E; lia.
Qed.

Lemma digit_char_cases d : 0 <= d < 10 ->
  digit_char d = "0"%char \/ digit_char d = "1"%char \/ digit_char d = "2"%char \/ digit_char d = "3"%char \/
  digit_char d = "4"%char \/ digit_char d = "5"%char \/ digit_char d = "6"%char \/ digit_char d = "7"%char \/
  digit_char d = "8"%char \/ digit_char d = "9"%char.
Proof.
  intros Hd. assert (d = 0 \/ d = 1 \/ d = 2 \/ d = 3 \/ d = 4 \/ d = 5 \/ d = 6 \/ d = 7 \/ d = 8 \/ d = 9) as Hc by lia.
  destruct Hc as [->|[->|[->|[->|[->|[->|[->|[->|[->| ->]]]]]]]]]; vm_compute; tauto.
Qed.

Lemma parse_print_u64 n : is_u64 n -> parse_u64 (print n) = Some n.
Proof.
  intros Hn. unfold is_u64 in Hn. unfold print. destruct (Z.ltb_spec n 0); [lia|].
  assert (Hlt : 0 <= n < 10 ^ Z.of_nat 20) by (change (10 ^ Z.of_nat 20) with 100000000000000000000; lia).
  pose proof (digits_print 1 0 u64_max 20 n "" ltac:(by left) Hlt) as Hd.
  destruct (print_digits_head 20 n "" Hlt ltac:(lia)) as (d & s & Hp & Hdr). rewrite Hp in *.
  assert (digits 1 0 u64_max 0 (String (digit_char d) s) = Some n) as Hres.
  { rewrite Hd; [cbn; f_equal; lia|unfold u64_max; lia|unfold u64_max; lia|lia]. }
  unfold parse_u64, unsigned.
  by destruct (digit_char_cases d Hdr) as [E|[E|[E|[E|[E|[E|[E|[E|[E|E]]]]]]]]]; rewrite E in *.
Qed.

Lemma parse_print_i32 n : - 2 ^ 31 <= n < 2 ^ 31 -> parse_i32 (print n) = Some n.
Proof.
  intros Hn. unfold print. destruct (Z.ltb_spec n 0).
  - assert (Hlt : 0 <= - n < 10 ^ Z.of_nat 20) by (change (10 ^ Z.of_nat 20) with 100000000000000000000; lia).
    pose proof (digits_print (-1) (- 2 ^ 31) 0 20 (- n) "" ltac:(by right) Hlt ltac:(lia) ltac:(lia) ltac:(lia)) as Hd.
    destruct (print_digits_head 20 (- n) "" Hlt ltac:(lia)) as (d & s & Hp & _). rewrite Hp in *.
    cbn [parse_i32]. rewrite Hd. cbn [digits]. f_equal. lia.
  - assert (Hlt : 0 <= n < 10 ^ Z.of_nat 20) by (change (10 ^ Z.of_nat 20) with 100000000000000000000; lia).
    pose proof (digits_print 1 0 (2 ^ 31 - 1) 20 n "" ltac:(by left) Hlt ltac:(lia) ltac:(lia) ltac:(lia)) as Hd.
    destruct (print_digits_head 20 n "" Hlt ltac:(lia)) as (d & s & Hp & Hdr). rewrite Hp in *.
    assert (digits 1 0 (2 ^ 31 - 1) 0 (String (digit_char d) s) = Some n) as Hres by (rewrite Hd; cbn [digits]; f_equal; lia).
    unfold parse_i32, unsigned.
    by destruct (digit_char_cases d Hdr) as [E|[E|[E|[E|[E|[E|[E|[E|[E|E]]]]]]]]]; rewrite E in *.
Qed.

Lemma digits_range sign low high acc s n :
  low <= acc <= high -> digits sign low high acc s = Some n -> low <= n <= high.
Proof.
  revert acc. induction s as [|c s IH]; intros acc Hacc; cbn [digits]; [by intros [= <-]|].
  destruct (digit c) as [d|]; [|done].
  destruct (Z.leb_spec low (acc * 10 + sign * d)), (Z.leb_spec (acc * 10 + sign * d) high); cbn [andb]; try done.
  apply IH. lia.
Qed.

Lemma unsigned_range high s n : 0 <= high -> unsigned high s = Some n -> 0 <= n <= high.
Proof. intros Hh. destruct s; [done|]. apply digits_range. lia. Qed.

Lemma parse_u64_range s n : parse_u64 s = Some n -> is_u64 n.
Proof.
  assert (Hu : forall t, unsigned u64_max t = Some n -> is_u64 n).
  { intros t Ht. apply unsigned_range in Ht; unfold u64_max, is_u64 in *; lia. }
  destruct s as [|c s]; [done|]. unfold parse_u64.
  repeat match goal with |- context [match ?x with _ => _ end] => destruct x end; apply Hu.
Qed.

Lemma parse_i32_range s n : parse_i32 s = Some n -> - 2 ^ 31 <= n < 2 ^ 31.
Proof.
  assert (Hu : forall t, unsigned (2 ^ 31 - 1) t = Some n -> - 2 ^ 31 <= n < 2 ^ 31).
  { intros t Ht. apply unsigned_range in Ht; lia. }
  assert (Hd : forall t, digits (-1) (- 2 ^ 31) 0 0 t = Some n -> - 2 ^ 31 <= n < 2 ^ 31).
  { intros t Ht. apply digits_range in Ht; lia. }
  destruct s as [|c s]; [done|]. unfold parse_i32.
  repeat match goal with |- context [match ?x with _ => _ end] => destruct x end; (done || apply Hu || apply Hd).
Qed.

End Text.
