(* ===== verification/UblkConfig.v ===== *)
(** The command line and the configuration of the block-device daemon:
    [src/rust/src/bin/block-storage-ublk.rs], up to the ublk target it describes. *)

From S2P Require Import Prelude Bytes Geometry Config Logging Text.

Definition BLOCK_SHIFT : Z := 12.
Definition LOGICAL_BLOCK_BYTES : Z := Z.shiftl 1 BLOCK_SHIFT.
Definition SECTOR_SHIFT : Z := 9.
Definition SECTORS_PER_BLOCK : Z := Z.shiftl 1 (BLOCK_SHIFT - SECTOR_SHIFT).
Definition DEFAULT_MAX_REQUEST_BYTES : Z := 131072.
Definition DEFAULT_INFLIGHT_MEMORY_BYTES : Z := 4 * 1024 * 1024.
Definition DEFAULT_WRITE_BUFFER_BYTES : Z := 4 * 1024 * 1024.
Definition MAX_WRITE_BUFFER_BYTES : Z := 16 * 1024 * 1024.
Definition MAX_REQUEST_BLOCKS : Z := 338.
Definition MIN_QUEUE_DEPTH : Z := 1.
Definition MAX_QUEUE_DEPTH : Z := 4096.

(** The constants of [libublk::sys] that the daemon uses. *)
Class UblkSys := {
  UBLK_IO_OP_READ : Z;
  UBLK_IO_OP_WRITE : Z;
  UBLK_IO_OP_FLUSH : Z;
  UBLK_IO_F_FAILFAST_DEV : Z;
  UBLK_IO_F_FAILFAST_TRANSPORT : Z;
  UBLK_IO_F_FAILFAST_DRIVER : Z;
  UBLK_IO_F_META : Z;
  UBLK_IO_F_FUA : Z;
  UBLK_ATTR_VOLATILE_CACHE : Z;
  UBLK_PARAM_TYPE_BASIC : Z;
}.

(** [linux/ublk_cmd.h]: the operation is the low byte of [op_flags], the flags are single
    bits above it. *)
Class UblkSysLaws `{UblkSys} := {
  op_bytes : Forall is_byte [UBLK_IO_OP_READ; UBLK_IO_OP_WRITE; UBLK_IO_OP_FLUSH];
  op_distinct : NoDup [UBLK_IO_OP_READ; UBLK_IO_OP_WRITE; UBLK_IO_OP_FLUSH];
  flag_bits : Forall (fun f => exists i, 8 <= i < 32 /\ f = 2 ^ i)
    [UBLK_IO_F_FAILFAST_DEV; UBLK_IO_F_FAILFAST_TRANSPORT; UBLK_IO_F_FAILFAST_DRIVER; UBLK_IO_F_META; UBLK_IO_F_FUA];
  flags_distinct : NoDup
    [UBLK_IO_F_FAILFAST_DEV; UBLK_IO_F_FAILFAST_TRANSPORT; UBLK_IO_F_FAILFAST_DRIVER; UBLK_IO_F_META; UBLK_IO_F_FUA];
}.

(** The values of that header. *)
Definition linux_ublk : UblkSys :=
  {| UBLK_IO_OP_READ := 0; UBLK_IO_OP_WRITE := 1; UBLK_IO_OP_FLUSH := 2;
     UBLK_IO_F_FAILFAST_DEV := 2 ^ 8; UBLK_IO_F_FAILFAST_TRANSPORT := 2 ^ 9; UBLK_IO_F_FAILFAST_DRIVER := 2 ^ 10;
     UBLK_IO_F_META := 2 ^ 11; UBLK_IO_F_FUA := 2 ^ 13; UBLK_ATTR_VOLATILE_CACHE := 2 ^ 2;
     UBLK_PARAM_TYPE_BASIC := 1 |}.

Lemma linux_ublk_laws : @UblkSysLaws linux_ublk.
Proof.
  constructor; cbn.
  - repeat (apply Forall_cons; split; [split; reflexivity || discriminate|]). apply Forall_nil. exact I.
  - apply (bool_decide_unpack _). vm_compute. exact I.
  - repeat (apply Forall_cons; split; [eexists; split; [|reflexivity]; lia|]). apply Forall_nil. exact I.
  - apply (bool_decide_unpack _). vm_compute. exact I.
Qed.

Record ServeConfig := {
  sv_max_request_bytes : Z;
  sv_inflight_memory_bytes : Z;
  sv_write_buffer_bytes : Z;
  sv_mapping_cache_bytes : option Z;
}.

#[global] Instance serve_config_eq_dec : EqDecision ServeConfig.
Proof. solve_decision. Defined.

Inductive CliCommand :=
  | Serve (backing_path : OsString) (device_id : Z) (config : ServeConfig)
  | Delete (device_id : Z)
  | Format (backing_path : OsString) (backing_bytes volume_bytes : Z).

(** [TargetConfiguration], with the fields of [ublk_params] that are set. *)
Record TargetConfiguration := {
  device_bytes : Z;
  param_types : Z;
  attrs : Z;
  logical_bs_shift : Z;
  physical_bs_shift : Z;
  io_opt_shift : Z;
  io_min_shift : Z;
  max_sectors : Z;
  dev_sectors : Z;
}.

Module ServeConfig.

Definition default : ServeConfig :=
  {| sv_max_request_bytes := DEFAULT_MAX_REQUEST_BYTES;
     sv_inflight_memory_bytes := DEFAULT_INFLIGHT_MEMORY_BYTES;
     sv_write_buffer_bytes := DEFAULT_WRITE_BUFFER_BYTES;
     sv_mapping_cache_bytes := None |}.

Definition validate (c : ServeConfig) : res unit :=
  fail_if ((sv_max_request_bytes c =? 0)
           || negb (is_multiple_of (sv_max_request_bytes c) LOGICAL_BLOCK_BYTES)
           || (MAX_REQUEST_BLOCKS * LOGICAL_BLOCK_BYTES <? sv_max_request_bytes c))
    (InvalidInput "--max-request-bytes must be a positive multiple of 4096 and at most 338 blocks") ;;?
  fail_if (sv_inflight_memory_bytes c <? sv_max_request_bytes c)
    (InvalidInput "--inflight-memory-bytes must hold at least one request") ;;?
  fail_if ((sv_write_buffer_bytes c =? 0)
           || negb (is_multiple_of (sv_write_buffer_bytes c) LOGICAL_BLOCK_BYTES)
           || (MAX_WRITE_BUFFER_BYTES <? sv_write_buffer_bytes c))
    (InvalidInput "--write-buffer-bytes must be a positive multiple of 4096 and at most 16 MiB") ;;?
  Ok tt.

Definition volume_open_options (c : ServeConfig) : VolumeOpenOptions :=
  {| checkpoint_after_bytes := checkpoint_after_bytes Options.default;
     write_buffer_bytes := sv_write_buffer_bytes c;
     cache_budget_bytes := sv_mapping_cache_bytes c |}.

(** The division panics on a zero request size. *)
Definition queue_depth (c : ServeConfig) : res Z :=
  if sv_max_request_bytes c =? 0 then Panic
  else
    let depth := sv_inflight_memory_bytes c / sv_max_request_bytes c in
    let depth := Z.min (Z.max depth MIN_QUEUE_DEPTH) MAX_QUEUE_DEPTH in
    Ok (if depth <? 2 ^ 16 then depth else MAX_QUEUE_DEPTH).

Definition buffer_memory_bytes (c : ServeConfig) : res Z :=
  depth <-? queue_depth c ;;
  Ok (depth * sv_max_request_bytes c).

(** The field types. *)
Definition typed (c : ServeConfig) : Prop :=
  is_u32 (sv_max_request_bytes c) /\ is_u64 (sv_inflight_memory_bytes c) /\ is_u64 (sv_write_buffer_bytes c) /\
  match sv_mapping_cache_bytes c with Some b => is_u64 b | None => True end.

Lemma validate_Ok c : validate c = Ok tt <->
  (exists n, sv_max_request_bytes c = n * 4096 /\ n <> 0 /\ n <= 338) /\
  sv_max_request_bytes c <= sv_inflight_memory_bytes c /\
  (exists n, sv_write_buffer_bytes c = n * 4096 /\ n <> 0 /\ n <= 4096).
Proof.
  unfold validate. change LOGICAL_BLOCK_BYTES with 4096. change MAX_REQUEST_BLOCKS with 338.
  change MAX_WRITE_BUFFER_BYTES with 16777216. change (338 * 4096) with 1384448.
  pose proof (is_multiple_of_spec (sv_max_request_bytes c) 4096 ltac:(done)) as Hm.
  pose proof (is_multiple_of_spec (sv_write_buffer_bytes c) 4096 ltac:(done)) as Hw.
  split.
  - intros Hv. ok_inv. bool_prop.
    repeat match goal with E : is_multiple_of _ _ = true |- _ => revert E end. rewrite Hm, Hw.
    intros [a Ha] [b Hb]. split; [exists a|split; [lia|exists b]]; lia.
  - intros ((a & Ha & Ha0 & Ha1) & Hi & b & Hb & Hb0 & Hb1).
    rewrite (proj2 Hm), (proj2 Hw) by eauto.
    destruct (Z.eqb_spec (sv_max_request_bytes c) 0), (Z.ltb_spec 1384448 (sv_max_request_bytes c)),
      (Z.ltb_spec (sv_inflight_memory_bytes c) (sv_max_request_bytes c)), (Z.eqb_spec (sv_write_buffer_bytes c) 0),
      (Z.ltb_spec 16777216 (sv_write_buffer_bytes c)); (done || lia).
Qed.

(** C38. The options of a configuration that [validate] accepts pass the check of the engine
    on its options, [VolumeOpenOptions::validate], and its queue has between 1 and 4096
    request buffers, as many as the memory allowed for them can hold, of at least one block
    and at most 338 each.  (Whether the cache budget suits a given volume is checked by [open] only, which
    may still refuse the options.) *)
Theorem accepted_config_fits c :
  typed c -> validate c = Ok tt ->
  Options.validate (volume_open_options c) = Ok tt /\
  4096 <= sv_max_request_bytes c <= 338 * BLOCK_SIZE /\
  exists depth, queue_depth c = Ok depth /\ 1 <= depth <= 4096 /\
    buffer_memory_bytes c = Ok (depth * sv_max_request_bytes c) /\
    depth * sv_max_request_bytes c <= sv_inflight_memory_bytes c /\
    (depth = 4096 \/ sv_inflight_memory_bytes c < (depth + 1) * sv_max_request_bytes c).
Proof.
  intros (Hm & _ & Hw & _) Hv. apply validate_Ok in Hv as ((a & Ha & Ha0 & Ha1) & Hi & b & Hb & Hb0 & Hb1).
  unfold is_u32, is_u64 in *. change BLOCK_SIZE with 4096. split; [|split; [lia|]].
  - apply Options.validate_options_Ok. split; [exists 16384; by split|]. exists b. cbn. change BLOCK_SIZE with 4096. lia.
  - set (d := sv_inflight_memory_bytes c / sv_max_request_bytes c).
    assert (Hd : 1 <= d). { apply Z.div_le_lower_bound; lia. }
    assert (Hq : queue_depth c = Ok (Z.min d 4096)).
    { unfold queue_depth. destruct (Z.eqb_spec (sv_max_request_bytes c) 0); [lia|]. fold d.
      change MIN_QUEUE_DEPTH with 1. change MAX_QUEUE_DEPTH with 4096. f_equal.
      destruct (Z.ltb_spec (Z.min (Z.max d 1) 4096) (2 ^ 16)); lia. }
    exists (Z.min d 4096). unfold buffer_memory_bytes. rewrite Hq. split; [done|]. split; [lia|]. split; [done|].
    pose proof (Z.div_mod (sv_inflight_memory_bytes c) (sv_max_request_bytes c) ltac:(lia)) as Hdm. fold d in Hdm.
    pose proof (Z.mod_pos_bound (sv_inflight_memory_bytes c) (sv_max_request_bytes c) ltac:(lia)).
    split; [|destruct (Z.le_gt_cases 4096 d); [left; lia|right]]; nia.
Qed.

Lemma accepted_config_fits_witness :
  typed default /\ validate default = Ok tt /\ exists depth, queue_depth default = Ok depth /\ 1 <= depth <= 4096.
Proof.
  assert (Ht : typed default) by (split; [split; reflexivity || discriminate|split; [split; reflexivity || discriminate|
    split; [split; reflexivity || discriminate|exact I]]]).
  split; [exact Ht|]. split; [reflexivity|].
  destruct (accepted_config_fits default Ht eq_refl) as (_ & _ & depth & Hq & Hd & _).
  exists depth. exact (conj Hq Hd).
Defined.

End ServeConfig.

Module Cli.

Definition invalid_id {A} : res A := Err (InvalidInput "invalid device ID").

Definition parse_i32 (value : OsString) : res Z :=
  match to_str value ≫= Text.parse_i32 with Some id => Ok id | None => invalid_id end.

Definition parse_serve_device_id (value : OsString) : res Z :=
  id <-? parse_i32 value ;;
  fail_if (id <? -1) (InvalidInput "serve device ID must be -1 or non-negative") ;;?
  Ok id.

Definition parse_delete_device_id (value : OsString) : res Z :=
  id <-? parse_i32 value ;;
  fail_if (id <? 0) (InvalidInput "delete device ID must be non-negative") ;;?
  Ok id.

Definition parse_bytes (value : OsString) : res Z :=
  ok_or (to_str value ≫= Text.parse_u64) (InvalidInput "invalid byte size").

Definition MIB : Z := 1024 * 1024.

(** The flags of [format]: which size they set, and their unit. *)
Definition format_flag (flag : OsString) : option (bool * Z) :=
  match to_str flag with
  | Some text =>
      if bool_decide (text = "--prealloc-mib") then Some (true, MIB)
      else if bool_decide (text = "--prealloc-bytes") then Some (true, 1)
      else if bool_decide (text = "--size-mib") then Some (false, MIB)
      else if bool_decide (text = "--size-bytes") then Some (false, 1)
      else None
  | None => None
  end.

Fixpoint parse_format_sizes (args : list OsString) (usage : io_error) (backing volume : option Z) : res (Z * Z) :=
  match args with
  | [] => match backing, volume with Some b, Some v => Ok (b, v) | _, _ => Err usage end
  | [_] => Err usage
  | flag :: value :: args =>
      target <-? ok_or (format_flag flag) usage ;;
      let '(is_backing, scale) := target in
      fail_if (bool_decide (is_Some (if is_backing then backing else volume))) usage ;;?
      bytes <-? parse_bytes value ;;
      scaled <-? ok_or (checked_mul 64 bytes scale) usage ;;
      if is_backing then parse_format_sizes args usage (Some scaled) volume
      else parse_format_sizes args usage backing (Some scaled)
  end.

Definition set_flag (flag value : OsString) (usage : io_error) (c : ServeConfig) : res ServeConfig :=
  match to_str flag with
  | Some text =>
      if bool_decide (text = "--max-request-bytes") then
        bytes <-? parse_bytes value ;;
        fail_if (2 ^ 32 <=? bytes) usage ;;?
        Ok {| sv_max_request_bytes := bytes; sv_inflight_memory_bytes := sv_inflight_memory_bytes c;
              sv_write_buffer_bytes := sv_write_buffer_bytes c; sv_mapping_cache_bytes := sv_mapping_cache_bytes c |}
      else if bool_decide (text = "--inflight-memory-bytes") then
        bytes <-? parse_bytes value ;;
        Ok {| sv_max_request_bytes := sv_max_request_bytes c; sv_inflight_memory_bytes := bytes;
              sv_write_buffer_bytes := sv_write_buffer_bytes c; sv_mapping_cache_bytes := sv_mapping_cache_bytes c |}
      else if bool_decide (text = "--write-buffer-bytes") then
        bytes <-? parse_bytes value ;;
        Ok {| sv_max_request_bytes := sv_max_request_bytes c; sv_inflight_memory_bytes := sv_inflight_memory_bytes c;
              sv_write_buffer_bytes := bytes; sv_mapping_cache_bytes := sv_mapping_cache_bytes c |}
      else if bool_decide (text = "--mapping-cache-bytes") then
        bytes <-? parse_bytes value ;;
        Ok {| sv_max_request_bytes := sv_max_request_bytes c; sv_inflight_memory_bytes := sv_inflight_memory_bytes c;
              sv_write_buffer_bytes := sv_write_buffer_bytes c; sv_mapping_cache_bytes := Some bytes |}
      else Err usage
  | None => Err usage
  end.

(** The loop of [parse_serve_config] from the configuration [c], and its end. *)
Fixpoint parse_serve_config (args : list OsString) (usage : io_error) (c : ServeConfig) : res ServeConfig :=
  match args with
  | [] => ServeConfig.validate c ;;? Ok c
  | [_] => Err usage
  | flag :: value :: args => c <-? set_flag flag value usage c ;; parse_serve_config args usage c
  end.

Definition usage (program : OsString) : io_error :=
  InvalidInput ("usage: " ++ to_string_lossy program ++ " serve <backing> <device-id> [--max-request-bytes N] [--inflight-memory-bytes N] [--write-buffer-bytes N] [--mapping-cache-bytes N] | delete <device-id> | format <new-regular-file> --size-mib N --prealloc-mib N (or --size-bytes N --prealloc-bytes N)").

(** [args.next().ok_or_else(&usage)?]. *)
Definition next_arg (args : list OsString) (usage : io_error) : res (OsString * list OsString) :=
  match args with [] => Err usage | a :: args => Ok (a, args) end.

Definition parse_args (args : list OsString) : res CliCommand :=
  let program := default (Utf8 "block-storage-ublk") (head args) in
  let usage := usage program in
  next <-? next_arg (tail args) usage ;;
  let '(command, args) := next in
  match to_str command with
  | Some text =>
      if bool_decide (text = "serve") then
        next <-? next_arg args usage ;;
        let '(backing_path, args) := next in
        next <-? next_arg args usage ;;
        let '(value, args) := next in
        device_id <-? parse_serve_device_id value ;;
        config <-? parse_serve_config args usage ServeConfig.default ;;
        Ok (Serve backing_path device_id config)
      else if bool_decide (text = "delete") then
        next <-? next_arg args usage ;;
        let '(value, args) := next in
        device_id <-? parse_delete_device_id value ;;
        fail_if (bool_decide (args <> [])) usage ;;?
        Ok (Delete device_id)
      else if bool_decide (text = "format") then
        next <-? next_arg args usage ;;
        let '(backing_path, args) := next in
        next <-? parse_format_sizes args usage None None ;;
        let '(backing_bytes, volume_bytes) := next in
        Ok (Format backing_path backing_bytes volume_bytes)
      else Err usage
  | None => Err usage
  end.

(** ** What is accepted *)

Definition valid (c : CliCommand) : Prop :=
  match c with
  | Serve _ device_id config =>
      -1 <= device_id < 2 ^ 31 /\ ServeConfig.typed config /\ ServeConfig.validate config = Ok tt
  | Delete device_id => 0 <= device_id < 2 ^ 31
  | Format _ backing_bytes volume_bytes => is_u64 backing_bytes /\ is_u64 volume_bytes
  end.

Lemma parse_bytes_range value n : parse_bytes value = Ok n -> is_u64 n.
Proof.
  unfold parse_bytes. rewrite ok_or_Ok. destruct (to_str value) as [s|]; [|done]. apply Text.parse_u64_range.
Qed.

Lemma parse_id_range value n : parse_i32 value = Ok n -> - 2 ^ 31 <= n < 2 ^ 31.
Proof.
  unfold parse_i32. destruct (to_str value) as [s|]; [|done]. cbn. destruct (Text.parse_i32 s) eqn:E; [|done].
  intros [= <-]. by apply Text.parse_i32_range in E.
Qed.

Lemma set_flag_typed flag value usage c c' :
  ServeConfig.typed c -> set_flag flag value usage c = Ok c' -> ServeConfig.typed c'.
Proof.
  intros (Hm & Hi & Hw & Hc) Hs. unfold set_flag in Hs. destruct (to_str flag) as [text|]; [|done].
  repeat case_bool_decide; try done; ok_inv;
    repeat match goal with E : parse_bytes _ = Ok _ |- _ => apply parse_bytes_range in E end; (split; [|split; [|split]]);
    cbn; try done. bool_prop. unfold is_u64, is_u32 in *. lia.
Qed.

Lemma serve_config_accepted usage n args c c' :
  (length args <= n)%nat -> ServeConfig.typed c -> parse_serve_config args usage c = Ok c' ->
  ServeConfig.typed c' /\ ServeConfig.validate c' = Ok tt.
Proof.
  revert args c. induction n as [|n IH]; intros [|flag [|value args]] c Hn Ht Hp; cbn in Hn, Hp; try lia; try done.
  1,2: apply rbind_Ok in Hp as ([] & Hv & Hp); injection Hp as <-; done.
  ok_inv. eapply IH; [|by eapply set_flag_typed|done]. lia.
Qed.

Lemma format_sizes_accepted usage n args b v r :
  (length args <= n)%nat -> (forall x, b = Some x -> is_u64 x) -> (forall x, v = Some x -> is_u64 x) ->
  parse_format_sizes args usage b v = Ok r -> is_u64 r.1 /\ is_u64 r.2.
Proof.
  revert args b v. induction n as [|n IH]; intros [|flag [|value args]] b v Hn Hb Hv Hp; cbn in Hn, Hp; try lia; try done.
  1,2: destruct b, v; try done; injection Hp as <-; split; [by apply Hb|by apply Hv].
  apply rbind_Ok in Hp as ([is_backing scale] & Hf & Hp). apply rbind_Ok in Hp as ([] & _ & Hp).
  apply rbind_Ok in Hp as (bytes & Hx%parse_bytes_range & Hp). apply rbind_Ok in Hp as (scaled & Hs & Hp).
  apply ok_or_Ok, checked_mul_Some in Hs as [-> Hlt].
  assert (Hscale : 0 <= scale).
  { apply ok_or_Ok in Hf. unfold format_flag in Hf. destruct (to_str flag); [|done].
    repeat case_bool_decide; try done; injection Hf as <- <-; done. }
  destruct is_backing; (eapply IH; [| | |exact Hp]; [lia|..]); try done; intros x [= <-]; unfold is_u64 in *; nia.
Qed.

(** C36. Whatever its arguments, a command that [parse_args] accepts has a device id of its
    range, sizes of 64 bits, and a configuration that is validated. *)
Theorem accepted_command_valid args c : parse_args args = Ok c -> valid c.
Proof.
  unfold parse_args. intros Hp. apply rbind_Ok in Hp as ([command rest] & _ & Hp).
  destruct (to_str command) as [text|]; [|done]. repeat case_bool_decide; try done.
  - apply rbind_Ok in Hp as ([path rest1] & _ & Hp). apply rbind_Ok in Hp as ([value rest2] & _ & Hp).
    apply rbind_Ok in Hp as (id & Hid & Hp). apply rbind_Ok in Hp as (config & Hc & Hp). injection Hp as <-.
    unfold parse_serve_device_id in Hid. ok_inv. bool_prop.
    match goal with E : parse_i32 _ = Ok _ |- _ => apply parse_id_range in E end.
    split; [lia|]. eapply serve_config_accepted; [reflexivity| |exact Hc].
    split; [by split|]. split; [by split|]. split; [by split|done].
  - apply rbind_Ok in Hp as ([value rest2] & _ & Hp). unfold parse_delete_device_id in Hp. ok_inv. bool_prop.
    match goal with E : parse_i32 _ = Ok _ |- _ => apply parse_id_range in E end. cbn. lia.
  - apply rbind_Ok in Hp as ([path rest1] & _ & Hp). apply rbind_Ok in Hp as ([b v] & Hf & Hp). injection Hp as <-.
    by eapply (format_sizes_accepted _ _ _ _ _ (b, v)) in Hf; [|reflexivity|done..].
Qed.

(** ** Writing a command line *)

Definition text_of (n : Z) : OsString := Utf8 (Text.print n).

Definition command_line (program : OsString) (c : CliCommand) : list OsString :=
  program ::
  match c with
  | Serve path id config =>
      [Utf8 "serve"; path; text_of id;
       Utf8 "--max-request-bytes"; text_of (sv_max_request_bytes config);
       Utf8 "--inflight-memory-bytes"; text_of (sv_inflight_memory_bytes config);
       Utf8 "--write-buffer-bytes"; text_of (sv_write_buffer_bytes config)]
      ++ match sv_mapping_cache_bytes config with
         | Some b => [Utf8 "--mapping-cache-bytes"; text_of b]
         | None => []
         end
  | Delete id => [Utf8 "delete"; text_of id]
  | Format path backing_bytes volume_bytes =>
      [Utf8 "format"; path; Utf8 "--size-bytes"; text_of volume_bytes; Utf8 "--prealloc-bytes"; text_of backing_bytes]
  end.

Lemma parse_bytes_print n : is_u64 n -> parse_bytes (text_of n) = Ok n.
Proof. intros Hn. unfold parse_bytes; cbn. by rewrite Text.parse_print_u64. Qed.

(** Solves the tests of a flag against the known names. *)
Ltac flag_names := repeat first [rewrite bool_decide_true by done | rewrite bool_decide_false by done].

Lemma set_max_request n usage c : is_u64 n -> n < 2 ^ 32 -> set_flag (Utf8 "--max-request-bytes") (text_of n) usage c =
  Ok {| sv_max_request_bytes := n; sv_inflight_memory_bytes := sv_inflight_memory_bytes c; sv_write_buffer_bytes := sv_write_buffer_bytes c; sv_mapping_cache_bytes := sv_mapping_cache_bytes c |}.
Proof.
  intros Hn Hlt. unfold set_flag. cbn [to_str]. flag_names. rewrite parse_bytes_print by done. cbn [rbind].
  destruct (Z.leb_spec (2 ^ 32) n); [lia|done].
Qed.

Lemma set_inflight_memory n usage c : is_u64 n -> set_flag (Utf8 "--inflight-memory-bytes") (text_of n) usage c =
  Ok {| sv_max_request_bytes := sv_max_request_bytes c; sv_inflight_memory_bytes := n; sv_write_buffer_bytes := sv_write_buffer_bytes c; sv_mapping_cache_bytes := sv_mapping_cache_bytes c |}.
Proof.
  intros Hn. unfold set_flag. cbn [to_str]. flag_names. rewrite parse_bytes_print by done. cbn [rbind].
  done.
Qed.

Lemma set_write_buffer n usage c : is_u64 n -> set_flag (Utf8 "--write-buffer-bytes") (text_of n) usage c =
  Ok {| sv_max_request_bytes := sv_max_request_bytes c; sv_inflight_memory_bytes := sv_inflight_memory_bytes c; sv_write_buffer_bytes := n; sv_mapping_cache_bytes := sv_mapping_cache_bytes c |}.
Proof.
  intros Hn. unfold set_flag. cbn [to_str]. flag_names. rewrite parse_bytes_print by done. cbn [rbind].
  done.
Qed.

Lemma set_mapping_cache n usage c : is_u64 n -> set_flag (Utf8 "--mapping-cache-bytes") (text_of n) usage c =
  Ok {| sv_max_request_bytes := sv_max_request_bytes c; sv_inflight_memory_bytes := sv_inflight_memory_bytes c; sv_write_buffer_bytes := sv_write_buffer_bytes c; sv_mapping_cache_bytes := Some n |}.
Proof.
  intros Hn. unfold set_flag. cbn [to_str]. flag_names. rewrite parse_bytes_print by done. cbn [rbind].
  done.
Qed.

Lemma parse_id_print n : - 2 ^ 31 <= n < 2 ^ 31 -> parse_i32 (text_of n) = Ok n.
Proof. intros Hn. unfold parse_i32; cbn. by rewrite Text.parse_print_i32. Qed.

Lemma checked_mul_1 n : is_u64 n -> checked_mul 64 n 1 = Some n.
Proof. intros Hn. apply checked_mul_Some. unfold is_u64 in Hn. lia. Qed.

#[local] Arguments ServeConfig.validate : simpl never.

(** C37. A command that is written out, with its sizes in decimal bytes, is parsed back. *)
Theorem command_line_roundtrip program c :
  valid c -> parse_args (command_line program c) = Ok c.
Proof.
  destruct c as [path id [m i w o]|id|path b v]; cbn [valid].
  - intros (Hid & (Hm & Hi & Hw & Ho) & Hv). cbn in Hm, Hi, Hw, Ho. unfold parse_args.
    cbn [command_line tail next_arg rbind to_str bool_decide decide decide_rel app].
    flag_names. unfold parse_serve_device_id. rewrite parse_id_print by lia. cbn [rbind].
    destruct (Z.ltb_spec id (-1)); [lia|]. cbn [fail_if rbind].
    assert (Hu : is_u64 m) by (unfold is_u32, is_u64 in *; lia).
    cbn [sv_max_request_bytes sv_inflight_memory_bytes sv_write_buffer_bytes sv_mapping_cache_bytes parse_serve_config].
    rewrite (set_max_request m) by (done || apply Hm). cbn [rbind parse_serve_config].
    rewrite set_inflight_memory by done. cbn [rbind parse_serve_config].
    rewrite set_write_buffer by done. cbn [rbind parse_serve_config].
    destruct o as [o|]; cbn [parse_serve_config]; [rewrite set_mapping_cache by done; cbn [rbind parse_serve_config]|];
      cbn [sv_max_request_bytes sv_inflight_memory_bytes sv_write_buffer_bytes sv_mapping_cache_bytes ServeConfig.default];
      by rewrite Hv.
  - intros Hid. unfold parse_args. cbn [command_line tail next_arg rbind to_str].
    flag_names. unfold parse_delete_device_id.
    rewrite parse_id_print by lia. cbn [rbind]. destruct (Z.ltb_spec id 0); [lia|]. done.
  - intros [Hb Hv]. unfold parse_args. cbn [command_line tail next_arg rbind to_str].
    flag_names. cbn [parse_format_sizes]. unfold format_flag. cbn [to_str]. flag_names.
    cbn [ok_or rbind fail_if]. rewrite !parse_bytes_print by done. cbn [rbind]. by rewrite !checked_mul_1 by done.
Qed.

Lemma accepted_command_valid_witness :
  let args := [Utf8 "block-storage-ublk"; Utf8 "delete"; Utf8 "+07"] in
  parse_args args = Ok (Delete 7) /\ valid (Delete 7).
Proof.
  intros args. assert (Hp : parse_args args = Ok (Delete 7)) by (vm_compute; reflexivity).
  split; [exact Hp|exact (accepted_command_valid args (Delete 7) Hp)].
Defined.

Lemma command_line_roundtrip_witness :
  let c := Serve (Utf8 "/tmp/backing") (-1) ServeConfig.default in
  valid c /\ parse_args (command_line (Utf8 "block-storage-ublk") c) = Ok c.
Proof.
  intros c. assert (Hc : valid c).
  { split; [split; reflexivity || discriminate|]. split; [|reflexivity].
    split; [split; reflexivity || discriminate|]. split; [split; reflexivity || discriminate|].
    split; [split; reflexivity || discriminate|exact I]. }
  split; [exact Hc|exact (command_line_roundtrip (Utf8 "block-storage-ublk") c Hc)].
Defined.

(** The target that the daemon describes to the kernel. *)
Definition target_configuration `{UblkSys} (volume_blocks max_request_bytes : Z) : TargetConfiguration :=
  {| device_bytes := volume_blocks * LOGICAL_BLOCK_BYTES;
     param_types := UBLK_PARAM_TYPE_BASIC;
     attrs := UBLK_ATTR_VOLATILE_CACHE;
     logical_bs_shift := BLOCK_SHIFT;
     physical_bs_shift := BLOCK_SHIFT;
     io_opt_shift := BLOCK_SHIFT;
     io_min_shift := BLOCK_SHIFT;
     max_sectors := Z.shiftr max_request_bytes SECTOR_SHIFT;
     dev_sectors := volume_blocks * SECTORS_PER_BLOCK |}.

End Cli.
