(* ===== verification/UblkRequest.v ===== *)
(** The requests of the kernel and what the daemon does with them: the decoder, the
    handler and the combination of results of
    [src/rust/src/bin/block-storage-ublk.rs]. *)

From S2P Require Import Prelude Bytes Geometry Format Entries Checkpoint Index Sizing MappingCache Config.
From S2P Require Import Reservation WriteBuffer Device BackingIo Tail Publish Recovery MappingState Volume.
From S2P Require Import VolumeWrite VolumeSpec VolumeRefine Logging Text UblkConfig.

(** [libc] on Linux. *)
Definition EINVAL : Z := 22.
Definition EOPNOTSUPP : Z := 95.
Definition ESHUTDOWN : Z := 108.

Definition SHUTDOWN_COMPLETION : Z := - ESHUTDOWN.

(** [ublksrv_io_desc]. *)
Record IoDesc := {
  op_flags : Z;
  nr_sectors : Z;
  start_sector : Z;
}.

Inductive Request :=
  | Read (lba blocks : Z)
  | Write (lba blocks : Z) (fua : bool)
  | Flush.

Record RequestOutcome := {
  completion : Z;
  fatal : bool;
}.

(** [as i32]. *)
Definition as_i32 (z : Z) : Z := (z + 2 ^ 31) mod 2 ^ 32 - 2 ^ 31.

Module Request.

Section decode.
Context `{UblkSys}.

(** [op_flags & 0xff] and [op_flags & !0xff]. *)
Definition operation (op_flags : Z) : Z := Z.land op_flags 255.
Definition flags (op_flags : Z) : Z := Z.ldiff op_flags 255.

Definition operation_name (op_flags : Z) : string :=
  let op := operation op_flags in
  if op =? UBLK_IO_OP_READ then "read"
  else if op =? UBLK_IO_OP_WRITE then "write"
  else if op =? UBLK_IO_OP_FLUSH then "flush"
  else "unsupported".

Definition allowed_hints (op : Z) : Z :=
  if op =? UBLK_IO_OP_READ then
    Z.lor (Z.lor (Z.lor UBLK_IO_F_META UBLK_IO_F_FAILFAST_DEV) UBLK_IO_F_FAILFAST_TRANSPORT) UBLK_IO_F_FAILFAST_DRIVER
  else if op =? UBLK_IO_OP_WRITE then Z.lor UBLK_IO_F_META UBLK_IO_F_FUA
  else 0.

Definition decode_request (d : IoDesc) (dev_sectors : Z) : result Z Request :=
  let op := operation (op_flags d) in
  let flags := flags (op_flags d) in
  fail_if (negb (Z.ldiff flags (allowed_hints op) =? 0)) (- EOPNOTSUPP) ;;?
  if (op =? UBLK_IO_OP_READ) || (op =? UBLK_IO_OP_WRITE) then
    fail_if ((nr_sectors d =? 0)
             || negb (is_multiple_of (nr_sectors d) SECTORS_PER_BLOCK)
             || negb (is_multiple_of (start_sector d) SECTORS_PER_BLOCK)
             || (dev_sectors <? start_sector d)
             || (dev_sectors - start_sector d <? nr_sectors d)) (- EINVAL) ;;?
    let lba := start_sector d / SECTORS_PER_BLOCK in
    fail_if (2 ^ 32 <=? lba) (- EINVAL) ;;?
    let blocks := nr_sectors d / SECTORS_PER_BLOCK in
    fail_if (2 ^ 32 <=? blocks) (- EINVAL) ;;?
    Ok (if op =? UBLK_IO_OP_READ then Read lba blocks
        else Write lba blocks (negb (Z.land flags UBLK_IO_F_FUA =? 0)))
  else if op =? UBLK_IO_OP_FLUSH then Ok Flush
  else Err (- EOPNOTSUPP).

(** ** What the decoder accepts *)

(** The field types: [u32], [u32] and [u64]. *)
Definition typed (d : IoDesc) : Prop :=
  is_u32 (op_flags d) /\ is_u32 (nr_sectors d) /\ is_u64 (start_sector d).

(** The descriptor asks for [r], on a device of [dev_sectors]. *)
Definition asks (d : IoDesc) (dev_sectors : Z) (r : Request) : Prop :=
  Z.ldiff (flags (op_flags d)) (allowed_hints (operation (op_flags d))) = 0 /\
  match r with
  | Read lba blocks =>
      operation (op_flags d) = UBLK_IO_OP_READ /\ start_sector d = lba * 8 /\ nr_sectors d = blocks * 8 /\
      0 < blocks /\ (lba + blocks) * 8 <= dev_sectors
  | Write lba blocks fua =>
      operation (op_flags d) = UBLK_IO_OP_WRITE /\ start_sector d = lba * 8 /\ nr_sectors d = blocks * 8 /\
      0 < blocks /\ (lba + blocks) * 8 <= dev_sectors /\ fua = negb (Z.land (flags (op_flags d)) UBLK_IO_F_FUA =? 0)
  | Flush => operation (op_flags d) = UBLK_IO_OP_FLUSH
  end.

Lemma ops_differ `{!UblkSysLaws} :
  UBLK_IO_OP_READ <> UBLK_IO_OP_WRITE /\ UBLK_IO_OP_READ <> UBLK_IO_OP_FLUSH /\ UBLK_IO_OP_WRITE <> UBLK_IO_OP_FLUSH.
Proof.
  pose proof op_distinct as Hd. rewrite !NoDup_cons in Hd. destruct Hd as (H1 & H2 & _).
  rewrite !list_elem_of_In in H1, H2. cbn in H1, H2. naive_solver.
Qed.

(** The checks of an extent. *)
Lemma extent_Ok d dev_sectors :
  typed d -> dev_sectors <= 8 * 2 ^ 32 ->
  ((nr_sectors d =? 0) || negb (is_multiple_of (nr_sectors d) SECTORS_PER_BLOCK)
     || negb (is_multiple_of (start_sector d) SECTORS_PER_BLOCK) || (dev_sectors <? start_sector d)
     || (dev_sectors - start_sector d <? nr_sectors d)) = false <->
  exists lba blocks, start_sector d = lba * 8 /\ nr_sectors d = blocks * 8 /\ 0 < blocks /\
    (lba + blocks) * 8 <= dev_sectors.
Proof.
  intros (_ & Hn & Hs) Hd. change SECTORS_PER_BLOCK with 8.
  pose proof (is_multiple_of_spec (nr_sectors d) 8 ltac:(done)) as Mn.
  pose proof (is_multiple_of_spec (start_sector d) 8 ltac:(done)) as Ms. unfold is_u32, is_u64 in *.
  split.
  - intros Hg. bool_prop. repeat match goal with E : is_multiple_of _ _ = true |- _ => revert E end.
    rewrite Mn, Ms. intros [a Ha] [b Hb]. first [exists a, b; lia | exists b, a; lia].
  - intros (a & b & Ha & Hb & Hp & Hle). rewrite (proj2 Mn), (proj2 Ms) by eauto.
    destruct (Z.eqb_spec (nr_sectors d) 0), (Z.ltb_spec dev_sectors (start_sector d)),
      (Z.ltb_spec (dev_sectors - start_sector d) (nr_sectors d)); (done || lia).
Qed.

(** Two extents of a descriptor are one. *)
Lemma asks_inj `{!UblkSysLaws} d dev r r' : asks d dev r -> asks d dev r' -> r = r'.
Proof.
  destruct ops_differ as (H1 & H2 & H3). intros [_ Ha] [_ Hb].
  destruct r as [l b|l b f|], r' as [l' b'|l' b' f'|]; try (destruct_and!; congruence).
  - destruct Ha as (_ & Hl & Hn & _), Hb as (_ & Hl' & Hn' & _). f_equal; lia.
  - destruct Ha as (_ & Hl & Hn & _ & _ & Hf), Hb as (_ & Hl' & Hn' & _ & _ & Hf'). f_equal; [lia|lia|congruence].
  - done.
Qed.

(** What an accepted descriptor asks for. *)
Lemma decoded `{!UblkSysLaws} d dev :
  typed d -> dev <= 8 * 2 ^ 32 ->
  match decode_request d dev with Ok r => asks d dev r | Err _ => True | Panic => False end.
Proof.
  intros Ht Hd. pose proof (extent_Ok d dev Ht Hd) as Hx. unfold decode_request.
  set (op := operation (op_flags d)) in *. set (fl := flags (op_flags d)) in *.
  destruct (Z.eqb_spec (Z.ldiff fl (allowed_hints op)) 0) as [Hf|Hf]; [|done]. cbn [negb fail_if rbind].
  destruct (Z.eqb_spec op UBLK_IO_OP_READ) as [E1|E1], (Z.eqb_spec op UBLK_IO_OP_WRITE) as [E2|E2]; cbn [orb].
  4: { destruct (Z.eqb_spec op UBLK_IO_OP_FLUSH); [by split|done]. }
  all: destruct (_ || _ || _ || _ || _); [done|]; cbn [fail_if rbind].
  all: destruct (proj1 Hx eq_refl) as (a & b & Ha & Hb & Hp & Hle); change SECTORS_PER_BLOCK with 8.
  all: rewrite Ha, Hb, !Z.div_mul by done; destruct Ht as (_ & Htn & Hts); unfold is_u32, is_u64 in *.
  all: destruct (Z.leb_spec (2 ^ 32) a), (Z.leb_spec (2 ^ 32) b); try lia; cbn [fail_if rbind].
  all: (split; [done|]); by split_and!.
Qed.

(** C35. The decoder accepts exactly the descriptors that ask for something the device
    can do: a known operation with allowed hints, on whole blocks inside the device;
    and it tells why it refuses the others. *)
Theorem decode_request_complete `{!UblkSysLaws} d dev :
  typed d -> dev <= 8 * 2 ^ 32 ->
  match decode_request d dev with
  | Ok r => forall r', asks d dev r' <-> r' = r
  | Err code =>
      (forall r, ~ asks d dev r) /\
      (code = - EINVAL <-> Z.ldiff (flags (op_flags d)) (allowed_hints (operation (op_flags d))) = 0 /\
         (operation (op_flags d) = UBLK_IO_OP_READ \/ operation (op_flags d) = UBLK_IO_OP_WRITE)) /\
      (code = - EINVAL \/ code = - EOPNOTSUPP)
  | Panic => False
  end.
Proof.
  intros Ht Hd. pose proof (decoded d dev Ht Hd) as Hdec. pose proof (extent_Ok d dev Ht Hd) as Hx.
  destruct (decode_request d dev) as [r|code|] eqn:E; [|clear Hdec|done].
  { intros r'. split; [intros Hr'; by apply (asks_inj d dev)|by intros ->]. }
  destruct ops_differ as (H1 & H2 & H3). unfold decode_request in E.
  set (op := operation (op_flags d)) in *. set (fl := flags (op_flags d)) in *.
  destruct (Z.eqb_spec (Z.ldiff fl (allowed_hints op)) 0) as [Hf|Hf]; cbn [negb fail_if rbind] in E.
  2: { injection E as <-. split; [intros r [Hr _]; by apply Hf|]. split; [|by right]. split; [done|by intros [? _]]. }
  destruct ((op =? UBLK_IO_OP_READ) || (op =? UBLK_IO_OP_WRITE)) eqn:Hop.
  - assert (Hop' : op = UBLK_IO_OP_READ \/ op = UBLK_IO_OP_WRITE).
    { apply orb_true_iff in Hop as [E'|E']; apply Z.eqb_eq in E'; [by left|by right]. }
    assert (Hext : (forall r, ~ asks d dev r) /\ code = - EINVAL).
    { destruct (_ || _ || _ || _ || _); cbn [fail_if rbind] in E.
      - injection E as <-. split; [|done]. intros r [_ Hr].
        destruct r as [l b|l b f|]; [| |cbn in Hr; fold op in Hr; destruct Hop'; congruence];
          (assert (true = false) as E'; [|done]; apply Hx; exists l, b; tauto).
      - destruct (proj1 Hx eq_refl) as (a & b & Ha & Hb & Hp & Hle). change SECTORS_PER_BLOCK with 8 in E.
        rewrite Ha, Hb, !Z.div_mul in E by done. destruct Ht as (_ & Htn & Hts). unfold is_u32, is_u64 in *.
        destruct (Z.leb_spec (2 ^ 32) a), (Z.leb_spec (2 ^ 32) b); try lia; done. }
    destruct Hext as [Hno ->]. split; [done|]. split; [by split|by left].
  - apply orb_false_iff in Hop as [N1%Z.eqb_neq N2%Z.eqb_neq].
    destruct (Z.eqb_spec op UBLK_IO_OP_FLUSH) as [E'|E']; [done|]. injection E as <-.
    split; [|split; [|by right]].
    + intros [l b|l b f|] [_ Hr]; [apply N1|apply N2|apply E']; apply Hr.
    + split; [done|]. intros [_ [?|?]]; done.
Qed.

End decode.

(** ** Handling *)

(** [error.raw_os_error() == Some(libc::ENOSPC)]. *)
Definition engine_error (e : io_error) : Z :=
  match e with RawOs n => if n =? ENOSPC then - ENOSPC else - EIO | _ => - EIO end.

Definition complete_flush (r : res unit) (done : Z) : RequestOutcome :=
  match r with
  | Ok _ => {| completion := done; fatal := false |}
  | Err e => {| completion := engine_error e; fatal := true |}
  | Panic => {| completion := done; fatal := true |}
  end.

(** A step of the engine, next to the buffer of the request. *)
Definition on_engine {E S A} (m : ME E S A) : ME E (S * list Z) A := zoom fst (fun s st => (s, st.2)) m.

(** The loop of [transfer_blocks]; [transfer] gets a block of the buffer and returns what
    it leaves there. *)
Fixpoint transfer_loop {S} (transfer : Z -> list Z -> M S (list Z)) (needed : Z) (indices : list Z) :
    ME Empty_set (S * list Z) RequestOutcome :=
  match indices with
  | [] => mret {| completion := as_i32 needed; fatal := false |}
  | index :: indices =>
      st <- mget ;;
      let start := index * LOGICAL_BLOCK_BYTES in
      r <- mtry (on_engine (transfer index (slice start LOGICAL_BLOCK_BYTES (snd st)))) ;;
      match (r : res (list Z)) with
      | Err error =>
          let code := engine_error error in
          mret {| completion := code; fatal := negb (code =? - ENOSPC) |}
      | Ok block => mmodify (fun st => (fst st, put start block (snd st))) ;;; transfer_loop transfer needed indices
      | Panic => mlift Panic
      end
  end.

Definition transfer_blocks {S} (blocks : Z) (transfer : Z -> list Z -> M S (list Z)) :
    ME Empty_set (S * list Z) RequestOutcome :=
  let needed := blocks * LOGICAL_BLOCK_BYTES in
  st <- mget ;;
  if lenZ (snd st) <? needed then mret {| completion := - EIO; fatal := true |}
  else transfer_loop transfer needed (seqZ 0 blocks).

Section handle.
Context `{UblkSys} `{Xxh3} `{Platform} {D : Type} `{!Device D}.

Definition read_blocks (lba blocks : Z) : ME Empty_set (Volume D * list Z) RequestOutcome :=
  transfer_blocks blocks (fun index _ => Volume.read_block (lba + index)).

Definition write_blocks (lba blocks : Z) : ME Empty_set (Volume D * list Z) RequestOutcome :=
  transfer_blocks blocks (fun index block => Volume.write_block (lba + index) block ;;; mret block).

(** [complete_flush(volume.flush(), done)]. *)
Definition flush_volume (done : Z) : ME Empty_set (Volume D * list Z) RequestOutcome :=
  r <- mtry (on_engine Volume.flush) ;;
  mret (complete_flush r done).

Definition handle_request (d : IoDesc) : ME Empty_set (Volume D * list Z) RequestOutcome :=
  st <- mget ;;
  match decode_request d (Volume.volume_blocks (fst st) * SECTORS_PER_BLOCK) with
  | Err code => mret {| completion := code; fatal := false |}
  | Panic => mlift Panic
  | Ok (Read lba blocks) => read_blocks lba blocks
  | Ok (Write lba blocks fua) =>
      outcome <- write_blocks lba blocks ;;
      if fua && (0 <=? completion outcome) then flush_volume (completion outcome) else mret outcome
  | Ok Flush => flush_volume 0
  end.

End handle.

(** ** Results of a shutdown *)

Section results.
(** The description of an errno, by the system. *)
Context (strerror : Z -> string).

(** [Display] of an error. *)
Definition show_error (e : io_error) : string :=
  match e with
  | InvalidInput m | InvalidData m | WouldBlock m | PermissionDenied m | OtherError m => m
  | RawOs n => strerror n ++ " (os error " ++ Text.print n ++ ")"
  end.

Definition combine_shutdown_results (queue_result close_result : res unit) : res unit :=
  match queue_result, close_result with
  | Err q, Err c => Err (OtherError ("queue failed: " ++ show_error q ++ "; volume close failed: " ++ show_error c))
  | Err e, _ | _, Err e => Err e
  | _, _ => Ok tt
  end.

(** The steps in the order of the array, with their names. *)
Definition failures (results : list (string * res unit)) : list string :=
  omap (fun '(step, r) => match r with Err e => Some (step ++ " failed: " ++ show_error e)%string | _ => None end) results.

Definition combine_daemon_results (target readiness stop shutdown removal restore : res unit) : res unit :=
  let all := failures [("target"%string, target); ("readiness"%string, readiness); ("stop"%string, stop);
                       ("shutdown"%string, shutdown); ("device removal"%string, removal);
                       ("signal restoration"%string, restore)] in
  if bool_decide (all = []) then Ok tt else Err (OtherError (String.concat "; " all)).

End results.

#[local] Existing Instance linux_ublk.

Lemma decode_request_complete_witness :
  let d := {| op_flags := 1 + 2 ^ 13; nr_sectors := 16; start_sector := 40 |} in
  decode_request d 8000 = Ok (Write 5 2 true) /\ forall r, asks d 8000 r <-> r = Write 5 2 true.
Proof.
  intros d. assert (E : decode_request d 8000 = Ok (Write 5 2 true)) by reflexivity. split; [exact E|].
  assert (Ht : typed d) by (split; [split; reflexivity || discriminate|split; split; reflexivity || discriminate]).
  pose proof (@decode_request_complete linux_ublk linux_ublk_laws d 8000 Ht ltac:(discriminate)) as Hd.
  rewrite E in Hd. exact Hd.
Defined.

End Request.
