(* ===== verification/UblkServe.v ===== *)
(** What the requests of the kernel do to the blocks of the volume: [handle_request] of
    [src/rust/src/bin/block-storage-ublk.rs] over the contract of the engine. *)

From S2P Require Import Prelude Bytes Geometry Format Entries Checkpoint Index Sizing MappingCache Config.
From S2P Require Import Reservation WriteBuffer Device BackingIo Tail Publish Recovery MappingState Volume.
From S2P Require Import VolumeWrite VolumeSpec VolumeRefine Log Logging Text UblkConfig UblkRequest.

Module Serving.

Lemma put_slice off n b : 0 <= off -> 0 <= n -> off + n <= lenZ b -> put off (slice off n b) b = b.
Proof.
  intros Ho Hn Hl. pose proof (length_slice off n b Ho Hn Hl) as Hs.
  apply getb_ext; rewrite length_put by lia; [done|]. intros i Hi. rewrite getb_put by lia. rewrite Hs.
  destruct (Z.leb_spec off i), (Z.ltb_spec i (off + n)); cbn [andb]; try done. rewrite getb_slice by lia. f_equal. lia.
Qed.

Section serving.
Context `{UblkSys} `{Xxh3} `{Platform} {D : Type} `{!Device D} `{!DeviceLaws D}.
Implicit Types (v : Volume D) (buf : list Z).

Definition in_buffer (buf : list Z) (i : Z) : list Z := slice (i * BLOCK_SIZE) BLOCK_SIZE buf.

(** [m], with the first [n] blocks of the buffer from [lba] on. *)
Definition write_image (m : Z -> list Z) (lba n : Z) buf : Z -> list Z :=
  fun l => if decide (lba <= l < lba + n) then in_buffer buf (l - lba) else m l.

(** [buf'] is [buf] with the first [n] blocks of [m] from [lba] on. *)
Definition read_image (m : Z -> list Z) (lba n : Z) buf buf' : Prop :=
  lenZ buf' = lenZ buf /\
  (forall i, 0 <= i < n -> in_buffer buf' i = m (lba + i)) /\
  (forall i, n * BLOCK_SIZE <= i < lenZ buf -> getb buf' i = getb buf i).

(** A failed transfer: an errno, and fatal unless it says that there is no space. *)
Definition refused (o : RequestOutcome) : Prop :=
  (completion o = - ENOSPC /\ fatal o = false) \/ (completion o = - EIO /\ fatal o = true).

Lemma engine_error_refused e : refused {| completion := Request.engine_error e;
  fatal := negb (Request.engine_error e =? - ENOSPC) |}.
Proof.
  unfold refused, Request.engine_error. destruct e; try (by right). destruct (_ =? ENOSPC); [by left|by right].
Qed.

Lemma contents_ok g v lba : Spec.inv g v -> block_ok (Spec.contents g v lba).
Proof.
  intros []. unfold Spec.contents. destruct (Buffer.content (v_buffer v) lba) as [d|] eqn:E; [by eapply iv_data|].
  cbn. unfold Mapping.mapped. destruct (_ =? 0); [|apply content_ok]. split; [done|apply zeros_ok].
Qed.

Lemma stores_trans g v v1 v2 m1 m2 :
  Refine.stores g v v1 m1 -> Refine.stores g v1 v2 m2 -> Refine.stores g v v2 m2.
Proof. intros (_ & Hc1 & _) (Hr & Hc2 & Hm). split; [done|]. split; [by rewrite Hc2|done]. Qed.

Lemma stores_ext g v v' m m' :
  (forall l, Mapping.in_volume g l -> m l = m' l) -> Refine.stores g v v' m -> Refine.stores g v v' m'.
Proof. intros Hm (Hr & Hc & Hs). split; [done|]. split; [done|]. intros l Hl. by rewrite Hs, Hm. Qed.

(** [v'] holds [m], and if what was written is [harmless] its log goes on. *)
Definition leaves (g : Geometry) v v' (m : Z -> list Z) (harmless : Prop) : Prop :=
  Refine.stores g v v' m /\ c_volume_id (Volume.descriptor v') = c_volume_id (Volume.descriptor v) /\
  (harmless -> Spec.traced g v -> Spec.traced g v').

(** None of the first [n] blocks of the buffer looks like metadata of the volume. *)
Definition plain_payload v buf (n : Z) : Prop :=
  forall i, 0 <= i < n -> Log.plain (Volume.descriptor v) (in_buffer buf i).

Lemma leaves_refl g v P : Refine.ready g v -> leaves g v v (Spec.contents g v) P.
Proof. intros Hr. by split_and!. Qed.

Lemma leaves_tracks g v v' m : Refine.stores g v v' m -> Spec.tracks g v v' -> leaves g v v' m True.
Proof. intros Hs [Hid Ht]. split_and!; [done|done|]. auto. Qed.

Lemma leaves_trans g v v1 v2 m1 m2 m (P P1 P2 : Prop) :
  leaves g v v1 m1 P1 -> leaves g v1 v2 m2 P2 -> (P -> P1) -> (P -> P2) ->
  (forall l, Mapping.in_volume g l -> m2 l = m l) -> leaves g v v2 m P.
Proof.
  intros (Hs1 & Hid1 & Ht1) (Hs2 & Hid2 & Ht2) HP1 HP2 Hm. split_and!; [|congruence|auto].
  eapply stores_ext; [exact Hm|by eapply stores_trans].
Qed.

(** The log has no room for one more block, [lba]. *)
Definition full (g : Geometry) v (lba : Z) : Prop :=
  Buffer.content (v_buffer v) lba = None /\
  g_backing_blocks g <= p_at (Spec.tail v) + Refine.demand v (lbas (v_buffer v) ++ [lba]).

(** ** Reads *)

Definition reading_post g v lba blocks buf (r : result Empty_set RequestOutcome) (st : Volume D * list Z) : Prop :=
  exists o, r = Ok o /\
  ((o = {| completion := as_i32 (blocks * BLOCK_SIZE); fatal := false |} /\
    leaves g v st.1 (Spec.contents g v) True /\ read_image (Spec.contents g v) lba blocks buf st.2) \/
   (refused o /\ v_failed st.1 = true)).

Lemma read_loop g v lba buf needed n j v1 buf1 :
  leaves g v v1 (Spec.contents g v) True -> 0 <= j -> 0 <= lba -> lba + j + Z.of_nat n <= g_volume_blocks g ->
  (j + Z.of_nat n) * BLOCK_SIZE <= lenZ buf -> read_image (Spec.contents g v) lba j buf buf1 ->
  needed = (j + Z.of_nat n) * BLOCK_SIZE ->
  runs (Request.transfer_loop (fun index _ => Volume.read_block (lba + index)) needed (seqZ j (Z.of_nat n))) (v1, buf1)
    (reading_post g v lba (j + Z.of_nat n) buf).
Proof.
  change BLOCK_SIZE with 4096. revert j v1 buf1. induction n as [|n IH]; intros j v1 buf1 Hs Hj Hl Hv Hb Hi Hneed.
  { apply runs_ret. eexists. split; [done|]. left. subst needed. rewrite Z.add_0_r. by split. }
  rewrite seqZ_cons by lia. replace (Z.pred (Z.of_nat (S n))) with (Z.of_nat n) by lia.
  cbn [Request.transfer_loop]. apply runs_bind, runs_get. cbn [next fst snd].
  apply runs_bind, runs_try. unfold Request.on_engine. apply runs_zoom. cbn [fst snd].
  destruct Hi as (Hlen & Hdone & Hrest).
  eapply runs_mono; [apply (Refine.read_block_run g v1 (lba + j)); [apply Hs|lia]|].
  cbv beta. intros r v2 [Hnp Hr]. destruct (Z.ltb_spec (lba + j) (g_volume_blocks g)); [|lia].
  destruct r as [d|e|]; [|by eexists; split; [done|right; split; [apply engine_error_refused|done]]|done].
  destruct Hr as (-> & Hs2 & Ht2). cbn [next]. apply runs_bind, runs_modify. cbn [next fst snd].
  pose proof Hs as ((Hr1 & Hc1 & Hm1) & _). pose proof (contents_ok g v1 (lba + j) (Refine.rd_inv _ _ Hr1)) as [Hbl _].
  change BLOCK_SIZE with 4096 in Hbl. change LOGICAL_BLOCK_BYTES with 4096.
  replace (j + Z.of_nat (S n)) with (Z.succ j + Z.of_nat n) in * by lia.
  apply IH; try done; try lia.
  - by eapply leaves_trans; [exact Hs|by apply leaves_tracks|..].
  - assert (Hlen' : lenZ (put (j * 4096) (Spec.contents g v1 (lba + j)) buf1) = lenZ buf).
    { rewrite length_put; lia. }
    split; [done|]. split.
    + intros i Hi. unfold in_buffer. change BLOCK_SIZE with 4096. destruct (Z.eq_dec i j) as [->|].
      * rewrite slice_put_same by lia. apply Hm1. unfold Mapping.in_volume. lia.
      * rewrite slice_put_disjoint by lia. apply Hdone. lia.
    + intros i Hi. change BLOCK_SIZE with 4096 in *. rewrite getb_put by lia. rewrite Hbl.
      destruct (Z.leb_spec (j * 4096) i), (Z.ltb_spec i (j * 4096 + 4096)); try lia; cbn [andb]; apply Hrest; lia.
Qed.

Lemma read_blocks_run g v lba blocks buf :
  Refine.ready g v -> 0 <= lba -> 0 <= blocks -> lba + blocks <= g_volume_blocks g -> blocks * BLOCK_SIZE <= lenZ buf ->
  runs (Request.read_blocks lba blocks) (v, buf) (reading_post g v lba blocks buf).
Proof.
  intros Hr Hl Hn Hv Hb. unfold Request.read_blocks, Request.transfer_blocks.
  apply runs_bind, runs_get. cbn [next snd]. change LOGICAL_BLOCK_BYTES with BLOCK_SIZE.
  destruct (Z.ltb_spec (lenZ buf) (blocks * BLOCK_SIZE)); [lia|].
  pose proof (read_loop g v lba buf (blocks * BLOCK_SIZE) (Z.to_nat blocks) 0 v buf) as Hloop.
  rewrite Z2Nat.id in Hloop by lia. rewrite Z.add_0_l in Hloop. apply Hloop; try done; try lia.
  split; [done|]. split; [lia|done].
Qed.

(** ** Writes *)

Definition writing_post g v lba blocks buf (r : result Empty_set RequestOutcome) (st : Volume D * list Z) : Prop :=
  exists o, r = Ok o /\ st.2 = buf /\
  ((o = {| completion := as_i32 (blocks * BLOCK_SIZE); fatal := false |} /\
    leaves g v st.1 (write_image (Spec.contents g v) lba blocks buf) (plain_payload v buf blocks)) \/
   (refused o /\ v_failed st.1 = true) \/
   (o = {| completion := - ENOSPC; fatal := false |} /\
    exists n, 0 <= n < blocks /\ full g st.1 (lba + n) /\
      leaves g v st.1 (write_image (Spec.contents g v) lba n buf) (plain_payload v buf n))).

Lemma write_image_succ m lba j buf l :
  0 <= j -> Refine.update (write_image m lba j buf) (lba + j) (in_buffer buf j) l = write_image m lba (Z.succ j) buf l.
Proof.
  intros Hj. unfold Refine.update, write_image.
  case_decide as E1; [subst; rewrite decide_True by lia; f_equal; lia|].
  case_decide; [rewrite decide_True by lia; done|]. by rewrite decide_False by lia.
Qed.

Lemma write_image_0 m lba buf l : write_image m lba 0 buf l = m l.
Proof. unfold write_image. by rewrite decide_False by lia. Qed.

Lemma write_loop g v lba buf needed n j v1 :
  bytes_ok buf -> leaves g v v1 (write_image (Spec.contents g v) lba j buf) (plain_payload v buf j) -> 0 <= j -> 0 <= lba ->
  lba + j + Z.of_nat n <= g_volume_blocks g -> (j + Z.of_nat n) * BLOCK_SIZE <= lenZ buf ->
  needed = (j + Z.of_nat n) * BLOCK_SIZE ->
  runs (Request.transfer_loop (fun index block => Volume.write_block (lba + index) block ;;; mret block) needed
    (seqZ j (Z.of_nat n))) (v1, buf) (writing_post g v lba (j + Z.of_nat n) buf).
Proof.
  intros Hbuf. change BLOCK_SIZE with 4096. revert j v1. induction n as [|n IH]; intros j v1 Hs Hj Hl Hv Hb Hneed.
  { apply runs_ret. eexists. split; [done|]. split; [done|]. left. subst needed. by rewrite Z.add_0_r. }
  rewrite seqZ_cons by lia. replace (Z.pred (Z.of_nat (S n))) with (Z.of_nat n) by lia.
  cbn [Request.transfer_loop]. apply runs_bind, runs_get. cbn [next fst snd]. change LOGICAL_BLOCK_BYTES with 4096.
  apply runs_bind, runs_try. unfold Request.on_engine. apply runs_zoom, runs_bind. cbn [fst snd].
  pose proof (length_slice (j * 4096) 4096 buf ltac:(lia) ltac:(lia) ltac:(lia)) as Hsl.
  eapply runs_mono; [apply (Refine.write_block_run g v1 (lba + j) (slice (j * 4096) 4096 buf)); [apply Hs|lia|]|].
  { split; [exact Hsl|by apply slice_ok]. }
  cbv beta. intros r v2 Hr. unfold Refine.write_post in Hr. destruct (Z.ltb_spec (lba + j) (g_volume_blocks g)); [|lia].
  destruct r as [[]|e|]; [| |done]; cbn [next].
  - apply runs_ret. cbn [next]. apply runs_bind, runs_modify. cbn [next fst snd].
    rewrite put_slice by lia. replace (j + Z.of_nat (S n)) with (Z.succ j + Z.of_nat n) in * by lia.
    apply IH; try done; try lia. destruct Hr as [Hs2 [Hid2 Ht2]]. pose proof Hs as ((_ & _ & Hm) & Hid1 & _).
    eapply leaves_trans; [exact Hs|split; [exact Hs2|split; [exact Hid2|exact Ht2]]|..].
    + intros Hp i Hi. apply Hp. lia.
    + intros Hp. apply (Spec.plain_same (Volume.descriptor v)); [done|]. apply Hp. lia.
    + intros l Hlv. rewrite <- write_image_succ by done. unfold Refine.update. case_decide; [done|by apply Hm].
  - eexists. split; [done|]. split; [done|]. destruct Hr as [Hf|(-> & -> & Hfull)].
    + right; left. split; [apply engine_error_refused|done].
    + right; right. split; [done|]. exists j. split; [lia|]. by split.
Qed.

Lemma write_blocks_run g v lba blocks buf :
  Refine.ready g v -> bytes_ok buf -> 0 <= lba -> 0 <= blocks -> lba + blocks <= g_volume_blocks g ->
  blocks * BLOCK_SIZE <= lenZ buf ->
  runs (Request.write_blocks lba blocks) (v, buf) (writing_post g v lba blocks buf).
Proof.
  intros Hr Hbuf Hl Hn Hv Hb. unfold Request.write_blocks, Request.transfer_blocks.
  apply runs_bind, runs_get. cbn [next snd]. change LOGICAL_BLOCK_BYTES with BLOCK_SIZE.
  destruct (Z.ltb_spec (lenZ buf) (blocks * BLOCK_SIZE)); [lia|].
  pose proof (write_loop g v lba buf (blocks * BLOCK_SIZE) (Z.to_nat blocks) 0 v Hbuf) as Hloop.
  rewrite Z2Nat.id in Hloop by lia. rewrite Z.add_0_l in Hloop. apply Hloop; try done; try lia.
  split_and!; [split; [done|]; split; [done|]|done|by intros _].
  intros l Hlv. by rewrite write_image_0.
Qed.

(** ** Flushes *)

Definition flushing_post g v done buf (r : result Empty_set RequestOutcome) (st : Volume D * list Z) : Prop :=
  exists o, r = Ok o /\ st.2 = buf /\
  ((o = {| completion := done; fatal := false |} /\ leaves g v st.1 (Spec.contents g v) True /\
    Buffer.len (v_buffer st.1) = 0 /\ Io.durable (v_io st.1)) \/
   ((completion o = - ENOSPC \/ completion o = - EIO) /\ fatal o = true /\ v_failed st.1 = true)).

Lemma flush_volume_run g v done buf :
  Refine.ready g v -> runs (Request.flush_volume done) (v, buf) (flushing_post g v done buf).
Proof.
  intros Hr. unfold Request.flush_volume. apply runs_bind, runs_try. unfold Request.on_engine. apply runs_zoom. cbn [fst snd].
  eapply runs_mono; [by apply (Refine.flush_run g)|]. cbv beta. intros r v1 [Hnp Hf].
  destruct r as [[]|e|]; [| |done]; cbn [next]; apply runs_ret; eexists; (split; [done|]); (split; [done|]).
  - left. destruct Hf as (Hs & Hz & Hd & Ht). split; [done|]. by split; [apply leaves_tracks|].
  - right. split; [|by split]. cbn. unfold Request.engine_error. destruct e; try (by right). destruct (_ =? _); [by left|by right].
Qed.

(** ** The handler *)

(** What the handler may answer to [d], and what it then leaves of [v] and [buf]. *)
Definition served g v buf (d : IoDesc) (o : RequestOutcome) v' buf' : Prop :=
  let success n := {| completion := n * BLOCK_SIZE; fatal := false |} in
  let unfit := o = {| completion := - EIO; fatal := true |} /\ v' = v /\ buf' = buf in
  match Request.decode_request d (g_volume_blocks g * SECTORS_PER_BLOCK) with
  | Err code => o = {| completion := code; fatal := false |} /\ v' = v /\ buf' = buf
  | Ok (Read lba n) =>
      if lenZ buf <? n * BLOCK_SIZE then unfit
      else (o = success n /\ leaves g v v' (Spec.contents g v) True /\ read_image (Spec.contents g v) lba n buf buf')
           \/ (refused o /\ v_failed v' = true)
  | Ok (Write lba n fua) =>
      if lenZ buf <? n * BLOCK_SIZE then unfit
      else buf' = buf /\
        ((o = success n /\ leaves g v v' (write_image (Spec.contents g v) lba n buf) (plain_payload v buf n) /\
          (fua = true -> Buffer.len (v_buffer v') = 0 /\ Io.durable (v_io v')))
         \/ ((completion o = - ENOSPC \/ completion o = - EIO) /\ v_failed v' = true)
         \/ (o = {| completion := - ENOSPC; fatal := false |} /\
             exists k, 0 <= k < n /\ full g v' (lba + k) /\
               leaves g v v' (write_image (Spec.contents g v) lba k buf) (plain_payload v buf k)))
  | Ok Flush =>
      buf' = buf /\
      ((o = {| completion := 0; fatal := false |} /\ leaves g v v' (Spec.contents g v) True /\
        Buffer.len (v_buffer v') = 0 /\ Io.durable (v_io v'))
       \/ ((completion o = - ENOSPC \/ completion o = - EIO) /\ fatal o = true /\ v_failed v' = true))
  | Panic => False
  end.

Lemma as_i32_small n : 0 <= n < 2 ^ 31 -> as_i32 n = n.
Proof. intros Hn. unfold as_i32. rewrite Z.mod_small; lia. Qed.

Lemma unfit_run {S} (transfer : Z -> list Z -> M S (list Z)) blocks st Q :
  lenZ st.2 < blocks * BLOCK_SIZE -> Q (Ok {| completion := - EIO; fatal := true |}) st ->
  runs (Request.transfer_blocks blocks transfer) st Q.
Proof.
  intros Hb HQ. unfold Request.transfer_blocks. apply runs_bind, runs_get. cbn [next].
  change LOGICAL_BLOCK_BYTES with BLOCK_SIZE. destruct (Z.ltb_spec (lenZ st.2) (blocks * BLOCK_SIZE)); [by apply runs_ret|lia].
Qed.

(** A write that is followed by a flush where it must reach the medium. *)
Lemma write_request_run g v buf lba n (fua : bool) :
  Refine.ready g v -> bytes_ok buf -> lenZ buf < 2 ^ 31 -> 0 <= lba -> 0 < n -> lba + n <= g_volume_blocks g ->
  n * BLOCK_SIZE <= lenZ buf ->
  runs (outcome <- Request.write_blocks lba n ;;
        if fua && (0 <=? completion outcome) then Request.flush_volume (completion outcome) else mret outcome) (v, buf)
    (fun r st => exists o, r = Ok o /\ st.2 = buf /\
      ((o = {| completion := n * BLOCK_SIZE; fatal := false |} /\
        leaves g v st.1 (write_image (Spec.contents g v) lba n buf) (plain_payload v buf n) /\
        (fua = true -> Buffer.len (v_buffer st.1) = 0 /\ Io.durable (v_io st.1)))
       \/ ((completion o = - ENOSPC \/ completion o = - EIO) /\ v_failed st.1 = true)
       \/ (o = {| completion := - ENOSPC; fatal := false |} /\
           exists k, 0 <= k < n /\ full g st.1 (lba + k) /\
             leaves g v st.1 (write_image (Spec.contents g v) lba k buf) (plain_payload v buf k)))).
Proof.
  intros Hr Hbuf H31 Hl Hn Hv Hb. apply runs_bind.
  eapply runs_mono; [apply (write_blocks_run g v lba n buf Hr Hbuf Hl ltac:(lia) Hv Hb)|]. cbv beta.
  intros r [v1 b1] (o & -> & Hb1 & Ho). cbn [fst snd] in *. subst b1. cbn [next].
  assert (Hneg : completion o < 0 -> runs (if fua && (0 <=? completion o) then Request.flush_volume (completion o) else mret o)
      (v1, buf) (fun r st => r = Ok o /\ st = (v1, buf))).
  { intros Hlt. destruct (Z.leb_spec 0 (completion o)); [lia|]. rewrite andb_false_r. by apply runs_ret. }
  assert (Hc : n * BLOCK_SIZE <= lenZ buf) by done. change BLOCK_SIZE with 4096 in *.
  destruct Ho as [[-> Hs]|[[Hrf Hf]|(-> & k & Hk & Hs)]].
  - rewrite as_i32_small in * by lia. cbn [completion]. destruct (Z.leb_spec 0 (n * 4096)); [|lia]. rewrite andb_true_r.
    destruct fua; [|apply runs_ret; eexists; split; [done|]; split; [done|]; left; split; [done|]; by split].
    eapply runs_mono; [apply (flush_volume_run g), Hs|]. cbv beta. intros r [v2 b2] (o & -> & Hb2 & Ho). cbn [fst snd] in *.
    eexists; split; [done|]. split; [done|]. destruct Ho as [(-> & Hs2 & Hz & Hd)|(Hcode & _ & Hf)].
    + left. split; [done|]. split; [|done]. by eapply leaves_trans; [exact Hs|exact Hs2|..|apply Hs].
    + right; left. by split.
  - eapply runs_mono; [apply Hneg; destruct Hrf as [[-> _]|[-> _]]; done|]. cbv beta. intros r st [-> ->].
    eexists; split; [done|]. split; [done|]. right; left. split; [|done]. destruct Hrf as [[? _]|[? _]]; [by left|by right].
  - eapply runs_mono; [by apply Hneg|]. cbv beta. intros r st [-> ->]. eexists; split; [done|]. split; [done|].
    right; right. split; [done|]. by exists k.
Qed.

Lemma handle_request_run `{!UblkSysLaws} g v buf d r v' buf' :
  Refine.ready g v -> Request.typed d -> bytes_ok buf -> lenZ buf < 2 ^ 31 ->
  Request.handle_request d (v, buf) = (r, (v', buf')) ->
  exists o, r = Ok o /\ served g v buf d o v' buf'.
Proof.
  intros Hr Hd Hbuf H31 Hrun.
  assert (runs (Request.handle_request d) (v, buf) (fun r st => exists o, r = Ok o /\ served g v buf d o st.1 st.2)) as Hpost.
  2: { by apply (runs_elim _ _ _ _ _ Hpost) in Hrun. }
  pose proof (Refine.rd_inv _ _ Hr) as Hi. unfold Request.handle_request. apply runs_bind, runs_get. cbn [next fst].
  rewrite (Refine.volume_blocks_eq g v Hi). unfold served.
  pose proof (Publish.co_geometry _ _ _ _ _ (Spec.iv_ok _ _ Hi)) as [Hv _ _ _ _].
  assert (Hdev : g_volume_blocks g * SECTORS_PER_BLOCK <= 8 * 2 ^ 32).
  { change SECTORS_PER_BLOCK with 8. change MAX_VOLUME_BLOCKS with (2 ^ 31) in Hv. lia. }
  pose proof (Request.decoded d _ Hd Hdev) as Hdec. change SECTORS_PER_BLOCK with 8 in *.
  destruct (Request.decode_request d (g_volume_blocks g * 8)) as [q|code|]; [|by apply runs_ret; eexists|done].
  destruct Hdec as [_ Hq]. destruct q as [lba n|lba n fua|].
  - destruct (Z.ltb_spec (lenZ buf) (n * BLOCK_SIZE)); [by apply unfit_run; [|eexists]|].
    destruct Hq as (_ & Hss & _ & Hn & Hle). assert (0 <= lba) by (destruct Hd as (_ & _ & ?); unfold is_u64 in *; lia).
    eapply runs_mono; [apply (read_blocks_run g v lba n buf Hr); lia|]. cbv beta. intros r1 st (o & -> & Ho).
    eexists; split; [done|]. destruct Ho as [(-> & Hs & Him)|Ho]; [left|by right]. split; [|done].
    rewrite as_i32_small; [done|]. change BLOCK_SIZE with 4096 in *. lia.
  - destruct Hq as (_ & Hss & _ & Hn & Hle & _).
    assert (0 <= lba) by (destruct Hd as (_ & _ & ?); unfold is_u64 in *; lia).
    destruct (Z.ltb_spec (lenZ buf) (n * BLOCK_SIZE)).
    + apply runs_bind, unfit_run; [done|]. cbn [next completion]. rewrite andb_false_r. apply runs_ret. by eexists.
    + eapply runs_mono; [apply (write_request_run g v buf lba n fua Hr Hbuf H31); (done || lia)|]. cbv beta.
      intros r1 st (o & -> & Hb1 & Ho). eexists; split; [done|]. by split.
  - eapply runs_mono; [by apply (flush_volume_run g)|]. cbv beta. intros r1 st (o & -> & Hb1 & Ho).
    eexists; split; [done|]. by split.
Qed.


End serving.

#[local] Existing Instance example_platform.
#[local] Existing Instance fold_xxh3.

#[local] Existing Instance linux_ublk.


End Serving.
