(* ===== verification/RequestCounts.v ===== *)
(** The daemon's evidence of the requests it served:
    [src/rust/src/bin/ublk_support/request_counts.rs].  Counters are [u64]; only the
    number of requests is checked, and the others never exceed it, but for the sectors,
    which 2^32 requests cannot overflow. *)

From S2P Require Import Prelude Bytes UblkConfig UblkRequest Text.

Definition MAX_COMBINATIONS : Z := 64.

Record Count := {
  requests : Z;
  before_ready : Z;
  errors : Z;
  cancelled : Z;
  sectors : Z;
}.

Record Totals := {
  t_reads : Z;
  t_writes : Z;
  t_flushes : Z;
  t_other : Z;
  t_read_sectors : Z;
  t_write_sectors : Z;
}.

Record RequestCounts := {
  counts : gmap Z Count;
  complete : bool;
}.

Module Counts.
Section counts.
Context `{UblkSys}.

Definition zero : Count := {| requests := 0; before_ready := 0; errors := 0; cancelled := 0; sectors := 0 |}.

Definition no_totals : Totals :=
  {| t_reads := 0; t_writes := 0; t_flushes := 0; t_other := 0; t_read_sectors := 0; t_write_sectors := 0 |}.

Definition new : RequestCounts := {| counts := ∅; complete := true |}.

(** The additions of one turn of the loop of [totals]. *)
Definition add_count (op_flags : Z) (c : Count) (t : Totals) : Totals :=
  let completed := saturating_sub (requests c) (cancelled c) in
  let op := Request.operation op_flags in
  if op =? UBLK_IO_OP_READ then
    {| t_reads := t_reads t + completed; t_writes := t_writes t; t_flushes := t_flushes t; t_other := t_other t;
       t_read_sectors := t_read_sectors t + sectors c; t_write_sectors := t_write_sectors t |}
  else if op =? UBLK_IO_OP_WRITE then
    {| t_reads := t_reads t; t_writes := t_writes t + completed; t_flushes := t_flushes t; t_other := t_other t;
       t_read_sectors := t_read_sectors t; t_write_sectors := t_write_sectors t + sectors c |}
  else if op =? UBLK_IO_OP_FLUSH then
    {| t_reads := t_reads t; t_writes := t_writes t; t_flushes := t_flushes t + completed; t_other := t_other t;
       t_read_sectors := t_read_sectors t; t_write_sectors := t_write_sectors t |}
  else
    {| t_reads := t_reads t; t_writes := t_writes t; t_flushes := t_flushes t; t_other := t_other t + completed;
       t_read_sectors := t_read_sectors t; t_write_sectors := t_write_sectors t |}.

(** The loop over the map; its order does not matter. *)
Definition totals (r : RequestCounts) : Totals := map_fold add_count no_totals (counts r).

(** [record]; the message about the first negative completion is output. *)
Definition record (op_flags nr_sectors : Z) (ready_before : bool) (completion : Z) (cancel : bool) :
    ME Empty_set RequestCounts unit := fun r =>
  if cancel && negb (completion =? SHUTDOWN_COMPLETION) then (Panic, r)
  else if (Z.of_nat (size (counts r)) =? MAX_COMBINATIONS) && bool_decide (counts r !! op_flags = None) then
    (Ok tt, {| counts := counts r; complete := false |})
  else
    let count := default zero (counts r !! op_flags) in
    match checked_add 64 (requests count) 1 with
    | None => (Ok tt, {| counts := <[op_flags := count]> (counts r); complete := false |})
    | Some next =>
        (Ok tt, {| counts := <[op_flags :=
             {| requests := next; before_ready := before_ready count + of_bool ready_before;
                errors := errors count + of_bool ((completion <? 0) && negb cancel);
                cancelled := cancelled count + of_bool cancel;
                sectors := sectors count + if cancel then 0 else nr_sectors |}]> (counts r);
           complete := complete r |})
    end.

(** The total that [report] prints, and its result when the output does not fail. *)
Fixpoint report_total (cs : list (Z * Count)) (total : Z) : res Z :=
  match cs with
  | [] => Ok total
  | (_, c) :: cs =>
      total <-? ok_or (checked_add 64 total (requests c)) (OtherError "request evidence total overflow") ;;
      report_total cs total
  end.

Definition report (r : RequestCounts) : res Z :=
  total <-? report_total (map_to_list (counts r)) 0 ;;
  fail_if (negb (complete r)) (OtherError "request evidence capacity exceeded") ;;?
  Ok total.

(** ** The counts are those of the requests *)

(** A request as [record] gets it. *)
Record Event := {
  e_op_flags : Z;
  e_sectors : Z;
  e_before_ready : bool;
  e_completion : Z;
  e_cancelled : bool;
}.

Fixpoint record_all (es : list Event) : ME Empty_set RequestCounts unit :=
  match es with
  | [] => mret tt
  | e :: es => record (e_op_flags e) (e_sectors e) (e_before_ready e) (e_completion e) (e_cancelled e) ;;; record_all es
  end.

(** Only requests that the drain rejected are cancelled. *)
Definition event_ok (e : Event) : Prop := e_cancelled e = true -> e_completion e = SHUTDOWN_COMPLETION.

Definition operation_of (e : Event) : Z := Request.operation (e_op_flags e).

(** The requests of [es] that reached the engine and are told by [p]. *)
Definition served (p : Event -> bool) (es : list Event) : list Event := filter (fun e => p e && negb (e_cancelled e)) es.

Definition sum_sectors (es : list Event) : Z := foldr Z.add 0 (map e_sectors es).

Definition expected (es : list Event) : Totals :=
  let has op e := operation_of e =? op in
  let other e := negb (has UBLK_IO_OP_READ e) && negb (has UBLK_IO_OP_WRITE e) && negb (has UBLK_IO_OP_FLUSH e) in
  {| t_reads := lenZ (served (has UBLK_IO_OP_READ) es);
     t_writes := lenZ (served (has UBLK_IO_OP_WRITE) es);
     t_flushes := lenZ (served (has UBLK_IO_OP_FLUSH) es);
     t_other := lenZ (served other es);
     t_read_sectors := sum_sectors (served (has UBLK_IO_OP_READ) es);
     t_write_sectors := sum_sectors (served (has UBLK_IO_OP_WRITE) es) |}.

(** The distinct combinations of operation and flags. *)
Definition combinations (es : list Event) : gset Z := list_to_set (map e_op_flags es).

(** What the map holds after the requests [es]. *)
Record represents (r : RequestCounts) (es : list Event) : Prop := {
  rc_complete : complete r = true;
  rc_keys : dom (counts r) = combinations es;
  rc_count : forall op c, counts r !! op = Some c ->
    0 <= cancelled c <= requests c /\ requests c <= lenZ es;
  rc_totals : totals r = expected es;
}.

Lemma add_count_comm o1 o2 c1 c2 t : add_count o1 c1 (add_count o2 c2 t) = add_count o2 c2 (add_count o1 c1 t).
Proof.
  unfold add_count. repeat case_match; cbn; f_equal; lia.
Qed.

Lemma add_count_zero op t : add_count op zero t = t.
Proof. destruct t. unfold add_count, saturating_sub. cbn. repeat case_match; f_equal; lia. Qed.

Lemma totals_insert m op c : m !! op = None ->
  map_fold add_count no_totals (<[op := c]> m) = add_count op c (map_fold add_count no_totals m).
Proof. intros Hm. apply map_fold_insert_L; [|done]. intros. apply add_count_comm. Qed.

(** An update of one count, in terms of the rest. *)
Lemma totals_update (m : gmap Z Count) op c :
  map_fold add_count no_totals (<[op := c]> m) = add_count op c (map_fold add_count no_totals (delete op m)) /\
  map_fold add_count no_totals m =
    match m !! op with
    | Some c0 => add_count op c0 (map_fold add_count no_totals (delete op m))
    | None => map_fold add_count no_totals (delete op m)
    end.
Proof.
  split.
  - rewrite <- insert_delete_eq. apply totals_insert. apply lookup_delete_eq.
  - destruct (m !! op) as [c0|] eqn:E.
    + rewrite <- (insert_delete_id m op c0 E) at 1. apply totals_insert. apply lookup_delete_eq.
    + by rewrite delete_id.
Qed.

Lemma expected_snoc `{!UblkSysLaws} es e :
  expected (es ++ [e]) =
    if e_cancelled e then expected es
    else add_count (e_op_flags e)
      {| requests := 1; before_ready := 0; errors := 0; cancelled := 0; sectors := e_sectors e |} (expected es).
Proof.
  assert (Hs : forall p, served p (es ++ [e]) = served p es ++ if p e && negb (e_cancelled e) then [e] else []).
  { intros p. unfold served. rewrite filter_app. f_equal. rewrite filter_cons. by case_match; case_match. }
  assert (Hsum : forall a b, sum_sectors (a ++ b) = sum_sectors a + sum_sectors b).
  { intros a b. unfold sum_sectors. rewrite map_app, foldr_app. induction a as [|x a IH]; cbn; [done|]. rewrite IH. lia. }
  assert (Hlen : forall p, lenZ (served p (es ++ [e])) = lenZ (served p es) + of_bool (p e && negb (e_cancelled e))).
  { intros p. rewrite Hs, length_app. case_match; cbn; lia. }
  unfold expected. cbv zeta. rewrite !Hlen, !Hs, !Hsum. unfold add_count, operation_of. cbn.
  assert (H1 : sum_sectors [e] = e_sectors e) by (unfold sum_sectors; cbn; lia).
  change (sum_sectors []) with 0 in *.
  destruct (Request.ops_differ) as (D1 & D2 & D3).
  destruct (e_cancelled e); cbn; rewrite ?andb_false_r, ?andb_true_r; cbn;
    [change (sum_sectors []) with 0; f_equal; lia|].
  destruct (Z.eqb_spec (Request.operation (e_op_flags e)) UBLK_IO_OP_READ) as [E1|E1],
    (Z.eqb_spec (Request.operation (e_op_flags e)) UBLK_IO_OP_WRITE) as [E2|E2],
    (Z.eqb_spec (Request.operation (e_op_flags e)) UBLK_IO_OP_FLUSH) as [E3|E3]; try congruence;
    cbn; rewrite ?H1; change (sum_sectors []) with 0; f_equal; lia.
Qed.

Lemma record_represents `{!UblkSysLaws} r es e :
  represents r es -> event_ok e -> Z.of_nat (size (combinations (es ++ [e]))) <= MAX_COMBINATIONS ->
  lenZ es < 2 ^ 64 - 1 ->
  exists r', record (e_op_flags e) (e_sectors e) (e_before_ready e) (e_completion e) (e_cancelled e) r = (Ok tt, r') /\
    represents r' (es ++ [e]).
Proof.
  intros [] He Hsize Hlen. unfold record.
  assert (e_cancelled e && negb (e_completion e =? SHUTDOWN_COMPLETION) = false) as ->.
  { destruct (e_cancelled e) eqn:E; [|done]. by rewrite (He E). }
  assert (Hcomb : combinations (es ++ [e]) = {[e_op_flags e]} ∪ combinations es).
  { unfold combinations. rewrite map_app, list_to_set_app_L. cbn. set_solver. }
  assert ((Z.of_nat (size (counts r)) =? MAX_COMBINATIONS) && bool_decide (counts r !! e_op_flags e = None) = false) as ->.
  { apply andb_false_iff. destruct (counts r !! e_op_flags e) eqn:E; [by right; apply bool_decide_eq_false|left].
    apply Z.eqb_neq. rewrite Hcomb, size_union in Hsize.
    - rewrite size_singleton, <- rc_keys0, size_dom in Hsize. lia.
    - apply not_elem_of_dom in E. rewrite rc_keys0 in E. set_solver. }
  set (c := default zero (counts r !! e_op_flags e)).
  assert (Hc : 0 <= cancelled c <= requests c /\ requests c <= lenZ es).
  { unfold c. destruct (counts r !! e_op_flags e) as [c0|] eqn:E; [by apply rc_count0 in E|cbn; lia]. }
  destruct (checked_add 64 (requests c) 1) as [next|] eqn:En.
  2: { unfold checked_add in En. destruct (Z.ltb_spec (requests c + 1) (2 ^ 64)); [done|lia]. }
  apply checked_add_Some in En as [-> _]. eexists. split; [done|].
  assert (Hdelta : forall t, add_count (e_op_flags e) {| requests := requests c + 1;
      before_ready := before_ready c + of_bool (e_before_ready e);
      errors := errors c + of_bool ((e_completion e <? 0) && negb (e_cancelled e));
      cancelled := cancelled c + of_bool (e_cancelled e);
      sectors := sectors c + (if e_cancelled e then 0 else e_sectors e) |} t =
    if e_cancelled e then add_count (e_op_flags e) c t
    else add_count (e_op_flags e) {| requests := 1; before_ready := 0; errors := 0; cancelled := 0; sectors := e_sectors e |}
           (add_count (e_op_flags e) c t)).
  { intros t. unfold add_count, saturating_sub. cbn. destruct (e_cancelled e); cbn; repeat case_match; cbn; f_equal; lia. }
  constructor; cbn.
  - done.
  - by rewrite dom_insert_L, rc_keys0, Hcomb.
  - intros op c0 Hop. rewrite length_app. cbn. apply lookup_insert_Some in Hop as [[_ <-]|[_ Hop]].
    + cbn. destruct (e_cancelled e); cbn; lia.
    + apply rc_count0 in Hop. lia.
  - unfold totals in *. cbn. rewrite expected_snoc, <- rc_totals0.
    destruct (totals_update (counts r) (e_op_flags e) c) as [_ Hold].
    rewrite (proj1 (totals_update (counts r) (e_op_flags e) _)), Hdelta.
    assert (add_count (e_op_flags e) c (map_fold add_count no_totals (delete (e_op_flags e) (counts r))) =
      map_fold add_count no_totals (counts r)) as ->; [|done].
    rewrite Hold. unfold c. destruct (counts r !! e_op_flags e) as [c0|]; [done|].
    apply add_count_zero.
Qed.

Lemma record_all_represents `{!UblkSysLaws} es2 es1 r :
  represents r es1 -> Forall event_ok es2 -> Z.of_nat (size (combinations (es1 ++ es2))) <= MAX_COMBINATIONS ->
  lenZ (es1 ++ es2) < 2 ^ 64 ->
  exists r', record_all es2 r = (Ok tt, r') /\ represents r' (es1 ++ es2).
Proof.
  revert es1 r. induction es2 as [|e es2 IH]; intros es1 r Hr Hok Hsize Hlen.
  { exists r. split; [done|]. by rewrite app_nil_r. }
  inversion Hok as [|x l He Hok']; subst. rewrite (cons_middle e es1 es2), app_assoc in *.
  destruct (record_represents r es1 e Hr He) as (r1 & Hrun & Hr1).
  - etransitivity; [|exact Hsize]. apply inj_le, subseteq_size. unfold combinations. rewrite (map_app _ (es1 ++ [e])), list_to_set_app_L. set_solver.
  - rewrite !length_app in Hlen. cbn in Hlen. lia.
  - destruct (IH (es1 ++ [e]) r1 Hr1 Hok' Hsize Hlen) as (r' & Hrun' & Hr'). exists r'. split; [|done].
    cbn [record_all]. by rewrite (mbind_run _ _ _ _ _ Hrun).
Qed.

(** After any sequence of requests of at most 64 combinations of operation and flags,
    the totals are, per operation, the number of requests that were not rejected by the
    drain and the sectors that they moved; nothing is lost and [record] does not panic. *)
Theorem totals_count_requests `{!UblkSysLaws} es :
  Forall event_ok es -> Z.of_nat (size (combinations es)) <= MAX_COMBINATIONS -> lenZ es < 2 ^ 64 ->
  exists r, record_all es new = (Ok tt, r) /\ complete r = true /\ totals r = expected es.
Proof.
  intros Hok Hsize Hlen. destruct (record_all_represents es [] new) as (r & Hrun & []); [|done..|by exists r].
  constructor; cbn; done.
Qed.

End counts.

#[local] Existing Instance linux_ublk.

Lemma totals_count_requests_witness :
  let es := [{| e_op_flags := 1; e_sectors := 8; e_before_ready := true; e_completion := 4096; e_cancelled := false |};
             {| e_op_flags := 1 + 2 ^ 13; e_sectors := 16; e_before_ready := false; e_completion := 8192; e_cancelled := false |};
             {| e_op_flags := 0; e_sectors := 8; e_before_ready := false; e_completion := -108; e_cancelled := true |}] in
  exists r, record_all es new = (Ok tt, r) /\ t_writes (totals r) = 2 /\ t_write_sectors (totals r) = 24 /\ t_reads (totals r) = 0.
Proof.
  intros es. destruct (@totals_count_requests linux_ublk linux_ublk_laws es) as (r & Hrun & _ & Ht).
  - repeat (apply Forall_cons; split; [intros E; first [discriminate E | reflexivity]|]). apply Forall_nil. exact I.
  - vm_compute. discriminate.
  - reflexivity.
  - exists r. split; [exact Hrun|]. rewrite Ht. split; [|split]; reflexivity.
Defined.

End Counts.
