(* ===== verification/Drain.v ===== *)
(** The shutdown of the daemon: [DrainState], [begin_engine_work], [stop_if_idle],
    [complete_fetched_request] and [wait_for_stop] of
    [src/rust/src/bin/block-storage-ublk.rs], as two threads that share atomics.  Every
    access to an atomic is a step; the interleaving is sequentially consistent. *)

From S2P Require Import Prelude.

Definition QUEUE_RUNNING_IDLE : Z := 0.
Definition QUEUE_RUNNING_IN_FLIGHT : Z := 1.
Definition QUEUE_STOPPING : Z := 2.

(** [DrainState], and the flag of the signal handler. *)
Record DrainState := {
  queue_phase : Z;
  queue_failed : bool;
  device_ready : bool;
  target_done : bool;
  sigterm : bool;
}.

(** Where the queue thread is: [Complete accepted guarded] is about to complete a request,
    [After failed] has completed it and dropped the guard. *)
Inductive QueuePc :=
  | Waiting
  | Begin
  | CheckSignal
  | CheckFailed
  | Engine
  | Complete (accepted guarded : bool)
  | Release (failed guarded : bool)
  | After (failed : bool)
  | Exited.

(** Where the stop thread is in its loop. *)
Inductive StopPc :=
  | PollSignal
  | PollFailed
  | TryStop
  | PollReady
  | PollDone
  | Stopped
  | Returned.

Record Daemon := {
  shared : DrainState;
  queue_pc : QueuePc;
  stop_pc : StopPc;
}.

Module Drain.

Definition new : DrainState :=
  {| queue_phase := QUEUE_RUNNING_IDLE; queue_failed := false; device_ready := false; target_done := false;
     sigterm := false |}.

Definition set_phase (p : Z) (s : DrainState) : DrainState :=
  {| queue_phase := p; queue_failed := queue_failed s; device_ready := device_ready s; target_done := target_done s;
     sigterm := sigterm s |}.
Definition set_failed (s : DrainState) : DrainState :=
  {| queue_phase := queue_phase s; queue_failed := true; device_ready := device_ready s; target_done := target_done s;
     sigterm := sigterm s |}.
Definition set_ready (s : DrainState) : DrainState :=
  {| queue_phase := queue_phase s; queue_failed := queue_failed s; device_ready := true; target_done := target_done s;
     sigterm := sigterm s |}.
Definition set_done (s : DrainState) : DrainState :=
  {| queue_phase := queue_phase s; queue_failed := queue_failed s; device_ready := device_ready s; target_done := true;
     sigterm := sigterm s |}.
Definition set_sigterm (s : DrainState) : DrainState :=
  {| queue_phase := queue_phase s; queue_failed := queue_failed s; device_ready := device_ready s;
     target_done := target_done s; sigterm := true |}.

(** [queue_phase.compare_exchange(expected, wanted)]: the phase that was found. *)
Definition compare_exchange (expected wanted : Z) (s : DrainState) : Z * DrainState :=
  (queue_phase s, if queue_phase s =? expected then set_phase wanted s else s).

(** The first half of [begin_engine_work]: whether the thread now holds the guard. *)
Definition begin_engine_work (s : DrainState) : bool * DrainState :=
  let '(found, s) := compare_exchange QUEUE_RUNNING_IDLE QUEUE_RUNNING_IN_FLIGHT s in
  (found =? QUEUE_RUNNING_IDLE, s).

Definition stop_if_idle (s : DrainState) : bool * DrainState :=
  let '(found, s) := compare_exchange QUEUE_RUNNING_IDLE QUEUE_STOPPING s in
  ((found =? QUEUE_RUNNING_IDLE) || (found =? QUEUE_STOPPING), s).

(** [drop(in_flight)]. *)
Definition drop_guard (guarded : bool) (s : DrainState) : DrainState :=
  if guarded then set_phase QUEUE_RUNNING_IDLE s else s.

(** A step of the queue thread, once it has a request.  [fatal] and [io_error] are the
    outcomes of the engine and of the completion. *)
Inductive queue_step : DrainState * QueuePc -> DrainState * QueuePc -> Prop :=
  | step_begin s guarded s' :
      begin_engine_work s = (guarded, s') ->
      queue_step (s, Begin) (s', if guarded then CheckSignal else Complete false false)
  | step_signal s :
      queue_step (s, CheckSignal) (s, if sigterm s then Complete false true else CheckFailed)
  | step_failed s :
      queue_step (s, CheckFailed) (s, if queue_failed s then Complete false true else Engine)
  | step_engine s (fatal : bool) :
      queue_step (s, Engine) (if fatal then set_failed s else s, Complete true true)
  | step_complete s accepted guarded (io_error : bool) :
      queue_step (s, Complete accepted guarded) (s, Release io_error guarded)
  | step_release s (failed guarded : bool) :
      queue_step (s, Release failed guarded) (drop_guard guarded s, After failed)
  | step_after s (failed : bool) :
      queue_step (s, After failed) (if failed then set_failed s else s, Waiting).

(** A step of the loop of [wait_for_stop]. *)
Inductive stop_step : DrainState * StopPc -> DrainState * StopPc -> Prop :=
  | step_poll_signal s : stop_step (s, PollSignal) (s, if sigterm s then TryStop else PollFailed)
  | step_poll_failed s : stop_step (s, PollFailed) (s, if queue_failed s then TryStop else PollDone)
  | step_try s (idle : bool) s' :
      stop_if_idle s = (idle, s') -> stop_step (s, TryStop) (s', if idle then PollReady else PollDone)
  | step_ready s : stop_step (s, PollReady) (s, if device_ready s then Stopped else PollDone)
  | step_done s : stop_step (s, PollDone) (s, if target_done s then Returned else PollSignal)
  | step_stopped s : stop_step (s, Stopped) (s, Stopped)
  | step_returned s : stop_step (s, Returned) (s, Returned).

Inductive label := Fetch | Queue | Stop | Environment.

(** The daemon; the environment delivers requests and signals, reports the device as
    ready, ends the queue and then the target. *)
Inductive step : label -> Daemon -> Daemon -> Prop :=
  | daemon_fetch s sp : step Fetch {| shared := s; queue_pc := Waiting; stop_pc := sp |}
                                   {| shared := s; queue_pc := Begin; stop_pc := sp |}
  | daemon_queue s s' q q' sp : queue_step (s, q) (s', q') ->
      step Queue {| shared := s; queue_pc := q; stop_pc := sp |} {| shared := s'; queue_pc := q'; stop_pc := sp |}
  | daemon_stop s s' q sp sp' : stop_step (s, sp) (s', sp') ->
      step Stop {| shared := s; queue_pc := q; stop_pc := sp |} {| shared := s'; queue_pc := q; stop_pc := sp' |}
  | daemon_signal s q sp : step Environment {| shared := s; queue_pc := q; stop_pc := sp |}
                                            {| shared := set_sigterm s; queue_pc := q; stop_pc := sp |}
  | daemon_ready s q sp : step Environment {| shared := s; queue_pc := q; stop_pc := sp |}
                                           {| shared := set_ready s; queue_pc := q; stop_pc := sp |}
  | daemon_exit s sp : step Environment {| shared := s; queue_pc := Waiting; stop_pc := sp |}
                                        {| shared := s; queue_pc := Exited; stop_pc := sp |}
  | daemon_done s sp : step Environment {| shared := s; queue_pc := Exited; stop_pc := sp |}
                                        {| shared := set_done s; queue_pc := Exited; stop_pc := sp |}
  | daemon_rest d : step Environment d d.

Definition start : Daemon := {| shared := new; queue_pc := Waiting; stop_pc := PollSignal |}.

Inductive reachable : Daemon -> Prop :=
  | reach_start : reachable start
  | reach_step l d d' : reachable d -> step l d d' -> reachable d'.

(** ** Safety *)

(** The queue thread holds the guard of a request. *)
Definition holds_guard (q : QueuePc) : bool :=
  match q with
  | CheckSignal | CheckFailed | Engine => true
  | Complete _ guarded | Release _ guarded => guarded
  | Waiting | Begin | After _ | Exited => false
  end.

Record inv (d : Daemon) : Prop := {
  dr_phase : queue_phase (shared d) = QUEUE_RUNNING_IDLE \/ queue_phase (shared d) = QUEUE_RUNNING_IN_FLIGHT \/
             queue_phase (shared d) = QUEUE_STOPPING;
  dr_guard : holds_guard (queue_pc d) = true <-> queue_phase (shared d) = QUEUE_RUNNING_IN_FLIGHT;
  dr_accepted : forall g, queue_pc d = Complete true g -> g = true;
  dr_poll : stop_pc d = PollReady \/ stop_pc d = Stopped -> queue_phase (shared d) = QUEUE_STOPPING;
  dr_stopped : stop_pc d = Stopped -> device_ready (shared d) = true;
  dr_returned : stop_pc d = Returned -> target_done (shared d) = true /\ queue_pc d = Exited;
  dr_done : target_done (shared d) = true -> queue_pc d = Exited;
}.

Ltac phases := unfold QUEUE_RUNNING_IDLE, QUEUE_RUNNING_IN_FLIGHT, QUEUE_STOPPING in *.

Lemma step_inv l d d' : inv d -> step l d d' -> inv d'.
Proof.
  intros [] Hstep. destruct Hstep as [s sp|s s' q q' sp Hq|s s' q sp sp' Hs|s q sp|s q sp|s sp|s sp|d]; cbn in *;
    try (by constructor).
  - constructor; cbn; try done. intros ->. by destruct (dr_returned0 eq_refl). intros Hd. by specialize (dr_done0 Hd).
  - inversion Hq; subst; clear Hq; unfold begin_engine_work, compare_exchange, drop_guard in *; phases.
    + injection H0 as <- <-. destruct (Z.eqb_spec (queue_phase s) 0) as [E|E]; constructor; cbn in *; naive_solver lia.
    + destruct (sigterm s'); constructor; cbn in *; naive_solver.
    + destruct (queue_failed s'); constructor; cbn in *; naive_solver.
    + destruct fatal; constructor; cbn in *; naive_solver.
    + constructor; cbn in *; naive_solver.
    + destruct guarded; constructor; cbn in *; naive_solver lia.
    + destruct failed; constructor; cbn in *; naive_solver.
  - inversion Hs; subst; clear Hs; unfold stop_if_idle, compare_exchange in *; phases.
    + destruct (sigterm s'); constructor; cbn in *; naive_solver.
    + destruct (queue_failed s'); constructor; cbn in *; naive_solver.
    + injection H0 as <- <-. destruct (Z.eqb_spec (queue_phase s) 0), (Z.eqb_spec (queue_phase s) 2);
        constructor; cbn in *; naive_solver lia.
    + destruct (device_ready s') eqn:E; constructor; cbn in *; naive_solver.
    + destruct (target_done s') eqn:E; constructor; cbn in *; naive_solver.
    + by constructor.
    + by constructor.
  - constructor; cbn in *; naive_solver.
Qed.

Lemma reachable_inv d : reachable d -> inv d.
Proof.
  induction 1 as [|l d d' _ IH Hstep]; [|by eapply step_inv].
  constructor; cbn; phases; try done; [by left|by intros [?|?]].
Qed.

(** Stopping is forever. *)
Lemma stopping_stays l d d' :
  inv d -> step l d d' -> queue_phase (shared d) = QUEUE_STOPPING -> queue_phase (shared d') = QUEUE_STOPPING.
Proof.
  intros [] Hstep. destruct Hstep as [s sp|s s' q q' sp Hq|s s' q sp sp' Hs|s q sp|s q sp|s sp|s sp|d]; cbn in *; try done.
  - inversion Hq; subst; clear Hq; unfold begin_engine_work, compare_exchange, drop_guard in *; phases; try done.
    + injection H0 as <- <-. intros E. by rewrite !E.
    + by destruct fatal.
    + destruct guarded; [|done]. intros E. destruct dr_guard0 as [Hg _]. specialize (Hg eq_refl). lia.
    + by destruct failed.
  - inversion Hs; subst; clear Hs; unfold stop_if_idle, compare_exchange in *; phases; try done.
    injection H0 as <- <-. intros E. by rewrite !E.
Qed.

Inductive steps : Daemon -> Daemon -> Prop :=
  | steps_refl d : steps d d
  | steps_step l d d1 d2 : step l d d1 -> steps d1 d2 -> steps d d2.

(** C10. The device is stopped only when it is ready and no request is in the engine or
    keeps a guard, and from then on, in every interleaving, no request enters the
    engine: each is completed with [-ESHUTDOWN]. *)
Theorem stopped_device_is_drained d d' :
  reachable d -> stop_pc d = Stopped -> steps d d' ->
  device_ready (shared d) = true /\ holds_guard (queue_pc d') = false /\ queue_pc d' <> Engine /\
  forall guarded, queue_pc d' <> Complete true guarded.
Proof.
  intros Hr Hs Hsteps. pose proof (reachable_inv d Hr) as Hi. split; [by apply (dr_stopped _ Hi)|].
  assert (Hp : queue_phase (shared d) = QUEUE_STOPPING) by (apply (dr_poll _ Hi); by right). clear Hs Hr.
  assert (inv d' /\ queue_phase (shared d') = QUEUE_STOPPING) as [Hi' Hp'].
  { induction Hsteps as [|l d d1 d2 Hstep _ IH]; [done|].
    apply IH; [by eapply step_inv|by eapply stopping_stays]. }
  assert (Hg : holds_guard (queue_pc d') = false).
  { destruct (holds_guard (queue_pc d')) eqn:E; [|done]. apply (dr_guard _ Hi') in E. rewrite Hp' in E. done. }
  split; [done|]. split; [by intros E; rewrite E in Hg|].
  intros guarded E. pose proof (dr_accepted _ Hi' _ E) as ->. by rewrite E in Hg.
Qed.

(** ** Liveness *)

(** An infinite run of the daemon. *)
Definition run (tr : nat -> Daemon) (l : nat -> label) : Prop :=
  tr O = start /\ forall i, step (l i) (tr i) (tr (S i)).

(** Both threads are scheduled again and again, unless the queue thread waits. *)
Definition fair (tr : nat -> Daemon) (l : nat -> label) : Prop :=
  (forall i, exists j, (i <= j)%nat /\ l j = Stop) /\
  (forall i, exists j, (i <= j)%nat /\ (l j = Queue \/ queue_pc (tr j) = Waiting \/ queue_pc (tr j) = Exited)).

(** A measure that no step increases and that some step decreases again and again
    reaches its goal. *)
Lemma measure_reaches (f : nat -> nat) (P : nat -> Prop) T :
  (forall i, (T <= i)%nat -> P i \/ (f (S i) <= f i)%nat) ->
  (forall i, (T <= i)%nat -> exists j, (i <= j)%nat /\ (P j \/ (f (S j) < f j)%nat)) ->
  exists j, (T <= j)%nat /\ P j.
Proof.
  intros Hle Hlt. remember (f T) as n eqn:Hn. assert (f T <= n)%nat as Hb by lia. clear Hn.
  revert T Hb Hle Hlt. induction n as [n IH] using lt_wf_ind. intros T Hb Hle Hlt.
  destruct (Hlt T ltac:(lia)) as (j & Hj & [HP|Hd]); [by exists j|].
  assert (Hdown : forall k, (T <= k)%nat -> (exists i, (T <= i)%nat /\ P i) \/ (f k <= f T)%nat).
  { induction 1 as [|k Hk [?|IHk]]; [by right|by left|]. destruct (Hle k Hk) as [?|?]; [left; by exists k|right; lia]. }
  destruct (Hdown j Hj) as [(i & Hi & HP)|Hfj]; [by exists i|].
  destruct (IH (f (S j)) ltac:(lia) (S j) ltac:(lia)) as (k & Hk & HP).
  - intros i Hi. apply Hle. lia.
  - intros i Hi. apply Hlt. lia.
  - exists k. split; [lia|done].
Qed.

(** The steps that the queue thread still takes for its request. *)
Definition queue_measure (q : QueuePc) : nat :=
  match q with
  | Begin => 7 | CheckSignal => 6 | CheckFailed => 5 | Engine => 4
  | Complete _ _ => 3 | Release _ _ => 2 | After _ => 1 | Waiting | Exited => 0
  end.

Lemma queue_step_measure s q s' q' : queue_step (s, q) (s', q') -> (queue_measure q' < queue_measure q)%nat.
Proof.
  intros Hq. inversion Hq; subst; cbn; try lia.
  - destruct guarded; cbn; lia.
  - destruct (sigterm s'); cbn; lia.
  - destruct (queue_failed s'); cbn; lia.
Qed.

Lemma step_queue_measure l d d' :
  step l d d' -> l <> Fetch -> (queue_measure (queue_pc d') <= queue_measure (queue_pc d))%nat /\
    (l = Queue -> (queue_measure (queue_pc d') < queue_measure (queue_pc d))%nat).
Proof.
  intros Hstep Hl. destruct Hstep; cbn; try done; try (by split).
  apply queue_step_measure in H. split; [lia|done].
Qed.

(** The distance of the stop thread from stopping, while the signal or, without it, the
    failed queue requests a stop. *)
Definition stop_measure (signalled : bool) (p : StopPc) : nat :=
  match p with
  | PollFailed => if signalled then 5 else 3
  | PollDone => if signalled then 4 else 5
  | PollSignal => if signalled then 3 else 4
  | TryStop => 2 | PollReady => 1 | Stopped | Returned => 0
  end.

Definition stop_over (d : Daemon) : Prop := stop_pc d = Stopped \/ stop_pc d = Returned.

Lemma step_stop_measure (signalled : bool) l d d' :
  step l d d' -> (if signalled then sigterm (shared d) else queue_failed (shared d)) = true -> device_ready (shared d) = true ->
  queue_phase (shared d) = QUEUE_RUNNING_IDLE \/ queue_phase (shared d) = QUEUE_STOPPING ->
  (stop_measure signalled (stop_pc d') <= stop_measure signalled (stop_pc d))%nat /\
  (l = Stop -> stop_over d' \/ (stop_measure signalled (stop_pc d') < stop_measure signalled (stop_pc d))%nat).
Proof.
  intros Hstep Hs Hr Hp. destruct Hstep; cbn in *; try done; try (by split).
  inversion H; subst; unfold stop_if_idle, compare_exchange in *; phases; cbn in *.
  - destruct signalled; [rewrite Hs|destruct (sigterm s')]; cbn; (split; [lia|right; lia]).
  - destruct signalled; [destruct (queue_failed s')|rewrite Hs]; cbn; (split; [lia|right; lia]).
  - injection H1 as <- <-. destruct Hp as [-> | ->]; cbn; (split; [lia|right; lia]).
  - rewrite Hr. cbn. split; [lia|right; lia].
  - destruct signalled, (target_done s'); cbn; (split; [lia|right; lia]).
  - split; [done|]. left. by left.
  - split; [done|]. left. by right.
Qed.

(** What is set stays set. *)
Lemma step_sticky l d d' :
  step l d d' -> (sigterm (shared d) = true -> sigterm (shared d') = true) /\
    (queue_failed (shared d) = true -> queue_failed (shared d') = true) /\
    (device_ready (shared d) = true -> device_ready (shared d') = true).
Proof.
  intros Hstep. destruct Hstep; cbn; try done.
  - inversion H; subst; unfold begin_engine_work, compare_exchange, drop_guard in *; try done.
    + injection H1 as <- <-. by destruct (_ =? _).
    + by destruct fatal.
    + by destruct guarded.
    + by destruct failed.
  - inversion H; subst; unfold stop_if_idle, compare_exchange in *; try done. injection H1 as <- <-. by destruct (_ =? _).
Qed.

Lemma run_from (P : Daemon -> Prop) tr l i j :
  run tr l -> (forall l d d', step l d d' -> P d -> P d') -> P (tr i) -> (i <= j)%nat -> P (tr j).
Proof. intros [_ Hrun] HP Hi Hij. induction Hij as [|j Hij IH]; [done|]. by eapply HP. Qed.

Lemma run_reachable tr l i : run tr l -> reachable (tr i).
Proof. intros [H0 Hrun]. induction i as [|i IH]; [rewrite H0; constructor|by econstructor]. Qed.

(** C9. Once a stop is requested, by a signal or by a failed queue, the device is ready and
    the kernel sends no more requests, a fair run stops the device, or returns because its
    target has ended: neither the request in flight nor the polling can hold the shutdown
    up.  (Before the device is ready the loop keeps polling, as the code does.) *)
Theorem shutdown_completes tr l i n :
  run tr l -> fair tr l ->
  sigterm (shared (tr i)) = true \/ queue_failed (shared (tr i)) = true -> device_ready (shared (tr i)) = true ->
  (forall j, (n <= j)%nat -> l j <> Fetch) ->
  exists j, stop_pc (tr j) = Stopped \/ stop_pc (tr j) = Returned.
Proof.
  intros Hrun [Hstop Hqueue] Hs Hr Hn. pose proof Hrun as [_ Hst]. set (T := Nat.max i n).
  assert (exists signalled : bool, (if signalled then sigterm (shared (tr i)) else queue_failed (shared (tr i))) = true) as [signalled Hsig].
  { destruct Hs; [by exists true|by exists false]. }
  assert (Hset : forall j, (T <= j)%nat ->
    (if signalled then sigterm (shared (tr j)) else queue_failed (shared (tr j))) = true /\ device_ready (shared (tr j)) = true).
  { intros j Hj. apply (run_from (fun d => (if signalled then sigterm (shared d) else queue_failed (shared d)) = true /\
      device_ready (shared d) = true) tr l i); [done| |done|lia].
    intros l0 d d' Hstep [Ha Hb]. apply step_sticky in Hstep as (Hc & Hd & He). split; [|auto]. destruct signalled; auto. }
  assert (Hcalm : exists T', (T <= T')%nat /\ queue_measure (queue_pc (tr T')) = O).
  { apply (measure_reaches (fun k => queue_measure (queue_pc (tr k)))).
    - intros k Hk. right. apply (step_queue_measure (l k)); [done|apply Hn; lia].
    - intros k Hk. destruct (Hqueue k) as (j & Hj & Hq). exists j. split; [done|].
      destruct Hq as [Hq|[Hq|Hq]]; [right|left; by rewrite Hq..].
      destruct (step_queue_measure (l j) _ _ (Hst j) ltac:(apply Hn; lia)) as [_ Hlt]. auto. }
  destruct Hcalm as (T' & HT' & Hz).
  assert (Hq0 : forall j, (T' <= j)%nat -> queue_measure (queue_pc (tr j)) = O).
  { induction 1 as [|j Hj IH]; [done|].
    destruct (step_queue_measure (l j) _ _ (Hst j) ltac:(apply Hn; lia)) as [Hle _]. lia. }
  assert (Hphase : forall j, (T' <= j)%nat ->
    queue_phase (shared (tr j)) = QUEUE_RUNNING_IDLE \/ queue_phase (shared (tr j)) = QUEUE_STOPPING).
  { intros j Hj. specialize (Hq0 j Hj). pose proof (reachable_inv _ (run_reachable tr l j Hrun)) as Hi.
    destruct (dr_phase _ Hi) as [?|[Hf|?]]; [by left| |by right].
    apply (dr_guard _ Hi) in Hf. by destruct (queue_pc (tr j)). }
  destruct (measure_reaches (fun k => stop_measure signalled (stop_pc (tr k))) (fun k => stop_over (tr (S k))) T') as (j & _ & Hj).
  - intros k Hk. right. destruct (Hset k ltac:(lia)). by apply (step_stop_measure signalled (l k)); [|..|apply Hphase].
  - intros k Hk. destruct (Hstop k) as (j & Hj & Hl). exists j. split; [done|]. destruct (Hset j ltac:(lia)).
    apply (step_stop_measure signalled (l j)); try done. apply Hphase. lia.
  - by exists (S j).
Qed.

(** ** A shutdown *)

Definition requested : DrainState := set_ready (set_sigterm new).
Definition stopping : DrainState := set_phase QUEUE_STOPPING requested.

Definition idle_daemon (s : DrainState) (sp : StopPc) : Daemon := {| shared := s; queue_pc := Waiting; stop_pc := sp |}.

(** A signal, the readiness of the device, and the steps of the stop thread. *)
Definition shutdown_run (i : nat) : Daemon :=
  match i with
  | 0 => start
  | 1 => idle_daemon (set_sigterm new) PollSignal
  | 2 => idle_daemon requested PollSignal
  | 3 => idle_daemon requested TryStop
  | 4 => idle_daemon stopping PollReady
  | _ => idle_daemon stopping Stopped
  end%nat.

Definition shutdown_labels (i : nat) : label := match i with 0 | 1 => Environment | _ => Stop end%nat.

Lemma shutdown_run_ok : run shutdown_run shutdown_labels.
Proof.
  split; [reflexivity|]. intros i. unfold idle_daemon.
  destruct i as [|[|[|[|[|i]]]]]; cbn.
  - apply daemon_signal.
  - apply daemon_ready.
  - apply daemon_stop, (step_poll_signal requested).
  - apply daemon_stop. exact (step_try requested true stopping eq_refl).
  - apply daemon_stop, (step_ready stopping).
  - apply daemon_stop, step_stopped.
Qed.

Lemma stopped_device_is_drained_witness :
  let d' := {| shared := stopping; queue_pc := Complete false false; stop_pc := Stopped |} in
  reachable (shutdown_run 5) /\ steps (shutdown_run 5) d' /\ holds_guard (queue_pc d') = false.
Proof.
  intros d'. pose proof (run_reachable _ _ 5 shutdown_run_ok) as Hr.
  assert (Hs : steps (shutdown_run 5) d').
  { eapply steps_step; [apply daemon_fetch|]. eapply steps_step; [|apply steps_refl].
    apply daemon_queue. exact (step_begin stopping false stopping eq_refl). }
  split; [exact Hr|]. split; [exact Hs|].
  exact (proj1 (proj2 (stopped_device_is_drained (shutdown_run 5) d' Hr eq_refl Hs))).
Defined.

Lemma shutdown_completes_witness :
  exists j, stop_pc (shutdown_run j) = Stopped \/ stop_pc (shutdown_run j) = Returned.
Proof.
  refine (shutdown_completes shutdown_run shutdown_labels 2 2 shutdown_run_ok _ (or_introl eq_refl) eq_refl _).
  - split.
    + intros i. exists (S (S i)). split; [lia|reflexivity].
    + intros i. exists i. split; [lia|]. right; left. destruct i as [|[|[|[|[|i]]]]]; reflexivity.
  - intros j Hj. destruct j as [|[|j]]; [lia|lia|discriminate].
Defined.

End Drain.
