(* ===== verification/UblkQueue.v ===== *)
(** The queue thread of the daemon: the callback of [run_queue], [handle_queue_request],
    [complete_fetched_request] and [close_after_queue] of
    [src/rust/src/bin/block-storage-ublk.rs].  The thread runs alone here; its
    interleaving with the stop thread is in [Drain.v]. *)

From S2P Require Import Prelude Bytes Geometry Format Entries Checkpoint Index Sizing MappingCache Config.
From S2P Require Import Reservation WriteBuffer Device BackingIo Tail Publish Recovery MappingState Volume.
From S2P Require Import VolumeWrite VolumeSpec VolumeRefine CrashSafety Log Reopen Durability.
From S2P Require Import Logging Text UblkConfig UblkRequest UblkServe RequestCounts Drain.

Inductive EngineWork :=
  | Accepted
  | Rejected (guarded : bool).

(** What the callback owns or shares: the volume, the drain state, the first error, and
    the counts. *)
Record QueueThread (D : Type) := {
  qt_volume : Volume D;
  qt_drain : DrainState;
  qt_error : option io_error;
  qt_counts : RequestCounts;
}.
Arguments qt_volume {D}.
Arguments qt_drain {D}.
Arguments qt_error {D}.
Arguments qt_counts {D}.

Module Queue.
Section queue.
Context `{UblkSys} `{Xxh3} `{Platform} {D : Type} `{!Device D}.
(** [Display] of an errno and [Debug] of the queue's error, by the standard library. *)
Context (strerror : Z -> string) (debug : option io_error -> string).

Definition with_volume (v : Volume D) (t : QueueThread D) : QueueThread D :=
  {| qt_volume := v; qt_drain := qt_drain t; qt_error := qt_error t; qt_counts := qt_counts t |}.
Definition with_drain (s : DrainState) (t : QueueThread D) : QueueThread D :=
  {| qt_volume := qt_volume t; qt_drain := s; qt_error := qt_error t; qt_counts := qt_counts t |}.
Definition with_error (e : option io_error) (t : QueueThread D) : QueueThread D :=
  {| qt_volume := qt_volume t; qt_drain := qt_drain t; qt_error := e; qt_counts := qt_counts t |}.
Definition with_counts (c : RequestCounts) (t : QueueThread D) : QueueThread D :=
  {| qt_volume := qt_volume t; qt_drain := qt_drain t; qt_error := qt_error t; qt_counts := c |}.

(** [queue_error.get_or_insert(e)]. *)
Definition get_or_insert (e : io_error) (o : option io_error) : option io_error := Some (default e o).

Definition fatal_error (op_flags errno : Z) : io_error :=
  OtherError ("fatal request: op_flags=" ++ Text.print_hex op_flags ++ " errno=" ++ Text.print errno).

(** The whole of [begin_engine_work], when no other thread runs in between. *)
Definition begin_work (s : DrainState) : EngineWork * DrainState :=
  let '(guarded, s) := Drain.begin_engine_work s in
  (if guarded && negb (sigterm s) && negb (queue_failed s) then Accepted else Rejected guarded, s).

Definition handle_queue_request (d : IoDesc) : ME Empty_set (QueueThread D * list Z) Z :=
  outcome <- zoom (fun st => (qt_volume st.1, st.2)) (fun vb st => (with_volume vb.1 st.1, vb.2)) (Request.handle_request d) ;;
  (if fatal outcome then
     mmodify (fun st => (with_error (get_or_insert (fatal_error (op_flags d) (completion outcome)) (qt_error st.1))
                           (with_drain (Drain.set_failed (qt_drain st.1)) st.1), st.2))
   else mret tt) ;;;
  mret (completion outcome).

(** The completion of a request: the counts, and the ring, which may fail. *)
Definition complete_request (d : IoDesc) (before_ready cancelled : bool) (result : Z) :
    ME Empty_set (QueueThread D * list Z) unit :=
  zoom (fun st => qt_counts st.1) (fun c st => (with_counts c st.1, st.2))
    (Counts.record (op_flags d) (nr_sectors d) before_ready result cancelled).

(** [complete_fetched_request]. *)
Definition complete_fetched_request (work : EngineWork) (d : IoDesc) (before_ready : bool) :
    ME Empty_set (QueueThread D * list Z) Z :=
  result <- match work with Accepted => handle_queue_request d | Rejected _ => mret SHUTDOWN_COMPLETION end ;;
  complete_request d before_ready (match work with Accepted => false | Rejected _ => true end) result ;;;
  mmodify (fun st => (with_drain (Drain.drop_guard (match work with Accepted => true | Rejected g => g end) (qt_drain st.1)) st.1, st.2)) ;;;
  mret result.

(** The callback for one request; [ring] is what the ring says of its completion. *)
Definition on_request (d : IoDesc) (ring : res unit) : ME Empty_set (QueueThread D * list Z) Z :=
  st <- mget ;;
  let before_ready := negb (device_ready (qt_drain (fst st))) in
  let '(work, drain) := begin_work (qt_drain (fst st)) in
  mmodify (fun st => (with_drain drain (fst st), snd st)) ;;;
  result <- complete_fetched_request work d before_ready ;;
  match ring with
  | Err e => mmodify (fun st => (with_error (get_or_insert e (qt_error st.1))
                                   (with_drain (Drain.set_failed (qt_drain st.1)) st.1), st.2))
  | Ok _ | Panic => mret tt
  end ;;;
  mret result.

(** A request as the kernel delivers it: its descriptor, what its buffer holds and what
    the ring will say. *)
Record Delivery := {
  dl_desc : IoDesc;
  dl_buffer : list Z;
  dl_ring : res unit;
}.

(** [wait_and_handle_io]: the completions and the buffers, in order. *)
Fixpoint serve_all (ds : list Delivery) : ME Empty_set (QueueThread D) (list (Z * list Z)) :=
  match ds with
  | [] => mret []
  | d :: ds =>
      fun t => match on_request (dl_desc d) (dl_ring d) (t, dl_buffer d) with
               | (Ok result, (t, buffer)) =>
                   match serve_all ds t with
                   | (Ok rest, t) => (Ok ((result, buffer) :: rest), t)
                   | r => r
                   end
               | (Err e, (t, _)) => (Err e, t)
               | (Panic, (t, _)) => (Panic, t)
               end
  end.

(** [close_after_queue]: the result of the queue and of [Volume::close]. *)
Definition close_after_queue (queue_result : res unit) : M (Volume D) unit :=
  close_result <- mtry Volume.close ;;
  mlift (Request.combine_shutdown_results strerror queue_result close_result).

(** The end of [run_queue]; the report of the counts went to [stderr]. *)
Definition finish_queue : M (QueueThread D) unit :=
  t <- mget ;;
  let error := match Counts.report (qt_counts t) with
               | Err e => Some (OtherError ("request evidence failed: " ++ Request.show_error strerror e ++
                               "; queue error: " ++ debug (qt_error t)))
               | Ok _ | Panic => qt_error t
               end in
  zoom qt_volume with_volume (close_after_queue (match error with Some e => Err e | None => Ok tt end)).

(** [run_queue], from a volume that was opened and buffers that were registered. *)
Definition run_queue (ds : list Delivery) (v : Volume D) (drain : DrainState) : res unit * QueueThread D :=
  let t := {| qt_volume := v; qt_drain := drain; qt_error := None; qt_counts := Counts.new |} in
  match serve_all ds t with
  | (Ok _, t) => finish_queue t
  | (_, t) => (Panic, t)
  end.

End queue.

Section proofs.
Context `{UblkSys} `{Xxh3} `{Platform} {D : Type} `{!Device D} `{!DeviceLaws D}.
Implicit Types (t : QueueThread D) (v : Volume D).

(** ** A failed volume refuses, and stays *)

Lemma decode_not_Panic d dev : Request.decode_request d dev <> Panic.
Proof. unfold Request.decode_request. no_panic. Qed.

Lemma failed_transfer (transfer : Z -> list Z -> M (Volume D) (list Z)) v needed indices buf :
  (forall i b, transfer i b v = (Err (OtherError "volume failed"), v)) ->
  runs (Request.transfer_loop transfer needed indices) (v, buf) (fun r st => (exists o, r = Ok o) /\ st.1 = v).
Proof.
  intros Ht. destruct indices as [|i indices]; [apply runs_ret; split; [by eexists|done]|]. cbn [Request.transfer_loop].
  apply runs_bind, runs_get. cbn [next fst snd]. apply runs_bind, runs_try. unfold Request.on_engine. apply runs_zoom.
  unfold runs at 1. cbn [fst snd]. rewrite Ht. cbn [fst snd next]. apply runs_ret. split; [by eexists|done].
Qed.

Lemma failed_blocks (transfer : Z -> list Z -> M (Volume D) (list Z)) v blocks buf :
  (forall i b, transfer i b v = (Err (OtherError "volume failed"), v)) ->
  runs (Request.transfer_blocks blocks transfer) (v, buf) (fun r st => (exists o, r = Ok o) /\ st.1 = v).
Proof.
  intros Ht. unfold Request.transfer_blocks. apply runs_bind, runs_get. cbn [next fst snd].
  destruct (_ <? _); [apply runs_ret; split; [by eexists|done]|]. by apply failed_transfer.
Qed.

Lemma failed_flush v done buf :
  v_failed v = true ->
  runs (Request.flush_volume done) (v, buf) (fun r st => (exists o, r = Ok o) /\ st.1 = v).
Proof.
  intros Hf. unfold Request.flush_volume. apply runs_bind, runs_try. unfold Request.on_engine. apply runs_zoom.
  unfold runs at 1. cbn [fst snd]. unfold Volume.flush. rewrite Refine.failed_stops by done. cbn [fst snd next].
  apply runs_ret. split; [by eexists|done].
Qed.

Lemma handle_request_failed d v buf :
  v_failed v = true ->
  runs (Request.handle_request d) (v, buf) (fun r st => (exists o, r = Ok o) /\ st.1 = v).
Proof.
  intros Hf. unfold Request.handle_request. apply runs_bind, runs_get. cbn [next fst].
  pose proof (decode_not_Panic d (Volume.volume_blocks v * SECTORS_PER_BLOCK)) as Hnp.
  destruct (Request.decode_request d _) as [[lba n|lba n fua|]|code|]; [| | |apply runs_ret; split; [by eexists|done]|done].
  - apply failed_blocks. intros i b. by apply Refine.failed_stops.
  - apply runs_bind. eapply runs_mono; [apply failed_blocks|].
    { intros i b. unfold mbind at 1. unfold Volume.write_block. by rewrite Refine.failed_stops. }
    cbv beta. intros r [v1 b1] [[o ->] Hv]. cbn [fst] in Hv. subst v1. cbn [next].
    destruct (fua && _); [by apply failed_flush|apply runs_ret; split; [by eexists|done]].
  - by apply failed_flush.
Qed.

(** ** One request *)

(** The state of the volume of the thread: ready, or failed. *)
Definition fine (g : Geometry) v : Prop := v_failed v = true \/ Refine.ready g v.

Definition delivery_ok (d : Delivery) : Prop :=
  Request.typed (dl_desc d) /\ bytes_ok (dl_buffer d) /\ lenZ (dl_buffer d) < 2 ^ 31.

(** The delivery [d] was completed with [code] and without a fatal error, as the contract of
    the handler says, and the volume goes on. *)
Record answered (g : Geometry) v (d : Delivery) (code : Z) (buf' : list Z) v' : Prop := {
  an_served : Serving.served g v (dl_buffer d) (dl_desc d) {| completion := code; fatal := false |} v' buf';
  an_live : v_failed v' = false;
  an_ring : is_err (dl_ring d) = false;
}.

Lemma served_fine g v buf d o v' buf' :
  Refine.ready g v -> Serving.served g v buf d o v' buf' -> fine g v'.
Proof.
  intros Hr Hs. unfold Serving.served, fine in *. destruct (Request.decode_request _ _) as [[lba n|lba n fua|]|code|]; [| | | |done].
  - destruct (_ <? _); [destruct Hs as (_ & -> & _); by right|].
    destruct Hs as [(_ & ((? & _) & _) & _)|[_ ?]]; [by right|by left].
  - destruct (_ <? _); [destruct Hs as (_ & -> & _); by right|].
    destruct Hs as (_ & [(_ & ((? & _) & _) & _)|[[_ ?]|(_ & k & _ & _ & ((? & _) & _))]]); [by right|by left|by right].
  - destruct Hs as (_ & [(_ & ((? & _) & _) & _)|(_ & _ & ?)]); [by right|by left].
  - destruct Hs as (_ & -> & _). by right.
Qed.

(** The drain rejects the next request. *)
Definition rejects (s : DrainState) : Prop :=
  queue_phase s <> QUEUE_RUNNING_IDLE \/ sigterm s = true \/ queue_failed s = true.

Lemma begin_work_rejects s : rejects s -> exists guarded, (begin_work s).1 = Rejected guarded /\
  (guarded = true -> queue_phase s = QUEUE_RUNNING_IDLE).
Proof.
  unfold begin_work, Drain.begin_engine_work, Drain.compare_exchange. intros Hr.
  destruct (Z.eqb_spec (queue_phase s) QUEUE_RUNNING_IDLE) as [E|E]; cbn; [|by eexists].
  exists true. split; [|done]. destruct Hr as [?|[-> | ->]]; [done|..]; by rewrite ?andb_false_r.
Qed.

Lemma record_Ok d before cancelled code c :
  (cancelled = true -> code = SHUTDOWN_COMPLETION) ->
  exists c', Counts.record (op_flags d) (nr_sectors d) before code cancelled c = (Ok tt, c').
Proof.
  intros Hc. unfold Counts.record.
  assert (cancelled && negb (code =? SHUTDOWN_COMPLETION) = false) as ->.
  { destruct cancelled; [|done]. by rewrite (Hc eq_refl). }
  repeat case_match; by eexists.
Qed.

Lemma complete_run d before cancelled code (st : QueueThread D * list Z) Q :
  (cancelled = true -> code = SHUTDOWN_COMPLETION) ->
  (forall c, Q (Ok tt) (with_counts c st.1, st.2)) -> runs (complete_request d before cancelled code) st Q.
Proof.
  intros Hc HQ. unfold complete_request. apply runs_zoom.
  destruct (record_Ok d before cancelled code (qt_counts st.1) Hc) as [c' E]. unfold runs. rewrite E. apply HQ.
Qed.

Lemma is_Some_insert e o : is_Some (get_or_insert e o).
Proof. by eexists. Qed.

(** What the ring says only concerns the drain state and the error. *)
Lemma ring_run (ring : res unit) code (st : QueueThread D * list Z) (Q : result Empty_set Z -> QueueThread D * list Z -> Prop) :
  (forall e, ring = Err e -> Q (Ok code) (with_error (get_or_insert e (qt_error st.1))
     (with_drain (Drain.set_failed (qt_drain st.1)) st.1), st.2)) ->
  (is_err ring = false -> Q (Ok code) st) ->
  runs ((match ring with
         | Err e => mmodify (fun st => (with_error (get_or_insert e (qt_error st.1))
                                          (with_drain (Drain.set_failed (qt_drain st.1)) st.1), st.2))
         | Ok _ | Panic => mret tt
         end) ;;; mret code) st Q.
Proof.
  intros He HQ. apply runs_bind. destruct ring as [u|e|]; [apply runs_ret|apply runs_modify|apply runs_ret];
    cbn [next]; apply runs_ret; auto.
Qed.

Lemma on_request_rejected d ring t buf :
  rejects (qt_drain t) ->
  runs (on_request d ring) (t, buf) (fun r st => r = Ok SHUTDOWN_COMPLETION /\ st.2 = buf /\
    qt_volume st.1 = qt_volume t /\ rejects (qt_drain st.1)).
Proof.
  intros Hr. unfold on_request. apply runs_bind, runs_get. cbn [next fst].
  destruct (begin_work_rejects _ Hr) as (guarded & Hw & Hg).
  destruct (begin_work (qt_drain t)) as [work drain] eqn:Eb. cbn [fst] in Hw. subst work.
  apply runs_bind, runs_modify. cbn [next fst snd]. apply runs_bind. unfold complete_fetched_request.
  apply runs_bind, runs_ret. cbn [next]. apply runs_bind, complete_run; [done|]. intros c. cbn [next fst snd].
  apply runs_bind, runs_modify. cbn [next fst snd]. apply runs_ret. cbn [next].
  assert (Hstill : forall s, queue_phase s = queue_phase (Drain.drop_guard guarded drain) ->
    sigterm s = sigterm drain -> (queue_failed drain = true -> queue_failed s = true) -> rejects s).
  { intros s Hp Hs Hf. unfold rejects. rewrite Hs, Hp.
    unfold begin_work, Drain.begin_engine_work, Drain.compare_exchange in Eb. destruct Hr as [Hr|[Hr|Hr]].
    - left. destruct guarded; [by specialize (Hg eq_refl)|]. cbn.
      destruct (Z.eqb_spec (queue_phase (qt_drain t)) QUEUE_RUNNING_IDLE); [done|]. by injection Eb as <-.
    - right; left. destruct (_ =? _); injection Eb as _ <-; done.
    - right; right. apply Hf. destruct (_ =? _); injection Eb as _ <-; done. }
  apply ring_run; [intros e _|intros _]; (split; [done|]); (split; [done|]); (split; [done|]); cbn;
    apply Hstill; try done; by destruct guarded.
Qed.

Lemma serve_all_rejected ds t :
  rejects (qt_drain t) ->
  runs (serve_all ds) t (fun r t' => r = Ok (map (fun d => (SHUTDOWN_COMPLETION, dl_buffer d)) ds) /\
    qt_volume t' = qt_volume t).
Proof.
  revert t. induction ds as [|d ds IH]; intros t Hr; [by apply runs_ret|]. unfold runs. cbn [serve_all].
  pose proof (on_request_rejected (dl_desc d) (dl_ring d) t (dl_buffer d) Hr) as Hone. unfold runs in Hone.
  destruct (on_request _ _ _) as [r [t1 b]]. cbn [fst snd] in Hone. destruct Hone as (-> & -> & Hv & Hr1).
  specialize (IH t1 Hr1). unfold runs in IH. destruct (serve_all ds t1) as [rs t2]. cbn [fst snd] in IH.
  destruct IH as [-> Hv2]. cbn. split; [done|congruence].
Qed.

(** A request whose outcome is fatal, or whose completion the ring refuses. *)
Definition fatal_delivery (d : Delivery) (o : RequestOutcome) : Prop := fatal o = true \/ is_err (dl_ring d) = true.

Lemma fatal_request_run d t o vb :
  ~ rejects (qt_drain t) -> Request.handle_request (dl_desc d) (qt_volume t, dl_buffer d) = (Ok o, vb) ->
  fatal_delivery d o ->
  runs (on_request (dl_desc d) (dl_ring d)) (t, dl_buffer d) (fun r st => r = Ok (completion o) /\ st.2 = vb.2 /\
    qt_volume st.1 = vb.1 /\ queue_failed (qt_drain st.1) = true /\ is_Some (qt_error st.1)).
Proof.
  intros Hr Hh Hf. unfold on_request. apply runs_bind, runs_get. cbn [next fst].
  assert (Hw : begin_work (qt_drain t) = (Accepted, Drain.set_phase QUEUE_RUNNING_IN_FLIGHT (qt_drain t))).
  { unfold rejects in Hr. unfold begin_work, Drain.begin_engine_work, Drain.compare_exchange.
    destruct (Z.eqb_spec (queue_phase (qt_drain t)) QUEUE_RUNNING_IDLE); [|tauto]. cbn.
    destruct (sigterm (qt_drain t)); [tauto|]. destruct (queue_failed (qt_drain t)); [tauto|done]. }
  rewrite Hw. apply runs_bind, runs_modify. cbn [next fst snd]. apply runs_bind. unfold complete_fetched_request.
  apply runs_bind. unfold handle_queue_request. apply runs_bind, runs_zoom. cbn [fst snd]. unfold runs at 1.
  change (qt_volume (with_drain _ t)) with (qt_volume t). rewrite Hh. cbn [fst snd next]. apply runs_bind.
  destruct (fatal o) eqn:Ef; [apply runs_modify|apply runs_ret]; cbn [next fst snd]; apply runs_ret; cbn [next];
    (apply runs_bind, complete_run; [done|]); intros c; cbn [next fst snd];
    apply runs_bind, runs_modify; cbn [next fst snd]; apply runs_ret; cbn [next]; apply ring_run; cbn;
    first [by intros e _; split_and! | intros He; split_and!; try done].
  all: unfold fatal_delivery in Hf; rewrite Ef, He in Hf; by destruct Hf.
Qed.

(** C34. Once a request has failed fatally, or the ring has refused its completion, or a
    signal has arrived, no request reaches the volume any more: each of those that follow is
    completed with [-ESHUTDOWN], and neither its buffer nor the volume is touched. *)
Theorem failed_queue_rejects d ds t r t' :
  serve_all (d :: ds) t = (r, t') ->
  (queue_failed (qt_drain t) = true \/ sigterm (qt_drain t) = true ->
   r = Ok (map (fun d => (SHUTDOWN_COMPLETION, dl_buffer d)) (d :: ds)) /\ qt_volume t' = qt_volume t) /\
  (forall o v buf, ~ rejects (qt_drain t) ->
   Request.handle_request (dl_desc d) (qt_volume t, dl_buffer d) = (Ok o, (v, buf)) ->
   fatal o = true \/ is_err (dl_ring d) = true ->
   r = Ok ((completion o, buf) :: map (fun d => (SHUTDOWN_COMPLETION, dl_buffer d)) ds) /\ qt_volume t' = v).
Proof.
  intros Hrun. split.
  - intros Hf. apply (runs_elim _ _ _ _ _ (serve_all_rejected (d :: ds) t ltac:(unfold rejects; tauto))) in Hrun. exact Hrun.
  - intros o v buf Hr Hh Hf. cbn [serve_all] in Hrun.
    pose proof (fatal_request_run d t o (v, buf) Hr Hh Hf) as Hone. unfold runs in Hone.
    destruct (on_request _ _ _) as [r1 [t1 b1]]. cbn [fst snd] in Hone. destruct Hone as (-> & -> & <- & Hq & _).
    pose proof (serve_all_rejected ds t1 ltac:(unfold rejects; tauto)) as Hall. unfold runs in Hall.
    destruct (serve_all ds t1) as [r2 t2]. cbn [fst snd] in Hall. destruct Hall as [-> Hv]. by injection Hrun as <- <-.
Qed.

(** ** The whole queue *)

(** The requests [ds] were answered in order, with [rs]. *)
Inductive history (g : Geometry) : Volume D -> list Delivery -> list (Z * list Z) -> Volume D -> Prop :=
  | history_nil v : history g v [] [] v
  | history_cons v d code buf' v1 ds rs v2 :
      answered g v d code buf' v1 -> history g v1 ds rs v2 -> history g v (d :: ds) ((code, buf') :: rs) v2.

(** What a request leaves of the thread: a volume that is ready or failed, and an error
    that stays; without an error it was answered, and the next one will be. *)
Record handled (g : Geometry) t (d : Delivery) (code : Z) t' (buf' : list Z) : Prop := {
  hd_fine : fine g (qt_volume t');
  hd_failed : v_failed (qt_volume t) = true -> v_failed (qt_volume t') = true;
  hd_error : is_Some (qt_error t) -> is_Some (qt_error t');
  hd_answered : rejects (qt_drain t) \/ is_Some (qt_error t') \/ v_failed (qt_volume t') = true \/
    (answered g (qt_volume t) d code buf' (qt_volume t') /\ ~ rejects (qt_drain t'));
}.

Lemma accepted_run `{!UblkSysLaws} g t d drain :
  delivery_ok d -> fine g (qt_volume t) -> begin_work (qt_drain t) = (Accepted, drain) ->
  runs (code <- complete_fetched_request Accepted (dl_desc d) (negb (device_ready (qt_drain t))) ;;
        match dl_ring d with
        | Err e => mmodify (fun st => (with_error (get_or_insert e (qt_error st.1))
                                         (with_drain (Drain.set_failed (qt_drain st.1)) st.1), st.2))
        | Ok _ | Panic => mret tt
        end ;;;
        mret code) (with_drain drain t, dl_buffer d)
    (fun r st => exists code, r = Ok code /\ handled g t d code st.1 st.2).
Proof.
  intros Hd Hfine Hb. apply runs_bind. unfold complete_fetched_request. apply runs_bind. unfold handle_queue_request.
  apply runs_bind, runs_zoom. cbn [fst snd]. change (qt_volume (with_drain drain t)) with (qt_volume t).
  assert (Hone : runs (Request.handle_request (dl_desc d)) (qt_volume t, dl_buffer d) (fun r st => exists o, r = Ok o /\
    fine g st.1 /\ (v_failed (qt_volume t) = true -> v_failed st.1 = true) /\
    (v_failed st.1 = true \/ Serving.served g (qt_volume t) (dl_buffer d) (dl_desc d) o st.1 st.2))).
  { destruct Hfine as [Hf|Hr].
    - eapply runs_mono; [by apply handle_request_failed|]. cbv beta. intros r st [[o ->] Hv]. exists o.
      rewrite Hv. split_and!; [done|by left|done|by left].
    - pose proof Hd as (Ht & Hbuf & Hl). apply runs_intro. intros r [v' b'] Hrun.
      apply (Serving.handle_request_run g) in Hrun as (o & -> & Hs); [|done..]. exists o.
      split_and!; [done|by eapply served_fine| |by right].
      intros Hf. by rewrite (Spec.iv_live _ _ (Refine.rd_inv _ _ Hr)) in Hf. }
  eapply runs_mono; [exact Hone|]. cbv beta. intros r [v' b'] (o & -> & Hfine' & Hkeep & Hs). cbn [fst snd next] in *.
  assert (Hdrain : ~ rejects (Drain.drop_guard true drain)).
  { unfold rejects, begin_work, Drain.begin_engine_work, Drain.compare_exchange in *.
    destruct (Z.eqb_spec (queue_phase (qt_drain t)) QUEUE_RUNNING_IDLE); [|done]. cbn in Hb.
    destruct (sigterm (qt_drain t)) eqn:E1; [done|]. destruct (queue_failed (qt_drain t)) eqn:E2; [done|].
    injection Hb as <-. cbn. rewrite E1, E2. by intros [?|[?|?]]. }
  apply runs_bind. destruct (fatal o) eqn:Ef; [apply runs_modify|apply runs_ret]; cbn [next fst snd]; apply runs_ret; cbn [next];
    (apply runs_bind, complete_run; [done|]); intros c; cbn [next fst snd];
    apply runs_bind, runs_modify; cbn [next fst snd]; apply runs_ret; cbn [next]; apply ring_run; [intros e _|intros He|intros e _|intros He];
    exists (completion o); (split; [done|]); constructor; cbn; try done; try (by right; left; eexists).
  right; right. destruct (v_failed v') eqn:Ev; [by left|right]. destruct Hs as [?|Hs]; [done|]. split; [|done].
  constructor; try done. destruct o as [code f]. cbn in *. by rewrite <- Ef.
Qed.

Lemma on_request_run `{!UblkSysLaws} g t d :
  delivery_ok d -> fine g (qt_volume t) ->
  runs (on_request (dl_desc d) (dl_ring d)) (t, dl_buffer d)
    (fun r st => exists code, r = Ok code /\ handled g t d code st.1 st.2).
Proof.
  intros Hd Hf. unfold on_request. apply runs_bind, runs_get. cbn [next fst].
  destruct (begin_work (qt_drain t)) as [[|guarded] drain] eqn:Eb; apply runs_bind, runs_modify; cbn [next fst snd].
  { by apply accepted_run. }
  assert (Hrej : rejects (qt_drain t)).
  { unfold rejects, begin_work, Drain.begin_engine_work, Drain.compare_exchange in *.
    destruct (Z.eqb_spec (queue_phase (qt_drain t)) QUEUE_RUNNING_IDLE); [|by left]. right. cbn in Eb.
    destruct (sigterm (qt_drain t)); [by left|]. destruct (queue_failed (qt_drain t)); [by right|done]. }
  apply runs_bind. unfold complete_fetched_request. apply runs_bind, runs_ret. cbn [next].
  apply runs_bind, complete_run; [done|]. intros c. cbn [next fst snd].
  apply runs_bind, runs_modify. cbn [next fst snd]. apply runs_ret. cbn [next]. apply ring_run; [intros e _|intros _];
    exists SHUTDOWN_COMPLETION; (split; [done|]); constructor; cbn; try done; by left.
Qed.

Lemma serve_all_run `{!UblkSysLaws} g ds t :
  Forall delivery_ok ds -> fine g (qt_volume t) ->
  runs (serve_all ds) t (fun r t' => exists rs, r = Ok rs /\ fine g (qt_volume t') /\
    (v_failed (qt_volume t) = true -> v_failed (qt_volume t') = true) /\
    (is_Some (qt_error t) -> is_Some (qt_error t')) /\
    (rejects (qt_drain t) \/ is_Some (qt_error t') \/ v_failed (qt_volume t') = true \/
     history g (qt_volume t) ds rs (qt_volume t'))).
Proof.
  intros Hds. revert t. induction Hds as [|d ds Hd Hds IH]; intros t Hf.
  { apply runs_ret. eexists. split_and!; [done..|]. right; right; right. constructor. }
  unfold runs. cbn [serve_all]. pose proof (on_request_run g t d Hd Hf) as Hone. unfold runs in Hone.
  destruct (on_request _ _ _) as [r [t1 b]]. cbn [fst snd] in Hone. destruct Hone as (code & -> & []).
  specialize (IH t1 hd_fine0). unfold runs in IH. destruct (serve_all ds t1) as [r2 t2]. cbn [fst snd] in IH.
  destruct IH as (rs & -> & Hf2 & Hk2 & He2 & Hhist). cbn [fst snd]. eexists. split_and!; [done|done|auto|auto|].
  destruct hd_answered0 as [?|[?|[?|[Ha Hn]]]]; [by left|right; left; auto|right; right; left; auto|].
  destruct Hhist as [?|[?|[?|Hh]]]; [done|by right; left|by right; right; left|]. right; right; right. by econstructor.
Qed.

(** The log went on behind the requests, if no payload looks like metadata. *)
Definition harmless (g : Geometry) v (d : Delivery) : Prop :=
  match Request.decode_request (dl_desc d) (g_volume_blocks g * SECTORS_PER_BLOCK) with
  | Ok (Write _ n _) => Serving.plain_payload v (dl_buffer d) n
  | _ => True
  end.

Lemma harmless_same g v v' d :
  c_volume_id (Volume.descriptor v') = c_volume_id (Volume.descriptor v) -> harmless g v d -> harmless g v' d.
Proof.
  intros Hid. unfold harmless. destruct (Request.decode_request _ _) as [[]| |]; try done.
  intros Hp i Hi. apply (Spec.plain_same (Volume.descriptor v)); [done|]. by apply Hp.
Qed.

Lemma answered_traced g v d code buf' v' :
  answered g v d code buf' v' -> harmless g v d ->
  c_volume_id (Volume.descriptor v') = c_volume_id (Volume.descriptor v) /\ (Spec.traced g v -> Spec.traced g v').
Proof.
  intros [Hs Hl _] Hh. unfold Serving.served, harmless in *.
  assert (Hno : v_failed v' = true -> False) by (intros Hf; congruence).
  destruct (Request.decode_request _ _) as [[lba n|lba n fua|]|e|]; [| | | |done].
  - destruct (_ <? _); [by destruct Hs as (? & _)|]. destruct Hs as [(_ & (_ & Hid & Ht) & _)|[_ ?]]; [|done]. by split; [|apply Ht].
  - destruct (_ <? _); [by destruct Hs as (? & _)|].
    destruct Hs as (_ & [(_ & (_ & Hid & Ht) & _)|[[_ ?]|(_ & k & Hk & _ & (_ & Hid & Ht))]]); [|done|].
    + split; [done|by apply Ht].
    + split; [done|]. apply Ht. intros i Hi. apply Hh. lia.
  - destruct Hs as (_ & [(_ & (_ & Hid & Ht) & _)|(_ & ? & _)]); [|done]. by split; [|apply Ht].
  - destruct Hs as (_ & -> & _). by split.
Qed.

Lemma history_traced g v ds rs v' :
  history g v ds rs v' -> Forall (harmless g v) ds -> Spec.traced g v -> Spec.traced g v'.
Proof.
  induction 1 as [|v d code buf' v1 ds rs v2 Ha _ IH]; intros Hall Ht; [done|].
  apply Forall_cons in Hall as [Hd Hall]. destruct (answered_traced _ _ _ _ _ _ Ha Hd) as [Hid Ht1].
  apply IH; [|by apply Ht1]. eapply Forall_impl; [exact Hall|]. intros d'. by apply harmless_same.
Qed.

Section result.
Context (strerror : Z -> string) (debug : option io_error -> string).

Lemma finish_queue_run g t :
  fine g (qt_volume t) ->
  runs (finish_queue strerror debug) t (fun r t' => r <> Panic /\ (r = Ok tt ->
    qt_error t = None /\ Refine.ready g (qt_volume t) /\ Refine.close_post g (qt_volume t) (Ok tt) (qt_volume t'))).
Proof.
  intros Hh. unfold finish_queue. apply runs_bind, runs_get. cbn [next]. apply runs_zoom. unfold close_after_queue.
  apply runs_bind, runs_try. destruct Hh as [Hf|Hr].
  - unfold runs at 1, Volume.close. rewrite Refine.failed_stops by done. cbn [fst snd next]. apply runs_lift.
    destruct (match Counts.report _ with Err _ => _ | _ => _ end); cbn; by split.
  - eapply runs_mono; [by apply (Refine.close_run g)|]. cbv beta. intros r v' Hc. pose proof Hc as [Hnp _].
    destruct r as [[]|e|]; [| |done]; cbn [next]; apply runs_lift.
    + destruct (Counts.report (qt_counts t)) as [x|e'|] eqn:Er; [| by split|];
        (destruct (qt_error t); cbn; (split; [done|])); try done; intros _; (split; [done|]); by split.
    + destruct (match Counts.report _ with Err _ => _ | _ => _ end); cbn; by split.
Qed.


End result.
End proofs.

#[local] Existing Instance linux_ublk.
#[local] Existing Instance example_platform.
#[local] Existing Instance fold_xxh3.

(** A write of a block that must reach the medium, a read of it and a flush. *)
Definition example_deliveries : list Delivery :=
  [{| dl_desc := {| op_flags := 1 + 2 ^ 13; nr_sectors := 8; start_sector := 40 |}; dl_buffer := zero_block; dl_ring := Ok tt |};
   {| dl_desc := {| op_flags := 0; nr_sectors := 8; start_sector := 40 |}; dl_buffer := zero_block; dl_ring := Ok tt |};
   {| dl_desc := {| op_flags := 2; nr_sectors := 0; start_sector := 0 |}; dl_buffer := zero_block; dl_ring := Ok tt |}].

Lemma example_deliveries_ok : Forall delivery_ok example_deliveries.
Proof.
  assert (Hz : bytes_ok zero_block /\ lenZ zero_block < 2 ^ 31) by (split; [apply zeros_ok|reflexivity]).
  repeat (apply Forall_cons; split; [split; [|exact Hz];
    split; [split; reflexivity || discriminate|split; split; reflexivity || discriminate]|]).
  apply Forall_nil. exact I.
Qed.

Lemma example_deliveries_harmless (v : Volume MemDevice) :
  Forall (harmless Durability.new_geometry v) example_deliveries.
Proof.
  assert (Hn : Request.decode_request {| op_flags := 1 + 2 ^ 13; nr_sectors := 8; start_sector := 40 |}
    (g_volume_blocks Durability.new_geometry * SECTORS_PER_BLOCK) = Ok (Write 5 1 true)) by (vm_compute; reflexivity).
  assert (Hz : Serving.in_buffer zero_block 0 = zero_block) by (vm_compute; reflexivity).
  apply Forall_cons; split; [|apply Forall_cons; split; [vm_compute; exact I|
    apply Forall_cons; split; [vm_compute; exact I|apply Forall_nil; exact I]]].
  unfold harmless. cbn [dl_desc dl_buffer]. rewrite Hn. intros i Hi. assert (i = 0) as -> by lia. rewrite Hz.
  apply Reopen.zero_plain.
Qed.


(** A read whose buffer is too short fails fatally, and what follows is rejected. *)
Definition short_delivery : Delivery :=
  {| dl_desc := {| op_flags := 0; nr_sectors := 8; start_sector := 40 |}; dl_buffer := [1]; dl_ring := Ok tt |}.

Lemma failed_queue_rejects_witness :
  let t := {| qt_volume := fresh_volume; qt_drain := Drain.new; qt_error := None; qt_counts := Counts.new |} in
  exists r t', serve_all (short_delivery :: example_deliveries) t = (r, t') /\
  r = Ok ((- EIO, [1]) :: map (fun d => (SHUTDOWN_COMPLETION, dl_buffer d)) example_deliveries) /\ qt_volume t' = fresh_volume.
Proof.
  intros t. destruct (serve_all (short_delivery :: example_deliveries) t) as [r t'] eqn:E. exists r, t'. split; [exact eq_refl|].
  assert (Hn : ~ rejects (qt_drain t)) by (intros [Hp|[Hp|Hp]]; [exact (Hp eq_refl)|discriminate Hp|discriminate Hp]).
  exact (proj2 (failed_queue_rejects short_delivery example_deliveries t r t' E) {| completion := - EIO; fatal := true |}
    fresh_volume [1] Hn eq_refl (or_introl eq_refl)).
Defined.

End Queue.
