(* ===== verification/Payload.v ===== *)
(** The payloads of the block checker: [src/tools/blockcheck/src/rng.rs] and
    [src/tools/blockcheck/src/payload.rs].  A [Block] is a list of 4096 bytes. *)

From S2P Require Import Prelude Bytes.

Definition GOLDEN_GAMMA : Z := 11400714819323198485.

(** The finalizer of SplitMix64. *)
Definition mix64 (value : Z) : Z :=
  let mixed := wrapping_mul 64 (Z.lxor value (Z.shiftr value 30)) 13787848793156543929 in
  let mixed := wrapping_mul 64 (Z.lxor mixed (Z.shiftr mixed 27)) 10723151780598845931 in
  Z.lxor mixed (Z.shiftr mixed 31).

(** [SplitMix64] is its state. *)
Definition next_u64 (state : Z) : Z * Z :=
  let state := wrapping_add 64 state GOLDEN_GAMMA in
  (mix64 state, state).

Definition below (bound state : Z) : Z * Z :=
  let '(value, state) := next_u64 state in
  (value mod bound, state).

Inductive Content :=
  | Zero
  | Version (version : Z)
  | Invalid.

#[global] Instance content_eq_dec : EqDecision Content.
Proof. solve_decision. Defined.

(** The invariant of [NonZeroU32]. *)
Definition is_version (v : Z) : Prop := 0 < v < 2 ^ 32.

Module Payload.

(** The words after the first one. *)
Definition WORDS : nat := 511.

Definition mask (seed lba : Z) : Z := mix64 (Z.lxor seed (mix64 lba)).

(** [!x] on [u64] is [u64::MAX - x]. *)
Definition stream_seed (seed lba version : Z) : Z :=
  mix64 (Z.lxor (mask seed lba) (mix64 (u64_max - version))).

(** [for word in rest { *word = stream.next_u64().to_le_bytes() }]. *)
Fixpoint stream_bytes (n : nat) (state : Z) : list Z :=
  match n with
  | O => []
  | S n => let '(word, state) := next_u64 state in le_bytes 8 word ++ stream_bytes n state
  end.

Definition fill (seed lba version : Z) : list Z :=
  le_bytes 8 (Z.lxor version (mask seed lba)) ++ stream_bytes WORDS (stream_seed seed lba version).

(** [rest.iter().all(..)]. *)
Fixpoint matches (n : nat) (rest : list Z) (state : Z) : bool :=
  match n with
  | O => true
  | S n =>
      let '(word, state) := next_u64 state in
      bool_decide (take 8 rest = le_bytes 8 word) && matches n (drop 8 rest) state
  end.

Definition decode (seed : Z) (block : list Z) (lba : Z) : Content :=
  if all_zero block then Zero
  else
    let unmasked := Z.lxor (le_value (take 8 block)) (mask seed lba) in
    if (2 ^ 32 <=? unmasked) || (unmasked =? 0) then Invalid
    else if matches WORDS (drop 8 block) (stream_seed seed lba unmasked) then Version unmasked
    else Invalid.

(** ** The mix is a bijection *)

Lemma shiftr_above x n : is_u64 x -> 64 <= n -> Z.shiftr x n = 0.
Proof.
  intros [Hx Hlt] Hn. rewrite Z.shiftr_div_pow2 by lia. apply Z.div_small. split; [done|].
  eapply Z.lt_le_trans; [exact Hlt|]. apply Z.pow_le_mono_r; lia.
Qed.

Lemma lxor_u64 x y : is_u64 x -> is_u64 y -> is_u64 (Z.lxor x y).
Proof.
  intros [Hx Hx'] [Hy Hy']. split; [by apply Z.lxor_nonneg|].
  destruct (Z.eq_dec (Z.lxor x y) 0) as [->|Hne]; [lia|].
  assert (0 <= Z.lxor x y) by (by apply Z.lxor_nonneg).
  apply Z.log2_lt_pow2; [lia|]. pose proof (Z.log2_lxor x y Hx Hy).
  assert (Hlog : forall z, 0 <= z < 2 ^ 64 -> Z.log2 z < 64).
  { intros z Hz. destruct (Z.eq_dec z 0) as [->|]; [done|]. apply Z.log2_lt_pow2; lia. }
  pose proof (Hlog x ltac:(done)). pose proof (Hlog y ltac:(done)). lia.
Qed.

Lemma shiftr_u64 x n : is_u64 x -> 0 <= n -> is_u64 (Z.shiftr x n).
Proof.
  intros [Hx Hlt] Hn. rewrite Z.shiftr_div_pow2 by done. split; [apply Z.div_pos; lia|].
  apply Z.div_lt_upper_bound; [lia|]. nia.
Qed.

(** The inverse of [x ^ (x >> k)] on 64 bits, for [k] at least 22. *)
Definition unshift (k y : Z) : Z := Z.lxor (Z.lxor y (Z.shiftr y k)) (Z.shiftr y (2 * k)).

Lemma xor_shift_inverse k x : 22 <= k -> is_u64 x ->
  unshift k (Z.lxor x (Z.shiftr x k)) = x /\ Z.lxor (unshift k x) (Z.shiftr (unshift k x) k) = x.
Proof.
  intros Hk Hx. pose proof (shiftr_above x (3 * k) Hx ltac:(lia)) as H3. unfold unshift.
  rewrite !Z.shiftr_lxor, !Z.shiftr_shiftr by lia.
  replace (k + k) with (2 * k) by lia. replace (k + 2 * k) with (3 * k) by lia. replace (2 * k + k) with (3 * k) by lia.
  rewrite H3, !Z.lxor_0_r.
  set (a := Z.shiftr x k). set (b := Z.shiftr x (2 * k)). split.
  - rewrite (Z.lxor_assoc x a), <- (Z.lxor_assoc a a), Z.lxor_nilpotent, Z.lxor_0_l.
    by rewrite Z.lxor_assoc, Z.lxor_nilpotent, Z.lxor_0_r.
  - rewrite (Z.lxor_comm a b), (Z.lxor_assoc (Z.lxor x a)), <- (Z.lxor_assoc b b), Z.lxor_nilpotent, Z.lxor_0_l.
    by rewrite Z.lxor_assoc, Z.lxor_nilpotent, Z.lxor_0_r.
Qed.

Lemma mul_inverse c c' x : (c * c') mod 2 ^ 64 = 1 -> is_u64 x -> wrapping_mul 64 (wrapping_mul 64 x c) c' = x.
Proof.
  intros Hc Hx. unfold wrapping_mul. rewrite Z.mul_mod_idemp_l, <- Z.mul_assoc, <- Z.mul_mod_idemp_r, Hc, Z.mul_1_r by done.
  by apply Z.mod_small.
Qed.

Definition unmix64 (value : Z) : Z :=
  let mixed := wrapping_mul 64 (unshift 31 value) 3573116690164977347 in
  let mixed := wrapping_mul 64 (unshift 27 mixed) 10871156337175269513 in
  unshift 30 mixed.

Lemma wrapping_mul_u64 a b : is_u64 (wrapping_mul 64 a b).
Proof. apply Z.mod_pos_bound. lia. Qed.

Lemma xor_shift_u64 k x : 0 <= k -> is_u64 x -> is_u64 (Z.lxor x (Z.shiftr x k)).
Proof. intros. apply lxor_u64; [done|by apply shiftr_u64]. Qed.

Lemma unshift_u64 k x : 0 <= k -> is_u64 x -> is_u64 (unshift k x).
Proof. intros. unfold unshift. apply lxor_u64; [by apply xor_shift_u64|apply shiftr_u64; [done|lia]]. Qed.

Lemma mix64_u64 x : is_u64 x -> is_u64 (mix64 x).
Proof. intros. unfold mix64. apply xor_shift_u64; [lia|apply wrapping_mul_u64]. Qed.

Lemma mix_inverse x : is_u64 x -> unmix64 (mix64 x) = x /\ mix64 (unmix64 x) = x.
Proof.
  intros Hx. unfold unmix64, mix64. cbv zeta. split.
  - rewrite (proj1 (xor_shift_inverse 31 _ ltac:(lia) (wrapping_mul_u64 _ _))).
    rewrite mul_inverse by (reflexivity || (apply xor_shift_u64; [lia|apply wrapping_mul_u64])).
    rewrite (proj1 (xor_shift_inverse 27 _ ltac:(lia) (wrapping_mul_u64 _ _))).
    rewrite mul_inverse by (reflexivity || (apply xor_shift_u64; [lia|done])).
    by apply xor_shift_inverse.
  - rewrite (proj2 (xor_shift_inverse 30 _ ltac:(lia) (wrapping_mul_u64 _ _))).
    rewrite mul_inverse by (reflexivity || (apply unshift_u64; [lia|apply wrapping_mul_u64])).
    rewrite (proj2 (xor_shift_inverse 27 _ ltac:(lia) (wrapping_mul_u64 _ _))).
    rewrite mul_inverse by (reflexivity || (apply unshift_u64; [lia|done])).
    by apply xor_shift_inverse.
Qed.

Lemma mix64_inj x y : is_u64 x -> is_u64 y -> mix64 x = mix64 y -> x = y.
Proof. intros Hx Hy E. rewrite <- (proj1 (mix_inverse x Hx)), E. by apply mix_inverse. Qed.

(** The mix of the random streams is a bijection of 64-bit words: no two words are
    mixed alike, and every word is the mix of one. *)
Theorem mix64_bijective x : is_u64 x ->
  is_u64 (mix64 x) /\ (forall y, is_u64 y -> mix64 x = mix64 y -> x = y) /\ exists y, is_u64 y /\ mix64 y = x.
Proof.
  intros Hx. split; [by apply mix64_u64|]. split.
  - intros y Hy. by apply mix64_inj.
  - exists (unmix64 x). split; [|by apply mix_inverse]. unfold unmix64. apply unshift_u64; [lia|apply wrapping_mul_u64].
Qed.

(** ** Payloads *)

Lemma next_u64_word s : is_u64 (next_u64 s).1 /\ is_u64 (next_u64 s).2.
Proof.
  unfold next_u64, wrapping_add. pose proof (Z.mod_pos_bound (s + GOLDEN_GAMMA) (2 ^ 64) ltac:(lia)).
  split; [by apply mix64_u64|done].
Qed.

Lemma next_u64_inj s s' : is_u64 s -> is_u64 s' -> (next_u64 s).1 = (next_u64 s').1 -> s = s'.
Proof.
  intros Hs Hs' E. cbn in E. unfold wrapping_add in E.
  pose proof (Z.mod_pos_bound (s + GOLDEN_GAMMA) (2 ^ 64) ltac:(lia)).
  pose proof (Z.mod_pos_bound (s' + GOLDEN_GAMMA) (2 ^ 64) ltac:(lia)).
  apply mix64_inj in E; [|done..]. unfold is_u64 in *.
  assert (Hm : forall z, 0 <= z < 2 ^ 64 -> z = ((z + GOLDEN_GAMMA) mod 2 ^ 64 - GOLDEN_GAMMA) mod 2 ^ 64).
  { intros z Hz. rewrite Zminus_mod_idemp_l. replace (z + GOLDEN_GAMMA - GOLDEN_GAMMA) with z by lia. by rewrite Z.mod_small. }
  rewrite (Hm s Hs), (Hm s' Hs'), E. done.
Qed.

(** Two words in a row differ, so that they are not both zero. *)
Lemma next_words_differ s : (next_u64 s).1 <> (next_u64 (next_u64 s).2).1.
Proof.
  intros E. cbn in E. set (t := wrapping_add 64 s GOLDEN_GAMMA) in *.
  assert (Ht : is_u64 t) by apply (next_u64_word s).
  pose proof (next_u64_word t) as [_ Ht']. cbn in Ht'. apply mix64_inj in E; [|done..].
  unfold wrapping_add in E at 1. unfold is_u64 in *. change GOLDEN_GAMMA with 11400714819323198485 in E.
  pose proof (Z.div_mod (t + 11400714819323198485) (2 ^ 64) ltac:(lia)).
  unfold wrapping_add in E. lia.
Qed.

Lemma length_stream n s : lenZ (stream_bytes n s) = 8 * Z.of_nat n.
Proof.
  revert s. induction n as [|n IH]; intros s; [done|]. cbn [stream_bytes]. cbn [next_u64].
  rewrite length_app, length_le_bytes, Nat2Z.inj_add, IH. lia.
Qed.

Lemma stream_ok n s : bytes_ok (stream_bytes n s).
Proof.
  revert s. induction n as [|n IH]; intros s; [constructor|]. cbn [stream_bytes next_u64].
  apply Forall_app. split; [apply le_bytes_ok|apply IH].
Qed.

Lemma fill_ok seed lba v : block_ok (fill seed lba v).
Proof.
  split.
  - unfold fill. rewrite length_app, length_le_bytes, Nat2Z.inj_add, length_stream. reflexivity.
  - unfold fill. apply Forall_app. split; [apply le_bytes_ok|apply stream_ok].
Qed.

Lemma matches_stream n rest s : lenZ rest = 8 * Z.of_nat n -> matches n rest s = true <-> rest = stream_bytes n s.
Proof.
  revert rest s. induction n as [|n IH]; intros rest s Hl.
  { cbn. split; [|done]. intros _. by destruct rest. }
  cbn [matches stream_bytes next_u64]. rewrite andb_true_iff, bool_decide_eq_true, IH by (rewrite length_drop; lia).
  set (w := le_bytes 8 _). assert (length w = 8%nat) as Hw by apply length_le_bytes. split.
  - intros [E1 E2]. by rewrite <- (take_drop 8 rest), E1, E2.
  - intros ->. by rewrite take_app_length', drop_app_length' by done.
Qed.

Lemma all_zero_app a b : all_zero (a ++ b) = all_zero a && all_zero b.
Proof. unfold all_zero. apply forallb_app. Qed.

Lemma all_zero_le n z : 0 <= z < 256 ^ Z.of_nat n -> all_zero (le_bytes n z) = true -> z = 0.
Proof.
  intros Hz Ha. apply all_zero_spec in Ha. rewrite <- (le_value_le_bytes n z Hz), Ha. unfold zeros.
  generalize (Z.to_nat (lenZ (le_bytes n z))). intros m. induction m as [|m IH]; [done|]. cbn [replicate le_value]. rewrite IH. done.
Qed.

Lemma fill_not_zero seed lba v : all_zero (fill seed lba v) = false.
Proof.
  unfold fill. change WORDS with (S (S 509)). cbn [stream_bytes].
  rewrite !all_zero_app. set (s := stream_seed _ _ _).
  destruct (next_u64 s) as [w1 s1] eqn:E1. destruct (next_u64 s1) as [w2 s2] eqn:E2.
  rewrite !all_zero_app. apply not_true_is_false. intros Ha.
  apply andb_true_iff in Ha as [_ Ha]. apply andb_true_iff in Ha as [Ha Hb]. apply andb_true_iff in Hb as [Hb _].
  pose proof (next_u64_word s) as [H1 _]. pose proof (next_u64_word s1) as [H2 _]. rewrite E1 in H1. rewrite E2 in H2.
  apply all_zero_le in Ha; [|exact H1]. apply all_zero_le in Hb; [|exact H2].
  apply (next_words_differ s). rewrite E1. cbn [fst snd]. rewrite E2. cbn [fst]. congruence.
Qed.

Lemma mask_u64 seed lba : is_u64 seed -> is_u64 lba -> is_u64 (mask seed lba).
Proof. intros. unfold mask. apply mix64_u64, lxor_u64; [done|by apply mix64_u64]. Qed.

Lemma decode_fill seed lba v :
  is_u64 seed -> is_u64 lba -> is_version v -> decode seed (fill seed lba v) lba = Version v.
Proof.
  intros Hs Hl Hv. pose proof (mask_u64 seed lba Hs Hl) as Hm. unfold decode. rewrite fill_not_zero.
  assert (Hv64 : is_u64 v) by (unfold is_version, is_u64 in *; lia).
  unfold fill. rewrite take_app_length', drop_app_length' by (by rewrite length_le_bytes).
  rewrite le_u64 by (by apply lxor_u64).
  assert (Z.lxor (Z.lxor v (mask seed lba)) (mask seed lba) = v) as ->.
  { by rewrite Z.lxor_assoc, Z.lxor_nilpotent, Z.lxor_0_r. }
  unfold is_version in Hv. destruct (Z.leb_spec (2 ^ 32) v), (Z.eqb_spec v 0); try lia. cbn [orb].
  by rewrite (proj2 (matches_stream WORDS _ _ (length_stream _ _)) eq_refl).
Qed.

(** C39. Every payload is a block that is read back as its version, and it is never taken
    for a discarded block. *)
Theorem payload_roundtrip seed lba v :
  is_u64 seed -> is_u64 lba -> is_version v ->
  block_ok (fill seed lba v) /\ fill seed lba v <> zero_block /\ decode seed (fill seed lba v) lba = Version v.
Proof.
  intros Hs Hl Hv. split; [apply fill_ok|]. split; [|by apply decode_fill].
  intros E. pose proof (fill_not_zero seed lba v) as Hz. rewrite E in Hz. unfold zero_block in Hz. by rewrite all_zero_zeros in Hz.
Qed.

Lemma decode_Version seed b lba v :
  is_u64 seed -> is_u64 lba -> block_ok b -> decode seed b lba = Version v -> is_version v /\ b = fill seed lba v.
Proof.
  intros Hs Hl [Hlen Hb] Hd. pose proof (mask_u64 seed lba Hs Hl) as Hm. unfold decode in Hd. destruct (all_zero b); [done|].
  set (u := Z.lxor _ _) in Hd. change BLOCK_SIZE with 4096 in Hlen.
  assert (Ht : lenZ (take 8 b) = 8) by (rewrite length_take; lia).
  assert (Hw : is_u64 (le_value (take 8 b))).
  { pose proof (le_value_bound (take 8 b) (Forall_take _ _ _ Hb)) as Hbd. rewrite Ht in Hbd. exact Hbd. }
  destruct (Z.leb_spec (2 ^ 32) u), (Z.eqb_spec u 0); cbn [orb] in Hd; try done.
  assert (lenZ (drop 8 b) = 8 * Z.of_nat WORDS) as Hdl by (rewrite length_drop; unfold WORDS; lia).
  destruct (matches WORDS (drop 8 b) (stream_seed seed lba u)) eqn:Em; [|done]. injection Hd as <-.
  apply matches_stream in Em; [|done]. pose proof (lxor_u64 _ _ Hw Hm) as Hu. fold u in Hu.
  split; [unfold is_version, is_u64 in *; lia|]. unfold fill. rewrite <- Em, <- (take_drop 8 b) at 1. f_equal.
  assert (Z.lxor u (mask seed lba) = le_value (take 8 b)) as ->.
  { unfold u. by rewrite Z.lxor_assoc, Z.lxor_nilpotent, Z.lxor_0_r. }
  pose proof (le_bytes_le_value (take 8 b) (Forall_take _ _ _ Hb)) as E. replace (length (take 8 b)) with 8%nat in E by lia. done.
Qed.

Lemma stream_inj n s s' : (0 < n)%nat -> is_u64 s -> is_u64 s' -> stream_bytes n s = stream_bytes n s' -> s = s'.
Proof.
  intros Hn Hs Hs' E. destruct n as [|n]; [lia|]. apply next_u64_inj; [done..|]. cbn [stream_bytes] in E.
  pose proof (next_u64_word s) as [H1 _]. pose proof (next_u64_word s') as [H2 _].
  destruct (next_u64 s) as [w1 t1], (next_u64 s') as [w2 t2]. cbn [fst] in *.
  apply app_inj_1 in E as [E _]; [|by rewrite !length_le_bytes]. by rewrite <- (le_u64 w1), <- (le_u64 w2), E.
Qed.

#[local] Opaque mix64.

Lemma lxor_cancel a b c : Z.lxor a c = Z.lxor b c -> a = b.
Proof.
  intros E. rewrite <- (Z.lxor_0_r a), <- (Z.lxor_nilpotent c), <- Z.lxor_assoc, E.
  by rewrite Z.lxor_assoc, Z.lxor_nilpotent, Z.lxor_0_r.
Qed.

Lemma mask_inj seed l l' : is_u64 seed -> is_u64 l -> is_u64 l' -> mask seed l = mask seed l' -> l = l'.
Proof.
  intros Hs Hl Hl' E. apply mix64_inj in E; [|by apply lxor_u64; [done|apply mix64_u64]..].
  rewrite !(Z.lxor_comm seed) in E. apply lxor_cancel in E. by apply mix64_inj in E.
Qed.

Lemma stream_seed_inj seed l l' v :
  is_u64 seed -> is_u64 l -> is_u64 l' -> is_version v -> stream_seed seed l v = stream_seed seed l' v -> l = l'.
Proof.
  intros Hs Hl Hl' Hv E. assert (Hm : is_u64 (mix64 (u64_max - v))).
  { apply mix64_u64. unfold is_version, is_u64, u64_max in *. lia. }
  apply mix64_inj in E; [|by apply lxor_u64; [apply mask_u64|]..]. apply lxor_cancel in E. by apply (mask_inj seed).
Qed.

Lemma stream_seed_u64 seed l v : is_u64 seed -> is_u64 l -> is_version v -> is_u64 (stream_seed seed l v).
Proof.
  intros Hs Hl Hv. apply mix64_u64, lxor_u64; [by apply mask_u64|]. apply mix64_u64.
  unfold is_version, is_u64, u64_max in *. lia.
Qed.

Lemma app_tail_inj (a a' b b' : list Z) : length a = length a' -> a ++ b = a' ++ b' -> b = b'.
Proof. intros Hl E. by apply app_inj_1 in E as [_ E]. Qed.

Lemma fill_inj seed l l' v :
  is_u64 seed -> is_u64 l -> is_u64 l' -> is_version v -> fill seed l v = fill seed l' v -> l = l'.
Proof.
  intros Hs Hl Hl' Hv E. apply (stream_seed_inj seed l l' v Hs Hl Hl' Hv).
  pose proof (stream_seed_u64 seed l v Hs Hl Hv) as H1. pose proof (stream_seed_u64 seed l' v Hs Hl' Hv) as H2.
  refine (stream_inj WORDS _ _ (proj1 (Nat.ltb_lt 0 WORDS) eq_refl) H1 H2 (app_tail_inj _ _ _ _ _ E)).
  by rewrite !length_le_bytes.
Qed.

Lemma all_zero_block b : block_ok b -> all_zero b = true -> b = zero_block.
Proof.
  intros [Hl _] Hz%all_zero_spec. by rewrite Hz, Hl.
Qed.

(** C40. The verdict on a block is exact.  It is zero if and only if the block is zero, a
    version if and only if the block is, byte for byte, the payload of that version at
    this address, and invalid otherwise.  A block that two addresses take for a payload
    has a different version at each: no address takes the payload of another for the
    same version. *)
Theorem payload_canonical seed b lba :
  is_u64 seed -> is_u64 lba -> block_ok b ->
  match decode seed b lba with
  | Zero => b = zero_block
  | Version v => is_version v /\ b = fill seed lba v /\
      forall lba' v', is_u64 lba' -> decode seed b lba' = Version v' -> (lba' = lba <-> v' = v)
  | Invalid => b <> zero_block /\ forall v, is_version v -> b <> fill seed lba v
  end.
Proof.
  intros Hs Hl Hb. destruct (decode seed b lba) as [|v|] eqn:Hd.
  - apply all_zero_block; [done|]. unfold decode in Hd. destruct (all_zero b); [done|].
    destruct (_ || _); [done|]. by destruct (matches _ _ _).
  - destruct (decode_Version seed b lba v Hs Hl Hb Hd) as [Hv E]. split; [done|]. split; [done|].
    intros lba' v' Hl' Hd'. split; [intros ->; congruence|]. intros ->.
    destruct (decode_Version seed b lba' v Hs Hl' Hb Hd') as [_ E'].
    rewrite E in E'. symmetry. exact (fill_inj seed lba lba' v Hs Hl Hl' Hv E').
  - split.
    + intros ->. unfold decode in Hd. unfold zero_block in Hd. by rewrite all_zero_zeros in Hd.
    + intros v Hv ->. by rewrite decode_fill in Hd.
Qed.

Lemma mix64_bijective_witness : is_u64 5 /\ exists y, is_u64 y /\ mix64 y = 5.
Proof.
  assert (H : is_u64 5) by (split; reflexivity || discriminate). split; [exact H|].
  exact (proj2 (proj2 (mix64_bijective 5 H))).
Defined.

Lemma payload_roundtrip_witness : is_version 9 /\ decode 7 (fill 7 42 9) 42 = Version 9.
Proof.
  assert (Hv : is_version 9) by (split; reflexivity). split; [exact Hv|].
  exact (proj2 (proj2 (payload_roundtrip 7 42 9 ltac:(split; reflexivity || discriminate)
    ltac:(split; reflexivity || discriminate) Hv))).
Defined.

(** The payload of a version, and a block that is none. *)
Lemma payload_canonical_witness :
  (decode 7 (fill 7 42 9) 42 = Version 9 /\
   forall lba' v', is_u64 lba' -> decode 7 (fill 7 42 9) lba' = Version v' -> (lba' = 42 <-> v' = 9)) /\
  exists b, block_ok b /\ decode 7 b 42 = Invalid /\ forall v, is_version v -> b <> fill 7 42 v.
Proof.
  assert (E : decode 7 (fill 7 42 9) 42 = Version 9)
    by (apply decode_fill; split; reflexivity || discriminate).
  assert (H7 : is_u64 7) by (split; reflexivity || discriminate).
  assert (H42 : is_u64 42) by (split; reflexivity || discriminate).
  pose proof (payload_canonical 7 (fill 7 42 9) 42 H7 H42 (fill_ok 7 42 9)) as Hx. rewrite E in Hx.
  split; [split; [exact E|exact (proj2 (proj2 Hx))]|].
  assert (Hok : block_ok (put 0 [1] zero_block)) by (apply block_okb_spec; vm_compute; reflexivity).
  assert (Ei : decode 7 (put 0 [1] zero_block) 42 = Invalid) by (vm_compute; reflexivity).
  pose proof (payload_canonical 7 (put 0 [1] zero_block) 42 H7 H42 Hok) as Hy. rewrite Ei in Hy.
  exists (put 0 [1] zero_block). split; [exact Hok|]. split; [exact Ei|exact (proj2 Hy)].
Defined.

End Payload.
