(* ===== verification/BlockTarget.v ===== *)
(** The interface of a block device under test, and the simulated disk with a volatile
    write cache and planned faults: [src/tools/blockcheck/src/target.rs] and
    [src/tools/blockcheck/src/memory.rs]. *)

From S2P Require Import Prelude Bytes Text Payload.

Inductive IoFailure :=
  | NoSpace
  | Unsupported
  | Other (error : io_error).

(** [BlockTarget]; a read gives the block that it leaves in the caller's buffer. *)
Class BlockTarget (T : Type) := {
  block_count : T -> Z;
  read : Z -> ME IoFailure T (list Z);
  write : Z -> list Z -> ME IoFailure T unit;
  flush : ME IoFailure T unit;
  discard : Z -> Z -> ME IoFailure T unit;
}.

Definition MAX_BLOCKS : Z := 4096.

Inductive Fault :=
  | StaleRead
  | MisdirectedWrite
  | IgnoredDiscard
  | LostFlush
  | UnflushedDiscard
  | Resurrection
  | RejectedWriteLands.

#[global] Instance fault_eq_dec : EqDecision Fault.
Proof. solve_decision. Defined.

Record FaultPlan := {
  fault : Fault;
  from_request : Z;
}.

Inductive Injected := InjectNoSpace | IoErrorApplied | IoErrorDropped.

Inductive Survival := Random | KeepAll | DropAll.

Inductive Pending := NotPending | PendingWrite | PendingDiscard.

#[global] Instance pending_eq_dec : EqDecision Pending.
Proof. solve_decision. Defined.

Record MemoryTarget := {
  mt_block_count : Z;
  durable : list (list Z);
  cached : list (list Z);
  pending : list Pending;
  first : list (option (list Z));
  plan : option FaultPlan;
  mt_requests : Z;
  injected : option Injected;
  faults_occurred : Z;
  rng : Z;
}.

Module Memory.

Definition out_of_range (lba : Z) : IoFailure :=
  Other (InvalidInput ("LBA " ++ Text.print lba ++ " out of range")).

Definition injected_io_error : IoFailure := Other (OtherError "injected I/O error").

Definition survives (survival : Survival) (rng : Z) : bool * Z :=
  match survival with
  | KeepAll => (true, rng)
  | DropAll => (false, rng)
  | Random => let '(value, rng) := next_u64 rng in (negb (Z.land value 1 =? 0), rng)
  end.

(** What one block keeps: its pending request and its durable contents. *)
Definition settle_block (p : Pending) (stays keep : bool) (durable cached : list Z) : Pending * list Z :=
  if stays then (p, durable)
  else match p, keep with
       | PendingWrite, true => (NotPending, cached)
       | PendingDiscard, true => (NotPending, zero_block)
       | _, _ => (NotPending, durable)
       end.

(** Whether the first contents differ from the durable ones, which they replace. *)
Definition restore (durable first : list Z) : bool * list Z :=
  if bool_decide (durable = first) then (false, durable) else (true, first).

Definition count_if (happened : bool) (counter : Z) : Z := saturating_add 64 counter (of_bool happened).
Definition bump (counter : Z) : Z := count_if true counter.

Definition new (count : Z) (p : option FaultPlan) (seed : Z) : res MemoryTarget :=
  fail_if ((count =? 0) || (MAX_BLOCKS <? count)) (InvalidInput "block count out of range") ;;?
  let len := Z.to_nat count in
  let resurrects := match p with Some p => bool_decide (fault p = Resurrection) | None => false end in
  Ok {| mt_block_count := count; durable := replicate len zero_block; cached := replicate len zero_block;
        pending := replicate len NotPending; first := if resurrects then replicate len None else [];
        plan := p; mt_requests := 0; injected := None; faults_occurred := 0; rng := seed |}.

(** ** The fields *)

Definition with_media (d c : list (list Z)) (p : list Pending) (t : MemoryTarget) : MemoryTarget :=
  {| mt_block_count := mt_block_count t; durable := d; cached := c; pending := p; first := first t; plan := plan t;
     mt_requests := mt_requests t; injected := injected t; faults_occurred := faults_occurred t; rng := rng t |}.
Definition with_first (f : list (option (list Z))) (t : MemoryTarget) : MemoryTarget :=
  {| mt_block_count := mt_block_count t; durable := durable t; cached := cached t; pending := pending t; first := f;
     plan := plan t; mt_requests := mt_requests t; injected := injected t; faults_occurred := faults_occurred t;
     rng := rng t |}.
Definition with_requests (n : Z) (t : MemoryTarget) : MemoryTarget :=
  {| mt_block_count := mt_block_count t; durable := durable t; cached := cached t; pending := pending t; first := first t;
     plan := plan t; mt_requests := n; injected := injected t; faults_occurred := faults_occurred t; rng := rng t |}.
Definition with_injected (i : option Injected) (t : MemoryTarget) : MemoryTarget :=
  {| mt_block_count := mt_block_count t; durable := durable t; cached := cached t; pending := pending t; first := first t;
     plan := plan t; mt_requests := mt_requests t; injected := i; faults_occurred := faults_occurred t; rng := rng t |}.
Definition with_faults (n : Z) (t : MemoryTarget) : MemoryTarget :=
  {| mt_block_count := mt_block_count t; durable := durable t; cached := cached t; pending := pending t; first := first t;
     plan := plan t; mt_requests := mt_requests t; injected := injected t; faults_occurred := n; rng := rng t |}.
Definition with_rng (r : Z) (t : MemoryTarget) : MemoryTarget :=
  {| mt_block_count := mt_block_count t; durable := durable t; cached := cached t; pending := pending t; first := first t;
     plan := plan t; mt_requests := mt_requests t; injected := injected t; faults_occurred := faults_occurred t; rng := r |}.

Definition inject (failure : Injected) (t : MemoryTarget) : MemoryTarget := with_injected (Some failure) t.

Definition active (t : MemoryTarget) : option Fault :=
  match plan t with
  | Some p => if from_request p <=? mt_requests t then Some (fault p) else None
  | None => None
  end.

(** Whether the active fault is [f]. *)
Definition is_active (f : Fault) (a : option Fault) : bool := bool_decide (a = Some f).

Definition begin : ME IoFailure MemoryTarget (option Fault) := fun t =>
  (Ok (active t), with_requests (bump (mt_requests t)) t).

(** The loop of [settle]. *)
Fixpoint settle_blocks (survival : Survival) (discards_stay : bool) (ds cs : list (list Z)) (ps : list Pending) (rng : Z) :
    list (list Z) * list Pending * Z :=
  match ds, cs, ps with
  | d :: ds, c :: cs, p :: ps =>
      let stays := discards_stay && bool_decide (p = PendingDiscard) in
      let '(keep, rng) := if stays then (false, rng) else survives survival rng in
      let '(p, d) := settle_block p stays keep d c in
      let '(ds, ps, rng) := settle_blocks survival discards_stay ds cs ps rng in
      (d :: ds, p :: ps, rng)
  | _, _, _ => (ds, ps, rng)
  end.

Definition settle (survival : Survival) (discards_stay : bool) (t : MemoryTarget) : MemoryTarget :=
  let '(ds, ps, r) := settle_blocks survival discards_stay (durable t) (cached t) (pending t) (rng t) in
  with_rng r (with_media ds (cached t) ps t).

(** The loop of [resurrect]. *)
Fixpoint resurrect_blocks (ds : list (list Z)) (fs : list (option (list Z))) (faults : Z) : list (list Z) * Z :=
  match ds, fs with
  | d :: ds, f :: fs =>
      let '(restored, d) := match f with Some f => restore d f | None => (false, d) end in
      let '(ds, faults) := resurrect_blocks ds fs (count_if restored faults) in
      (d :: ds, faults)
  | _, _ => (ds, faults)
  end.

Definition resurrect (t : MemoryTarget) : MemoryTarget :=
  let '(ds, faults) := resurrect_blocks (durable t) (first t) (faults_occurred t) in
  with_faults faults (with_media ds (cached t) (pending t) t).

Definition crash (survival : Survival) (t : MemoryTarget) : MemoryTarget :=
  let t := settle survival false (with_injected None t) in
  if is_active Resurrection (active t) then resurrect t else t.

(** [self.index(lba)]. *)
Definition index (lba : Z) : ME IoFailure MemoryTarget nat := fun t =>
  (if mt_block_count t <=? lba then Err (out_of_range lba) else Ok (Z.to_nat lba), t).

(** [self.injected.take()]. *)
Definition take_injected : ME IoFailure MemoryTarget (option Injected) := fun t =>
  (Ok (injected t), with_injected None t).

Definition reject_write (i : nat) (block : list Z) (a : option Fault) : ME IoFailure MemoryTarget unit := fun t =>
  (Err NoSpace,
   if is_active RejectedWriteLands a && bool_decide (i < length (durable t))%nat
   then with_faults (bump (faults_occurred t)) (with_media (<[i := block]> (durable t)) (cached t) (pending t) t)
   else t).

Definition cache_write (i : nat) (block : list Z) (a : option Fault) : ME IoFailure MemoryTarget unit := fun t =>
  let neighbour := Z.to_nat (Z.lxor (Z.of_nat i) 1) in
  let misdirected := is_active MisdirectedWrite a && bool_decide (neighbour < length (cached t))%nat in
  let i := if misdirected then neighbour else i in
  let t := if misdirected then with_faults (bump (faults_occurred t)) t else t in
  if bool_decide (i < length (cached t))%nat && bool_decide (i < length (pending t))%nat then
    let t := with_media (durable t) (<[i := block]> (cached t)) (<[i := PendingWrite]> (pending t)) t in
    (Ok tt, match first t !! i with Some None => with_first (<[i := Some block]> (first t)) t | _ => t end)
  else (Err (out_of_range (Z.of_nat i)), t).

(** [pending[start..stop].fill(Pending::Discard)]. *)
Definition fill_pending (start stop : nat) (ps : list Pending) : list Pending :=
  take start ps ++ replicate (stop - start) PendingDiscard ++ drop stop ps.

Definition cache_discard (start stop : nat) (a : option Fault) : ME IoFailure MemoryTarget unit := fun t =>
  if is_active IgnoredDiscard a then (Ok tt, with_faults (bump (faults_occurred t)) t)
  else if bool_decide (stop <= length (pending t))%nat && bool_decide (start <= stop)%nat then
    (Ok tt, with_media (durable t) (cached t) (fill_pending start stop (pending t)) t)
  else (Err (out_of_range (Z.of_nat start)), t).

Definition read_block (lba : Z) : ME IoFailure MemoryTarget (list Z) :=
  a <- begin ;;
  i <- index lba ;;
  t <- mget ;;
  p <- mlift (ok_or (pending t !! i) (out_of_range lba)) ;;
  let stale := is_active StaleRead a && bool_decide (p <> NotPending) in
  (if stale then mmodify (fun t => with_faults (bump (faults_occurred t)) t) else mret tt) ;;;
  match (if stale then NotPending else p) with
  | PendingDiscard => mret zero_block
  | PendingWrite => mlift (ok_or (cached t !! i) (out_of_range lba))
  | NotPending => mlift (ok_or (durable t !! i) (out_of_range lba))
  end.

Definition write_block (lba : Z) (block : list Z) : ME IoFailure MemoryTarget unit :=
  a <- begin ;;
  i <- index lba ;;
  failure <- take_injected ;;
  match failure with
  | Some InjectNoSpace => reject_write i block a
  | Some IoErrorDropped => mlift (Err injected_io_error)
  | Some IoErrorApplied => cache_write i block a ;;; mlift (Err injected_io_error)
  | None => cache_write i block a
  end.

Definition flush_blocks : ME IoFailure MemoryTarget unit :=
  a <- begin ;;
  mmodify (fun t =>
    let has_write := bool_decide (PendingWrite ∈ pending t) in
    let has_discard := bool_decide (PendingDiscard ∈ pending t) in
    let changed := match a with
                   | Some LostFlush => has_write || has_discard
                   | Some UnflushedDiscard => has_discard
                   | _ => false
                   end in
    let t := with_faults (count_if changed (faults_occurred t)) t in
    match a with
    | Some LostFlush => t
    | Some UnflushedDiscard => settle KeepAll true t
    | _ => settle KeepAll false t
    end).

Definition discard_blocks (lba blocks : Z) : ME IoFailure MemoryTarget unit :=
  a <- begin ;;
  start <- index lba ;;
  t <- mget ;;
  stop <- mlift (match checked_add 64 lba blocks with
                 | Some stop => if stop <=? mt_block_count t then Ok (Z.to_nat stop) else Err (out_of_range lba)
                 | None => Err (out_of_range lba)
                 end) ;;
  failure <- take_injected ;;
  match failure with
  | Some InjectNoSpace => mlift (Err NoSpace)
  | Some IoErrorDropped => mlift (Err injected_io_error)
  | Some IoErrorApplied => cache_discard start stop a ;;; mlift (Err injected_io_error)
  | None => cache_discard start stop a
  end.

End Memory.

#[global] Instance memory_target : BlockTarget MemoryTarget := {|
  block_count := mt_block_count;
  read := Memory.read_block;
  write := Memory.write_block;
  flush := Memory.flush_blocks;
  discard := Memory.discard_blocks;
|}.
