(* ===== verification/Disk.v ===== *)
(** A simulated disk without faults, seen as the blocks that a read returns and the blocks
    that a crash may bring back: the operations of
    [src/tools/blockcheck/src/memory.rs] on that view. *)

From S2P Require Import Prelude Bytes Text Payload BlockTarget.

Module Disk.

(** A target without a planned fault. *)
Record ok (t : MemoryTarget) : Prop := {
  dk_plan : plan t = None;
  dk_count : 0 < mt_block_count t <= BlockTarget.MAX_BLOCKS;
  dk_durable : lenZ (durable t) = mt_block_count t;
  dk_cached : lenZ (cached t) = mt_block_count t;
  dk_pending : lenZ (pending t) = mt_block_count t;
  dk_first : first t = [];
}.

Definition block_at (l : list (list Z)) (i : Z) : list Z := nth (Z.to_nat i) l zero_block.
Definition pending_at (t : MemoryTarget) (i : Z) : Pending := nth (Z.to_nat i) (pending t) NotPending.

(** What is on the medium, and what a read returns. *)
Definition dur (t : MemoryTarget) (i : Z) : list Z := block_at (durable t) i.
Definition live (t : MemoryTarget) (i : Z) : list Z :=
  match pending_at t i with
  | NotPending => dur t i
  | PendingWrite => block_at (cached t) i
  | PendingDiscard => zero_block
  end.

Definition inside (t : MemoryTarget) (i : Z) : Prop := 0 <= i < mt_block_count t.

(** [t'] is [t] with [live'] as its live blocks, [dur'] as its durable ones and [inj] as
    the failure that is still to come. *)
Record becomes (t t' : MemoryTarget) (live' dur' : Z -> list Z) (inj : option Injected) : Prop := {
  bc_ok : ok t';
  bc_count : mt_block_count t' = mt_block_count t;
  bc_live : forall i, inside t i -> live t' i = live' i;
  bc_dur : forall i, inside t i -> dur t' i = dur' i;
  bc_injected : injected t' = inj;
}.

Definition set_block (f : Z -> list Z) (i : Z) (b : list Z) : Z -> list Z := fun j => if decide (j = i) then b else f j.

(** The blocks of a range, discarded. *)
Definition clear_range (f : Z -> list Z) (a b : Z) : Z -> list Z := fun j => if decide (a <= j < b) then zero_block else f j.

Lemma lookup_block l i : 0 <= i < lenZ l -> l !! Z.to_nat i = Some (block_at l i).
Proof.
  intros Hi. destruct (l !! Z.to_nat i) as [b|] eqn:E.
  - unfold block_at. by erewrite nth_lookup_Some.
  - apply lookup_ge_None in E. lia.
Qed.

Lemma lookup_pending t i : ok t -> inside t i -> pending t !! Z.to_nat i = Some (pending_at t i).
Proof.
  intros [] Hi. unfold inside in Hi. destruct (pending t !! Z.to_nat i) as [b|] eqn:E.
  - unfold pending_at. by erewrite nth_lookup_Some.
  - apply lookup_ge_None in E. lia.
Qed.

Lemma active_None t : ok t -> Memory.active t = None.
Proof. intros []. unfold Memory.active. by rewrite dk_plan0. Qed.

Lemma begin_run t (Q : result IoFailure (option Fault) -> MemoryTarget -> Prop) :
  ok t -> (forall t', becomes t t' (live t) (dur t) (injected t) -> Q (Ok None) t') -> runs Memory.begin t Q.
Proof.
  intros Hok HQ. unfold runs, Memory.begin. cbn. rewrite (active_None t Hok). apply HQ.
  destruct Hok. by constructor.
Qed.

Lemma becomes_refl t : ok t -> becomes t t (live t) (dur t) (injected t).
Proof. intros. by constructor. Qed.

Lemma becomes_trans t t1 t2 l1 d1 l2 d2 i1 i2 :
  becomes t t1 l1 d1 i1 -> becomes t1 t2 l2 d2 i2 ->
  becomes t t2 l2 d2 i2.
Proof.
  intros [] []. constructor; [done|by rewrite bc_count1| | |done]; intros i Hi.
  - apply bc_live1. unfold inside in *. by rewrite bc_count0.
  - apply bc_dur1. unfold inside in *. by rewrite bc_count0.
Qed.

Lemma becomes_ext t t' l l' d d' i :
  (forall j, inside t j -> l j = l' j) -> (forall j, inside t j -> d j = d' j) ->
  becomes t t' l d i -> becomes t t' l' d' i.
Proof.
  intros Hl Hd []. constructor; try done; intros j Hj; [rewrite <- Hl by done|rewrite <- Hd by done]; auto.
Qed.

Lemma index_run t i (Q : result IoFailure nat -> MemoryTarget -> Prop) :
  inside t i -> Q (Ok (Z.to_nat i)) t -> runs (Memory.index i) t Q.
Proof.
  intros Hi HQ. unfold runs, Memory.index; cbn. unfold inside in Hi. by destruct (Z.leb_spec (mt_block_count t) i); [lia|].
Qed.

Lemma read_run t i :
  ok t -> inside t i ->
  runs (Memory.read_block i) t (fun r t' => r = Ok (live t i) /\ becomes t t' (live t) (dur t) (injected t)).
Proof.
  intros Hok Hi. unfold Memory.read_block. apply runs_bind, begin_run; [done|]. intros t1 Hb. cbn [next].
  pose proof Hb as [Hok1 Hc Hl Hd _].
  assert (Hi1 : inside t1 i) by (unfold inside in *; by rewrite Hc).
  apply runs_bind, index_run; [done|]. cbn [next]. apply runs_bind, runs_get. cbn [next].
  rewrite (lookup_pending t1 i Hok1 Hi1). apply runs_bind, runs_lift. cbn [ok_or next].
  change (Memory.is_active StaleRead None) with false. cbn [andb]. apply runs_bind, runs_ret. cbn [next].
  rewrite <- Hl by done. unfold live. unfold inside in Hi1.
  destruct (pending_at t1 i).
  - apply runs_lift. rewrite lookup_block by (rewrite (dk_durable _ Hok1); lia). by split.
  - apply runs_lift. rewrite lookup_block by (rewrite (dk_cached _ Hok1); lia). by split.
  - apply runs_ret. by split.
Qed.

Lemma block_at_insert l i j b :
  0 <= i < lenZ l -> 0 <= j -> block_at (<[Z.to_nat i := b]> l) j = if decide (j = i) then b else block_at l j.
Proof.
  intros Hi Hj. unfold block_at. destruct (decide (j = i)) as [->|Hne].
  - erewrite nth_lookup_Some; [done|]. apply list_lookup_insert_eq. lia.
  - rewrite !nth_lookup. rewrite list_lookup_insert_ne by lia. done.
Qed.

(** The write cache takes a block. *)
Lemma cache_write_run t i b :
  ok t -> inside t i -> injected t = None ->
  runs (Memory.cache_write (Z.to_nat i) b None) t (fun r t' => r = Ok tt /\
    becomes t t' (set_block (live t) i b) (dur t) None).
Proof.
  intros Hok Hi Hinj. pose proof Hok as []. unfold inside in Hi. unfold runs, Memory.cache_write. change (Memory.is_active MisdirectedWrite None) with false. cbn [andb].
  rewrite !bool_decide_true by lia. cbn [andb fst snd Memory.with_media first].
  rewrite dk_first0, lookup_nil. split; [done|].
  constructor; try done.
  - constructor; cbn [durable cached pending first plan mt_block_count Memory.with_media]; rewrite ?length_insert; done.
  - intros j Hj. unfold inside in Hj. unfold set_block, live, pending_at, dur.
    cbn [durable cached pending Memory.with_media].
    destruct (decide (j = i)) as [->|Hne].
    + erewrite nth_lookup_Some; [|apply list_lookup_insert_eq; lia].
      rewrite block_at_insert by lia. by rewrite decide_True.
    + rewrite nth_lookup, list_lookup_insert_ne, <- nth_lookup by lia.
      rewrite block_at_insert by lia. by rewrite decide_False.
Qed.

(** The result of a write, by the injected failure. *)
Definition write_result (inj : option Injected) : result IoFailure unit :=
  match inj with
  | None => Ok tt
  | Some InjectNoSpace => Err NoSpace
  | Some _ => Err Memory.injected_io_error
  end.

(** Whether the request reached the write cache. *)
Definition reached (inj : option Injected) : bool :=
  match inj with None | Some IoErrorApplied => true | _ => false end.

Lemma take_injected_run t (Q : result IoFailure (option Injected) -> MemoryTarget -> Prop) :
  ok t -> (forall t', becomes t t' (live t) (dur t) None -> Q (Ok (injected t)) t') -> runs Memory.take_injected t Q.
Proof. intros Hok HQ. unfold runs, Memory.take_injected. cbn. apply HQ. destruct Hok. by constructor. Qed.

Lemma write_run t i b :
  ok t -> inside t i ->
  runs (Memory.write_block i b) t (fun r t' => r = write_result (injected t) /\
    becomes t t' (if reached (injected t) then set_block (live t) i b else live t) (dur t) None).
Proof.
  intros Hok Hi. unfold Memory.write_block. apply runs_bind, begin_run; [done|]. intros t1 Hb1. cbn [next].
  pose proof Hb1 as [Hok1 Hc1 Hl1 Hd1 Hi1].
  apply runs_bind, index_run; [unfold inside in *; by rewrite Hc1|]. cbn [next].
  apply runs_bind, take_injected_run; [done|]. intros t2 Hb2. cbn [next]. rewrite Hi1.
  pose proof (becomes_trans _ _ _ _ _ _ _ _ _ Hb1 Hb2) as Hb. pose proof Hb as [Hok2 Hc2 _ _ Hi2].
  assert (Hsame : becomes t t2 (live t) (dur t) None) by (eapply becomes_ext; [exact Hl1|exact Hd1|exact Hb]).
  assert (Hins : inside t2 i) by (unfold inside in *; by rewrite Hc2).
  assert (Hset : forall t3, becomes t2 t3 (set_block (live t2) i b) (dur t2) None ->
    becomes t t3 (set_block (live t) i b) (dur t) None).
  { intros t3 Hb3. pose proof (becomes_trans _ _ _ _ _ _ _ _ _ Hb Hb3) as Hb4.
    eapply becomes_ext; [| |exact Hb4]; cbv beta; intros j Hj.
    - unfold set_block. destruct (decide (j = i)); [done|]. by apply Hsame.
    - by apply Hsame. }
  destruct (injected t) as [[]|]; cbn [write_result reached].
  - unfold Memory.reject_write, runs; cbn. by split.
  - apply runs_bind. eapply runs_mono; [by apply cache_write_run|]. cbv beta. intros r t3 [-> Hb3]. cbn [next].
    apply runs_lift. split; [done|]. by apply Hset.
  - apply runs_lift. by split.
  - eapply runs_mono; [by apply cache_write_run|]. cbv beta. intros r t3 [-> Hb3]. split; [done|]. by apply Hset.
Qed.

Lemma nth_fill_pending a b ps i :
  (a <= b)%nat -> (b <= length ps)%nat ->
  nth i (Memory.fill_pending a b ps) NotPending = if decide (a <= i < b)%nat then PendingDiscard else nth i ps NotPending.
Proof.
  intros Ha Hb. unfold Memory.fill_pending. rewrite !nth_lookup.
  destruct (decide (a <= i < b)%nat) as [Hi|Hi].
  - rewrite lookup_app_r by (rewrite length_take; lia). rewrite length_take, Nat.min_l by lia.
    rewrite lookup_app_l by (rewrite length_replicate; lia). by rewrite lookup_replicate_2 by lia.
  - destruct (decide (i < a)%nat).
    + rewrite lookup_app_l by (rewrite length_take; lia). by rewrite lookup_take_lt by lia.
    + rewrite lookup_app_r by (rewrite length_take; lia). rewrite length_take, Nat.min_l by lia.
      rewrite lookup_app_r by (rewrite length_replicate; lia). rewrite length_replicate, lookup_drop.
      do 2 f_equal. lia.
Qed.

Lemma cache_discard_run t a b :
  ok t -> 0 <= a -> a <= b -> b <= mt_block_count t -> injected t = None ->
  runs (Memory.cache_discard (Z.to_nat a) (Z.to_nat b) None) t (fun r t' => r = Ok tt /\
    becomes t t' (clear_range (live t) a b) (dur t) None).
Proof.
  intros Hok Ha Hab Hb Hinj. pose proof Hok as []. unfold runs, Memory.cache_discard. change (Memory.is_active IgnoredDiscard None) with false. cbv iota.
  rewrite !bool_decide_true by lia. cbn [andb fst snd]. split; [done|].
  constructor; cbn; try done.
  - constructor; cbn; try done. unfold Memory.fill_pending. rewrite !length_app, length_take, length_replicate, length_drop. lia.
  - intros i Hi. unfold inside in Hi. unfold clear_range, live, pending_at, dur; cbn. rewrite nth_fill_pending by lia.
    destruct (decide (a <= i < b)).
    + by rewrite decide_True by lia.
    + by rewrite decide_False by lia.
Qed.

Lemma discard_run t lba blocks :
  ok t -> 0 <= lba -> 0 < blocks -> lba + blocks <= mt_block_count t ->
  runs (Memory.discard_blocks lba blocks) t (fun r t' => r = write_result (injected t) /\
    becomes t t' (if reached (injected t) then clear_range (live t) lba (lba + blocks) else live t) (dur t) None).
Proof.
  intros Hok Hl Hn Hb. unfold Memory.discard_blocks. apply runs_bind, begin_run; [done|]. intros t1 Hb1. cbn [next].
  pose proof Hb1 as [Hok1 Hc1 Hl1 Hd1 Hi1].
  apply runs_bind, index_run; [unfold inside; rewrite Hc1; lia|]. cbn [next]. apply runs_bind, runs_get. cbn [next].
  apply runs_bind, runs_lift. pose proof (dk_count _ Hok) as Hct. change BlockTarget.MAX_BLOCKS with 4096 in Hct.
  unfold checked_add. destruct (Z.ltb_spec (lba + blocks) (2 ^ 64)); [|lia]. rewrite Hc1.
  destruct (Z.leb_spec (lba + blocks) (mt_block_count t)); [|lia]. cbn [next].
  apply runs_bind, take_injected_run; [done|]. intros t2 Hb2. cbn [next]. rewrite Hi1.
  pose proof (becomes_trans _ _ _ _ _ _ _ _ _ Hb1 Hb2) as Hbb. pose proof Hbb as [Hok2 Hc2 _ _ Hi2].
  assert (Hsame : becomes t t2 (live t) (dur t) None) by (eapply becomes_ext; [exact Hl1|exact Hd1|exact Hbb]).
  assert (Hset : forall t3, becomes t2 t3 (clear_range (live t2) lba (lba + blocks)) (dur t2) None ->
    becomes t t3 (clear_range (live t) lba (lba + blocks)) (dur t) None).
  { intros t3 Hb3. pose proof (becomes_trans _ _ _ _ _ _ _ _ _ Hbb Hb3) as Hb4.
    eapply becomes_ext; [| |exact Hb4]; cbv beta; intros j Hj.
    - unfold clear_range. destruct (decide _); [done|]. by apply Hsame.
    - by apply Hsame. }
  assert (Hrun : runs (Memory.cache_discard (Z.to_nat lba) (Z.to_nat (lba + blocks)) None) t2 (fun r t' => r = Ok tt /\
    becomes t2 t' (clear_range (live t2) lba (lba + blocks)) (dur t2) None)) by (apply cache_discard_run; (done || lia)).
  destruct (injected t) as [[]|]; cbn [write_result reached].
  - apply runs_lift. by split.
  - apply runs_bind. eapply runs_mono; [exact Hrun|]. cbv beta. intros r t3 [-> Hb3]. cbn [next].
    apply runs_lift. split; [done|]. by apply Hset.
  - apply runs_lift. by split.
  - eapply runs_mono; [exact Hrun|]. cbv beta. intros r t3 [-> Hb3]. split; [done|]. by apply Hset.
Qed.

(** What [settle] leaves of each block: nothing pending, and its durable or its live
    contents. *)
Lemma settle_blocks_spec survival ds cs ps r :
  length cs = length ds -> length ps = length ds ->
  let '(ds', ps', _) := Memory.settle_blocks survival false ds cs ps r in
  length ds' = length ds /\ ps' = replicate (length ds) NotPending /\
  forall i, (i < length ds)%nat ->
    let was := match nth i ps NotPending with
               | NotPending => nth i ds zero_block | PendingWrite => nth i cs zero_block | PendingDiscard => zero_block end in
    nth i ds' zero_block = was \/ (survival <> KeepAll /\ nth i ds' zero_block = nth i ds zero_block).
Proof.
  revert cs ps r. induction ds as [|d ds IH]; intros [|c cs] [|p ps] r Hc Hp; cbn in Hc, Hp; try lia.
  { cbn. split; [done|]. split; [done|]. lia. }
  cbn [Memory.settle_blocks andb]. destruct (Memory.survives survival r) as [keep r1] eqn:Es.
  specialize (IH cs ps r1 ltac:(lia) ltac:(lia)).
  assert (Hkeep : keep = true \/ survival <> KeepAll).
  { destruct survival; [by right| |by right]. injection Es as <- _. by left. }
  destruct (Memory.settle_block p false keep d c) as [p' d'] eqn:Eb.
  destruct (Memory.settle_blocks _ _ _ _ _ _) as [[ds' ps'] r2]. destruct IH as (Hl & -> & Hi).
  assert (Hp' : p' = NotPending) by (unfold Memory.settle_block in Eb; destruct p, keep; by injection Eb).
  subst p'. cbn [length replicate]. split; [lia|]. split; [done|]. intros [|i] Hil; cbn [nth]; [|apply Hi; lia].
  unfold Memory.settle_block in Eb. destruct p, keep; injection Eb as <-; naive_solver.
Qed.

Lemma settle_run survival t :
  ok t -> exists live', becomes t (Memory.settle survival false t) live' live' (injected t) /\
    forall i, inside t i -> live' i = live t i \/ (survival <> KeepAll /\ live' i = dur t i).
Proof.
  intros []. unfold Memory.settle.
  pose proof (settle_blocks_spec survival (durable t) (cached t) (pending t) (rng t) ltac:(lia) ltac:(lia)) as Hs.
  destruct (Memory.settle_blocks _ _ _ _ _ _) as [[ds ps] r]. destruct Hs as (Hl & -> & Hi).
  exists (block_at ds). split.
  - constructor; cbn; try done.
    + constructor; cbn; try done; rewrite ?length_replicate; lia.
    + intros i Hin. unfold live, pending_at, dur; cbn.
      by destruct (nth_in_or_default (Z.to_nat i) (replicate (length (durable t)) NotPending) NotPending)
        as [Hx%list_elem_of_In%elem_of_replicate| ->]; [destruct Hx as [-> _]|].
  - intros i Hin. unfold inside in Hin. specialize (Hi (Z.to_nat i) ltac:(lia)). exact Hi.
Qed.

Lemma disk_flush_run t :
  ok t -> runs Memory.flush_blocks t (fun r t' => r = Ok tt /\ becomes t t' (live t) (live t) (injected t)).
Proof.
  intros Hok. unfold Memory.flush_blocks. apply runs_bind, begin_run; [done|]. intros t1 Hb1. cbn [next].
  apply runs_modify. split; [done|]. cbv zeta. pose proof Hb1 as [Hok1 Hc1 Hl1 Hd1 Hi1].
  set (t2 := Memory.with_faults _ t1). assert (Hok2 : ok t2) by (destruct Hok1; by constructor).
  destruct (settle_run KeepAll t2 Hok2) as (live' & Hb & Hlive).
  assert (Hb2 : becomes t (Memory.settle KeepAll false t2) live' live' (injected t)).
  { rewrite <- Hi1. change (injected t1) with (injected t2).
    destruct Hb. constructor; try done; cbn in *. { by rewrite bc_count0, Hc1. }
    - intros i Hi. apply bc_live0. unfold inside in *; cbn. by rewrite Hc1.
    - intros i Hi. apply bc_dur0. unfold inside in *; cbn. by rewrite Hc1. }
  assert (Heq : forall i, inside t i -> live' i = live t i).
  { intros i Hi. rewrite <- Hl1 by done. destruct (Hlive i) as [->|[? _]]; [|done..].
    unfold inside in *; cbn. by rewrite Hc1. }
  by eapply becomes_ext; [exact Heq|exact Heq|exact Hb2].
Qed.

Lemma crash_run survival t :
  ok t -> exists live', becomes t (Memory.crash survival t) live' live' None /\
    forall i, inside t i -> live' i = live t i \/ live' i = dur t i.
Proof.
  intros Hok. unfold Memory.crash. set (t1 := Memory.with_injected None t).
  assert (Hok1 : ok t1) by (destruct Hok; by constructor).
  destruct (settle_run survival t1 Hok1) as (live' & Hb & Hlive).
  rewrite (active_None _ (bc_ok _ _ _ _ _ Hb)). change (Memory.is_active Resurrection None) with false. cbv iota.
  exists live'. split.
  - destruct Hb. by constructor.
  - intros i Hi. destruct (Hlive i Hi) as [->|[_ ->]]; [by left|by right].
Qed.

Lemma new_ok n seed t : Memory.new n None seed = Ok t -> 0 <= n ->
  ok t /\ mt_block_count t = n /\ injected t = None /\ (forall i, live t i = zero_block) /\ forall i, dur t i = zero_block.
Proof.
  unfold Memory.new. intros Hn H0. apply rbind_Ok in Hn as ([] & Hg & Hn). apply fail_if_Ok in Hg. bool_prop.
  injection Hn as <-. change BlockTarget.MAX_BLOCKS with 4096 in *.
  assert (Hz : forall i, block_at (replicate (Z.to_nat n) zero_block) i = zero_block).
  { intros i. unfold block_at. apply nth_repeat || (rewrite nth_lookup; destruct (_ !! _) as [b|] eqn:E; [|done];
      by apply lookup_replicate in E as [-> _]). }
  split; [|split; [done|split; [done|]]].
  - constructor; cbn; change BlockTarget.MAX_BLOCKS with 4096; rewrite ?length_replicate; (done || lia).
  - split; [|exact Hz]. intros i. unfold live, pending_at; cbn.
    assert (nth (Z.to_nat i) (replicate (Z.to_nat n) NotPending) NotPending = NotPending) as ->; [|apply Hz].
    rewrite nth_lookup. destruct (_ !! _) as [b|] eqn:E; [|done]. by apply lookup_replicate in E as [-> _].
Qed.

End Disk.
