(* ===== verification/Checker.v ===== *)
(** The reference model that judges a block device: [src/tools/blockcheck/src/checker.rs].
    It drives any target of the interface; the scratch block is not state. *)

From S2P Require Import Prelude Bytes Payload BlockTarget.

Definition MAX_CHECKED_BLOCKS : Z := 2 ^ 22.
Definition MAX_REJECTED_WRITES : Z := 2 ^ 16.
Definition MAX_RECORDED_VIOLATIONS : Z := 64.

Record LbaState := {
  issued : Z;
  latest : Z;
  last_zero : Z;
  ls_durable : Z;
  durable_is_payload : bool;
  uncertain_write : Z;
  uncertain_zero : Z;
  needs_repair : bool;
}.

Inductive ViolationKind := Corrupt | LostData | Stale | NeverAcknowledged.

Record Violation := {
  vi_lba : Z;
  vi_expected : Content;
  vi_found : Content;
  vi_kind : ViolationKind;
  vi_after_crash : bool;
}.

Record Report := {
  writes : Z;
  reads : Z;
  flushes : Z;
  discarded_blocks : Z;
  no_space : Z;
  uncertain : Z;
  repairs : Z;
  violation_count : Z;
  violations : list Violation;
}.

Inductive Error :=
  | InvalidBlockCount (count : Z)
  | LbaOutOfRange (lba block_count : Z)
  | InvalidRange (lba blocks block_count : Z)
  | GeometryMismatch (model target : Z)
  | VersionOverflow (lba : Z)
  | RejectedWriteLimit
  | UncertainLimit (lba : Z)
  | Io (failure : IoFailure).

Record Checker := {
  seed : Z;
  ck_block_count : Z;
  lbas : list LbaState;
  dirty : list Z;
  rejected : gset (Z * Z);
  report : Report;
}.

Module Lba.

Definition default : LbaState :=
  {| issued := 0; latest := 0; last_zero := 0; ls_durable := 0; durable_is_payload := false; uncertain_write := 0;
     uncertain_zero := 0; needs_repair := false |}.

Definition expected (s : LbaState) : Content :=
  if (latest s =? 0) || (latest s =? last_zero s) then Zero else Version (latest s).

Definition is_dirty (s : LbaState) : bool := negb (latest s =? ls_durable s).

Definition live_violation (s : LbaState) (found : Content) (was_rejected : bool) : option ViolationKind :=
  if bool_decide (found = expected s) then None
  else match found with
       | Invalid => Some Corrupt
       | Zero => if latest s <? uncertain_zero s then None else Some LostData
       | Version version =>
           if (version =? uncertain_write s) && (latest s <? version) then None
           else if was_rejected || (latest s <? version) then Some NeverAcknowledged
           else Some Stale
       end.

Definition zero_after_crash (s : LbaState) : option ViolationKind :=
  if negb (durable_is_payload s) || (ls_durable s <? last_zero s) || (ls_durable s <? uncertain_zero s) then None
  else Some LostData.

Definition crash_violation (s : LbaState) (found : Content) (was_rejected : bool) : option ViolationKind :=
  match found with
  | Invalid => Some Corrupt
  | Zero => zero_after_crash s
  | Version version =>
      let durable_payload := durable_is_payload s && (version =? ls_durable s) in
      let is_uncertain := (version =? uncertain_write s) && (ls_durable s <? version) in
      if was_rejected || ((latest s <? version) && negb is_uncertain) then Some NeverAcknowledged
      else if durable_payload || is_uncertain || (ls_durable s <? version) then None
      else Some Stale
  end.

(** ** The fields *)

Definition with_issued (v : Z) (s : LbaState) : LbaState :=
  {| issued := v; latest := latest s; last_zero := last_zero s; ls_durable := ls_durable s;
     durable_is_payload := durable_is_payload s; uncertain_write := uncertain_write s;
     uncertain_zero := uncertain_zero s; needs_repair := needs_repair s |}.

(** [state.durable = state.latest], of [make_durable]. *)
Definition persist (s : LbaState) : LbaState :=
  {| issued := issued s; latest := latest s; last_zero := last_zero s; ls_durable := latest s;
     durable_is_payload := negb (latest s =? last_zero s); uncertain_write := uncertain_write s;
     uncertain_zero := uncertain_zero s; needs_repair := needs_repair s |}.

Definition acknowledged (version : Z) (zero : bool) (s : LbaState) : LbaState :=
  {| issued := issued s; latest := version; last_zero := if zero then version else last_zero s;
     ls_durable := ls_durable s; durable_is_payload := durable_is_payload s; uncertain_write := uncertain_write s;
     uncertain_zero := uncertain_zero s; needs_repair := needs_repair s |}.

Definition with_uncertain (version : Z) (zero : bool) (s : LbaState) : LbaState :=
  {| issued := issued s; latest := latest s; last_zero := last_zero s; ls_durable := ls_durable s;
     durable_is_payload := durable_is_payload s;
     uncertain_write := if zero then uncertain_write s else version;
     uncertain_zero := if zero then version else uncertain_zero s; needs_repair := needs_repair s |}.

Definition retired (repair : bool) (s : LbaState) : LbaState :=
  {| issued := issued s; latest := latest s; last_zero := last_zero s; ls_durable := ls_durable s;
     durable_is_payload := durable_is_payload s; uncertain_write := 0; uncertain_zero := 0; needs_repair := repair |}.

Definition with_repair (b : bool) (s : LbaState) : LbaState :=
  {| issued := issued s; latest := latest s; last_zero := last_zero s; ls_durable := ls_durable s;
     durable_is_payload := durable_is_payload s; uncertain_write := uncertain_write s;
     uncertain_zero := uncertain_zero s; needs_repair := b |}.

End Lba.

Module Checker.

Definition empty_report : Report :=
  {| writes := 0; reads := 0; flushes := 0; discarded_blocks := 0; no_space := 0; uncertain := 0; repairs := 0;
     violation_count := 0; violations := [] |}.

Definition new (seed block_count : Z) : result Error Checker :=
  fail_if ((block_count =? 0) || (MAX_CHECKED_BLOCKS <? block_count)) (InvalidBlockCount block_count) ;;?
  Ok {| seed := seed; ck_block_count := block_count; lbas := replicate (Z.to_nat block_count) Lba.default; dirty := [];
        rejected := ∅; report := empty_report |}.

Definition bump (counter amount : Z) : Z := saturating_add 64 counter amount.

Definition with_lbas (l : list LbaState) (c : Checker) : Checker :=
  {| seed := seed c; ck_block_count := ck_block_count c; lbas := l; dirty := dirty c; rejected := rejected c; report := report c |}.
Definition with_dirty (d : list Z) (c : Checker) : Checker :=
  {| seed := seed c; ck_block_count := ck_block_count c; lbas := lbas c; dirty := d; rejected := rejected c; report := report c |}.
Definition with_rejected (r : gset (Z * Z)) (c : Checker) : Checker :=
  {| seed := seed c; ck_block_count := ck_block_count c; lbas := lbas c; dirty := dirty c; rejected := r; report := report c |}.
Definition with_report (f : Report -> Report) (c : Checker) : Checker :=
  {| seed := seed c; ck_block_count := ck_block_count c; lbas := lbas c; dirty := dirty c; rejected := rejected c;
     report := f (report c) |}.

(** Adds to the counters: writes, reads, flushes, discarded blocks, no space, uncertain and
    repairs. *)
Definition count (w r f d n u p : Z) (x : Report) : Report :=
  {| writes := bump (writes x) w; reads := bump (reads x) r; flushes := bump (flushes x) f;
     discarded_blocks := bump (discarded_blocks x) d; no_space := bump (no_space x) n; uncertain := bump (uncertain x) u;
     repairs := bump (repairs x) p; violation_count := violation_count x; violations := violations x |}.

Definition slot (lba : Z) : ME Error Checker LbaState := fun c =>
  let out_of_range := LbaOutOfRange lba (ck_block_count c) in
  (if ck_block_count c <=? lba then Err out_of_range else ok_or (lbas c !! Z.to_nat lba) out_of_range, c).

(** A write through the reference that [slot] returned. *)
Definition set_slot (lba : Z) (s : LbaState) : ME Error Checker unit :=
  mmodify (fun c => with_lbas (<[Z.to_nat lba := s]> (lbas c)) c).

Definition issue (lba : Z) : ME Error Checker Z :=
  s <- slot lba ;;
  version <- mlift (ok_or (checked_add 32 (issued s) 1) (VersionOverflow lba)) ;;
  set_slot lba (Lba.with_issued version s) ;;;
  mret version.

Definition acknowledge (lba version : Z) (zero : bool) : ME Error Checker unit :=
  s <- slot lba ;;
  let newly_dirty := negb (Lba.is_dirty s) in
  set_slot lba (Lba.acknowledged version zero s) ;;;
  if newly_dirty then mmodify (fun c => with_dirty (dirty c ++ [lba]) c) else mret tt.

Definition reject (lba version : Z) : ME Error Checker unit :=
  c <- mget ;;
  mlift (fail_if (MAX_REJECTED_WRITES <=? Z.of_nat (size (rejected c))) RejectedWriteLimit) ;;;
  mmodify (fun c => with_rejected ({[(lba, version)]} ∪ rejected c) c).

Definition mark_uncertain (lba version : Z) (zero : bool) : ME Error Checker unit :=
  s <- slot lba ;;
  mlift (fail_if (negb ((if zero then uncertain_zero s else uncertain_write s) =? 0)) (UncertainLimit lba)) ;;;
  set_slot lba (Lba.with_uncertain version zero s).

Definition apply (lba version : Z) (zero : bool) (r : result IoFailure unit) : ME Error Checker unit :=
  match r with
  | Ok _ => acknowledge lba version zero
  | Err (NoSpace | Unsupported) => if zero then mret tt else reject lba version
  | Err (Other _) => mark_uncertain lba version zero
  | Panic => mlift Panic
  end.

Definition finish (r : result IoFailure unit) : ME Error Checker unit :=
  match r with
  | Ok _ => mret tt
  | Err failure =>
      mmodify (with_report (match failure with
                            | NoSpace => count 0 0 0 0 1 0 0
                            | Other _ => count 0 0 0 0 0 1 0
                            | Unsupported => fun x => x
                            end)) ;;;
      mlift (Err (Io failure))
  | Panic => mlift Panic
  end.

Definition was_rejected (lba : Z) (found : Content) (c : Checker) : bool :=
  match found with
  | Version version => bool_decide ((lba, version) ∈ rejected c)
  | Zero | Invalid => false
  end.

Definition record (v : option Violation) : ME Error Checker unit :=
  match v with
  | None => mret tt
  | Some v => mmodify (with_report (fun x =>
      {| writes := writes x; reads := reads x; flushes := flushes x; discarded_blocks := discarded_blocks x;
         no_space := no_space x; uncertain := uncertain x; repairs := repairs x;
         violation_count := bump (violation_count x) 1;
         violations := if lenZ (violations x) <? MAX_RECORDED_VIOLATIONS then violations x ++ [v] else violations x |}))
  end.

(** [make_durable] over the dirty addresses. *)
Definition make_durable (dirty : list Z) (l : list LbaState) : list LbaState :=
  foldl (fun l lba => alter Lba.persist (Z.to_nat lba) l) l dirty.

Section target.
Context {T : Type} `{!BlockTarget T}.

(** A step of the model, and a request to the target whose failure is a value. *)
Definition model {A} (m : ME Error Checker A) : ME Error (Checker * T) A := zoom fst (fun c st => (c, st.2)) m.
Definition request {A} (m : ME IoFailure T A) : ME Error (Checker * T) (result IoFailure A) :=
  zoom snd (fun t st => (st.1, t)) (mtry m).

Definition submit_write (lba : Z) (zero : bool) : ME Error (Checker * T) unit :=
  version <- model (issue lba) ;;
  st <- mget ;;
  let block := if zero then zero_block else Payload.fill (seed (fst st)) lba version in
  r <- request (BlockTarget.write lba block) ;;
  model (apply lba version zero r) ;;;
  model (finish r) ;;;
  model (mmodify (with_report (count 1 0 0 0 0 0 0))).

Definition write (lba : Z) : ME Error (Checker * T) unit := submit_write lba false.
Definition write_zero (lba : Z) : ME Error (Checker * T) unit := submit_write lba true.

Definition discard (lba blocks : Z) : ME Error (Checker * T) unit :=
  st <- mget ;;
  let out_of_range := InvalidRange lba blocks (ck_block_count (fst st)) in
  stop <- mlift (match checked_add 64 lba blocks with
                 | Some stop => if (0 <? blocks) && (stop <=? ck_block_count (fst st)) then Ok stop else Err out_of_range
                 | None => Err out_of_range
                 end) ;;
  mfor (seqZ lba (stop - lba)) (fun each => model (issue each) ;;; mret tt) ;;;
  r <- request (BlockTarget.discard lba blocks) ;;
  mfor (seqZ lba (stop - lba)) (fun each => s <- model (slot each) ;; model (apply each (issued s) true r)) ;;;
  model (finish r) ;;;
  model (mmodify (with_report (count 0 0 0 blocks 0 0 0))).

Definition flush : ME Error (Checker * T) unit :=
  r <- request BlockTarget.flush ;;
  mlift (map_err Io r) ;;;
  model (mmodify (fun c => with_report (count 0 0 1 0 0 0 0) (with_dirty [] (with_lbas (make_durable (dirty c) (lbas c)) c)))).

Definition read_content (lba : Z) : ME Error (Checker * T) Content :=
  r <- request (BlockTarget.read lba) ;;
  block <- mlift (map_err Io r) ;;
  model (mmodify (with_report (count 0 1 0 0 0 0 0))) ;;;
  st <- mget ;;
  mret (Payload.decode (seed (fst st)) block lba).

Definition read (lba : Z) : ME Error (Checker * T) unit :=
  s <- model (slot lba) ;;
  found <- read_content lba ;;
  st <- mget ;;
  let kind := Lba.live_violation s found (was_rejected lba found (fst st)) in
  model (record (option_map (fun kind =>
    {| vi_lba := lba; vi_expected := Lba.expected s; vi_found := found; vi_kind := kind; vi_after_crash := false |}) kind)).

Definition verify_after_crash (lba : Z) : ME Error (Checker * T) unit :=
  found <- read_content lba ;;
  st <- mget ;;
  let rejected := was_rejected lba found (fst st) in
  before <- model (slot lba) ;;
  model (set_slot lba (Lba.retired (negb (bool_decide (found = Lba.expected before))) before)) ;;;
  (if uncertain_write before =? 0 then mret tt else model (reject lba (uncertain_write before))) ;;;
  let kind := Lba.crash_violation before found rejected in
  model (record (option_map (fun kind =>
    {| vi_lba := lba; vi_expected := Lba.expected before; vi_found := found; vi_kind := kind; vi_after_crash := true |}) kind)).

Definition repair (lba : Z) : ME Error (Checker * T) unit :=
  s <- model (slot lba) ;;
  if negb (needs_repair s) then mret tt
  else
    model (set_slot lba (Lba.with_repair false s)) ;;;
    let zero := bool_decide (Lba.expected s = Zero) in
    model (mmodify (with_report (count 0 0 0 0 0 0 1))) ;;;
    submit_write lba zero.

Definition recover : ME Error (Checker * T) unit :=
  st <- mget ;;
  mlift (fail_if (negb (block_count (snd st) =? ck_block_count (fst st)))
           (GeometryMismatch (ck_block_count (fst st)) (block_count (snd st)))) ;;;
  mfor (seqZ 0 (ck_block_count (fst st))) verify_after_crash ;;;
  mfor (seqZ 0 (ck_block_count (fst st))) repair ;;;
  flush.

End target.
End Checker.
