(* ===== verification/CheckerSound.v ===== *)
(** The verdicts of the reference model, address by address: the versions of an address,
    what a read may find there before and after a crash, and how a request, a flush and a
    recovery change that; for [live_violation] and [crash_violation] of
    [src/tools/blockcheck/src/checker.rs]. *)

From S2P Require Import Prelude Bytes Text Payload BlockTarget Disk Checker.

Module Sound.

(** ** One address *)

(** The block [b] of [lba] is what a read should take for [k]. *)
Definition shows (seed lba : Z) (b : list Z) (k : Content) : Prop :=
  match k with
  | Zero => b = zero_block
  | Version v => is_version v /\ b = Payload.fill seed lba v
  | Invalid => False
  end.

(** The versions of an address, the rejected ones being [R]. *)
Record versions (s : LbaState) (R : Z -> Prop) : Prop := {
  ve_durable : 0 <= ls_durable s <= latest s;
  ve_latest : latest s <= issued s < 2 ^ 32;
  ve_zero : 0 <= last_zero s <= latest s;
  ve_payload : latest s = ls_durable s -> durable_is_payload s = negb (latest s =? last_zero s);
  ve_write : 0 <= uncertain_write s <= issued s;
  ve_clear : 0 <= uncertain_zero s <= issued s;
  ve_own : uncertain_write s <> 0 -> uncertain_write s <> latest s /\ uncertain_write s <> ls_durable s;
  ve_rejected : forall v, R v -> v <= issued s;
}.

(** What a read may find before a crash. *)
Definition live_ok (s : LbaState) (k : Content) : Prop :=
  k = Lba.expected s \/ (k = Version (uncertain_write s) /\ latest s < uncertain_write s) \/
  (k = Zero /\ latest s < uncertain_zero s).

(** What a read may find after one. *)
Definition crash_ok (s : LbaState) (R : Z -> Prop) (k : Content) : Prop :=
  match k with
  | Zero => durable_is_payload s = false \/ ls_durable s < last_zero s \/ ls_durable s < uncertain_zero s
  | Version v => ~ R v /\ v <= issued s /\
      ((durable_is_payload s = true /\ v = ls_durable s) \/ (v = uncertain_write s /\ ls_durable s < v) \/
       ls_durable s < v <= latest s)
  | Invalid => False
  end.

Lemma live_ok_quiet s k rejected :
  live_ok s k -> Lba.live_violation s k rejected = None.
Proof.
  intros Hk. unfold Lba.live_violation. case_bool_decide as E; [done|].
  destruct Hk as [?|[[-> Hlt]|[-> Hlt]]]; [done| |].
  - destruct (Z.eqb_spec (uncertain_write s) (uncertain_write s)), (Z.ltb_spec (latest s) (uncertain_write s)); (done || lia).
  - destruct (Z.ltb_spec (latest s) (uncertain_zero s)); (done || lia).
Qed.

Lemma crash_ok_quiet s (R : Z -> Prop) k (rejected : bool) :
  versions s R -> crash_ok s R k -> (rejected = true -> exists v, k = Version v /\ R v) ->
  Lba.crash_violation s k rejected = None.
Proof.
  intros [] Hk Hr. unfold Lba.crash_violation. destruct k as [|v|]; [| |done]; cbn in Hk.
  - unfold Lba.zero_after_crash. destruct Hk as [->|[Hk|Hk]]; [done|..].
    + destruct (Z.ltb_spec (ls_durable s) (last_zero s)); [|lia]. by rewrite orb_true_r.
    + destruct (Z.ltb_spec (ls_durable s) (uncertain_zero s)); [|lia]. by rewrite orb_true_r.
  - destruct Hk as (HR & _ & Hk). destruct rejected.
    { destruct (Hr eq_refl) as (v' & [= <-] & HR'). done. }
    cbn [orb]. destruct Hk as [[-> ->]|[[-> Hlt]|Hlt]].
    + destruct (Z.ltb_spec (latest s) (ls_durable s)); [lia|]. by rewrite Z.eqb_refl.
    + rewrite Z.eqb_refl. destruct (Z.ltb_spec (ls_durable s) (uncertain_write s)); [|lia].
      cbn [andb negb]. by rewrite andb_false_r, orb_true_r.
    + destruct (Z.ltb_spec (latest s) v), (Z.ltb_spec (ls_durable s) v); try lia. cbn [andb]. by rewrite orb_true_r.
Qed.

(** Closes the fields of [versions] that are arithmetic. *)
Ltac by_field :=
  intros; repeat match goal with
  | Hu : ?P, Ho : ?P -> _ /\ _ |- _ => specialize (Ho Hu)
  | Hw : ?R ?w, Hr : forall v, ?R v -> v <= _ |- _ => specialize (Hr w Hw); clear Hw
  end; lia.

(** The state of an address of which one more version was issued. *)
Definition issue (s : LbaState) : LbaState := Lba.with_issued (issued s + 1) s.

(** The contents that a request of the version [v] would leave. *)
Definition content_of (v : Z) (zero : bool) : Content := if zero then Zero else Version v.

Section transitions.
Context (s : LbaState) (R : Z -> Prop) (Hv : versions s R) (Hroom : issued s + 1 < 2 ^ 32).

Let v : Z := issued s + 1.

Lemma not_rejected : ~ R v.
Proof. intros HR. pose proof (ve_rejected _ _ Hv v HR). unfold v in *. lia. Qed.

(** An acknowledged request. *)
Lemma acknowledge_versions zero : versions (Lba.acknowledged v zero (issue s)) R.
Proof.
  pose proof Hv as []. constructor; cbn; unfold v; destruct zero; by_field.
Qed.

Lemma acknowledge_expected zero : Lba.expected (Lba.acknowledged v zero (issue s)) = content_of v zero.
Proof.
  pose proof Hv as []. unfold Lba.expected, content_of; cbn. destruct zero.
  - by rewrite Z.eqb_refl, orb_true_r.
  - destruct (Z.eqb_spec v 0), (Z.eqb_spec v (last_zero s)); unfold v in *; (done || lia).
Qed.

Lemma acknowledge_crash zero k : crash_ok s R k -> crash_ok (Lba.acknowledged v zero (issue s)) R k.
Proof.
  pose proof Hv as []. destruct k as [|w|]; cbn; [|intros (HR & Hw & Hc)|done].
  - intros [?|[?|?]]; [by left| |by right; right]. right; left. destruct zero; unfold v; lia.
  - split; [done|]. split; [lia|]. destruct Hc as [?|[?|?]]; [by left|by right; left|right; right; unfold v; lia].
Qed.

Lemma acknowledge_new zero : crash_ok (Lba.acknowledged v zero (issue s)) R (content_of v zero).
Proof.
  pose proof Hv as []. destruct zero; cbn; [right; left; unfold v; lia|].
  split; [apply not_rejected|]. split; [lia|]. right; right. unfold v. lia.
Qed.

(** A request that was refused, and whose version is never to be seen. *)
Lemma reject_versions : versions (issue s) (fun w => w = v \/ R w).
Proof.
  pose proof Hv as []. constructor; cbn; try done; try by_field. intros w [->|Hw]; [unfold v; lia|by_field].
Qed.

Lemma issue_versions : versions (issue s) R.
Proof. pose proof Hv as []. constructor; cbn; try done; by_field. Qed.

Lemma reject_crash k : crash_ok s R k -> crash_ok (issue s) (fun w => w = v \/ R w) k.
Proof.
  destruct k as [|w|]; cbn; [done|intros (HR & Hw & Hc)|done]. split; [intros [->|?]; [unfold v in Hw; lia|done]|].
  split; [lia|done].
Qed.

Lemma issue_crash k : crash_ok s R k -> crash_ok (issue s) R k.
Proof. destruct k as [|w|]; cbn; [done|intros (HR & Hw & Hc)|done]. split; [done|]. split; [lia|done]. Qed.

Lemma issue_live k : live_ok s k -> live_ok (issue s) k.
Proof. done. Qed.

(** A request of unknown effect. *)
Definition slot_of (zero : bool) (s : LbaState) : Z := if zero then uncertain_zero s else uncertain_write s.

Lemma uncertain_versions zero : versions (Lba.with_uncertain v zero (issue s)) R.
Proof.
  pose proof Hv as []. constructor; cbn; try done; unfold v; destruct zero; by_field.
Qed.

Lemma uncertain_live zero k :
  slot_of zero s = 0 -> live_ok s k -> live_ok (Lba.with_uncertain v zero (issue s)) k.
Proof.
  pose proof Hv as []. unfold live_ok. destruct zero; cbn; intros Hs [->|[[-> Hlt]|[-> Hlt]]]; naive_solver lia.
Qed.

Lemma uncertain_live_new zero : live_ok (Lba.with_uncertain v zero (issue s)) (content_of v zero).
Proof. pose proof Hv as []. unfold live_ok. destruct zero; cbn; [right; right|right; left]; unfold v; (split; [done|lia]). Qed.

Lemma uncertain_crash zero k :
  slot_of zero s = 0 -> crash_ok s R k -> crash_ok (Lba.with_uncertain v zero (issue s)) R k.
Proof.
  pose proof Hv as []. intros Hs. destruct k as [|w|]; cbn; [|intros (HR & Hw & Hc)|done].
  - intros [?|[?|?]]; [by left|by right; left|]. right; right. destruct zero; unfold v, slot_of in *; lia.
  - split; [done|]. split; [lia|]. destruct Hc as [?|[[-> Hc]|?]]; [by left| |by right; right].
    right; left. destruct zero; [done|]. unfold slot_of in Hs. lia.
Qed.

Lemma uncertain_new zero : crash_ok (Lba.with_uncertain v zero (issue s)) R (content_of v zero).
Proof.
  pose proof Hv as []. destruct zero; cbn; [right; right; unfold v; lia|].
  split; [apply not_rejected|]. split; [unfold v; lia|]. right; left. split; [done|unfold v; lia].
Qed.

End transitions.

(** A flush: the live contents are durable. *)
Lemma persist_versions s R : versions s R -> versions (Lba.persist s) R.
Proof.
  intros []. constructor; cbn; try done; lia.
Qed.

Lemma persist_live s k : live_ok s k -> live_ok (Lba.persist s) k.
Proof. done. Qed.

Lemma persist_crash s R k : versions s R -> live_ok s k -> crash_ok s R k -> crash_ok (Lba.persist s) R k.
Proof.
  intros [] Hl Hc. destruct Hl as [->|[[-> Hlt]|[-> Hlt]]].
  - unfold Lba.expected in *. destruct (Z.eqb_spec (latest s) 0) as [E|E]; cbn [orb] in *.
    + cbn. left. assert (last_zero s = 0) by lia. rewrite E. destruct (Z.eqb_spec 0 (last_zero s)); (done || lia).
    + destruct (Z.eqb_spec (latest s) (last_zero s)) as [E2|E2]; cbn; [left; by rewrite <- E2, Z.eqb_refl|].
      destruct Hc as (HR & Hi & _). split; [done|]. split; [done|]. left.
      destruct (Z.eqb_spec (latest s) (last_zero s)); [done|by split].
  - destruct Hc as (HR & Hi & _). cbn. split; [done|]. split; [done|]. right; left. by split.
  - cbn. by right; right.
Qed.

(** The verdict of a recovery: the uncertain requests are retired. *)
Lemma retired_versions s R b : versions s R -> versions (Lba.retired b s) (fun w => (uncertain_write s <> 0 /\ w = uncertain_write s) \/ R w).
Proof.
  intros []. constructor; cbn; try done; try by_field. intros w [[_ ->]|Hw]; [lia|by_field].
Qed.

Lemma retired_crash s R b :
  versions s R -> crash_ok s R (Lba.expected s) ->
  crash_ok (Lba.retired b s) (fun w => (uncertain_write s <> 0 /\ w = uncertain_write s) \/ R w) (Lba.expected (Lba.retired b s)).
Proof.
  intros [] Hc. change (Lba.expected (Lba.retired b s)) with (Lba.expected s). unfold Lba.expected in *.
  destruct (Z.eqb_spec (latest s) 0) as [E|E]; cbn [orb] in *; [|destruct (Z.eqb_spec (latest s) (last_zero s)) as [E2|E2]]; cbn in *.
  - left. rewrite ve_payload0 by lia. assert (last_zero s = 0) by lia. rewrite E. destruct (Z.eqb_spec 0 (last_zero s)); (done || lia).
  - destruct (Z.eq_dec (latest s) (ls_durable s)) as [E3|E3].
    + left. by apply ve_payload0.
    + right; left. lia.
  - destruct Hc as (HR & Hi & Hc). split; [intros [[Hu Hw]|?]; [|done]; specialize (ve_own0 Hu); lia|]. split; [done|].
    destruct (Z.eq_dec (latest s) (ls_durable s)) as [E3|E3].
    + left. split; [by apply ve_payload0|done].
    + right; right. lia.
Qed.

Lemma persist_persist s : Lba.persist (Lba.persist s) = Lba.persist s.
Proof. done. Qed.

(** An address that is not dirty is as durable as it gets. *)
Lemma persist_clean s R : versions s R -> latest s = ls_durable s -> Lba.persist s = s.
Proof. intros [] He. destruct s; cbn in *. unfold Lba.persist; cbn. rewrite ve_payload0 by done. by subst. Qed.

End Sound.
