(* ===== verification/CheckerRun.v ===== *)
(** The steps of the reference model against a disk without faults: what each operation of
    [src/tools/blockcheck/src/checker.rs] leaves of the model and of the disk, seen address
    by address. *)

From S2P Require Import Prelude Bytes Text Payload BlockTarget Disk Checker CheckerSound.

Module Rounds.

Import Sound.

(** ** The model and the disk together *)

Definition st (c : Checker) (i : Z) : LbaState := nth (Z.to_nat i) (lbas c) Lba.default.
Definition refused (c : Checker) (i : Z) : Z -> Prop := fun v => (i, v) ∈ rejected c.

(** What holds of an address: its state, its rejected versions, and what a read and a crash
    would find there. *)
Definition Phase : Type := Z -> LbaState -> (Z -> Prop) -> Content -> Content -> Prop.

Definition quiet (c : Checker) : Prop := violation_count (report c) = 0.

(** The shape of the model. *)
Record sized (c : Checker) (n : Z) : Prop := {
  sz_count : ck_block_count c = n;
  sz_lbas : lenZ (lbas c) = n;
  sz_seed : is_u64 (seed c);
  sz_dirty : forall i, 0 <= i < n -> latest (st c i) <> ls_durable (st c i) -> i ∈ dirty c;
  sz_inside : forall i, i ∈ dirty c -> 0 <= i < n;
}.

Record tied (P : Phase) (c : Checker) (t : MemoryTarget) : Prop := {
  ti_disk : Disk.ok t;
  ti_sized : sized c (mt_block_count t);
  ti_quiet : quiet c;
  ti_at : forall i, Disk.inside t i -> exists L D,
    shows (seed c) i (Disk.live t i) L /\ shows (seed c) i (Disk.dur t i) D /\ P i (st c i) (refused c i) L D;
}.

(** A phase that looks at the rejected versions only through membership. *)
Definition extensional (P Q : Phase) (i : Z) : Prop :=
  forall s (R R' : Z -> Prop) L D, (forall v, R v <-> R' v) -> P i s R L D -> Q i s R' L D.

Lemma tied_mono (P Q : Phase) c t :
  (forall i s R L D, Disk.inside t i -> P i s R L D -> Q i s R L D) -> tied P c t -> tied Q c t.
Proof.
  intros Hpq []. constructor; try done. intros i Hi. destruct (ti_at0 i Hi) as (L & D & HL & HD & HP).
  exists L, D. split; [done|]. split; [done|]. by apply Hpq.
Qed.

(** ** The steps of the model *)

Definition put (i : Z) (s : LbaState) (c : Checker) : Checker := Checker.with_lbas (<[Z.to_nat i := s]> (lbas c)) c.

Lemma st_put c n i j s :
  sized c n -> 0 <= i < n -> 0 <= j -> st (put i s c) j = if decide (j = i) then s else st c j.
Proof.
  intros [] Hi Hj. unfold st, put; cbn. rewrite !nth_lookup. destruct (decide (j = i)) as [->|Hne].
  - by rewrite list_lookup_insert_eq by lia.
  - by rewrite list_lookup_insert_ne by lia.
Qed.

Lemma slot_run c n i Q : sized c n -> 0 <= i < n -> Q (Ok (st c i)) c -> runs (Checker.slot i) c Q.
Proof.
  intros [] Hi HQ. unfold runs, Checker.slot; cbn. destruct (Z.leb_spec (ck_block_count c) i); [lia|].
  assert (lbas c !! Z.to_nat i = Some (st c i)) as ->; [|done].
  destruct (lbas c !! Z.to_nat i) as [s|] eqn:E; [unfold st; by erewrite nth_lookup_Some|].
  apply lookup_ge_None in E. lia.
Qed.

Lemma slot_outside c i Q : ck_block_count c <= i -> (forall e, Q (Err (LbaOutOfRange i e)) c) -> runs (Checker.slot i) c Q.
Proof. intros Hi HQ. unfold runs, Checker.slot; cbn. destruct (Z.leb_spec (ck_block_count c) i); [apply HQ|lia]. Qed.

Lemma issue_run c n i Q :
  sized c n -> 0 <= i < n ->
  Q (Err (VersionOverflow i)) c ->
  (issued (st c i) + 1 < 2 ^ 32 -> Q (Ok (issued (st c i) + 1)) (put i (issue (st c i)) c)) ->
  runs (Checker.issue i) c Q.
Proof.
  intros Hs Hi He HQ. unfold Checker.issue. eapply runs_bind, slot_run; [done..|]. cbn [next]. apply runs_bind, runs_lift.
  unfold checked_add. destruct (Z.ltb_spec (issued (st c i) + 1) (2 ^ 32)); cbn [ok_or next]; [|done].
  apply runs_bind. unfold Checker.set_slot. apply runs_modify. cbn [next]. apply runs_ret. by apply HQ.
Qed.

(** [newly_dirty]. *)
Definition soil (i : Z) (s : LbaState) (c : Checker) : Checker :=
  if Lba.is_dirty s then c else Checker.with_dirty (dirty c ++ [i]) c.

Lemma acknowledge_run c n i v zero Q :
  sized c n -> 0 <= i < n ->
  Q (Ok tt) (soil i (st c i) (put i (Lba.acknowledged v zero (st c i)) c)) -> runs (Checker.acknowledge i v zero) c Q.
Proof.
  intros Hs Hi HQ. unfold Checker.acknowledge. eapply runs_bind, slot_run; [done..|]. cbn [next].
  apply runs_bind. unfold Checker.set_slot. apply runs_modify. cbn [next]. unfold soil in HQ. unfold Lba.is_dirty in *.
  destruct (negb (latest (st c i) =? _)); cbn [negb]; [by apply runs_ret|]. by apply runs_modify.
Qed.

Definition refuse (i v : Z) (c : Checker) : Checker := Checker.with_rejected ({[(i, v)]} ∪ rejected c) c.

Lemma refused_refuse c i v j w : refused (refuse i v c) j w <-> (j = i /\ w = v) \/ refused c j w.
Proof. unfold refused, refuse; cbn. set_solver. Qed.

Lemma reject_run c i v Q :
  Q (Err RejectedWriteLimit) c -> Q (Ok tt) (refuse i v c) -> runs (Checker.reject i v) c Q.
Proof.
  intros He HQ. unfold Checker.reject. apply runs_bind, runs_get. cbn [next]. apply runs_bind, runs_lift.
  unfold fail_if. destruct (_ <=? _); cbn [next]; [done|]. by apply runs_modify.
Qed.

Lemma mark_uncertain_run c n i v zero Q :
  sized c n -> 0 <= i < n ->
  Q (Err (UncertainLimit i)) c ->
  (slot_of zero (st c i) = 0 -> Q (Ok tt) (put i (Lba.with_uncertain v zero (st c i)) c)) ->
  runs (Checker.mark_uncertain i v zero) c Q.
Proof.
  intros Hs Hi He HQ. unfold Checker.mark_uncertain. eapply runs_bind, slot_run; [done..|]. cbn [next].
  apply runs_bind, runs_lift. change (if zero then uncertain_zero (st c i) else uncertain_write (st c i)) with (slot_of zero (st c i)).
  unfold fail_if. destruct (Z.eqb_spec (slot_of zero (st c i)) 0); cbn [negb next]; [|done].
  apply runs_modify. by apply HQ.
Qed.

Lemma model_run {A} (m : ME Error Checker A) c (t : MemoryTarget) Q :
  runs m c (fun r c' => Q r (c', t)) -> runs (Checker.model m) (c, t) Q.
Proof. intros HQ. unfold Checker.model. by apply runs_zoom. Qed.

Lemma request_run {A} (m : ME IoFailure MemoryTarget A) c t (Q : result Error (result IoFailure A) -> _ -> Prop) :
  runs m t (fun r t' => match r with Panic => Q Panic (c, t') | r => Q (Ok r) (c, t') end) -> runs (Checker.request m) (c, t) Q.
Proof. intros HQ. unfold Checker.request. apply runs_zoom. cbn [snd]. by apply runs_try. Qed.

(** ** What a step preserves *)

Lemma put_sized c n i s :
  sized c n -> 0 <= i < n -> (latest s <> ls_durable s -> i ∈ dirty c) -> sized (put i s c) n.
Proof.
  intros Hs Hi Hd. pose proof Hs as []. constructor; try done.
  - unfold put; cbn. by rewrite length_insert.
  - intros j Hj. rewrite (st_put c n i j s Hs Hi) by lia. destruct (decide (j = i)) as [->|]; [done|by apply sz_dirty0].
Qed.

Lemma issue_sized c n i : sized c n -> 0 <= i < n -> sized (put i (issue (st c i)) c) n.
Proof. intros Hs Hi. apply put_sized; [done..|]. cbn. by apply (sz_dirty _ _ Hs). Qed.

Lemma dirty_sized c n i :
  sized c n -> 0 <= i < n -> forall s, sized (put i s (Checker.with_dirty (dirty c ++ [i]) c)) n.
Proof.
  intros Hs Hi s. assert (sized (Checker.with_dirty (dirty c ++ [i]) c) n).
  { destruct Hs. constructor; cbn; try done.
    - intros j Hj Hl. apply elem_of_app. left. by apply sz_dirty0.
    - intros j [Hj|Hj]%elem_of_app; [by apply sz_inside0|]. apply list_elem_of_singleton in Hj. by subst. }
  apply put_sized; [done..|]. intros _. cbn. apply elem_of_app. right. by apply list_elem_of_singleton.
Qed.

Lemma acknowledged_sized c n i s :
  sized c n -> 0 <= i < n -> sized (soil i (st c i) (put i s c)) n.
Proof.
  intros Hs Hi. unfold soil. destruct (Lba.is_dirty (st c i)) eqn:E.
  - apply put_sized; [done..|]. intros _. apply (sz_dirty _ _ Hs); [done|]. unfold Lba.is_dirty in E. bool_prop. done.
  - exact (dirty_sized c n i Hs Hi s).
Qed.

Lemma refuse_sized c n i v : sized c n -> sized (refuse i v c) n.
Proof. intros []. by constructor. Qed.

(** A change to one address. *)
Lemma tied_at (P Q : Phase) c t c' t' l' d' inj i s :
  tied P c t -> Disk.inside t i -> Disk.becomes t t' l' d' inj ->
  (forall j, j <> i -> l' j = Disk.live t j /\ d' j = Disk.dur t j) ->
  seed c' = seed c -> sized c' (mt_block_count t) -> quiet c' ->
  (forall j, 0 <= j -> st c' j = if decide (j = i) then s else st c j) ->
  (forall j v, j <> i -> refused c' j v <-> refused c j v) ->
  (forall j, Disk.inside t j -> j <> i -> extensional P Q j) ->
  (forall L D, shows (seed c) i (Disk.live t i) L -> shows (seed c) i (Disk.dur t i) D -> P i (st c i) (refused c i) L D ->
     exists L' D', shows (seed c) i (l' i) L' /\ shows (seed c) i (d' i) D' /\ Q i s (refused c' i) L' D') ->
  tied Q c' t'.
Proof.
  intros Ht Hi Hb Hothers Hseed Hsized Hquiet Hst Href Hext Hat. pose proof Hb as []. constructor.
  - done.
  - by rewrite bc_count.
  - done.
  - intros j Hj. assert (Hj' : Disk.inside t j) by (unfold Disk.inside in *; by rewrite <- bc_count).
    rewrite bc_live, bc_dur, Hseed, Hst by (done || (unfold Disk.inside in Hj'; lia)).
    destruct (decide (j = i)) as [->|Hne].
    + destruct (ti_at _ _ _ Ht i Hi) as (L & D & HL & HD & HP). by apply (Hat L D).
    + destruct (ti_at _ _ _ Ht j Hj') as (L & D & HL & HD & HP). destruct (Hothers j Hne) as [-> ->].
      exists L, D. split; [done|]. split; [done|]. eapply Hext; [done..| |exact HP]. intros v. by rewrite Href.
Qed.

(** The same, of the model alone. *)
Lemma tied_model (P Q : Phase) c t c' i s :
  tied P c t -> Disk.inside t i ->
  seed c' = seed c -> sized c' (mt_block_count t) -> quiet c' ->
  (forall j, 0 <= j -> st c' j = if decide (j = i) then s else st c j) ->
  (forall j v, j <> i -> refused c' j v <-> refused c j v) ->
  (forall j, Disk.inside t j -> j <> i -> extensional P Q j) ->
  (forall L D, P i (st c i) (refused c i) L D -> Q i s (refused c' i) L D) ->
  tied Q c' t.
Proof.
  intros Ht Hi Hseed Hsized Hquiet Hst Href Hext Hat.
  eapply tied_at; [exact Ht|exact Hi|apply Disk.becomes_refl; apply Ht|done|done|done|done|exact Hst|done|done|].
  intros L D HL HD HP. exists L, D. split; [done|]. split; [done|]. by apply Hat.
Qed.

(** A step of the disk that changes no contents. *)
Lemma tied_same P c t t' inj :
  Disk.becomes t t' (Disk.live t) (Disk.dur t) inj -> tied P c t -> tied P c t'.
Proof.
  intros [] []. constructor; [done|by rewrite bc_count|done|]. intros i Hi.
  assert (Hi' : Disk.inside t i) by (unfold Disk.inside in *; by rewrite <- bc_count).
  rewrite bc_live, bc_dur by done. by apply ti_at0.
Qed.

(** Counters that are not the violations. *)
Definition harmless (f : Report -> Report) : Prop := forall x, violation_count (f x) = violation_count x.

Lemma tied_report P c t f : harmless f -> tied P c t -> tied P (Checker.with_report f c) t.
Proof.
  intros Hf []. constructor; [done| |by unfold quiet; cbn; rewrite Hf|done]. by destruct ti_sized0; constructor.
Qed.

Lemma count_harmless w r f d n u p : harmless (Checker.count w r f d n u p).
Proof. done. Qed.

(** ** Phases *)

#[export] Instance versions_proper : Proper (eq ==> pointwise_relation Z iff ==> iff) versions.
Proof. intros s ? <- R R' HR. split; intros []; constructor; try done; intros v Hv; apply ve_rejected0; by apply HR. Qed.

#[export] Instance crash_ok_proper : Proper (eq ==> pointwise_relation Z iff ==> eq ==> iff) crash_ok.
Proof. intros s ? <- R R' HR k ? <-. destruct k as [|v|]; cbn; [done| |done]. by rewrite (HR v). Qed.

(** Between operations. *)
Record steady (s : LbaState) (R : Z -> Prop) (L D : Content) : Prop := {
  sd_versions : versions s R;
  sd_live : live_ok s L;
  sd_crash : crash_ok s R L;
  sd_durable : crash_ok s R D;
  sd_repair : needs_repair s = false;
}.

#[export] Instance steady_proper : Proper (eq ==> pointwise_relation Z iff ==> eq ==> eq ==> iff) steady.
Proof.
  intros s ? <- R R' HR L ? <- D ? <-. split; intros []; constructor; try done; first [by rewrite HR | by rewrite <- HR].
Qed.

(** While a request is under way: its version is issued, and a disk that takes it has the
    contents [taken]. *)
Definition waiting (base : LbaState -> (Z -> Prop) -> Content -> Content -> Prop) (taken : option bool)
    (s : LbaState) (R : Z -> Prop) (L D : Content) : Prop :=
  exists s0 L0, s = issue s0 /\ issued s0 + 1 < 2 ^ 32 /\ base s0 R L0 D /\
    L = match taken with Some zero => content_of (issued s) zero | None => L0 end.

(** The settled outcomes of a request. *)
Lemma steady_acknowledged zero s R L D :
  waiting steady (Some zero) s R L D -> steady (Lba.acknowledged (issued s) zero s) R L D.
Proof.
  intros (s0 & L0 & -> & Hroom & [] & ->). constructor.
  - by apply acknowledge_versions.
  - left. symmetry. by apply (acknowledge_expected _ R).
  - by apply acknowledge_new.
  - by apply acknowledge_crash.
  - done.
Qed.

Lemma steady_kept s R L D : waiting steady None s R L D -> steady s R L D.
Proof.
  intros (s0 & L0 & -> & Hroom & [] & ->). constructor; [by apply issue_versions|done|by apply issue_crash..|done].
Qed.

Lemma steady_refused s R R' L D :
  waiting steady None s R L D -> (forall w, R' w <-> w = issued s \/ R w) -> steady s R' L D.
Proof.
  intros (s0 & L0 & -> & Hroom & [] & ->) HR. rewrite (steady_proper _ _ eq_refl R' _ HR L0 _ eq_refl D _ eq_refl).
  constructor; [by apply reject_versions|done|by apply reject_crash..|done].
Qed.

Lemma steady_uncertain taken zero s R L D :
  waiting steady taken s R L D -> taken = None \/ taken = Some zero -> slot_of zero s = 0 ->
  steady (Lba.with_uncertain (issued s) zero s) R L D.
Proof.
  intros (s0 & L0 & -> & Hroom & [] & ->) Htaken Hslot. constructor.
  - by apply uncertain_versions.
  - destruct Htaken as [-> | ->]; [by apply (uncertain_live _ R)|by apply (uncertain_live_new _ R)].
  - destruct Htaken as [-> | ->]; [by apply uncertain_crash|by apply uncertain_new].
  - by apply uncertain_crash.
  - done.
Qed.

End Rounds.
