(* ===== verification/CheckerSteps.v ===== *)
(** The operations of the reference model against a disk without faults: a request, from
    its version to its verdict, and the loops over the addresses. *)

From S2P Require Import Prelude Bytes Text Payload BlockTarget Disk Checker CheckerSound CheckerRun.

Module Steps.

Import Sound Rounds.

(** The errors of the model itself: its limits, at which a check stops. *)
Definition incomplete (e : Error) : bool :=
  match e with
  | VersionOverflow _ | RejectedWriteLimit | UncertainLimit _ => true
  | _ => false
  end.

(** An operation ends in [P], unless it meets a limit; it records no violation. *)
Definition leaves (P : Phase) (r : result Error unit) (s : Checker * MemoryTarget) : Prop :=
  match r with
  | Ok _ => tied P s.1 s.2
  | Err e => quiet s.1 /\ (incomplete e = false -> tied P s.1 s.2)
  | Panic => False
  end.

Definition stopped (r : result Error unit) (s : Checker * MemoryTarget) : Prop :=
  match r with Ok _ => False | Err e => quiet s.1 /\ incomplete e = true | Panic => False end.

Lemma stopped_leaves P r s : stopped r s -> leaves P r s.
Proof. destruct r as [[]|e|]; [done| |done]. intros [Hq He]. split; [done|by rewrite He]. Qed.

(** ** Phases of one address *)

Definition Pred : Type := LbaState -> (Z -> Prop) -> Content -> Content -> Prop.

Class Local (A : Pred) : Prop :=
  local : forall s (R R' : Z -> Prop) L D, (forall v, R v <-> R' v) -> A s R L D -> A s R' L D.

Definition at_one (i : Z) (A : Pred) (P : Phase) : Phase := fun j => if decide (j = i) then A else P j.

#[export] Instance steady_local : Local steady.
Proof. intros s R R' L D HR. by rewrite (steady_proper _ _ eq_refl R R' HR L _ eq_refl D _ eq_refl). Qed.

#[export] Instance waiting_local base taken : Local base -> Local (waiting base taken).
Proof. intros Hb s R R' L D HR (s0 & L0 & ? & ? & HB & ?). exists s0, L0. repeat (split; [done|]). split; [|done]. by apply (Hb _ R). Qed.

#[export] Instance at_one_local i A P : Local A -> (forall j, Local (P j)) -> forall j, Local (at_one i A P j).
Proof. intros HA HP j. unfold at_one. by destruct (decide (j = i)). Qed.

Lemma at_one_extensional P A A' i j : (forall j, Local (P j)) -> j <> i -> extensional (at_one i A P) (at_one i A' P) j.
Proof. intros HP Hne s R R' L D HR. unfold at_one. rewrite !decide_False by done. by apply HP. Qed.

Lemma at_one_new P A i j : (forall j, Local (P j)) -> j <> i -> extensional P (at_one i A P) j.
Proof. intros HP Hne s R R' L D HR. unfold at_one. rewrite !decide_False by done. by apply HP. Qed.

Ltac others := intros ? ? ?; by apply at_one_extensional.

Lemma at_one_at P A i : at_one i A P i = A.
Proof. unfold at_one. by rewrite decide_True. Qed.

(** ** A request to one address *)

Lemma issue_step P c t i :
  (forall j, Local (P j)) -> tied P c t -> Disk.inside t i ->
  runs (Checker.model (Checker.issue i)) (c, t) (fun r s =>
    s.2 = t /\ match r with
               | Ok v => v = issued (st s.1 i) /\ tied (at_one i (waiting (P i) None) P) s.1 t
               | Err e => quiet s.1 /\ incomplete e = true
               | Panic => False
               end).
Proof.
  intros HP Ht Hi. pose proof (ti_sized _ _ _ Ht) as Hs. unfold Disk.inside in Hi. apply model_run.
  eapply issue_run; [exact Hs|done| |intros Hroom]; (split; [done|]); [by split; [apply (ti_quiet _ _ _ Ht)|]|].
  cbn [fst snd]. split.
  { by rewrite (st_put _ _ _ _ _ Hs Hi), decide_True by lia. }
  eapply (tied_model P _ c t _ i (issue (st c i))); [done|done|done| | | |done| |].
  - by apply issue_sized.
  - apply (ti_quiet _ _ _ Ht).
  - intros j Hj. exact (st_put _ _ _ _ _ Hs Hi Hj).
  - intros j _ Hne. by apply at_one_new.
  - intros L D HP0. rewrite at_one_at. by exists (st c i), L.
Qed.

Definition block_of (seed i v : Z) (zero : bool) : list Z := if zero then zero_block else Payload.fill seed i v.

Lemma block_of_shows seed i v zero : is_version v -> shows seed i (block_of seed i v zero) (content_of v zero).
Proof. intros Hv. unfold block_of, content_of. destruct zero; [exact eq_refl|]. split; [exact Hv|exact eq_refl]. Qed.

Lemma write_step P base c t i zero :
  (forall j, Local (P j)) -> (forall s R L D, base s R L D -> versions s R) ->
  tied (at_one i (waiting base None) P) c t -> Disk.inside t i ->
  runs (Checker.request (BlockTarget.write i (block_of (seed c) i (issued (st c i)) zero))) (c, t) (fun r s =>
    r = Ok (Disk.write_result (injected t)) /\ s.1 = c /\ Disk.inside s.2 i /\ injected s.2 = None /\
    tied (at_one i (waiting base (if Disk.reached (injected t) then Some zero else None)) P) c s.2).
Proof.
  intros HP Hbase Ht Hi. apply request_run. cbn [write memory_target].
  eapply runs_mono; [by apply Disk.write_run; [apply Ht|]|]. cbv beta. intros r t' [-> Hb].
  assert (Hgoal : Disk.inside t' i /\ injected t' = None /\
    tied (at_one i (waiting base (if Disk.reached (injected t) then Some zero else None)) P) c t').
  { pose proof Hb as []. split; [unfold Disk.inside in *; by rewrite bc_count|]. split; [done|].
    eapply (tied_at _ _ c t c t' _ _ _ i (st c i)); [exact Ht|done|exact Hb| |done|apply Ht|apply Ht| |done| |].
    - intros j Hne. destruct (Disk.reached _); [|done]. unfold Disk.set_block. by rewrite decide_False.
    - intros j _. by destruct (decide (j = i)) as [->|].
    - intros j _ Hne. by apply at_one_extensional.
    - intros L D HL HD. rewrite !at_one_at. intros (s0 & L0 & Hs & Hroom & HB & ->).
      pose proof (Hbase _ _ _ _ HB) as [].
      destruct (Disk.reached _).
      + exists (content_of (issued (st c i)) zero), D. split; [|split; [done|by exists s0, L0]].
        unfold Disk.set_block. rewrite decide_True by done. apply block_of_shows. unfold is_version.
        rewrite Hs. cbn. lia.
      + exists L0, D. split; [done|]. split; [done|by exists s0, L0]. }
  destruct (injected t) as [[]|]; cbn [Disk.write_result]; (split; [done|]; split; [done|]); exact Hgoal.
Qed.

(** What becomes of a version that was issued. *)
Lemma apply_step P base A c t i zero inj :
  (forall j, Local (P j)) ->
  (forall s R L D, waiting base (Some zero) s R L D -> A (Lba.acknowledged (issued s) zero s) R L D) ->
  inj = None \/ (base = steady /\ A = steady) ->
  tied (at_one i (waiting base (if Disk.reached inj then Some zero else None)) P) c t -> Disk.inside t i ->
  runs (Checker.model (Checker.apply i (issued (st c i)) zero (Disk.write_result inj))) (c, t) (fun r s =>
    s.2 = t /\ match r with Ok _ => tied (at_one i A P) s.1 t | r => stopped r s end).
Proof.
  intros HP Hack Hinj Ht Hi. pose proof (ti_sized _ _ _ Ht) as Hs. unfold Disk.inside in Hi. apply model_run.
  assert (Hq : quiet c) by apply Ht.
  assert (Hacked : inj = None -> tied (at_one i A P) (soil i (st c i) (put i (Lba.acknowledged (issued (st c i)) zero (st c i)) c)) t).
  { intros ->. eapply (tied_model _ _ c t _ i); [exact Ht|done| | | | | |others|].
    - unfold soil. by destruct (Lba.is_dirty _).
    - by apply acknowledged_sized.
    - unfold soil. by destruct (Lba.is_dirty _).
    - intros j Hj. unfold soil. destruct (Lba.is_dirty _); exact (st_put c _ i j _ Hs Hi Hj).
    - intros j v _. unfold soil. by destruct (Lba.is_dirty _).
    - intros L D. rewrite !at_one_at. unfold soil. destruct (Lba.is_dirty _); apply Hack. }
  assert (Hmarked : inj <> None -> Disk.write_result inj <> Err NoSpace ->
    runs (Checker.mark_uncertain i (issued (st c i)) zero) c (fun r c' =>
      t = t /\ match r with Ok _ => tied (at_one i A P) c' t | r => stopped r (c', t) end)).
  { intros Hne _. destruct Hinj as [|[-> ->]]; [done|]. eapply mark_uncertain_run; [exact Hs|done|by split|].
    intros Hslot. split; [done|]. eapply (tied_model _ _ c t _ i); [exact Ht|done|done| | | |done|others|].
    - apply put_sized; [done..|]. cbn. by apply (sz_dirty _ _ Hs).
    - done.
    - intros j Hj. exact (st_put c _ i j _ Hs Hi Hj).
    - intros L D. rewrite !at_one_at. intros HW. eapply steady_uncertain; [exact HW| |done].
      destruct (Disk.reached inj); [by right|by left]. }
  destruct inj as [[]|]; cbn [Disk.write_result Checker.apply Memory.injected_io_error].
  - destruct Hinj as [|[-> ->]]; [done|]. destruct zero.
    + apply runs_ret. split; [done|]. eapply (tied_model _ _ c t _ i (st c i)); [exact Ht|done|done|done|done| |done|others|].
      * intros j _. by destruct (decide (j = i)) as [->|].
      * intros L D. rewrite !at_one_at. by apply steady_kept.
    + apply reject_run; [by split|]. split; [done|]. cbn [fst snd].
      eapply (tied_model _ _ c t _ i (st c i)); [exact Ht|done|done| |done| | |others|].
      * by apply refuse_sized.
      * intros j _. by destruct (decide (j = i)) as [->|].
      * intros j v Hne. rewrite refused_refuse. naive_solver.
      * intros L D. rewrite !at_one_at. intros HW. eapply steady_refused; [exact HW|].
        intros w. rewrite refused_refuse. naive_solver.
  - by apply Hmarked.
  - by apply Hmarked.
  - eapply acknowledge_run; [exact Hs|done|]. split; [done|by apply Hacked].
Qed.

(** The end of a request: its result, and its count. *)
Lemma finish_step P c t inj (f : Report -> Report) :
  harmless f -> tied P c t ->
  runs (Checker.model (Checker.finish (Disk.write_result inj)) ;;; Checker.model (mmodify (Checker.with_report f))) (c, t)
    (fun r s => leaves P r s /\ s.2 = t /\ (inj = None -> r = Ok tt)).
Proof.
  intros Hf Ht. apply runs_bind, model_run.
  assert (Herr : forall g e, harmless g -> tied P (Checker.with_report g c) t ->
    leaves P (Err (Io e)) (Checker.with_report g c, t)) by (intros g e Hg Ht'; split; [apply Ht'|done]).
  destruct inj as [[]|]; cbn [Disk.write_result Checker.finish Memory.injected_io_error].
  1-3: apply runs_bind, runs_modify; cbn [next]; apply runs_lift; cbn [next]; split; [|done]; apply Herr; [apply count_harmless|];
    by apply tied_report.
  apply runs_ret. cbn [next]. apply model_run, runs_modify. split; [|done]. by apply tied_report.
Qed.

(** The whole request. *)
Lemma submit_write_run P A c t i zero :
  (forall j, Local (P j)) -> (forall s R L D, P i s R L D -> versions s R) ->
  (forall s R L D, waiting (P i) (Some zero) s R L D -> A (Lba.acknowledged (issued s) zero s) R L D) ->
  injected t = None \/ (P i = steady /\ A = steady) ->
  tied P c t -> Disk.inside t i ->
  runs (Checker.submit_write i zero) (c, t) (fun r s => leaves (at_one i A P) r s /\
    (injected t = None -> mt_block_count s.2 = mt_block_count t /\ injected s.2 = None /\
       match r with Ok _ => True | r => stopped r s end)).
Proof.
  intros HP Hver Hack Hinj Ht Hi. unfold Checker.submit_write.
  apply runs_bind. eapply runs_mono; [by apply issue_step|]. cbv beta. intros r [c1 t1] H1.
  cbn [fst snd] in H1. destruct H1 as [-> H1].
  destruct r as [v|e|]; cbn [next]; [|by split; [apply stopped_leaves|]|done]. destruct H1 as [-> Ht1].
  apply runs_bind, runs_get. cbn [next fst]. change (if zero then _ else _) with (block_of (seed c1) i (issued (st c1 i)) zero).
  apply runs_bind. eapply runs_mono; [by apply (write_step P (P i))|]. cbv beta. intros r [c2 t2] (-> & Hc2 & Hi2 & Hinj2 & Ht2).
  cbn [next fst snd] in *. subst c2. apply runs_bind.
  eapply runs_mono; [apply (apply_step P (P i) A); done|]. cbv beta. intros r [c3 t3] H3.
  cbn [snd] in H3. destruct H3 as [-> H3].
  assert (Hcount : injected t = None -> mt_block_count t2 = mt_block_count t).
  { intros _. rewrite <- (sz_count _ _ (ti_sized _ _ _ Ht2)), <- (sz_count _ _ (ti_sized _ _ _ Ht1)). done. }
  destruct r as [[]|e|]; cbn [next]; [|by split; [apply stopped_leaves|intros Hn; split; [exact (Hcount Hn)|]]|done].
  eapply runs_mono; [apply finish_step; [|exact H3]; apply count_harmless|]. cbv beta. intros r [c4 t4] (Hl & Ht4 & Hr).
  cbn [snd] in Ht4. subst t4. split; [done|]. intros Hn. split; [by apply Hcount|]. split; [done|]. by rewrite (Hr Hn).
Qed.

End Steps.
