(* ===== verification/CheckerVerdict.v ===== *)
(** The checker raises no false alarm: whatever is asked of a disk without faults, and
    however it crashes, the model of [src/tools/blockcheck/src/checker.rs] records no
    violation. *)

From S2P Require Import Prelude Bytes Text Payload BlockTarget Disk Checker CheckerSound CheckerRun CheckerSteps.

Module Verdict.

Import Sound Rounds Steps.

Definition everywhere (A : Pred) : Phase := fun _ => A.

Lemma leaves_mono (P Q : Phase) r s :
  (forall i s R L D, P i s R L D -> Q i s R L D) -> leaves P r s -> leaves Q r s.
Proof.
  intros Hpq. destruct r as [u|e|]; cbn; [|intros [Hq Ht]; split; [done|]; intros He; specialize (Ht He)|done].
  - apply tied_mono. auto.
  - revert Ht. apply tied_mono. auto.
Qed.

Lemma leaves_quiet P r s : leaves P r s -> quiet s.1.
Proof. destruct r as [u|e|]; [apply ti_quiet|by intros []|done]. Qed.

Lemma leaves_error P c t e : tied P c t -> leaves P (Err e) (c, t).
Proof. intros Ht. split; [apply Ht|done]. Qed.

(** ** Writes *)

Lemma checked_write_run c t i zero :
  0 <= i -> tied (everywhere steady) c t -> runs (Checker.submit_write i zero) (c, t) (fun r s => leaves (everywhere steady) r s).
Proof.
  intros Hi Ht. destruct (decide (i < mt_block_count t)) as [Hlt|Hge].
  - eapply runs_mono; [eapply (submit_write_run (everywhere steady) steady)|].
    + intros j. apply _.
    + by intros s R L D [].
    + apply steady_acknowledged.
    + by right.
    + done.
    + by split.
    + cbv beta. intros r s [Hl _]. revert Hl. apply leaves_mono. intros j s' R L D. unfold at_one. by destruct (decide (j = i)).
  - unfold Checker.submit_write. apply runs_bind, model_run. unfold Checker.issue. apply runs_bind.
    apply slot_outside; [rewrite (sz_count _ _ (ti_sized _ _ _ Ht)); lia|]. intros n. cbn [next]. by apply leaves_error.
Qed.

(** ** Discards *)

(** The addresses of [a..b] are being discarded. *)
Definition during (a b : Z) (taken : option bool) : Phase := fun j =>
  if decide (a <= j < b) then waiting steady taken else steady.

#[export] Instance during_local a b taken j : Local (during a b taken j).
Proof. unfold during. destruct (decide _); apply _. Qed.

Lemma issue_all_run c t a b :
  0 <= a -> a <= b -> b <= mt_block_count t -> tied (everywhere steady) c t ->
  runs (mfor (seqZ a (b - a)) (fun each => Checker.model (Checker.issue each) ;;; mret tt)) (c, t) (fun r s =>
    s.2 = t /\ match r with Ok _ => tied (during a b None) s.1 t | r => stopped r s end).
Proof.
  intros Ha Hab Hb Ht. apply (loop_run (fun k s => s.2 = t /\ tied (during a k None) s.1 t)); [done| |done|].
  - intros i [c1 t1] Hi [E Ht1]. cbn [fst snd] in E, Ht1. subst t1. apply runs_bind.
    eapply runs_mono; [apply (issue_step (during a i None)); [intros j; apply _|exact Ht1|split; lia]|].
    cbv beta. intros r s [E H1]. destruct r as [v|e|]; cbn [next]; [|by split|done].
    destruct H1 as [_ H1]. apply runs_ret. split; [done|]. revert H1. apply tied_mono.
    intros j s' R L D _. unfold at_one, during. destruct (decide (j = i)) as [->|Hne].
    + rewrite (decide_False (P := a <= i < i)) by lia. by rewrite decide_True by lia.
    + destruct (decide (a <= j < i)); [by rewrite decide_True by lia|by rewrite decide_False by lia].
  - split; [done|]. revert Ht. apply tied_mono. intros j s R L D _. unfold during. by rewrite decide_False by lia.
Qed.

Lemma discard_step c t a n :
  0 <= a -> 0 < n -> a + n <= mt_block_count t -> tied (during a (a + n) None) c t ->
  runs (Checker.request (BlockTarget.discard a n)) (c, t) (fun r s =>
    r = Ok (Disk.write_result (injected t)) /\ s.1 = c /\ mt_block_count s.2 = mt_block_count t /\
    tied (during a (a + n) (if Disk.reached (injected t) then Some true else None)) c s.2).
Proof.
  intros Ha Hn Hb Ht. apply request_run. cbn [discard memory_target].
  eapply runs_mono; [by apply Disk.discard_run; [apply Ht|..]|]. cbv beta. intros r t' [-> Hbe].
  assert (Hgoal : mt_block_count t' = mt_block_count t /\
    tied (during a (a + n) (if Disk.reached (injected t) then Some true else None)) c t').
  { pose proof Hbe as []. split; [done|]. pose proof Ht as []. constructor; [done|by rewrite bc_count|done|].
    intros i Hi. assert (Hi' : Disk.inside t i) by (unfold Disk.inside in *; by rewrite <- bc_count).
    rewrite bc_live, bc_dur by done. destruct (ti_at0 i Hi') as (L & D & HL & HD & HP). unfold during in *.
    destruct (Disk.reached (injected t)); [|by exists L, D]. unfold Disk.clear_range.
    destruct (decide (a <= i < a + n)); [|by exists L, D]. destruct HP as (s0 & L0 & Hs & Hroom & HB & ->).
    exists Zero, D. split; [done|]. split; [done|]. by exists s0, L0. }
  destruct (injected t) as [[]|]; cbn [Disk.write_result]; (split; [done|]; split; [done|]); exact Hgoal.
Qed.

Lemma apply_all_run c t a b inj :
  0 <= a -> a <= b -> b <= mt_block_count t ->
  tied (during a b (if Disk.reached inj then Some true else None)) c t ->
  runs (mfor (seqZ a (b - a)) (fun each => s <- Checker.model (Checker.slot each) ;;
          Checker.model (Checker.apply each (issued s) true (Disk.write_result inj)))) (c, t) (fun r s =>
    match r with Ok _ => tied (everywhere steady) s.1 s.2 | r => stopped r s end).
Proof.
  intros Ha Hab Hb Ht. set (taken := if Disk.reached inj then Some true else None) in *.
  apply (loop_run (fun k s => s.2 = t /\ tied (during k b taken) s.1 t)); [done| | |done].
  - intros i [c1 t1] Hi [E Ht1]. cbn [fst snd] in E, Ht1. subst t1.
    assert (Hin : Disk.inside t i) by (split; lia). apply runs_bind, model_run.
    eapply slot_run; [apply (ti_sized _ _ _ Ht1)|done|]. cbn [next].
    eapply runs_mono; [apply (apply_step (during (i + 1) b taken) steady steady)|].
    + intros j. apply _.
    + apply steady_acknowledged.
    + by right.
    + revert Ht1. apply tied_mono. intros j s R L D _. unfold at_one, during. destruct (decide (j = i)) as [->|Hne].
      * by rewrite decide_True by lia.
      * destruct (decide (i <= j < b)); [by rewrite decide_True by lia|by rewrite decide_False by lia].
    + done.
    + cbv beta. intros r s [E H1]. destruct r as [u|e|]; [|done..]. split; [done|]. revert H1. apply tied_mono.
      intros j s' R L D _. unfold at_one. destruct (decide (j = i)) as [->|Hne]; [|done].
      unfold during. by rewrite decide_False by lia.
  - intros s [E H1]. rewrite E. revert H1. apply tied_mono. intros j s' R L D _. unfold during. by rewrite decide_False by lia.
Qed.

Lemma checked_discard_run c t a n :
  0 <= a -> tied (everywhere steady) c t -> runs (Checker.discard a n) (c, t) (fun r s => leaves (everywhere steady) r s).
Proof.
  intros Ha Ht. pose proof (sz_count _ _ (ti_sized _ _ _ Ht)) as Hc. unfold Checker.discard.
  apply runs_bind, runs_get. cbn [next fst snd]. apply runs_bind, runs_lift.
  unfold checked_add. destruct (a + n <? 2 ^ 64); cbn [next]; [|by apply leaves_error].
  destruct (Z.ltb_spec 0 n), (Z.leb_spec (a + n) (ck_block_count c)); cbn [andb next]; try by apply leaves_error.
  replace (a + n - a) with ((a + n) - a) by lia.
  apply runs_bind. eapply runs_mono; [apply issue_all_run; [done|lia|lia|done]|]. cbv beta. intros r [c1 t1] [E H1].
  cbn [fst snd] in E. subst t1. destruct r as [u|e|]; cbn [next]; [|by apply stopped_leaves|done].
  apply runs_bind. eapply runs_mono; [apply discard_step; [done|done|lia|exact H1]|]. cbv beta.
  intros r [c2 t2] (-> & E & Hc2 & H2). cbn [fst snd next] in *. subst c2.
  apply runs_bind. eapply runs_mono; [apply apply_all_run; [done|lia|lia|exact H2]|]. cbv beta. intros r [c3 t3] H3.
  destruct r as [u3|e|]; cbn [next]; [|by apply stopped_leaves|done].
  eapply runs_mono; [apply finish_step; [|exact H3]; apply count_harmless|]. by intros r s [Hl _].
Qed.

(** ** Flushes *)

Definition flushable (A : Pred) : Prop := forall s R L D, A s R L D ->
  versions s R /\ live_ok s L /\ crash_ok s R L /\ needs_repair s = false.

Lemma make_durable_st n ds l i :
  (forall j, j ∈ ds -> 0 <= j) -> length l = n -> 0 <= i < Z.of_nat n ->
  nth (Z.to_nat i) (Checker.make_durable ds l) Lba.default =
  if decide (i ∈ ds) then Lba.persist (nth (Z.to_nat i) l Lba.default) else nth (Z.to_nat i) l Lba.default.
Proof.
  revert l. unfold Checker.make_durable. induction ds as [|d ds IH]; intros l Hds Hl Hi; cbn [foldl].
  { rewrite decide_False; [done|]. by intros ?%not_elem_of_nil. }
  assert (Hd : 0 <= d) by (apply Hds; left). rewrite IH; [|intros; apply Hds; by right|by rewrite length_alter|done].
  assert (Hnth : nth (Z.to_nat i) (alter Lba.persist (Z.to_nat d) l) Lba.default =
    if decide (i = d) then Lba.persist (nth (Z.to_nat i) l Lba.default) else nth (Z.to_nat i) l Lba.default).
  { rewrite !nth_lookup. destruct (decide (i = d)) as [<-|Hne].
    - rewrite list_lookup_alter_eq. destruct (lookup_lt_is_Some_2 l (Z.to_nat i)) as [s Hs]; [lia|]. by rewrite Hs.
    - by rewrite list_lookup_alter_ne by lia. }
  rewrite Hnth. destruct (decide (i = d)) as [->|Hne].
  - rewrite (decide_True (P := d ∈ d :: ds)) by left. by destruct (decide (d ∈ ds)).
  - destruct (decide (i ∈ ds)) as [Hin|Hin]; [by rewrite decide_True by (by right)|].
    rewrite decide_False; [done|]. by intros [?|?]%elem_of_cons.
Qed.

Lemma length_make_durable ds l : length (Checker.make_durable ds l) = length l.
Proof. unfold Checker.make_durable. revert l. induction ds as [|d ds IH]; intros l; cbn [foldl]; [done|]. by rewrite IH, length_alter. Qed.

Definition flushed (c : Checker) : Checker := Checker.with_dirty [] (Checker.with_lbas (Checker.make_durable (dirty c) (lbas c)) c).

Lemma st_flushed c n i R : sized c n -> 0 <= i < n -> versions (st c i) R -> st (flushed c) i = Lba.persist (st c i).
Proof.
  intros [] Hi Hv. unfold st at 1, flushed; cbn.
  rewrite (make_durable_st (length (lbas c)) (dirty c) (lbas c) i); [| |done|lia].
  - fold (st c i). destruct (decide (i ∈ dirty c)) as [|Hn]; [done|]. symmetry. eapply persist_clean; [done|].
    destruct (decide (latest (st c i) = ls_durable (st c i))); [done|]. by destruct Hn; apply sz_dirty0.
  - intros j Hj. apply sz_inside0 in Hj. lia.
Qed.

Lemma checked_flush_run (P : Phase) c t :
  (forall i, flushable (P i)) -> tied P c t -> runs Checker.flush (c, t) (fun r s => leaves (everywhere steady) r s).
Proof.
  intros HP Ht. unfold Checker.flush. apply runs_bind, request_run. cbn [flush memory_target].
  eapply runs_mono; [apply Disk.disk_flush_run, Ht|]. cbv beta. intros r t' [-> Hb]. cbn [next].
  apply runs_bind, runs_lift. cbn [map_err next]. apply model_run, runs_modify. cbn [leaves fst snd].
  apply (tied_report (everywhere steady) (flushed c)); [apply count_harmless|].
  pose proof Ht as []. pose proof Hb as []. pose proof ti_sized0 as [].
  assert (Hst : forall i, Disk.inside t i -> st (flushed c) i = Lba.persist (st c i)).
  { intros i Hi. destruct (ti_at0 i Hi) as (L & D & _ & _ & HPi). apply HP in HPi as (Hv & _).
    by eapply st_flushed. }
  constructor.
  - done.
  - rewrite bc_count. constructor; [done|cbn; by rewrite length_make_durable|done| |].
    + intros i Hi. by rewrite Hst.
    + by intros i ?%not_elem_of_nil.
  - done.
  - intros i Hi. assert (Hi' : Disk.inside t i) by (unfold Disk.inside in *; by rewrite <- bc_count).
    rewrite bc_live, bc_dur, Hst by done. destruct (ti_at0 i Hi') as (L & D & HL & HD & HPi).
    apply HP in HPi as (Hv & Hl & Hc & Hn). exists L, L. split; [done|]. split; [done|].
    assert (Hc' : crash_ok (Lba.persist (st c i)) (refused c i) L) by (by apply persist_crash).
    constructor; [by apply persist_versions|done|exact Hc'|exact Hc'|done].
Qed.

(** ** Reads *)

Lemma decode_shows seed i b k : is_u64 seed -> is_u64 i -> shows seed i b k -> Payload.decode seed b i = k.
Proof.
  intros Hs Hi Hk. destruct k as [|v|]; unfold shows in Hk; [|destruct Hk as [Hv ->]; exact (Payload.decode_fill seed i v Hs Hi Hv)|destruct Hk].
  subst b. unfold Payload.decode, zero_block. rewrite all_zero_zeros. exact eq_refl.
Qed.

Lemma inside_u64 t i : Disk.ok t -> Disk.inside t i -> is_u64 i.
Proof. intros [] Hi. unfold Disk.inside, is_u64 in *. change BlockTarget.MAX_BLOCKS with 4096 in *. lia. Qed.

Lemma read_content_run P c t i :
  tied P c t -> Disk.inside t i ->
  runs (Checker.read_content i) (c, t) (fun r s => exists f t', s = (Checker.with_report f c, t') /\
    r = Ok (Payload.decode (seed c) (Disk.live t' i) i) /\ tied P (Checker.with_report f c) t' /\
    mt_block_count t' = mt_block_count t /\ injected t' = injected t).
Proof.
  intros Ht Hi. unfold Checker.read_content. apply runs_bind, request_run. cbn [read memory_target].
  eapply runs_mono; [apply Disk.read_run; [apply Ht|done]|]. cbv beta. intros r t' [-> Hb]. cbn [next].
  apply runs_bind, runs_lift. cbn [map_err next]. apply runs_bind, model_run, runs_modify. cbn [next].
  apply runs_bind, runs_get. cbn [next fst]. apply runs_ret. eexists _, t'. split; [done|].
  split; [f_equal; cbn [seed Checker.with_report]; by rewrite (Disk.bc_live _ _ _ _ _ Hb)|].
  split; [apply tied_report; [apply count_harmless|]; by eapply tied_same|]. split; [apply Hb|apply Hb].
Qed.

Lemma refused_true c i k : Checker.was_rejected i k c = true -> exists v, k = Version v /\ refused c i v.
Proof. destruct k as [|v|]; cbn; [done| |done]. intros H%bool_decide_eq_true. by exists v. Qed.

Lemma checked_read_run c t i :
  0 <= i -> tied (everywhere steady) c t -> runs (Checker.read i) (c, t) (fun r s => leaves (everywhere steady) r s).
Proof.
  intros Hi Ht. pose proof (ti_sized _ _ _ Ht) as Hs. unfold Checker.read. apply runs_bind, model_run.
  destruct (decide (i < mt_block_count t)) as [Hlt|Hge].
  2: { apply slot_outside; [rewrite (sz_count _ _ Hs); lia|]. intros n. cbn [next]. by apply leaves_error. }
  assert (Hin : Disk.inside t i) by (by split).
  eapply slot_run; [exact Hs|done|]. cbn [next]. apply runs_bind.
  eapply runs_mono; [by apply read_content_run|]. cbv beta. intros r s (f & t' & -> & -> & Ht' & Hc & _). cbn [next].
  apply runs_bind, runs_get. cbn [next fst]. apply model_run.
  assert (Hin' : Disk.inside t' i) by (unfold Disk.inside in *; by rewrite Hc).
  destruct (ti_at _ _ _ Ht' i Hin') as (L & D & HL & HD & HP).
  rewrite (decode_shows (seed c) i _ L (sz_seed _ _ Hs) (inside_u64 t i (ti_disk _ _ _ Ht) Hin) HL).
  change (st c i) with (st (Checker.with_report f c) i). rewrite live_ok_quiet by apply HP.
  cbn [option_map Checker.record]. apply runs_ret. exact Ht'.
Qed.

(** ** Recovery *)

(** After a crash, before the verdict. *)
Definition crashed : Pred := fun s R L _ => versions s R /\ crash_ok s R L.
(** After the verdict. *)
Definition judged : Pred := fun s R L _ =>
  versions s R /\ (needs_repair s = false -> L = Lba.expected s /\ crash_ok s R L).
(** Once repaired, and while a repair is under way. *)
Definition repaired : Pred := fun s R L _ =>
  versions s R /\ needs_repair s = false /\ L = Lba.expected s /\ crash_ok s R L.
Definition ruined : Pred := fun s R _ _ => versions s R /\ needs_repair s = false.

Definition upto (k : Z) (A B : Pred) : Phase := fun j => if decide (j < k) then A else B.

#[export] Instance crashed_local : Local crashed.
Proof. intros s R R' L D HR. unfold crashed. by rewrite (versions_proper s s eq_refl R R' HR), (crash_ok_proper s s eq_refl R R' HR L L eq_refl). Qed.
#[export] Instance judged_local : Local judged.
Proof. intros s R R' L D HR. unfold judged. by rewrite (versions_proper s s eq_refl R R' HR), (crash_ok_proper s s eq_refl R R' HR L L eq_refl). Qed.
#[export] Instance repaired_local : Local repaired.
Proof. intros s R R' L D HR. unfold repaired. by rewrite (versions_proper s s eq_refl R R' HR), (crash_ok_proper s s eq_refl R R' HR L L eq_refl). Qed.
#[export] Instance ruined_local : Local ruined.
Proof. intros s R R' L D HR. unfold ruined. by rewrite (versions_proper s s eq_refl R R' HR). Qed.
#[export] Instance upto_local k A B j : Local A -> Local B -> Local (upto k A B j).
Proof. unfold upto. by destruct (decide _). Qed.

(** The next address of the loop. *)
Lemma upto_next k A B c t : tied (at_one k A (upto k A B)) c t -> tied (upto (k + 1) A B) c t.
Proof.
  apply tied_mono. intros j s R L D _. unfold at_one, upto. destruct (decide (j = k)) as [->|Hne].
  - by rewrite decide_True by lia.
  - destruct (decide (j < k)); [by rewrite decide_True by lia|by rewrite decide_False by lia].
Qed.

Lemma upto_here k A B : upto k A B k = B.
Proof. unfold upto. by rewrite decide_False by lia. Qed.

Lemma judged_next s R R' L :
  versions s R -> crash_ok s R L ->
  (forall w, R' w <-> (uncertain_write s <> 0 /\ w = uncertain_write s) \/ R w) ->
  judged (Lba.retired (negb (bool_decide (L = Lba.expected s))) s) R' L L.
Proof.
  intros Hv Hc HR. eapply (judged_local _ (fun w => (uncertain_write s <> 0 /\ w = uncertain_write s) \/ R w)); [intros v; by rewrite HR|].
  split; [by apply retired_versions|]. cbn [needs_repair Lba.retired]. case_bool_decide as E; [|done]. subst L.
  intros _. split; [done|]. by apply retired_crash.
Qed.

(** The end of an uncertain write: its version is never to be seen again. *)
Lemma retire_run c (t : MemoryTarget) w i (Q : result Error unit -> Checker * MemoryTarget -> Prop) :
  Q (Err RejectedWriteLimit) (c, t) ->
  (forall c', (forall j v, refused c' j v <-> (w <> 0 /\ j = i /\ v = w) \/ refused c j v) ->
     lbas c' = lbas c -> seed c' = seed c -> dirty c' = dirty c -> ck_block_count c' = ck_block_count c ->
     report c' = report c -> Q (Ok tt) (c', t)) ->
  runs (if w =? 0 then mret tt else Checker.model (Checker.reject i w)) (c, t) Q.
Proof.
  intros He HQ. destruct (Z.eqb_spec w 0) as [->|Hw].
  - apply runs_ret. apply HQ; try done. intros j v. naive_solver.
  - apply model_run, reject_run; [done|]. apply HQ; try done. intros j v. rewrite refused_refuse. naive_solver.
Qed.

Definition recovering (P : Phase) (n : Z) (s : Checker * MemoryTarget) : Prop :=
  tied P s.1 s.2 /\ injected s.2 = None /\ mt_block_count s.2 = n.

Lemma verify_run n c t i :
  recovering (upto i judged crashed) n (c, t) -> 0 <= i < n ->
  runs (Checker.verify_after_crash i) (c, t) (fun r s =>
    match r with Ok _ => recovering (upto (i + 1) judged crashed) n s | r => stopped r s end).
Proof.
  intros (Ht & Hinj & Hn) Hi. cbn [fst snd] in Ht, Hinj, Hn. pose proof (ti_sized _ _ _ Ht) as Hs. rewrite Hn in Hs.
  assert (Hin : Disk.inside t i) by (unfold Disk.inside; lia).
  unfold Checker.verify_after_crash. apply runs_bind.
  eapply runs_mono; [by apply read_content_run|]. cbv beta. intros r s (f & t' & -> & -> & Ht' & Hn' & Hinj'). cbn [next].
  set (c1 := Checker.with_report f c) in *. apply runs_bind, runs_get. cbn [next fst].
  assert (Hin' : Disk.inside t' i) by (unfold Disk.inside in *; by rewrite Hn').
  set (found := Payload.decode (seed c) (Disk.live t' i) i).
  assert (Hfound : forall L, shows (seed c) i (Disk.live t' i) L -> found = L).
  { intros L HL. apply decode_shows; [apply Hs|by eapply inside_u64; [apply Ht|]|done]. }
  assert (Hs1 : sized c1 (mt_block_count t')) by apply Ht'.
  destruct (ti_at _ _ _ Ht' i Hin') as (L & D & HL & HD & HP). rewrite upto_here in HP. destruct HP as [Hv Hc].
  pose proof (Hfound L HL) as EL.
  apply runs_bind, model_run. eapply slot_run; [exact Hs1|exact Hin'|]. cbn [next].
  apply runs_bind, model_run. unfold Checker.set_slot. apply runs_modify. cbn [next]. fold found.
  set (repair := negb _). set (before := st c1 i) in *. set (c2 := Checker.with_lbas _ c1).
  apply runs_bind, retire_run; [cbn [next]; split; [apply Ht'|done]|].
  intros c3 Href El Es Ed Ec Er. cbn [next]. rewrite (crash_ok_quiet before (refused c1 i) found).
  2: done. 2: by rewrite EL. 2: apply refused_true.
  cbn [option_map Checker.record]. apply model_run, runs_ret. split; cbn [fst snd]; [|by rewrite Hinj', Hn'].
  apply upto_next. assert (Hs3 : sized c3 (mt_block_count t')).
  { assert (sized c2 (mt_block_count t')) as [].
    { apply (put_sized c1 _ i (Lba.retired repair before)); [done|done|]. by apply (sz_dirty _ _ Hs1). }
    constructor; [by rewrite Ec|by rewrite El|by rewrite Es| |by rewrite Ed].
    intros j Hj. unfold st. rewrite El, Ed. by apply sz_dirty0. }
  eapply (tied_at _ _ c1 t' c3 t' _ _ _ i (Lba.retired repair before));
    [exact Ht'|done|apply Disk.becomes_refl; apply Ht'|done|by rewrite Es|done| | | | |].
  - unfold quiet. rewrite Er. apply Ht'.
  - intros j Hj. unfold st at 1. rewrite El. exact (st_put c1 _ i j _ Hs1 Hin' Hj).
  - intros j v Hne. rewrite Href. naive_solver.
  - intros j _ Hne. apply at_one_new; [intros; apply _|done].
  - intros L' D' HL' HD'. rewrite upto_here, at_one_at. intros [Hv' Hc']. exists L', D'. split; [done|]. split; [done|].
    unfold repair. rewrite (Hfound L' HL'). apply (judged_next before (refused c1 i)); [done|done|].
    intros w. rewrite Href. naive_solver.
Qed.

Lemma repaired_acknowledged zero s R L D :
  waiting ruined (Some zero) s R L D -> repaired (Lba.acknowledged (issued s) zero s) R L D.
Proof.
  intros (s0 & L0 & -> & Hroom & [Hv Hn] & ->).
  split; [by apply acknowledge_versions|]. split; [done|]. split; [symmetry; by apply (acknowledge_expected _ R)|].
  by apply acknowledge_new.
Qed.

Lemma repair_run n c t i :
  recovering (upto i repaired judged) n (c, t) -> 0 <= i < n ->
  runs (Checker.repair i) (c, t) (fun r s =>
    match r with Ok _ => recovering (upto (i + 1) repaired judged) n s | r => stopped r s end).
Proof.
  intros (Ht & Hinj & Hn) Hi. cbn [fst snd] in Ht, Hinj, Hn. pose proof (ti_sized _ _ _ Ht) as Hs.
  assert (Hin : Disk.inside t i) by (unfold Disk.inside; lia).
  unfold Checker.repair. apply runs_bind, model_run. eapply slot_run; [exact Hs|exact Hin|]. cbn [next].
  destruct (needs_repair (st c i)) eqn:Er; cbn [negb].
  - apply runs_bind, model_run. unfold Checker.set_slot. apply runs_modify. cbn [next].
    apply runs_bind, model_run, runs_modify. cbn [next].
    set (c1 := Checker.with_report _ _). set (P := at_one i ruined (upto i repaired judged)).
    assert (HP : forall j, Local (P j)) by (intros j; apply _).
    assert (Ht1 : tied P c1 t).
    { apply tied_report; [apply count_harmless|].
      eapply (tied_model _ _ c t _ i (Lba.with_repair false (st c i))); [exact Ht|done|done| |apply Ht| |done| |].
      - apply (put_sized c _ i); [done|done|]. by apply (sz_dirty _ _ Hs).
      - intros j Hj. exact (st_put c _ i j _ Hs Hin Hj).
      - intros j _ Hne. apply at_one_new; [intros; apply _|done].
      - intros L D. rewrite upto_here. unfold P. rewrite at_one_at. intros [[] _]. split; [|done]. by constructor. }
    eapply runs_mono; [apply (submit_write_run P repaired c1 t i)|].
    + done.
    + unfold P. rewrite at_one_at. by intros s R L D [].
    + unfold P. rewrite at_one_at. apply repaired_acknowledged.
    + by left.
    + done.
    + done.
    + cbv beta. intros r s [Hl H1]. destruct (H1 Hinj) as (Hc & Hi1 & Hr). destruct r as [u|e|]; [|done..].
      split; [|by rewrite Hc]. apply upto_next. revert Hl. apply tied_mono. intros j s' R L D _. unfold P, at_one.
      by destruct (decide (j = i)).
  - apply runs_ret. split; [|done]. cbn [fst snd]. apply upto_next.
    eapply (tied_model _ _ c t _ i (st c i)); [exact Ht|done|done|done|apply Ht| |done| |].
    + intros j _. by destruct (decide (j = i)) as [->|].
    + intros j _ Hne. apply at_one_new; [intros; apply _|done].
    + intros L D. rewrite upto_here, at_one_at. intros [Hv Hj]. destruct (Hj Er) as [-> Hc]. done.
Qed.

Lemma repaired_flushable : flushable repaired.
Proof. intros s R L D (Hv & Hn & -> & Hc). split; [done|]. split; [by left|done]. Qed.

Lemma recover_run c t :
  tied (everywhere crashed) c t -> injected t = None ->
  runs Checker.recover (c, t) (fun r s => leaves (everywhere steady) r s).
Proof.
  intros Ht Hinj. pose proof (sz_count _ _ (ti_sized _ _ _ Ht)) as Hc. pose proof (Disk.dk_count _ (ti_disk _ _ _ Ht)) as Hd.
  unfold Checker.recover. apply runs_bind, runs_get. cbn [next fst snd]. apply runs_bind, runs_lift.
  change (BlockTarget.block_count t) with (mt_block_count t). rewrite Hc, Z.eqb_refl. cbn [negb fail_if next].
  replace (mt_block_count t) with (mt_block_count t - 0) by lia. set (n := mt_block_count t) in *.
  apply runs_bind. apply (loop_run (fun k s => recovering (upto k judged crashed) n s)); [lia| | |].
  - intros i [c1 t1] Hi H1. eapply runs_mono; [by apply (verify_run n)|]. cbv beta. intros r s H2.
    destruct r as [u|e|]; [done| |done]. by apply stopped_leaves.
  - intros s1 H1. cbn [next]. apply runs_bind. apply (loop_run (fun k s => recovering (upto k repaired judged) n s)); [lia| | |].
    + intros i [c2 t2] Hi H2. eapply runs_mono; [by apply (repair_run n)|]. cbv beta. intros r s H3.
      destruct r as [u|e|]; [done| |done]. by apply stopped_leaves.
    + intros [c2 t2] (H2 & _ & Hn). cbn [fst snd next] in *. apply (checked_flush_run (everywhere repaired)); [intros i; exact repaired_flushable|].
      revert H2. apply tied_mono. intros i s R L D Hi. unfold upto. unfold Disk.inside in Hi. by rewrite decide_True by lia.
    + destruct H1 as (H1 & Hi1 & Hn1). split; [|done]. revert H1. apply tied_mono. intros i s R L D Hi.
      unfold upto. unfold Disk.inside in Hi. rewrite decide_True by lia. by rewrite decide_False by lia.
  - split; [|done]. revert Ht. apply tied_mono. intros i s R L D Hi. unfold upto. unfold Disk.inside in Hi.
    by rewrite decide_False by lia.
Qed.

Lemma crash_step survival c t :
  tied (everywhere steady) c t ->
  tied (everywhere crashed) c (Memory.crash survival t) /\ injected (Memory.crash survival t) = None.
Proof.
  intros []. destruct (Disk.crash_run survival t ti_disk0) as (live' & [] & Hlive). split; [|done].
  constructor; [done|by rewrite bc_count|done|]. intros i Hi.
  assert (Hi' : Disk.inside t i) by (unfold Disk.inside in *; by rewrite <- bc_count).
  rewrite bc_live, bc_dur by done. destruct (ti_at0 i Hi') as (L & D & HL & HD & []).
  destruct (Hlive i Hi') as [-> | ->]; [exists L, L|exists D, D]; done.
Qed.

(** ** Any sequence of operations *)

Inductive Action :=
  | Write (lba : Z)
  | WriteZero (lba : Z)
  | Discard (lba blocks : Z)
  | Flush
  | Read (lba : Z)
  | Inject (failure : Injected)
  | CrashRecover (survival : Survival).

Definition step (a : Action) : ME Error (Checker * MemoryTarget) unit :=
  match a with
  | Write lba => Checker.write lba
  | WriteZero lba => Checker.write_zero lba
  | Discard lba blocks => Checker.discard lba blocks
  | Flush => Checker.flush
  | Read lba => Checker.read lba
  | Inject failure => mmodify (fun s => (s.1, Memory.inject failure s.2))
  | CrashRecover survival => mmodify (fun s => (s.1, Memory.crash survival s.2)) ;;; Checker.recover
  end.

(** A check: it goes on after the failures of the disk, and stops at the limits of the model. *)
Fixpoint check (actions : list Action) (s : Checker * MemoryTarget) : Checker * MemoryTarget :=
  match actions with
  | [] => s
  | a :: actions =>
      let '(r, s) := step a s in
      match r with
      | Ok _ => check actions s
      | Err e => if incomplete e then s else check actions s
      | Panic => s
      end
  end.

(** Addresses are unsigned. *)
Definition addressed (a : Action) : Prop :=
  match a with
  | Write lba | WriteZero lba | Discard lba _ | Read lba => 0 <= lba
  | _ => True
  end.

Lemma step_run a c t :
  addressed a -> tied (everywhere steady) c t -> runs (step a) (c, t) (fun r s => leaves (everywhere steady) r s).
Proof.
  intros Ha Ht. destruct a; cbn [step addressed] in *.
  - by apply checked_write_run.
  - by apply checked_write_run.
  - by apply checked_discard_run.
  - apply (checked_flush_run (everywhere steady)); [|done]. by intros i s R L D [].
  - by apply checked_read_run.
  - apply runs_modify. cbn [leaves fst snd]. destruct Ht. by constructor; [destruct ti_disk0; constructor|..].
  - apply runs_bind, runs_modify. cbn [next fst snd]. apply (crash_step survival) in Ht as [Ht Hi]. by apply recover_run.
Qed.

Lemma check_quiet actions c t :
  Forall addressed actions -> tied (everywhere steady) c t -> quiet (check actions (c, t)).1.
Proof.
  revert c t. induction actions as [|a actions IH]; intros c t Ha Ht; [apply Ht|].
  apply Forall_cons in Ha as [Ha Has]. pose proof (step_run a c t Ha Ht) as Hl. unfold runs in Hl. cbn [check].
  destruct (step a (c, t)) as [r [c' t']]. cbn [fst snd] in Hl. destruct r as [u|e|]; [by apply IH| |done].
  destruct Hl as [Hq Hl]. destruct (incomplete e); [done|]. by apply IH, Hl.
Qed.

Lemma new_tied seed n mseed c t :
  is_u64 seed -> is_u64 n -> Checker.new seed n = Ok c -> Memory.new n None mseed = Ok t -> tied (everywhere steady) c t.
Proof.
  intros Hseed Hn Hc Hm. unfold Checker.new in Hc. apply rbind_Ok in Hc as ([] & _ & Hc). injection Hc as <-.
  unfold is_u64 in Hn. destruct (Disk.new_ok n mseed t Hm) as (Hok & Hcount & _ & Hl & Hd); [lia|].
  assert (Hst : forall i, nth (Z.to_nat i) (replicate (Z.to_nat n) Lba.default) Lba.default = Lba.default).
  { intros i. rewrite nth_lookup. destruct (_ !! _) as [b|] eqn:E; [|done]. by apply lookup_replicate in E as [-> _]. }
  constructor.
  - done.
  - rewrite Hcount. constructor; cbn; [done|rewrite length_replicate; lia|done| |].
    + intros i _ Hne. unfold st in Hne. cbn [lbas] in Hne. by rewrite Hst in Hne.
    + by intros i ?%not_elem_of_nil.
  - done.
  - intros i _. exists Zero, Zero. split; [apply Hl|]. split; [apply Hd|]. unfold everywhere, st. cbn [lbas]. rewrite Hst.
    assert (Hr : forall v, refused {| seed := seed; ck_block_count := n; lbas := replicate (Z.to_nat n) Lba.default; dirty := [];
      rejected := ∅; report := Checker.empty_report |} i v -> v <= 0) by (intros v Hv; unfold refused in Hv; cbn in Hv; set_solver).
    constructor; [|by left|by left|by left|done]. constructor; cbn; first [lia|exact Hr|done|by intros []].
Qed.

(** C11. The checker raises no false alarm. On a disk that keeps its promises (whose failed
    writes leave either contents, and whose crashes keep any subset of the unflushed
    requests), no sequence of operations, injected failures, crashes and recoveries ever
    makes the reference model count a violation. *)
Theorem checker_sound seed n mseed actions c t :
  is_u64 seed -> is_u64 n ->
  Checker.new seed n = Ok c -> Memory.new n None mseed = Ok t ->
  Forall addressed actions ->
  violation_count (report (check actions (c, t)).1) = 0.
Proof. intros Hseed Hn Hc Hm Ha. apply check_quiet; [done|]. exact (new_tied seed n mseed c t Hseed Hn Hc Hm). Qed.

(** Two addresses: a write, a flush, a write that fails and is applied, a crash, and a read. *)
Definition some_actions : list Action :=
  [Write 0; Flush; Inject IoErrorApplied; Write 1; CrashRecover KeepAll; Discard 0 2; Read 1].

Lemma checker_sound_witness :
  (exists c t, Checker.new 7 2 = Ok c /\ Memory.new 2 None 3 = Ok t) /\
  violation_count (report (check some_actions (the_ok (Build_Checker 0 0 [] [] ∅ Checker.empty_report) (Checker.new 7 2),
    the_ok (Build_MemoryTarget 0 [] [] [] [] None 0 None 0 0) (Memory.new 2 None 3))).1) = 0.
Proof.
  split; [by eexists _, _|].
  apply (checker_sound 7 2 3); [done|done|exact eq_refl|exact eq_refl|].
  unfold some_actions. rewrite !Forall_cons, Forall_nil. cbn [addressed]. repeat split; lia.
Defined.

End Verdict.
